(* ===== verification/_CoqProject ===== *)
-Q . S2P
Prelude.v
Vocabulary.v
Contracts.v
Docs.v
Db.v
Api.v
ApiTasks.v
TaskLifecycle.v
ApiStories.v
ApiRuns.v
ApiGrants.v
RunLifecycle.v
GrantLifecycle.v
Disposition.v
Placement.v
Paths.v
ComposePolicy.v
ComposeIsolation.v
ComposeRunner.v
ComposeSafety.v
Redis.v
RedisMemory.v
Streams.v
StreamsSafety.v
StreamsTolerance.v
BotAccess.v
Broker.v
BrokerSafety.v
Crypto.v
EnvContract.v
Dotenv.v
Github.v
GithubActions.v
GithubSafety.v
GithubPulls.v
World.v
SchedulerClient.v
Recipients.v
ApiActions.v
ProjectConfig.v
ProjectRules.v
TelegramTokens.v
Projects.v
ProjectSafety.v
OwnerNotifications.v
WorkerLiveness.v
Dispatcher.v
Frames.v
TemporaryAccess.v
AccessOnRecord.v
SupervisorTasks.v
SupervisorDeploy.v
SupervisorTesting.v
StoryTurns.v
TestingRouting.v
QAFixes.v
DeployRouting.v
QAHandoff.v
StoryCompletion.v
PrPoller.v
StoryReview.v
MergedDeploys.v
CIFixes.v
ScaffoldTrigger.v
ScaffoldJobs.v
