(* ===== verification/Prelude.v ===== *)
(** * Codegen Orchestrator: verification development (root file)

    The program takes a user's story, has an architect agent split it into tasks,
    dispatches the tasks to coding workers, deploys the result onto a server and
    has an agent test it there.  What must hold for this to be safe is not in the
    agents but in the bookkeeping around them: a PostgreSQL database behind an
    HTTP API ([src/services/api]) holds tasks, stories, runs and temporary access
    grants as rows with status columns, and schedulers and workers that run
    concurrently, retry and crash drive them through requests.  The development
    models that bookkeeping.

    ** Parts and files

    - [Prelude]: record update, the state-and-error monad [M] of an endpoint, a
      weakest-precondition calculus for it ([wp], [guar]) with its tactics, and the
      generic list, option and arithmetic lemmas.
    - [Vocabulary]: the closed string enumerations ([shared/contracts/dto/*.py],
      [vocab.py]) as inductive types with their wire values ([value]), the parse
      back ([member_of]), and the transition tables [VALID_TRANSITIONS].
    - [Contracts]: the typed records that cross a boundary: queue messages, run
      results, the metadata values that run rows carry ([shared/contracts]).
    - [Db]: the rows ([shared/models]) and the [Database], a record of finite maps.
    - [Api]: who is acting ([dependencies.py]), transactions, ownership.
    - [ApiTasks], [ApiStories], [ApiRuns], [ApiGrants]: one Definition per endpoint
      of [routers/tasks.py], [_task_actions.py], [stories.py], [runs.py] and
      [temporary_access.py].  A status column is a string, as in the database: the
      guards parse it.
    - [TaskLifecycle], [RunLifecycle], [GrantLifecycle] (and the last section of
      [ApiStories]): each endpoint family as a type of requests with its step
      relation, and the theorems about all sequences of requests.
    - [Disposition], [Placement]: the classification of refused placements
      ([shared/allocation_disposition.py]), server admission
      ([shared/server_admission.py]), the allocator
      ([services/langgraph/src/allocations.py]) and the scheduler's re-check of a
      parked request.
    - [Github], [GithubActions], [GithubPulls]: the GitHub client
      ([shared/clients/github]: requests with their retries and rate limits, tokens,
      workflow runs, pull requests) over an interface to the network ([Https]) with
      its laws and an instance ([Internet]); [GithubSafety]: its promises.
    - [World]: what a scheduler tick acts on: the shared state (database, Redis,
      fleet, clock, what was exchanged with GitHub), the schedule of what happens around the coming remote calls,
      and the rules of calls ([exec], rely and guarantee).
    - [SchedulerClient]: the methods of [clients/api.py], each a request to the
      modelled endpoint and the validation of its answer.
    - [BotAccess]: who a deployed bot admits ([shared/contracts/bot_access.py]).
    - [ApiActions]: the endpoints that commit and then publish
      ([routers/applications.py], [stories.py], [_task_actions.py]).
    - [Recipients], [OwnerNotifications], [WorkerLiveness], [Dispatcher],
      [TemporaryAccess]: the modules of the same names under
      [services/scheduler/src/tasks].
    - [SupervisorTasks], [SupervisorDeploy], [SupervisorTesting]: [supervisor.py],
      by what a loop looks at: stories and tasks in work, finished deploys and
      missing secrets, QA verdicts.
    - [StoryCompletion], [PrPoller], [ScaffoldTrigger]: the modules of those names;
      [StoryReview], [MergedDeploys], [CIFixes], [ScaffoldJobs]: their theorems.
    - [Frames]: which rows each endpoint and each client call may write, as classes
      of relations ([IgnoresTasks], [IgnoresRuns], ...) that a loop keeps; and
      [StoryTurns]: a loop that gives each story one turn, with the interface
      ([StoryFrame]) a relation offers to the handlers of one story.
    - [Docs], [Paths]: what Python makes of documents ([json], YAML) and of paths, with
      the file system as an interface.
    - [ComposePolicy], [ComposeRunner]: the worker manager's policy over Docker Compose
      ([compose_validator.py]) and its executor ([compose_runner.py]);
      [ComposeIsolation], [ComposeSafety]: what they promise.
    - [Redis], [RedisMemory]: Redis as an interface with its documented laws, and a
      small server that keeps them; [Streams]: the stream client
      ([shared/redis/client.py]); [StreamsSafety], [StreamsTolerance]: its promises.
    - [Broker], [BrokerSafety]: the worker broker ([services/worker-broker]), the
      decision on a worker's operation ([worker_control_plane.py]) and the compose
      endpoint of the worker manager behind it.
    - [Crypto], [EnvContract], [Dotenv]: secrets at rest ([shared/crypto.py]), the
      environment contract of a repository and its merge
      ([shared/contracts/env_contract.py], [env_overrides.py]), and the dotenv file of a
      deploy ([subgraphs/devops/dotenv_builder.py]).
    - [ProjectConfig], [TelegramTokens], [Projects]: [routers/projects.py]: its rules over
      the configuration of a project, the checks over a bot token
      ([utils/telegram_token.py]), and the endpoints; [ProjectRules], [ProjectSafety]:
      what the rules and the endpoints keep.
    - [AccessOnRecord], [DeployRouting], [TestingRouting], [QAFixes], [QAHandoff]:
      the theorems about the sweep over temporary access and the supervisor.

    ** How the model corresponds to the code

    An endpoint is a computation [M Database A]: a function from the database to
    an answer or an exception, and the database it leaves.  Exceptions are values
    of [exn]: the HTTP errors, and the Python and database errors that reach the
    client as a 500.  [transaction] is the session of one request: an exception
    rolls the database back.  The clock ([now], microseconds) and the ids a request
    draws are arguments.  A row lock ([with_for_update]) serialises the requests
    that take it; a request is one step, and interleavings are sequences of
    requests.  Callers are [service] (an internal token), a user, or anonymous.

    A scheduler loop is a computation [M World A].  Every remote call consumes one
    turn of the schedule: first the other processes move the shared state, then
    the call is served, lost, served with its answer lost, or it finds the process
    dead; a later tick starts from what is left ([restarted]).  An environment
    ([env]) says which moves of the others and which faults a theorem allows:
    [calm], [faulty], or a relation stated with the theorem.  Admin alerts and
    draws of ids are private to the process.  An operation of the GitHub client is one
    call whose single requests GitHub answers as it likes.  Redis streams are the log of what was
    published.

    ** What the theorems show

    Runs: outcomes are final and stamped once; the dispatch boundary (claim,
    lease, withdraw, supersede) never lets a withdrawn or superseded run out and
    never waits for a dead lease nor breaks a live one.  Grants: closing one takes
    evidence, an empty reading is counted once, one live grant per slot, and a
    returned value reopens.  Tasks: statuses follow the machine, the audit log is a
    chain, the endpoints on every branch, the backlog order, statistics and tags.
    Stories: statuses follow the machine, start and retry guards.  Placement: the
    allocator returns the roomiest admissible server exactly when there is one,
    its refusals are truthful, the scheduler's wait ends exactly when the
    allocator would place, and no refusal terminates a story.  Dispatcher: one open
    attempt per task and only ready tasks, under every fault; and two schedules
    where a fault leaves a task stranded or two attempts on one branch.  Owner
    notifications: a delivery refines an abstract visit, nothing is published for
    an ending that was not committed, and three visits settle a record.  Worker
    liveness: verdicts need evidence, stop requests back off.  Supervisor: a deploy's
    outcome and a QA verdict move only their own story, and only where they lead;
    no story is under test without a plan and none ends without the record its
    owner is told from, wherever the process dies; an interrupted handoff is
    finished; fixes are bounded; deploys resume with every secret.  Temporary
    access: every message the sweep sends is on record first.  Actions: only
    committed work is published.  Bot access: the audience written is the audience
    admitted.  Compose policy: the validator admits exactly the confined projects;
    an accepted command runs as it was validated; an accepted source tree is all
    that Compose loads, and the walk over it ends; whatever a worker asks, the
    manager starts only confined commands.  Streams: a validating consumer drops
    nothing, a sweep reaches every stale entry, only unexpected fields are forgiven.
    Projects: the audience of a bot stays its owner's choice, and the secrets of a project
    are a map each endpoint changes as it promises (an abstract specification the
    endpoints refine); an accepted bot is held by one live project; a teardown is over
    when nothing is up; a deletion takes the project or nothing, and never one with a
    grant; every title gives a slug.  Environment: the merge of the fragments does not
    depend on their order, and the file of a deploy reads back.
    Broker: what is not authorized does nothing, a QA executor never reaches Docker,
    a result lands before its lease ends.
    GitHub: a request is tried at most three times, a fence has seen every run it could
    list end, a wait reports what GitHub reported, and all of them end.  From work to
    deploy: only finished work goes to review, only a merged pull request is deployed,
    a CI failure is fixed a bounded number of times, a project has one scaffold job at
    a time.  Several theorems show what a fault leaves for ever: a task, a deploy
    or a stop that no message names, a verdict that ends every cycle.

    ** Bounds

    Loops over lists are folds.  The endless loop of a consumer and the sweep of the
    pending entries take fuel (turns and pages): the safety theorems hold for any, and
    a sweep needs one page more than there are entries.  The walk over extended
    Compose files recurses to the depth of the interpreter's stack, and two levels
    more than there are files are enough.  A loop that polls GitHub takes a number
    of polls; the time allowed over the interval, and two, are enough.  Python's integers
    are unbounded and are
    [Z]; floats are binary64.

    ** What is not modelled

    JSON and pydantic serialisation, SQL as such (a query is a filter and a sort of
    the rows), the LLM graphs, Docker, git, Ansible and the front ends; Telegram and Fernet are
    parameters with their documented laws.
    The digest of a QA failure is a parameter ([Sha256]); texts are ASCII.
    Of the schedulers, the loops over providers, health probes and analytics; of the API,
    the routers of servers, incidents and analytics, and of projects the column
    [project_spec], the tables of analytics and RAG, and the clean-up of queues after a
    deletion; the resolver of secrets; the consumers of the queues, the files and secrets
    of a repository on GitHub.  The teardown of a project is one transaction that
    holds its row; the model reads the project before the recipient is resolved and again
    when it commits. *)

From Stdlib Require Export ZArith Lia.
From stdpp Require Export base gmap strings list sorting option pretty.

#[export] Set Default Goal Selector "!".

(** ** Record update

    [r <| f := v |>] is the record [r] with field [f] replaced: what the
    source writes [r.f = v] on an ORM row, or [model_copy(update=...)].
    A record opts in by declaring how it is rebuilt from its fields. *)

Class Rebuild (R : Type) := rebuild : R → R.
Class Setter {R E : Type} (field : R → E) := put_field : (E → E) → R → R.

Ltac derive_setter :=
  lazymatch goal with
  | |- @Setter ?R ?E ?field =>
      let f := fresh "f" in
      let r := fresh "r" in
      intros f r;
      let whole := eval hnf in (rebuild r) in
      let hole := eval pattern (field r) in whole in
      lazymatch hole with
      | ?ctx _ => let t := eval cbv beta in (ctx (f (field r))) in exact t
      end
  end.

#[export] Hint Extern 1 (Setter _) => derive_setter : typeclass_instances.
#[export] Hint Mode Rebuild + : typeclass_instances.

Declare Scope model_scope.
Delimit Scope model_scope with model.
Notation "r <| f := v |>" := (put_field (field := f) (λ _, v) r)
  (at level 1, left associativity, f at level 0,
   format "r  <|  f  :=  v  |>") : model_scope.
Notation "r <| f ::= g |>" := (put_field (field := f) g r)
  (at level 1, left associativity, f at level 0,
   format "r  <|  f  ::=  g  |>") : model_scope.
Open Scope model_scope.
Open Scope string_scope.
Open Scope list_scope.
Open Scope Z_scope.

Lemma filter_true {A} (P : A → Prop) `{!∀ x, Decision (P x)} (l : list A) :
  (∀ x, x ∈ l → P x) → filter P l = l.
Proof.
  induction l as [|x l IH]; intros Hl; [done|]. rewrite filter_cons_True by (apply Hl; left).
  f_equal. apply IH. intros y Hy. apply Hl. by right.
Qed.

(** [a <= b] on texts, as [sorted] compares them. *)
Definition string_leb (a b : string) : bool :=
  match String.compare a b with Gt => false | _ => true end.

(** ** Exceptions and the effect monad

    A handler of the program reads and writes a state and may raise.  What it
    wrote before raising stays written: Python does not undo effects, and a
    handler that does undo them (a database transaction) says so explicitly,
    see [transaction]. *)

Inductive exn :=
| HTTPException (code : Z)      (** an API handler refused; a client sees the status code *)
| ConnectionLost                (** the transport failed: no answer arrived *)
| ValidationError               (** pydantic refused a payload *)
| IntegrityError                (** the database refused a row *)
| ProjectPredatesRunOwnership
| KeyError
| AttributeError
| IndexError
| ValueError
| RuntimeError
| TypeError
| OverflowError
| OSError
| RecursionError               (** the interpreter's stack is as deep as it may be *)
| TimeoutExpired               (** a subprocess did not end in time *)
| ResponseError (text : string) (** an error reply of Redis *)
| RedisTimeoutError            (** a read reached the timeout of the transport *)
| CancelledError               (** the task was cancelled: no [Exception] *)
| TimeoutError
| WorkflowNotFoundError
| WorkflowCancelledError
| WorkflowCancellationUnprovenError
| WorkflowRunListingIncompleteError
| InvalidToken                 (** a text that was not encrypted with the key *)
| OutOfFuel.                   (** no exception: the model's fuel is spent *)

Inductive res (A : Type) :=
| Ok (a : A)
| Exc (e : exn).
Arguments Ok {A} a.
Arguments Exc {A} e.

#[export] Instance exn_eq_dec : EqDecision exn.
Proof. solve_decision. Defined.

#[export] Instance res_ret : MRet res := λ A a, Ok a.
#[export] Instance res_map : FMap res := λ A B f r, match r with Ok a => Ok (f a) | Exc e => Exc e end.
#[export] Instance res_bind : MBind res := λ A B f r, match r with Ok a => f a | Exc e => Exc e end.

Definition M (S A : Type) : Type := S → res A * S.

#[export] Instance M_ret S : MRet (M S) := λ A a s, (Ok a, s).
#[export] Instance M_bind S : MBind (M S) := λ A B f m s,
  match m s with
  | (Ok a, s') => f a s'
  | (Exc e, s') => (Exc e, s')
  end.

Section effects.
Context {S : Type}.

Definition raise {A} (e : exn) : M S A := λ s, (Exc e, s).
Definition gets {A} (f : S → A) : M S A := λ s, (Ok (f s), s).
Definition modify (f : S → S) : M S unit := λ s, (Ok tt, f s).

(** [try: m except Exception as exc: h exc]. *)
Definition catch {A} (m : M S A) (h : exn → M S A) : M S A := λ s,
  match m s with
  | (Ok a, s') => (Ok a, s')
  | (Exc e, s') => h e s'
  end.

(** [except Exception]: a cancellation passes, and so does the end of the fuel. *)
Definition is_exception (e : exn) : bool :=
  match e with CancelledError | OutOfFuel => false | _ => true end.
Definition on_exception {A} (m : M S A) (h : exn → M S A) : M S A :=
  catch m (λ e, if is_exception e then h e else raise e).

(** The same with the handling after the [try] statement: what happened, as a value. *)
Definition attempt {A} (m : M S A) : M S (res A) := λ s, (Ok (m s).1, (m s).2).

(** [x or raise]. *)
Definition some_or {A} (e : exn) (o : option A) : M S A :=
  match o with Some a => mret a | None => raise e end.

(** A pure computation that may raise. *)
Definition of_res {A} (r : res A) : M S A := λ s, (r, s).

(** [if b: raise e]. *)
Definition guard_not (b : bool) (e : exn) : M S unit :=
  if b then raise e else mret tt.

(** [acc = b; for x in l: acc = f acc x]: an exception leaves the loop. *)
Fixpoint fold_m {A B} (f : B → A → M S B) (b : B) (l : list A) : M S B :=
  match l with
  | [] => mret b
  | x :: l => b' ← f b x; fold_m f b' l
  end.

Fixpoint map_m {A B} (f : A → M S B) (l : list A) : M S (list B) :=
  match l with
  | [] => mret []
  | x :: l => y ← f x; ys ← map_m f l; mret (y :: ys)
  end.
End effects.

(** A database transaction: an exception before the commit undoes the writes. *)
Definition transaction {S A} (m : M S A) : M S A := λ s,
  match m s with
  | (Ok a, s') => (Ok a, s')
  | (Exc e, _) => (Exc e, s)
  end.

(** ** String enumerations

    A Python [StrEnum] member is equal to its value, and [Enum(value)] finds a
    member by value or raises [ValueError].  The interface every enumeration of
    [Vocabulary] implements. *)

Class StrEnum (A : Type) `{EqDecision A} := {
  value : A → string;
  members : list A;
  members_complete a : a ∈ members;
  value_inj :: Inj (=) (=) value;
}.

Definition member_of {A} `{StrEnum A} (s : string) : option A :=
  snd <$> list_find (λ a, value a = s) members.
Arguments member_of {A _ _} s : simpl never.

Section str_enum.
Context `{StrEnum A}.

Lemma member_of_Some (s : string) (a : A) : member_of s = Some a ↔ s = value a.
Proof.
  unfold member_of. split.
  - destruct (list_find _ _) as [[i b]|] eqn:E; [|done].
    apply list_find_Some in E. intros [= <-]. symmetry. apply E.
  - intros ->. destruct (list_find (λ b, value b = value a) members) as [[i b]|] eqn:E.
    + apply list_find_Some in E as (_ & Hb & _). apply (inj value) in Hb. by subst.
    + apply list_find_None in E. rewrite list.Forall_forall in E.
      by destruct (E a (members_complete a)).
Qed.

Lemma member_of_value (a : A) : member_of (value a) = Some a.
Proof. by apply member_of_Some. Qed.
End str_enum.

(** ** Reasoning about effects

    [wp m Q s]: running [m] from [s] ends, normally or by an exception, in a
    result and a state that satisfy [Q].  [guar R m]: whatever happens, the
    state [m] leaves is related by [R] to the one it was given. *)

Definition wp {S A} (m : M S A) (Q : res A → S → Prop) (s : S) : Prop :=
  Q (m s).1 (m s).2.
Arguments wp : simpl never.

Definition guar {S A} (R : relation S) (m : M S A) : Prop := ∀ s, R s (m s).2.

(** The continuation of a bind in weakest-precondition form. *)
Definition on_ok {S A B} (f : A → M S B) (Q : res B → S → Prop) (r : res A) (s : S) : Prop :=
  match r with Ok a => wp (f a) Q s | Exc e => Q (Exc e) s end.

Section wp_rules.
Context {S : Type}.
Implicit Types s : S.

Lemma wp_ret {A} (a : A) Q s : Q (Ok a) s → wp (mret a) Q s.
Proof. done. Qed.
Lemma wp_raise {A} e (Q : res A → S → Prop) s : Q (Exc e) s → wp (raise e) Q s.
Proof. done. Qed.
Lemma wp_gets {A} (f : S → A) Q s : Q (Ok (f s)) s → wp (gets f) Q s.
Proof. done. Qed.
Lemma wp_modify f (Q : res unit → S → Prop) s : Q (Ok tt) (f s) → wp (modify f) Q s.
Proof. done. Qed.

Lemma wp_bind {A B} (m : M S A) (f : A → M S B) Q s :
  wp m (on_ok f Q) s → wp (m ≫= f) Q s.
Proof.
  unfold wp, on_ok, mbind, M_bind. destruct (m s) as [[a|e] s']; done.
Qed.

Lemma wp_some_or {A} e (o : option A) (Q : res A → S → Prop) s :
  (∀ a, o = Some a → Q (Ok a) s) → (o = None → Q (Exc e) s) → wp (some_or e o) Q s.
Proof. destruct o; intros H1 H2; [by apply H1|by apply H2]. Qed.
Lemma wp_of_res {A} (r : res A) (Q : res A → S → Prop) s :
  (∀ a, r = Ok a → Q (Ok a) s) → (∀ e, r = Exc e → Q (Exc e) s) → wp (of_res r) Q s.
Proof. destruct r; intros H1 H2; [by apply H1|by apply H2]. Qed.
Lemma wp_guard_not b e (Q : res unit → S → Prop) s :
  (b = false → Q (Ok tt) s) → (b = true → Q (Exc e) s) → wp (guard_not b e) Q s.
Proof. destruct b; intros H1 H2; [by apply H2|by apply H1]. Qed.

Lemma wp_mono {A} (m : M S A) (Q Q' : res A → S → Prop) s :
  wp m Q s → (∀ r s', Q r s' → Q' r s') → wp m Q' s.
Proof. unfold wp. auto. Qed.

Lemma wp_catch {A} (m : M S A) h Q s :
  wp m (λ r s', match r with Ok a => Q (Ok a) s' | Exc e => wp (h e) Q s' end) s →
  wp (catch m h) Q s.
Proof. unfold wp, catch. destruct (m s) as [[a|e] s']; done. Qed.

Lemma wp_on_exception {A} (m : M S A) h Q s :
  wp m (λ r s', match r with
                | Ok a => Q (Ok a) s'
                | Exc e => if is_exception e then wp (h e) Q s' else Q (Exc e) s'
                end) s →
  wp (on_exception m h) Q s.
Proof.
  intros Hm. apply wp_catch. eapply wp_mono; [exact Hm|]. intros [a|e] s'; [done|]. by destruct (is_exception e).
Qed.

Lemma wp_transaction {A} (m : M S A) Q s :
  wp m (λ r s', match r with Ok a => Q (Ok a) s' | Exc e => Q (Exc e) s end) s →
  wp (transaction m) Q s.
Proof. unfold wp, transaction. destruct (m s) as [[a|e] s']; done. Qed.

(** Invariant rule for loops. *)
Lemma wp_fold_m {A B} (I : B → S → Prop) (f : B → A → M S B) (l : list A) :
  ∀ b Q s, I b s →
  (∀ x b s, x ∈ l → I b s →
     wp (f b x) (λ r s', match r with Ok b' => I b' s' | Exc e => Q (Exc e) s' end) s) →
  (∀ b s, I b s → Q (Ok b) s) →
  wp (fold_m f b l) Q s.
Proof.
  induction l as [|x l IH]; intros b Q s Hb Hf HQ; cbn; [by apply wp_ret, HQ|].
  apply wp_bind. eapply wp_mono; [apply Hf; [by left|done]|].
  intros [b'|e] s' Hs'; cbn; [|done].
  apply IH; [done| |done]. intros; apply Hf; [by right|done].
Qed.
End wp_rules.

Section guar_rules.
Context {S : Type} (R : relation S) `{!PreOrder R}.

Lemma guar_wp {A} (m : M S A) : guar R m ↔ ∀ s, wp m (λ _ s', R s s') s.
Proof. done. Qed.

Lemma guar_ret {A} (a : A) : guar R (mret a).
Proof. intros s. cbn. reflexivity. Qed.
Lemma guar_raise {A} e : guar R (raise (A:=A) e).
Proof. intros s. cbn. reflexivity. Qed.
Lemma guar_gets {A} (f : S → A) : guar R (gets f).
Proof. intros s. cbn. reflexivity. Qed.
Lemma guar_modify f : (∀ s, R s (f s)) → guar R (modify f).
Proof. intros H s. apply H. Qed.

Lemma guar_bind {A B} (m : M S A) (f : A → M S B) :
  guar R m → (∀ a, guar R (f a)) → guar R (m ≫= f).
Proof.
  intros Hm Hf s. specialize (Hm s). unfold mbind, M_bind.
  destruct (m s) as [[a|e] s']; cbn in *; [|done].
  etransitivity; [exact Hm|apply Hf].
Qed.

Lemma guar_catch {A} (m : M S A) h :
  guar R m → (∀ e, guar R (h e)) → guar R (catch m h).
Proof.
  intros Hm Hh s. specialize (Hm s). unfold catch.
  destruct (m s) as [[a|e] s']; cbn in *; [done|].
  etransitivity; [exact Hm|apply Hh].
Qed.

Lemma guar_on_exception {A} (m : M S A) h :
  guar R m → (∀ e, guar R (h e)) → guar R (on_exception m h).
Proof.
  intros Hm Hh. apply guar_catch; [done|]. intros e. destruct (is_exception e); [apply Hh|apply guar_raise].
Qed.

Lemma guar_attempt {A} (m : M S A) : guar R m → guar R (attempt m).
Proof. intros Hm s. apply Hm. Qed.

Lemma guar_transaction {A} (m : M S A) : guar R m → guar R (transaction m).
Proof.
  intros Hm s. specialize (Hm s). unfold transaction.
  destruct (m s) as [[a|e] s']; cbn in *; [done|reflexivity].
Qed.

Lemma guar_fold_m {A B} (f : B → A → M S B) b l :
  (∀ b x, guar R (f b x)) → guar R (fold_m f b l).
Proof.
  intros Hf. revert b. induction l as [|x l IH]; intros b; cbn;
    [apply guar_ret|apply guar_bind; auto].
Qed.

Lemma guar_map_m {A B} (f : A → M S B) l :
  (∀ x, guar R (f x)) → guar R (map_m f l).
Proof.
  intros Hf. induction l as [|x l IH]; cbn; [apply guar_ret|].
  apply guar_bind; [done|intros y]. apply guar_bind; [done|intros ys]. apply guar_ret.
Qed.

Lemma guar_some_or {A} e (o : option A) : guar R (some_or e o).
Proof. destruct o; [apply guar_ret|apply guar_raise]. Qed.
Lemma guar_of_res {A} (r : res A) : guar R (of_res r).
Proof. intros s. cbn. reflexivity. Qed.
Lemma guar_guard_not b e : guar R (guard_not b e).
Proof. destruct b; [apply guar_raise|apply guar_ret]. Qed.
End guar_rules.

Create HintDb guar.
#[export] Hint Resolve guar_ret guar_raise guar_gets guar_some_or guar_of_res guar_guard_not : guar.

(** Walk through a handler, leaving only the primitive writes to prove. *)
Ltac guar_step :=
  lazymatch goal with
  | |- guar _ (mbind _ _) => apply guar_bind; [typeclasses eauto| |intros ?]
  | |- guar _ (catch _ _) => apply guar_catch; [typeclasses eauto| |intros ?]
  | |- guar _ (on_exception _ _) => apply guar_on_exception; [typeclasses eauto| |intros ?]
  | |- guar _ (transaction _) => apply guar_transaction; [typeclasses eauto|]
  | |- guar _ (attempt _) => apply guar_attempt
  | |- guar _ (fold_m _ _ _) => apply guar_fold_m; [typeclasses eauto|intros ? ?]
  | |- guar _ (map_m _ _) => apply guar_map_m; [typeclasses eauto|intros ?]
  | |- guar _ (match ?x with _ => _ end) => destruct x
  | |- guar _ _ => solve [eauto 3 with guar typeclass_instances]
  end.
Ltac guar_auto := repeat guar_step.

(** The same walk for weakest preconditions: reads are evaluated, branches split. *)
Ltac wp_step :=
  lazymatch goal with
  | |- wp (mbind _ _) _ _ => apply wp_bind
  | |- wp (mret _) _ _ => apply wp_ret
  | |- wp (raise _) _ _ => apply wp_raise
  | |- wp (gets _) _ _ => apply wp_gets
  | |- wp (modify _) _ _ => apply wp_modify
  | |- wp (catch _ _) _ _ => apply wp_catch
  | |- wp (on_exception _ _) _ _ => apply wp_on_exception
  | |- wp (some_or _ _) _ _ => apply wp_some_or; [intros ? ?|intros ?]
  | |- wp (of_res _) _ _ => apply wp_of_res; [intros ? ?|intros ? ?]
  | |- wp (guard_not _ _) _ _ => apply wp_guard_not; intros ?
  | |- wp (transaction _) _ _ => apply wp_transaction
  | |- wp (match ?x with _ => _ end) _ _ => let E := fresh "E" in destruct x eqn:E
  | |- on_ok _ _ (Ok _) _ => unfold on_ok at 1
  | |- on_ok _ _ (Exc _) _ => unfold on_ok at 1
  | |- on_ok _ _ ?r _ => is_var r; destruct r; unfold on_ok at 1
  end.
Ltac wp_auto := repeat (wp_step; cbn beta iota).
