(* ===== verification/Vocabulary.v ===== *)
(** * Vocabulary: the closed string enumerations of [shared/contracts]

    One Module per Python [StrEnum], its members under the source's names, and
    an instance of [StrEnum] giving the wire value of each member.  Together with
    [VALID_TRANSITIONS] of the task and story state machines. *)

From S2P Require Import Prelude.

(** The [StrEnum] instance of an enumeration from its values and its members. *)
Ltac enum_instance v ms :=
  refine (Build_StrEnum _ _ v ms _ _);
  [ let a := fresh in intros a; destruct a; unfold ms; set_solver
  | let a := fresh in let b := fresh in intros a b; destruct a, b; done ].

(** [shared/contracts/dto/task.py], [TaskStatus]. *)
Module TaskStatus.
Inductive t : Set :=
  | BACKLOG | TODO | IN_DEV | IN_CI | TESTING | DONE | BLOCKED | WAITING_HUMAN_REVIEW
  | WAITING_RESOURCES | FAILED | CANCELLED.
#[global] Instance eq_dec : EqDecision t.
Proof. solve_decision. Defined.
Definition value (a : t) : string :=
  match a with
  | BACKLOG => "backlog"
  | TODO => "todo"
  | IN_DEV => "in_dev"
  | IN_CI => "in_ci"
  | TESTING => "testing"
  | DONE => "done"
  | BLOCKED => "blocked"
  | WAITING_HUMAN_REVIEW => "waiting_human_review"
  | WAITING_RESOURCES => "waiting_resources"
  | FAILED => "failed"
  | CANCELLED => "cancelled"
  end.
Definition members : list t := [BACKLOG; TODO; IN_DEV; IN_CI; TESTING; DONE; BLOCKED;
  WAITING_HUMAN_REVIEW; WAITING_RESOURCES; FAILED; CANCELLED].
#[global] Instance str_enum : StrEnum t.
Proof. enum_instance value members. Defined.
End TaskStatus.

(** [shared/contracts/dto/task.py], [TaskType]. *)
Module TaskType.
Inductive t : Set :=
  | CREATE | FEATURE | FIX | REFACTOR.
#[global] Instance eq_dec : EqDecision t.
Proof. solve_decision. Defined.
Definition value (a : t) : string :=
  match a with
  | CREATE => "create"
  | FEATURE => "feature"
  | FIX => "fix"
  | REFACTOR => "refactor"
  end.
Definition members : list t := [CREATE; FEATURE; FIX; REFACTOR].
#[global] Instance str_enum : StrEnum t.
Proof. enum_instance value members. Defined.
End TaskType.

(** [shared/contracts/dto/task.py], [TaskEventType]. *)
Module TaskEventType.
Inductive t : Set :=
  | STATUS_CHANGE | ITERATION_START | ITERATION_END | NOTE | COMMENT | WORKER_REPORT.
#[global] Instance eq_dec : EqDecision t.
Proof. solve_decision. Defined.
Definition value (a : t) : string :=
  match a with
  | STATUS_CHANGE => "status_change"
  | ITERATION_START => "iteration_start"
  | ITERATION_END => "iteration_end"
  | NOTE => "note"
  | COMMENT => "comment"
  | WORKER_REPORT => "worker_report"
  end.
Definition members : list t := [STATUS_CHANGE; ITERATION_START; ITERATION_END; NOTE;
  COMMENT; WORKER_REPORT].
#[global] Instance str_enum : StrEnum t.
Proof. enum_instance value members. Defined.
End TaskEventType.

(** [shared/contracts/dto/story.py], [StoryType]. *)
Module StoryType.
Inductive t : Set :=
  | PRODUCT | TECHNICAL.
#[global] Instance eq_dec : EqDecision t.
Proof. solve_decision. Defined.
Definition value (a : t) : string :=
  match a with
  | PRODUCT => "product"
  | TECHNICAL => "technical"
  end.
Definition members : list t := [PRODUCT; TECHNICAL].
#[global] Instance str_enum : StrEnum t.
Proof. enum_instance value members. Defined.
End StoryType.

(** [shared/contracts/dto/story.py], [StoryStatus]. *)
Module StoryStatus.
Inductive t : Set :=
  | CREATED | IN_PROGRESS | REOPENED | PR_REVIEW | DEPLOYING | TESTING
  | WAITING_HUMAN_REVIEW | WAITING_USER_SECRET | COMPLETED | FAILED | ARCHIVED.
#[global] Instance eq_dec : EqDecision t.
Proof. solve_decision. Defined.
Definition value (a : t) : string :=
  match a with
  | CREATED => "created"
  | IN_PROGRESS => "in_progress"
  | REOPENED => "reopened"
  | PR_REVIEW => "pr_review"
  | DEPLOYING => "deploying"
  | TESTING => "testing"
  | WAITING_HUMAN_REVIEW => "waiting_human_review"
  | WAITING_USER_SECRET => "waiting_user_secret"
  | COMPLETED => "completed"
  | FAILED => "failed"
  | ARCHIVED => "archived"
  end.
Definition members : list t := [CREATED; IN_PROGRESS; REOPENED; PR_REVIEW; DEPLOYING;
  TESTING; WAITING_HUMAN_REVIEW; WAITING_USER_SECRET; COMPLETED; FAILED; ARCHIVED].
#[global] Instance str_enum : StrEnum t.
Proof. enum_instance value members. Defined.
End StoryStatus.

(** [shared/contracts/dto/run.py], [RunStatus]. *)
Module RunStatus.
Inductive t : Set :=
  | QUEUED | RUNNING | COMPLETED | FAILED | CANCELLED.
#[global] Instance eq_dec : EqDecision t.
Proof. solve_decision. Defined.
Definition value (a : t) : string :=
  match a with
  | QUEUED => "queued"
  | RUNNING => "running"
  | COMPLETED => "completed"
  | FAILED => "failed"
  | CANCELLED => "cancelled"
  end.
Definition members : list t := [QUEUED; RUNNING; COMPLETED; FAILED; CANCELLED].
#[global] Instance str_enum : StrEnum t.
Proof. enum_instance value members. Defined.
End RunStatus.

(** [shared/contracts/dto/run.py], [RunType]. *)
Module RunType.
Inductive t : Set :=
  | ENGINEERING | DEPLOY | QA.
#[global] Instance eq_dec : EqDecision t.
Proof. solve_decision. Defined.
Definition value (a : t) : string :=
  match a with
  | ENGINEERING => "engineering"
  | DEPLOY => "deploy"
  | QA => "qa"
  end.
Definition members : list t := [ENGINEERING; DEPLOY; QA].
#[global] Instance str_enum : StrEnum t.
Proof. enum_instance value members. Defined.
End RunType.

(** [shared/contracts/dto/engineering.py], [EngineeringStatus]. *)
Module EngineeringStatus.
Inductive t : Set :=
  | IDLE | DONE | GAVE_UP | FAILED.
#[global] Instance eq_dec : EqDecision t.
Proof. solve_decision. Defined.
Definition value (a : t) : string :=
  match a with
  | IDLE => "idle"
  | DONE => "done"
  | GAVE_UP => "gave_up"
  | FAILED => "failed"
  end.
Definition members : list t := [IDLE; DONE; GAVE_UP; FAILED].
#[global] Instance str_enum : StrEnum t.
Proof. enum_instance value members. Defined.
End EngineeringStatus.

(** [shared/contracts/dto/run_result.py], [AllocationFailureReason]. *)
Module AllocationFailureReason.
Inductive t : Set :=
  | INSUFFICIENT_FREE_MEMORY | INSUFFICIENT_RESERVED_MEMORY | IMPOSSIBLE_CAPACITY
  | NO_FRESH_METRICS | SERVER_NOT_PROVISIONED.
#[global] Instance eq_dec : EqDecision t.
Proof. solve_decision. Defined.
Definition value (a : t) : string :=
  match a with
  | INSUFFICIENT_FREE_MEMORY => "insufficient_free_memory"
  | INSUFFICIENT_RESERVED_MEMORY => "insufficient_reserved_memory"
  | IMPOSSIBLE_CAPACITY => "impossible_capacity"
  | NO_FRESH_METRICS => "no_fresh_metrics"
  | SERVER_NOT_PROVISIONED => "server_not_provisioned"
  end.
Definition members : list t := [INSUFFICIENT_FREE_MEMORY; INSUFFICIENT_RESERVED_MEMORY;
  IMPOSSIBLE_CAPACITY; NO_FRESH_METRICS; SERVER_NOT_PROVISIONED].
#[global] Instance str_enum : StrEnum t.
Proof. enum_instance value members. Defined.
End AllocationFailureReason.

(** [shared/contracts/queues/deploy.py], [DeployOutcome]. *)
Module DeployOutcome.
Inductive t : Set :=
  | SUCCESS | SMOKE_FAILURE | CODE_FIX | RETRY | GIVE_UP | WAITING_FOR_USER_SECRET
  | ALLOCATION_MISSING | ENVIRONMENT_CONTRACT_INVALID | ENVIRONMENT_RESOLUTION_FAILED
  | HEAD_SHA_MISSING | WAITING_INFRASTRUCTURE | CANCELLED.
#[global] Instance eq_dec : EqDecision t.
Proof. solve_decision. Defined.
Definition value (a : t) : string :=
  match a with
  | SUCCESS => "success"
  | SMOKE_FAILURE => "smoke_failure"
  | CODE_FIX => "code_fix"
  | RETRY => "retry"
  | GIVE_UP => "give_up"
  | WAITING_FOR_USER_SECRET => "waiting_for_user_secret"
  | ALLOCATION_MISSING => "allocation_missing"
  | ENVIRONMENT_CONTRACT_INVALID => "environment_contract_invalid"
  | ENVIRONMENT_RESOLUTION_FAILED => "environment_resolution_failed"
  | HEAD_SHA_MISSING => "head_sha_missing"
  | WAITING_INFRASTRUCTURE => "waiting_infrastructure"
  | CANCELLED => "cancelled"
  end.
Definition members : list t := [SUCCESS; SMOKE_FAILURE; CODE_FIX; RETRY; GIVE_UP;
  WAITING_FOR_USER_SECRET; ALLOCATION_MISSING; ENVIRONMENT_CONTRACT_INVALID;
  ENVIRONMENT_RESOLUTION_FAILED; HEAD_SHA_MISSING; WAITING_INFRASTRUCTURE; CANCELLED].
#[global] Instance str_enum : StrEnum t.
Proof. enum_instance value members. Defined.
End DeployOutcome.

(** [shared/contracts/queues/deploy.py], [DeployAction]. *)
Module DeployAction.
Inductive t : Set :=
  | CREATE | FEATURE | FIX | STOP | UNDEPLOY.
#[global] Instance eq_dec : EqDecision t.
Proof. solve_decision. Defined.
Definition value (a : t) : string :=
  match a with
  | CREATE => "create"
  | FEATURE => "feature"
  | FIX => "fix"
  | STOP => "stop"
  | UNDEPLOY => "undeploy"
  end.
Definition members : list t := [CREATE; FEATURE; FIX; STOP; UNDEPLOY].
#[global] Instance str_enum : StrEnum t.
Proof. enum_instance value members. Defined.
End DeployAction.

(** [shared/contracts/vocab.py], [AgentType]. *)
Module AgentType.
Inductive t : Set :=
  | CLAUDE | FACTORY | CODEX | NOOP.
#[global] Instance eq_dec : EqDecision t.
Proof. solve_decision. Defined.
Definition value (a : t) : string :=
  match a with
  | CLAUDE => "claude"
  | FACTORY => "factory"
  | CODEX => "codex"
  | NOOP => "noop"
  end.
Definition members : list t := [CLAUDE; FACTORY; CODEX; NOOP].
#[global] Instance str_enum : StrEnum t.
Proof. enum_instance value members. Defined.
End AgentType.

(** [shared/contracts/queues/deploy.py], [DeployTrigger]. *)
Module DeployTrigger.
Inductive t : Set :=
  | ENGINEERING | WEBHOOK | PO | ADMIN.
#[global] Instance eq_dec : EqDecision t.
Proof. solve_decision. Defined.
Definition value (a : t) : string :=
  match a with
  | ENGINEERING => "engineering"
  | WEBHOOK => "webhook"
  | PO => "po"
  | ADMIN => "admin"
  end.
Definition members : list t := [ENGINEERING; WEBHOOK; PO; ADMIN].
#[global] Instance str_enum : StrEnum t.
Proof. enum_instance value members. Defined.
End DeployTrigger.

(** [shared/contracts/queues/qa.py], [QAOutcome]. *)
Module QAOutcome.
Inductive t : Set :=
  | PASSED | FAILED | EXHAUSTED | ERROR | BLOCKED.
#[global] Instance eq_dec : EqDecision t.
Proof. solve_decision. Defined.
Definition value (a : t) : string :=
  match a with
  | PASSED => "passed"
  | FAILED => "failed"
  | EXHAUSTED => "exhausted"
  | ERROR => "error"
  | BLOCKED => "blocked"
  end.
Definition members : list t := [PASSED; FAILED; EXHAUSTED; ERROR; BLOCKED].
#[global] Instance str_enum : StrEnum t.
Proof. enum_instance value members. Defined.
End QAOutcome.

(** [shared/contracts/vocab.py], [ActionType]. *)
Module ActionType.
Inductive t : Set :=
  | CREATE | FEATURE | FIX.
#[global] Instance eq_dec : EqDecision t.
Proof. solve_decision. Defined.
Definition value (a : t) : string :=
  match a with
  | CREATE => "create"
  | FEATURE => "feature"
  | FIX => "fix"
  end.
Definition members : list t := [CREATE; FEATURE; FIX].
#[global] Instance str_enum : StrEnum t.
Proof. enum_instance value members. Defined.
End ActionType.

(** [shared/contracts/dto/project.py], [ProjectStatus]. *)
Module ProjectStatus.
Inductive t : Set :=
  | DRAFT | ACTIVE | PAUSED | ARCHIVED.
#[global] Instance eq_dec : EqDecision t.
Proof. solve_decision. Defined.
Definition value (a : t) : string :=
  match a with
  | DRAFT => "draft"
  | ACTIVE => "active"
  | PAUSED => "paused"
  | ARCHIVED => "archived"
  end.
Definition members : list t := [DRAFT; ACTIVE; PAUSED; ARCHIVED].
#[global] Instance str_enum : StrEnum t.
Proof. enum_instance value members. Defined.
End ProjectStatus.

(** [shared/contracts/dto/server.py], [ServerStatus]. *)
Module ServerStatus.
Inductive t : Set :=
  | DISCOVERED | NEW | PENDING_SETUP | PROVISIONING | FORCE_REBUILD | READY | IN_USE
  | ACTIVE | ERROR | UNREACHABLE | MAINTENANCE | RESERVED | MISSING | DECOMMISSIONED.
#[global] Instance eq_dec : EqDecision t.
Proof. solve_decision. Defined.
Definition value (a : t) : string :=
  match a with
  | DISCOVERED => "discovered"
  | NEW => "new"
  | PENDING_SETUP => "pending_setup"
  | PROVISIONING => "provisioning"
  | FORCE_REBUILD => "force_rebuild"
  | READY => "ready"
  | IN_USE => "in_use"
  | ACTIVE => "active"
  | ERROR => "error"
  | UNREACHABLE => "unreachable"
  | MAINTENANCE => "maintenance"
  | RESERVED => "reserved"
  | MISSING => "missing"
  | DECOMMISSIONED => "decommissioned"
  end.
Definition members : list t := [DISCOVERED; NEW; PENDING_SETUP; PROVISIONING;
  FORCE_REBUILD; READY; IN_USE; ACTIVE; ERROR; UNREACHABLE; MAINTENANCE; RESERVED;
  MISSING; DECOMMISSIONED].
#[global] Instance str_enum : StrEnum t.
Proof. enum_instance value members. Defined.
End ServerStatus.

(** [shared/contracts/dto/run_result.py], [QABlockerCategory]. *)
Module QABlockerCategory.
Inductive t : Set :=
  | MISSING_BOT_USERNAME | MISSING_TELETHON_CREDENTIALS | QA_EXECUTOR_UNAVAILABLE
  | DEPLOYED_URL_UNREACHABLE | QA_PROBE_UNAVAILABLE | BOT_NOT_LIVE
  | TELEGRAM_ACCESS_DENIED | TELEGRAM_PROBE_UNDELIVERED | SERVER_UNAVAILABLE
  | QA_CLEANUP_FAILED | QA_ACCESS_GRANT_FAILED | QA_ACCESS_EXPIRED | UNKNOWN.
#[global] Instance eq_dec : EqDecision t.
Proof. solve_decision. Defined.
Definition value (a : t) : string :=
  match a with
  | MISSING_BOT_USERNAME => "missing_bot_username"
  | MISSING_TELETHON_CREDENTIALS => "missing_telethon_credentials"
  | QA_EXECUTOR_UNAVAILABLE => "qa_executor_unavailable"
  | DEPLOYED_URL_UNREACHABLE => "deployed_url_unreachable"
  | QA_PROBE_UNAVAILABLE => "qa_probe_unavailable"
  | BOT_NOT_LIVE => "bot_not_live"
  | TELEGRAM_ACCESS_DENIED => "telegram_access_denied"
  | TELEGRAM_PROBE_UNDELIVERED => "telegram_probe_undelivered"
  | SERVER_UNAVAILABLE => "server_unavailable"
  | QA_CLEANUP_FAILED => "qa_cleanup_failed"
  | QA_ACCESS_GRANT_FAILED => "qa_access_grant_failed"
  | QA_ACCESS_EXPIRED => "qa_access_expired"
  | UNKNOWN => "unknown"
  end.
Definition members : list t := [MISSING_BOT_USERNAME; MISSING_TELETHON_CREDENTIALS; QA_EXECUTOR_UNAVAILABLE;
  DEPLOYED_URL_UNREACHABLE; QA_PROBE_UNAVAILABLE; BOT_NOT_LIVE;
  TELEGRAM_ACCESS_DENIED; TELEGRAM_PROBE_UNDELIVERED; SERVER_UNAVAILABLE;
  QA_CLEANUP_FAILED; QA_ACCESS_GRANT_FAILED; QA_ACCESS_EXPIRED; UNKNOWN].
#[global] Instance str_enum : StrEnum t.
Proof. enum_instance value members. Defined.
End QABlockerCategory.

(** [shared/contracts/queues/env_observation.py], [EnvObservationOutcome]. *)
Module EnvObservationOutcome.
Inductive t : Set :=
  | OBSERVED | UNREACHABLE.
#[global] Instance eq_dec : EqDecision t.
Proof. solve_decision. Defined.
Definition value (a : t) : string :=
  match a with
  | OBSERVED => "observed"
  | UNREACHABLE => "unreachable"
  end.
Definition members : list t := [OBSERVED; UNREACHABLE].
#[global] Instance str_enum : StrEnum t.
Proof. enum_instance value members. Defined.
End EnvObservationOutcome.

(** [shared/contracts/dto/application.py], [ApplicationStatus]. *)
Module ApplicationStatus.
Inductive t : Set :=
  | NOT_DEPLOYED | DEPLOYING | RUNNING | STOPPING | STOPPED | UNDEPLOYING | DOWN
  | DEGRADED.
#[global] Instance eq_dec : EqDecision t.
Proof. solve_decision. Defined.
Definition value (a : t) : string :=
  match a with
  | NOT_DEPLOYED => "not_deployed"
  | DEPLOYING => "deploying"
  | RUNNING => "running"
  | STOPPING => "stopping"
  | STOPPED => "stopped"
  | UNDEPLOYING => "undeploying"
  | DOWN => "down"
  | DEGRADED => "degraded"
  end.
Definition members : list t := [NOT_DEPLOYED; DEPLOYING; RUNNING; STOPPING; STOPPED;
  UNDEPLOYING; DOWN; DEGRADED].
#[global] Instance str_enum : StrEnum t.
Proof. enum_instance value members. Defined.
End ApplicationStatus.

(** [shared/contracts/dto/incident.py], [IncidentType]. *)
Module IncidentType.
Inductive t : Set :=
  | SERVER_UNREACHABLE | PROVISIONING_FAILED | SERVICE_DOWN | RESOURCE_EXHAUSTED
  | SSL_EXPIRING | PROVIDER_API_UNAVAILABLE.
#[global] Instance eq_dec : EqDecision t.
Proof. solve_decision. Defined.
Definition value (a : t) : string :=
  match a with
  | SERVER_UNREACHABLE => "server_unreachable"
  | PROVISIONING_FAILED => "provisioning_failed"
  | SERVICE_DOWN => "service_down"
  | RESOURCE_EXHAUSTED => "resource_exhausted"
  | SSL_EXPIRING => "ssl_expiring"
  | PROVIDER_API_UNAVAILABLE => "provider_api_unavailable"
  end.
Definition members : list t := [SERVER_UNREACHABLE; PROVISIONING_FAILED; SERVICE_DOWN;
  RESOURCE_EXHAUSTED; SSL_EXPIRING; PROVIDER_API_UNAVAILABLE].
#[global] Instance str_enum : StrEnum t.
Proof. enum_instance value members. Defined.
End IncidentType.

(** [shared/contracts/dto/incident.py], [IncidentStatus]. *)
Module IncidentStatus.
Inductive t : Set :=
  | DETECTED | RECOVERING | RESOLVED | FAILED.
#[global] Instance eq_dec : EqDecision t.
Proof. solve_decision. Defined.
Definition value (a : t) : string :=
  match a with
  | DETECTED => "detected"
  | RECOVERING => "recovering"
  | RESOLVED => "resolved"
  | FAILED => "failed"
  end.
Definition members : list t := [DETECTED; RECOVERING; RESOLVED; FAILED].
#[global] Instance str_enum : StrEnum t.
Proof. enum_instance value members. Defined.
End IncidentStatus.

(** [shared/contracts/dto/worker.py], [WorkerStatus]. *)
Module WorkerStatus.
Inductive t : Set :=
  | BUILDING | STARTING | RUNNING | PAUSED | DEAD | FAILED | STOPPED | GONE | UNKNOWN.
#[global] Instance eq_dec : EqDecision t.
Proof. solve_decision. Defined.
Definition value (a : t) : string :=
  match a with
  | BUILDING => "BUILDING"
  | STARTING => "STARTING"
  | RUNNING => "RUNNING"
  | PAUSED => "PAUSED"
  | DEAD => "DEAD"
  | FAILED => "FAILED"
  | STOPPED => "STOPPED"
  | GONE => "GONE"
  | UNKNOWN => "UNKNOWN"
  end.
Definition members : list t := [BUILDING; STARTING; RUNNING; PAUSED; DEAD; FAILED;
  STOPPED; GONE; UNKNOWN].
#[global] Instance str_enum : StrEnum t.
Proof. enum_instance value members. Defined.
End WorkerStatus.

(** [shared/contracts/dto/temporary_access.py], [TemporaryAccessStatus]. *)
Module TemporaryAccessStatus.
Inductive t : Set :=
  | GRANTING | GRANTED | REVOKING | REVOKED | REVOKE_FAILED.
#[global] Instance eq_dec : EqDecision t.
Proof. solve_decision. Defined.
Definition value (a : t) : string :=
  match a with
  | GRANTING => "granting"
  | GRANTED => "granted"
  | REVOKING => "revoking"
  | REVOKED => "revoked"
  | REVOKE_FAILED => "revoke_failed"
  end.
Definition members : list t := [GRANTING; GRANTED; REVOKING; REVOKED; REVOKE_FAILED].
#[global] Instance str_enum : StrEnum t.
Proof. enum_instance value members. Defined.
End TemporaryAccessStatus.

(** [shared/contracts/dto/temporary_access.py], [TemporaryAccessRevokeReason]. *)
Module TemporaryAccessRevokeReason.
Inductive t : Set :=
  | RUN_TERMINAL | RUN_MISSING | EXPIRED | GRANT_FAILED | OBSERVED_AFTER_REVOKE.
#[global] Instance eq_dec : EqDecision t.
Proof. solve_decision. Defined.
Definition value (a : t) : string :=
  match a with
  | RUN_TERMINAL => "run_terminal"
  | RUN_MISSING => "run_missing"
  | EXPIRED => "expired"
  | GRANT_FAILED => "grant_failed"
  | OBSERVED_AFTER_REVOKE => "observed_after_revoke"
  end.
Definition members : list t := [RUN_TERMINAL; RUN_MISSING; EXPIRED; GRANT_FAILED;
  OBSERVED_AFTER_REVOKE].
#[global] Instance str_enum : StrEnum t.
Proof. enum_instance value members. Defined.
End TemporaryAccessRevokeReason.

(** [shared/contracts/dto/owner_notification.py], [OwnerNotificationState]. *)
Module OwnerNotificationState.
Inductive t : Set :=
  | OWED | DELIVERED | UNADDRESSABLE | ABANDONED | VOIDED.
#[global] Instance eq_dec : EqDecision t.
Proof. solve_decision. Defined.
Definition value (a : t) : string :=
  match a with
  | OWED => "owed"
  | DELIVERED => "delivered"
  | UNADDRESSABLE => "unaddressable"
  | ABANDONED => "abandoned"
  | VOIDED => "voided"
  end.
Definition members : list t := [OWED; DELIVERED; UNADDRESSABLE; ABANDONED; VOIDED].
#[global] Instance str_enum : StrEnum t.
Proof. enum_instance value members. Defined.
End OwnerNotificationState.

(** [shared/contracts/dto/deploy_dispatch.py], [DispatchWithdrawal]. *)
Module DispatchWithdrawal.
Inductive t : Set :=
  | WITHDRAWN | ALREADY_DISPATCHED | ALREADY_TERMINAL.
#[global] Instance eq_dec : EqDecision t.
Proof. solve_decision. Defined.
Definition value (a : t) : string :=
  match a with
  | WITHDRAWN => "withdrawn"
  | ALREADY_DISPATCHED => "already_dispatched"
  | ALREADY_TERMINAL => "already_terminal"
  end.
Definition members : list t := [WITHDRAWN; ALREADY_DISPATCHED; ALREADY_TERMINAL].
#[global] Instance str_enum : StrEnum t.
Proof. enum_instance value members. Defined.
End DispatchWithdrawal.

(** [shared/contracts/dto/deploy_dispatch.py], [DispatchSupersede]. *)
Module DispatchSupersede.
Inductive t : Set :=
  | SUPERSEDED | ALREADY_SETTLED | NOT_CLAIMED | LEASE_LIVE.
#[global] Instance eq_dec : EqDecision t.
Proof. solve_decision. Defined.
Definition value (a : t) : string :=
  match a with
  | SUPERSEDED => "superseded"
  | ALREADY_SETTLED => "already_settled"
  | NOT_CLAIMED => "not_claimed"
  | LEASE_LIVE => "lease_live"
  end.
Definition members : list t := [SUPERSEDED; ALREADY_SETTLED; NOT_CLAIMED; LEASE_LIVE].
#[global] Instance str_enum : StrEnum t.
Proof. enum_instance value members. Defined.
End DispatchSupersede.

(** [shared/contracts/queues/worker_result.py], [WorkerStopReason]. *)
Module WorkerStopReason.
Inductive t : Set :=
  | AGENT_LIMIT_EXCEEDED | TURN_DEADLINE_EXCEEDED | AGENT_REFUSED.
#[global] Instance eq_dec : EqDecision t.
Proof. solve_decision. Defined.
Definition value (a : t) : string :=
  match a with
  | AGENT_LIMIT_EXCEEDED => "agent_limit_exceeded"
  | TURN_DEADLINE_EXCEEDED => "turn_deadline_exceeded"
  | AGENT_REFUSED => "agent_refused"
  end.
Definition members : list t := [AGENT_LIMIT_EXCEEDED; TURN_DEADLINE_EXCEEDED;
  AGENT_REFUSED].
#[global] Instance str_enum : StrEnum t.
Proof. enum_instance value members. Defined.
End WorkerStopReason.

(** ** State machines

    [VALID_TRANSITIONS] of the planning layer: the statuses each status may move
    to.  Python keeps sets; the lists below are read only through membership. *)

(** [shared/contracts/dto/task.py], [VALID_TRANSITIONS]. *)
Definition task_VALID_TRANSITIONS (s : TaskStatus.t) : list TaskStatus.t :=
  match s with
  | TaskStatus.BACKLOG => [TaskStatus.TODO; TaskStatus.CANCELLED]
  | TaskStatus.TODO => [TaskStatus.IN_DEV; TaskStatus.BACKLOG; TaskStatus.CANCELLED]
  | TaskStatus.IN_DEV =>
      [TaskStatus.IN_CI; TaskStatus.BLOCKED; TaskStatus.WAITING_HUMAN_REVIEW;
       TaskStatus.WAITING_RESOURCES; TaskStatus.FAILED; TaskStatus.CANCELLED]
  | TaskStatus.IN_CI =>
      [TaskStatus.IN_DEV; TaskStatus.TESTING; TaskStatus.FAILED; TaskStatus.CANCELLED]
  | TaskStatus.TESTING =>
      [TaskStatus.DONE; TaskStatus.IN_DEV; TaskStatus.FAILED; TaskStatus.CANCELLED]
  | TaskStatus.BLOCKED => [TaskStatus.IN_DEV; TaskStatus.BACKLOG; TaskStatus.CANCELLED]
  | TaskStatus.WAITING_HUMAN_REVIEW =>
      [TaskStatus.IN_DEV; TaskStatus.BACKLOG; TaskStatus.FAILED; TaskStatus.CANCELLED]
  | TaskStatus.WAITING_RESOURCES =>
      [TaskStatus.BACKLOG; TaskStatus.WAITING_HUMAN_REVIEW; TaskStatus.CANCELLED]
  | TaskStatus.DONE => [TaskStatus.BACKLOG]
  | TaskStatus.FAILED =>
      [TaskStatus.BACKLOG; TaskStatus.WAITING_RESOURCES;
       TaskStatus.WAITING_HUMAN_REVIEW; TaskStatus.CANCELLED]
  | TaskStatus.CANCELLED => []
  end.

(** [shared/contracts/dto/story.py], [VALID_TRANSITIONS]. *)
Definition story_VALID_TRANSITIONS (s : StoryStatus.t) : list StoryStatus.t :=
  match s with
  | StoryStatus.CREATED =>
      [StoryStatus.IN_PROGRESS; StoryStatus.FAILED; StoryStatus.ARCHIVED]
  | StoryStatus.IN_PROGRESS =>
      [StoryStatus.PR_REVIEW; StoryStatus.DEPLOYING; StoryStatus.WAITING_HUMAN_REVIEW;
       StoryStatus.COMPLETED; StoryStatus.FAILED; StoryStatus.ARCHIVED]
  | StoryStatus.REOPENED => [StoryStatus.IN_PROGRESS; StoryStatus.FAILED]
  | StoryStatus.PR_REVIEW =>
      [StoryStatus.DEPLOYING; StoryStatus.IN_PROGRESS;
       StoryStatus.WAITING_HUMAN_REVIEW; StoryStatus.FAILED]
  | StoryStatus.DEPLOYING =>
      [StoryStatus.TESTING; StoryStatus.COMPLETED; StoryStatus.IN_PROGRESS;
       StoryStatus.WAITING_USER_SECRET; StoryStatus.WAITING_HUMAN_REVIEW;
       StoryStatus.FAILED]
  | StoryStatus.TESTING =>
      [StoryStatus.COMPLETED; StoryStatus.IN_PROGRESS;
       StoryStatus.WAITING_HUMAN_REVIEW; StoryStatus.FAILED]
  | StoryStatus.WAITING_HUMAN_REVIEW => [StoryStatus.IN_PROGRESS; StoryStatus.FAILED]
  | StoryStatus.WAITING_USER_SECRET => [StoryStatus.DEPLOYING; StoryStatus.FAILED]
  | StoryStatus.COMPLETED => [StoryStatus.REOPENED; StoryStatus.ARCHIVED]
  | StoryStatus.FAILED => [StoryStatus.REOPENED]
  | StoryStatus.ARCHIVED => []
  end.
