(* ===== verification/Contracts.v ===== *)
(** * Contracts: rows, results and messages

    The ORM rows of [shared/models], the DTOs and typed run results of
    [shared/contracts/dto], and the queue messages of [shared/contracts/queues],
    as Records with the source's fields.  A row keeps its status as the string
    the column holds; a DTO is a row together with the enumeration members its
    validation found.

    Times are microseconds since the epoch.  A JSON blob the program carries
    without reading it is a [json] text.  A value the program stores through
    [model_dump] and reads back through [model_validate] is kept as the decoded
    model ([meta]): the JSON codec is pydantic's. *)

From Stdlib Require Import Ascii.
From S2P Require Import Prelude Vocabulary.

(** A JSON document the program stores or forwards without looking inside. *)
Abbreviation json := string (only parsing).

Definition SECOND : Z := 1000000.
Definition MINUTE : Z := 60 * SECOND.

(** ** Ages *)

(** [(now - t).total_seconds() / 60 >= minutes]. *)
Definition older_than (now t minutes : Z) : bool := minutes * MINUTE <=? now - t.

(** [round(x / 60e6, digits)] of an age in microseconds, ties of the decimal
    fraction to even, as a number of units of [1 / scale]. *)
Definition rounded_minutes (scale age : Z) : Z :=
  let q := (age * scale) `div` MINUTE in
  let r := (age * scale) `mod` MINUTE in
  if 2 * r <? MINUTE then q
  else if MINUTE <? 2 * r then q + 1
  else if Z.even q then q else q + 1.

(** The text of [round(age_minutes, 1)]. *)
Definition age_text (age : Z) : string :=
  let tenths := rounded_minutes 10 age in
  (if tenths <? 0 then "-" else "") +:+ pretty (Z.abs tenths `div` 10) +:+ "." +:+
  pretty (Z.abs tenths `mod` 10).

(** ** Queue messages ([shared/contracts/queues]) *)

(** [qa.py], [QAMessage]. *)
Record QAMessage := mkQAMessage {
  qm_story_id : string;
  qm_project_id : string;
  qm_initiating_run_id : string;
  qm_telegram_chat_id : string;
  qm_deployed_url : string;
  qm_application_id : Z;
  qm_acceptance_criteria : string;
  qm_run_id : string;
  qm_bot_username : option string;
  qm_qa_attempt : Z;
}.
#[export] Instance QAMessage_eq_dec : EqDecision QAMessage.
Proof. solve_decision. Defined.

(** [Field(min_length=1)] on the two fields QA cannot do without. *)
Definition QAMessage_valid (m : QAMessage) : bool :=
  bool_decide (m.(qm_initiating_run_id) ≠ "") && bool_decide (m.(qm_acceptance_criteria) ≠ "").

(** [deploy.py], [DeployMessage]. *)
Record DeployMessage := mkDeployMessage {
  dm_task_id : string;
  dm_project_id : string;
  dm_telegram_chat_id : string;
  dm_unaddressed_reason : string;
  dm_story_id : string;
  dm_triggered_by : DeployTrigger.t;
  dm_action : DeployAction.t;
  dm_deploy_fix_attempt : Z;
  dm_head_sha : string;
  dm_application_id : option Z;
  dm_env_overrides : list (string * string);
  dm_fence_active_deploys : bool;
}.
#[export] Instance DeployMessage_eq_dec : EqDecision DeployMessage.
Proof. solve_decision. Defined.

(** [LIFECYCLE_ACTIONS]: actions on one deployed application, not on a commit. *)
Definition LIFECYCLE_ACTIONS : list DeployAction.t := [DeployAction.STOP; DeployAction.UNDEPLOY].

(** [DeployMessage._names_a_recipient_or_says_why_not]. *)
Definition names_a_recipient_or_says_why_not (m : DeployMessage) : bool :=
  negb (eqb (bool_decide (m.(dm_telegram_chat_id) ≠ "")) (bool_decide (m.(dm_unaddressed_reason) ≠ ""))).

(** [DeployMessage._lifecycle_names_its_target]. *)
Definition lifecycle_names_its_target (m : DeployMessage) : bool :=
  negb (bool_decide (m.(dm_action) ∈ LIFECYCLE_ACTIONS) && bool_decide (m.(dm_application_id) = None)).

(** [hashlib.sha256(text.encode()).hexdigest()]. *)
Class Sha256 := sha256_hexdigest : string → string.

(** [git_ref.py], [CommitSha]: 40 or 64 hexadecimal digits once stripped and
    lowered; [OptionalCommitSha] also admits the empty string. *)
Definition is_hex_digit (c : ascii) : bool :=
  let n := Z.of_N (N_of_ascii c) in
  (48 <=? n) && (n <=? 57) || (65 <=? n) && (n <=? 70) || (97 <=? n) && (n <=? 102).

Definition is_space (c : ascii) : bool :=
  let n := Z.of_N (N_of_ascii c) in (n =? 32) || ((9 <=? n) && (n <=? 13)).

Definition to_lower (c : ascii) : ascii :=
  let n := N_of_ascii c in
  if (65 <=? n)%N && (n <=? 90)%N then ascii_of_N (n + 32) else c.

Fixpoint drop_space (l : list ascii) : list ascii :=
  match l with
  | c :: l' => if is_space c then drop_space l' else l
  | [] => []
  end.

(** [str.strip()] on ASCII text. *)
Definition strip (s : string) : string :=
  String.string_of_list_ascii (rev (drop_space (rev (drop_space (String.list_ascii_of_string s))))).

Definition lower (s : string) : string :=
  String.string_of_list_ascii (map to_lower (String.list_ascii_of_string s)).

Definition CommitSha (s : string) : option string :=
  let s' := lower (strip s) in
  let n := Z.of_nat (String.length s') in
  if ((n =? 40) || (n =? 64)) && forallb is_hex_digit (String.list_ascii_of_string s')
  then Some s' else None.

Definition OptionalCommitSha (s : string) : option string :=
  match CommitSha s with
  | Some s' => Some s'
  | None => if decide (s = "") then Some "" else None
  end.

(** What building a [DeployMessage] gives: the commit normalised, or a
    [ValidationError]. *)
Definition DeployMessage_validated (m : DeployMessage) : res DeployMessage :=
  match OptionalCommitSha m.(dm_head_sha) with
  | Some sha =>
      if names_a_recipient_or_says_why_not m && lifecycle_names_its_target m
      then Ok (mkDeployMessage m.(dm_task_id) m.(dm_project_id) m.(dm_telegram_chat_id)
                 m.(dm_unaddressed_reason) m.(dm_story_id) m.(dm_triggered_by) m.(dm_action)
                 m.(dm_deploy_fix_attempt) sha m.(dm_application_id) m.(dm_env_overrides)
                 m.(dm_fence_active_deploys))
      else Exc ValidationError
  | None => Exc ValidationError
  end.

(** [engineering.py], [EngineeringMessage]. *)
Record EngineeringMessage := mkEngineeringMessage {
  em_task_id : string;
  em_project_id : string;
  em_initiating_run_id : string;
  em_telegram_chat_id : string;
  em_action : ActionType.t;
  em_description : option string;
  em_skip_deploy : bool;
  em_planning_task_id : option string;
  em_story_id : option string;
  em_deploy_fix_attempt : Z;
  em_branch : option string;
}.
#[export] Instance EngineeringMessage_eq_dec : EqDecision EngineeringMessage.
Proof. solve_decision. Defined.

(** [Field(min_length=1)]: a message cannot be built for an unowned run. *)
Definition EngineeringMessage_valid (m : EngineeringMessage) : bool :=
  bool_decide (m.(em_initiating_run_id) ≠ "").

(** [architect.py], [ArchitectMessage]. *)
Record ArchitectMessage := mkArchitectMessage {
  am_story_id : string;
  am_project_id : string;
  am_telegram_chat_id : string;
  am_is_reopen : bool;
  am_user_report : option string;
}.
#[export] Instance ArchitectMessage_eq_dec : EqDecision ArchitectMessage.
Proof. solve_decision. Defined.

(** [po.py], [POSystemEvent]. *)
Record POSystemEvent := mkPOSystemEvent {
  pe_event : string;
  pe_text : string;
  pe_task_id : string;
  pe_telegram_chat_id : string;
  pe_owner_user_id : string;
  pe_story_id : string;
  pe_project_id : string;
}.
#[export] Instance POSystemEvent_eq_dec : EqDecision POSystemEvent.
Proof. solve_decision. Defined.

(** [worker.py], [DeleteWorkerCommand]. *)
Record DeleteWorkerCommand := mkDeleteWorkerCommand {
  dw_request_id : string;
  dw_worker_id : string;
  dw_reason : string;
}.
#[export] Instance DeleteWorkerCommand_eq_dec : EqDecision DeleteWorkerCommand.
Proof. solve_decision. Defined.

(** [env_observation.py], [EnvObservationRequest]. *)
Record EnvObservationRequest := mkEnvObservationRequest {
  eo_request_id : string;
  eo_project_id : string;
  eo_server_handle : string;
  eo_service_slug : string;
  eo_env_key : string;
}.
#[export] Instance EnvObservationRequest_eq_dec : EqDecision EnvObservationRequest.
Proof. solve_decision. Defined.

(** [Field(min_length=1)]. *)
Definition EnvObservationRequest_valid (m : EnvObservationRequest) : bool :=
  forallb (λ s, bool_decide (s ≠ ""))
    [m.(eo_project_id); m.(eo_server_handle); m.(eo_service_slug); m.(eo_env_key)].

(** [env_observation.py], [EnvObservationResult]. *)
Record EnvObservationResult := mkEnvObservationResult {
  ev_request_id : string;
  ev_outcome : EnvObservationOutcome.t;
  ev_env_key : string;
  ev_present : option bool;
  ev_containers : Z;
  ev_detail : string;
}.

(** [_an_answer_is_an_answer_and_a_silence_is_not], and [Field(min_length=1)]. *)
Definition EnvObservationResult_valid (r : EnvObservationResult) : bool :=
  bool_decide (r.(ev_request_id) ≠ "") && bool_decide (r.(ev_env_key) ≠ "") &&
  match r.(ev_outcome) with
  | EnvObservationOutcome.OBSERVED => bool_decide (is_Some r.(ev_present))
  | EnvObservationOutcome.UNREACHABLE =>
      bool_decide (r.(ev_present) = None) && bool_decide (r.(ev_detail) ≠ "")
  end.

(** [scaffold.py], [ScaffoldMessage]. *)
Record ScaffoldMessage := mkScaffoldMessage {
  sm_project_id : string;
  sm_repository_id : string;
  sm_telegram_chat_id : string;
  sm_template_repo : string;
  sm_template_ref : string;
  sm_project_name : string;
  sm_modules : string;
  sm_task_description : string;
  sm_mode : string;
}.
#[export] Instance ScaffoldMessage_eq_dec : EqDecision ScaffoldMessage.
Proof. solve_decision. Defined.

(** [template.py], [ServiceTemplateRef]: a tag or a commit, stripped, and no floating
    reference. *)
Definition ref_char (c : ascii) : bool :=
  let n := Z.of_N (N_of_ascii c) in
  (48 <=? n) && (n <=? 57) || (65 <=? n) && (n <=? 90) || (97 <=? n) && (n <=? 122).
Definition ServiceTemplateRef (s : string) : option string :=
  let s' := strip s in
  match String.list_ascii_of_string s' with
  | c :: l =>
      if ref_char c && forallb (λ c, ref_char c || bool_decide (c ∈ ["."; "_"; "/"; "-"]%char)) l &&
         negb (bool_decide (lower s' ∈ ["head"; "main"; "master"]))
      then Some s' else None
  | [] => None
  end.
Definition ServiceTemplateSource : string := "gh:vladmesh/service-template".
(** What building a [ScaffoldMessage] gives. *)
Definition ScaffoldMessage_validated (m : ScaffoldMessage) : res ScaffoldMessage :=
  match ServiceTemplateRef m.(sm_template_ref) with
  | Some ref =>
      if bool_decide (m.(sm_template_repo) = ServiceTemplateSource) && bool_decide (m.(sm_mode) ∈ ["full"; "ensure"])
      then Ok (mkScaffoldMessage m.(sm_project_id) m.(sm_repository_id) m.(sm_telegram_chat_id)
                 m.(sm_template_repo) ref m.(sm_project_name) m.(sm_modules) m.(sm_task_description) m.(sm_mode))
      else Exc ValidationError
  | None => Exc ValidationError
  end.

(** Everything the modelled code publishes, by contract. *)
Inductive message :=
| EngineeringMsg (m : EngineeringMessage)
| DeployMsg (m : DeployMessage)
| QAMsg (m : QAMessage)
| ArchitectMsg (m : ArchitectMessage)
| POSystemEventMsg (m : POSystemEvent)
| DeleteWorkerMsg (m : DeleteWorkerCommand)
| EnvObservationMsg (m : EnvObservationRequest)
| ScaffoldMsg (m : ScaffoldMessage).
#[export] Instance message_eq_dec : EqDecision message.
Proof. solve_decision. Defined.

(** [shared/queues.py]. *)
Definition ENGINEERING_QUEUE : string := "engineering:queue".
Definition DEPLOY_QUEUE : string := "deploy:queue".
Definition QA_QUEUE : string := "qa:queue".
Definition ARCHITECT_QUEUE : string := "architect:queue".
Definition PO_INPUT_QUEUE : string := "po:input".
Definition ENV_OBSERVATION_QUEUE : string := "env-observation:queue".
Definition WORKER_COMMANDS : string := "worker:commands".
Definition SCAFFOLD_QUEUE : string := "scaffold:queue".

(** ** Run results ([run_result.py]) *)

Record EngineeringRunResult := mkEngineeringRunResult {
  er_engineering_status : EngineeringStatus.t;
  er_commit_sha : option string;
  er_selected_modules : option (list string);
  er_test_results : option json;
  er_allocation_failure_reason : option AllocationFailureReason.t;
  er_allocation_required_ram_mb : option Z;
  er_allocation_min_disk_mb : option Z;
}.
#[export] Instance EngineeringRunResult_eq_dec : EqDecision EngineeringRunResult.
Proof. solve_decision. Defined.

(** [EngineeringRunResult(engineering_status=...)], every other field defaulted. *)
Definition engineering_result (s : EngineeringStatus.t) : EngineeringRunResult :=
  mkEngineeringRunResult s None None None None None None.

Record MissingUserSecret := mkMissingUserSecret { ms_key : string; ms_description : string }.
#[export] Instance MissingUserSecret_eq_dec : EqDecision MissingUserSecret.
Proof. solve_decision. Defined.

Record DeployRunResult := mkDeployRunResult {
  dr_deploy_outcome : DeployOutcome.t;
  dr_deployed_url : option string;
  dr_application_id : option Z;
  dr_bot_username : option string;
  dr_test_identity_slot : bool;
  dr_deploy_fix_attempt : Z;
  dr_error_details : option string;
  dr_missing_user_secrets : list MissingUserSecret;
  dr_action : option DeployAction.t;
  dr_deployment_result : option json;
  dr_smoke_result : option json;
  dr_allocation_failure_reason : option AllocationFailureReason.t;
  dr_allocation_required_ram_mb : option Z;
  dr_allocation_min_disk_mb : option Z;
}.
#[export] Instance DeployRunResult_eq_dec : EqDecision DeployRunResult.
Proof. solve_decision. Defined.

(** [DeployRunResult._infrastructure_wait_carries_its_classification]. *)
Definition infrastructure_wait_carries_its_classification (r : DeployRunResult) : bool :=
  bool_decide (r.(dr_deploy_outcome) ≠ DeployOutcome.WAITING_INFRASTRUCTURE) ||
  (bool_decide (is_Some r.(dr_allocation_failure_reason)) &&
   bool_decide (is_Some r.(dr_allocation_required_ram_mb)) &&
   bool_decide (is_Some r.(dr_allocation_min_disk_mb))).

Record QAFailedCheck := mkQAFailedCheck { qc_name : string; qc_detail : string }.
#[export] Instance QAFailedCheck_eq_dec : EqDecision QAFailedCheck.
Proof. solve_decision. Defined.

(** [category] is a member of the closed set [QABlockerCategory], carried by value. *)
Record QABlocker := mkQABlocker {
  qb_category : string; qb_attempted : string; qb_sent : string; qb_received : string }.
#[export] Instance QABlocker_eq_dec : EqDecision QABlocker.
Proof. solve_decision. Defined.

Record QAStateChange := mkQAStateChange {
  qs_resource : string;
  qs_operation : string;
  qs_cleanup_attempted : bool;
  qs_cleanup_succeeded : bool;
  qs_cleanup_detail : string;
}.
#[export] Instance QAStateChange_eq_dec : EqDecision QAStateChange.
Proof. solve_decision. Defined.

Record QARunResult := mkQARunResult {
  qr_qa_outcome : QAOutcome.t;
  qr_summary : option string;
  qr_failed_checks : list QAFailedCheck;
  qr_report : option string;
  qr_qa_attempt : option Z;
  qr_deployed_url : option string;
  qr_error : option string;
  qr_blocker : option QABlocker;
  qr_telegram_probe_evidence : list json;
  qr_state_changes : list QAStateChange;
}.
#[export] Instance QARunResult_eq_dec : EqDecision QARunResult.
Proof. solve_decision. Defined.

(** [QAStateChangeCleanup._successful_cleanup_was_attempted] of every trace and
    [QARunResult._outcome_matches_state_traces]. *)
Definition outcome_matches_state_traces (r : QARunResult) : bool :=
  forallb (λ c, negb c.(qs_cleanup_succeeded) || c.(qs_cleanup_attempted)) r.(qr_state_changes) &&
  negb (bool_decide (r.(qr_qa_outcome) = QAOutcome.BLOCKED) && bool_decide (r.(qr_blocker) = None)) &&
  negb (bool_decide (r.(qr_qa_outcome) = QAOutcome.PASSED) &&
        existsb (λ c, negb c.(qs_cleanup_succeeded)) r.(qr_state_changes)).

(** What the [result] column holds: a dump of one of the three models, or a
    document none of them accepts. *)
Inductive run_result :=
| EngineeringResult (r : EngineeringRunResult)
| DeployResult (r : DeployRunResult)
| QAResult (r : QARunResult)
| UnknownResult (doc : json).
#[export] Instance run_result_eq_dec : EqDecision run_result.
Proof. solve_decision. Defined.

(** ** Records kept in [run_metadata] and [failure_metadata] *)

(** [owner_notification.py], [OwnerNotification]. *)
Record OwnerNotification := mkOwnerNotification {
  on_event : string;
  on_text : string;
  on_story_id : string;
  on_project_id : string;
  on_terminal_status : StoryStatus.t;
  on_task_id : option string;
  on_state : OwnerNotificationState.t;
  on_owed_at : Z;
  on_attempts : Z;
  on_detail : option string;
}.
#[export] Instance OwnerNotification_eq_dec : EqDecision OwnerNotification.
Proof. solve_decision. Defined.
#[export] Instance OwnerNotification_rebuild : Rebuild OwnerNotification := λ r,
  mkOwnerNotification (on_event r) (on_text r) (on_story_id r) (on_project_id r)
    (on_terminal_status r) (on_task_id r) (on_state r) (on_owed_at r) (on_attempts r) (on_detail r).

(** [OwnerNotification.owed]. *)
Definition owed (r : OwnerNotification) : bool :=
  bool_decide (r.(on_state) = OwnerNotificationState.OWED).

(** [qa_handoff.py], [TemporaryAccessRequest] and [QAHandoffPlan]. *)
Record TemporaryAccessRequest := mkTemporaryAccessRequest {
  ta_env_key : string; ta_subject : string; ta_head_sha : string }.
#[export] Instance TemporaryAccessRequest_eq_dec : EqDecision TemporaryAccessRequest.
Proof. solve_decision. Defined.

Record QAHandoffPlan := mkQAHandoffPlan {
  hp_qa_message : QAMessage; hp_access : option TemporaryAccessRequest }.
#[export] Instance QAHandoffPlan_eq_dec : EqDecision QAHandoffPlan.
Proof. solve_decision. Defined.

(** The evidence a QA fix task keeps under [qa_failure]. *)
Record QAFailureEvidence := mkQAFailureEvidence {
  qe_qa_run_id : string;
  qe_fingerprint : string;
  qe_fingerprint_attempt : Z;
  qe_fix_attempt : Z;
  qe_summary : string;
  qe_failed_checks : list QAFailedCheck;
}.
#[export] Instance QAFailureEvidence_eq_dec : EqDecision QAFailureEvidence.
Proof. solve_decision. Defined.

(** A failed job of a CI run: its failed steps and, when it was asked for, an excerpt of
    its log, or why there is none. *)
Record FailedJob := mkFailedJob {
  fj_name : string;
  fj_failed_steps : list string;
  fj_log : option (option string * option string);
}.
#[export] Instance FailedJob_eq_dec : EqDecision FailedJob.
Proof. solve_decision. Defined.

(** The evidence a CI fix task keeps under [ci_failure]. *)
Record CIFailureEvidence := mkCIFailureEvidence {
  ce_run_id : Z;
  ce_run_url : string;
  ce_head_sha : string;
  ce_branch : string;
  ce_failed_jobs : list FailedJob;
  ce_details_unavailable_reason : option string;
  ce_fingerprint : string;
  ce_fingerprint_attempt : Z;
}.
#[export] Instance CIFailureEvidence_eq_dec : EqDecision CIFailureEvidence.
Proof. solve_decision. Defined.

(** What the program stores under one key of a metadata dictionary. *)
Inductive meta :=
| MNull
| MBool (b : bool)
| MInt (n : Z)
| MStr (s : string)
| MTime (t : Z)                     (** a [datetime.isoformat()] *)
| MNotification (r : OwnerNotification)
| MHandoff (p : QAHandoffPlan)
| MQAFailure (e : QAFailureEvidence)
| MCIFailure (e : CIFailureEvidence)
| MObj (fields : list (string * string))      (** an object of strings, read by key *)
| MStateChanges (l : list QAStateChange)
| MDocs (docs : list json)
| MTexts (l : list string)
| MJson (doc : json).               (** any other document *)
#[export] Instance meta_eq_dec : EqDecision meta.
Proof. solve_decision. Defined.

Abbreviation metadata := (gmap string meta) (only parsing).

(** [{**old, **new}]: the keys of [new] win. *)
Definition merge (old new : metadata) : metadata := new ∪ old.

(** [d.get(key)], with [null] and absence read the same. *)
Definition meta_get (key : string) (d : metadata) : option meta :=
  match d !! key with
  | Some MNull => None
  | o => o
  end.

Definition meta_str (o : option meta) : option string :=
  match o with Some (MStr s) => Some s | _ => None end.
Definition meta_int (o : option meta) : option Z :=
  match o with Some (MInt n) => Some n | _ => None end.
Definition meta_time (o : option meta) : option Z :=
  match o with Some (MTime t) => Some t | _ => None end.

(** The object under a key ([isinstance(v, dict)]), and a field of one. *)
Definition meta_obj (o : option meta) : option (list (string * string)) :=
  match o with Some (MObj fields) => Some fields | _ => None end.
Definition obj_get (key : string) (fields : list (string * string)) : option string :=
  (λ x, x.2.2) <$> list_find (λ f, f.1 = key) fields.

Definition newline : string := String (ascii_of_nat 10) EmptyString.

(** ** [json.dumps] without blanks, on ASCII text *)

Definition quote : string := String (ascii_of_nat 34) EmptyString.
Definition hex_digit (n : N) : ascii := ascii_of_N (if (n <? 10)%N then 48 + n else 87 + n).
Definition json_char (c : ascii) : string :=
  let n := N_of_ascii c in
  let esc d := String (ascii_of_nat 92) (String d EmptyString) in
  if (n =? 34)%N then esc c
  else if (n =? 92)%N then esc c
  else if (n =? 10)%N then esc "n"%char
  else if (n =? 13)%N then esc "r"%char
  else if (n =? 9)%N then esc "t"%char
  else if (n =? 8)%N then esc "b"%char
  else if (n =? 12)%N then esc "f"%char
  else if (32 <=? n)%N && (n <=? 126)%N then String c EmptyString
  else String (ascii_of_nat 92) ("u00" +:+ String (hex_digit (n / 16)) (String (hex_digit (n mod 16)) EmptyString)).
Definition json_string (s : string) : string :=
  quote +:+ String.concat "" (json_char <$> String.list_ascii_of_string s) +:+ quote.
Definition json_field (key v : string) : string := json_string key +:+ ":" +:+ v.
Definition json_object (fields : list string) : string := "{" +:+ String.concat "," fields +:+ "}".
Definition json_array (items : list string) : string := "[" +:+ String.concat "," items +:+ "]".

(** [if x] on an optional string. *)
Definition truthy (s : option string) : bool :=
  match s with Some s => bool_decide (s ≠ "") | None => false end.

(** [bool(v)] of a stored value; the typed records are not empty. *)
Definition truthy_meta (v : option meta) : bool :=
  match v with
  | None | Some MNull => false
  | Some (MBool b) => b
  | Some (MInt n) => negb (n =? 0)
  | Some (MStr s) => bool_decide (s ≠ "")
  | Some (MObj fields) => negb (bool_decide (fields = []))
  | Some (MStateChanges l) => negb (bool_decide (l = []))
  | Some (MDocs docs) => negb (bool_decide (docs = []))
  | Some (MTexts l) => negb (bool_decide (l = []))
  | Some (MJson doc) => negb (bool_decide (doc ∈ ["[]"; "{}"; "0.0"]))
  | Some _ => true
  end.

Definition OWNER_NOTIFICATION_KEY : string := "owner_notification".
Definition QA_HANDOFF_KEY : string := "qa_handoff".
Definition QA_DISPATCHED_AT_KEY : string := "qa_dispatched_at".
Definition DISPATCH_CLAIMED_AT_KEY : string := "dispatch_claimed_at".
Definition DISPATCH_LEASE_EXPIRES_AT_KEY : string := "dispatch_lease_expires_at".
Definition DISPATCH_SUPERSEDED_AT_KEY : string := "dispatch_superseded_at".
(** [deploy_dispatch.py], [DISPATCH_LEASE = timedelta(minutes=5)]. *)
Definition DISPATCH_LEASE : Z := 5 * MINUTE.

(** ** Rows ([shared/models]) *)

(** [task.py], [Task]. *)
Record Task := mkTask {
  t_id : string;
  t_project_id : string;
  t_type : string;
  t_title : string;
  t_description : option string;
  t_plan : option string;
  t_status : string;
  t_priority : Z;
  t_acceptance_criteria : option string;
  t_current_iteration : Z;
  t_max_iterations : Z;
  t_need_e2e : bool;
  t_created_by : string;
  t_source_brainstorm_id : option string;
  t_repository_id : option string;
  t_story_id : option string;
  t_blocked_by_task_id : option string;
  t_failure_metadata : option metadata;
  t_created_at : Z;
  t_updated_at : Z;
}.
#[export] Instance Task_rebuild : Rebuild Task := λ r,
  mkTask (t_id r) (t_project_id r) (t_type r) (t_title r) (t_description r) (t_plan r)
    (t_status r) (t_priority r) (t_acceptance_criteria r) (t_current_iteration r)
    (t_max_iterations r) (t_need_e2e r) (t_created_by r) (t_source_brainstorm_id r)
    (t_repository_id r) (t_story_id r) (t_blocked_by_task_id r) (t_failure_metadata r)
    (t_created_at r) (t_updated_at r).

(** [task.py], [TaskEvent]; the primary key is the position in the log. *)
Record TaskEvent := mkTaskEvent {
  te_task_id : string;
  te_event_type : string;
  te_from_status : option string;
  te_to_status : option string;
  te_iteration : option Z;
  te_details : metadata;
  te_actor : string;
}.

(** [story.py], [Story]. *)
Record Story := mkStory {
  s_id : string;
  s_project_id : string;
  s_parent_story_id : option string;
  s_title : string;
  s_description : option string;
  s_acceptance_criteria : option string;
  s_type : string;
  s_status : string;
  s_priority : Z;
  s_blocked_by_story_id : option string;
  s_created_by : string;
  s_user_report : option string;
  s_quarantine_reason : option metadata;
  s_pr_number : option Z;
  s_created_at : Z;
}.
#[export] Instance Story_rebuild : Rebuild Story := λ r,
  mkStory (s_id r) (s_project_id r) (s_parent_story_id r) (s_title r) (s_description r)
    (s_acceptance_criteria r) (s_type r) (s_status r) (s_priority r) (s_blocked_by_story_id r)
    (s_created_by r) (s_user_report r) (s_quarantine_reason r) (s_pr_number r) (s_created_at r).

(** [run.py], [Run] (the observability columns, which nothing reads, left out). *)
Record Run := mkRun {
  r_id : string;
  r_type : string;
  r_status : string;
  r_project_id : option string;
  r_user_id : option Z;
  r_run_metadata : metadata;
  r_result : option run_result;
  r_error_message : option string;
  r_completed_at : option Z;
  r_story_id : option string;
  r_task_id : option string;
  r_created_at : Z;
}.
#[export] Instance Run_rebuild : Rebuild Run := λ r,
  mkRun (r_id r) (r_type r) (r_status r) (r_project_id r) (r_user_id r) (r_run_metadata r)
    (r_result r) (r_error_message r) (r_completed_at r) (r_story_id r) (r_task_id r)
    (r_created_at r).

(** A normalised commit is its own normal form. *)
Lemma hex_digit_not_space c : is_hex_digit c = true → is_space c = false.
Proof. by destruct c as [[] [] [] [] [] [] [] []]. Qed.
Lemma to_lower_idemp c : to_lower (to_lower c) = to_lower c.
Proof. by destruct c as [[] [] [] [] [] [] [] []]. Qed.
Lemma drop_space_hex l : forallb is_hex_digit l = true → drop_space l = l.
Proof. destruct l as [|c l]; [done|]. cbn. rewrite andb_true_iff. intros [Hc _]. by rewrite hex_digit_not_space. Qed.
Lemma strip_hex s : forallb is_hex_digit (String.list_ascii_of_string s) = true → strip s = s.
Proof.
  intros Hs. unfold strip. rewrite (drop_space_hex (String.list_ascii_of_string s)) by done.
  rewrite drop_space_hex, rev_involutive, String.string_of_list_ascii_of_string; [done|].
  apply forallb_forall. intros c Hc. rewrite forallb_forall in Hs. by apply Hs, in_rev.
Qed.
Lemma lower_idemp s : lower (lower s) = lower s.
Proof.
  unfold lower. rewrite String.list_ascii_of_string_of_list_ascii, map_map. f_equal.
  apply map_ext, to_lower_idemp.
Qed.
Lemma CommitSha_idemp s sha : CommitSha s = Some sha → CommitSha sha = Some sha.
Proof.
  unfold CommitSha. destruct (_ && _) eqn:Hc; [|done]. intros [= <-]. pose proof Hc as [Hn Hhex]%andb_true_iff.
  rewrite (strip_hex (lower (strip s))), lower_idemp by done. by rewrite Hc.
Qed.
