(* ===== verification/Docs.v ===== *)
(** * Docs: documents, and what Python makes of them

    The values [json.loads] and [yaml.safe_load] return, and the parts of Python's
    own behaviour the policies over them use: truth, [dict.get], [float(x)] and
    [int(x)] on machine floats (binary64, through the specification floats of the
    Standard Library).  A mapping is a list of pairs with string keys, in order;
    a key that is not a string, and NaN as a key, are left out. *)

From S2P Require Import Prelude Contracts.
From Stdlib Require Import Ascii SpecFloat.

(** ** Values *)

Inductive doc :=
| DNull
| DBool (b : bool)
| DInt (z : Z)
| DFloat (f : spec_float)
| DStr (s : string)
| DList (l : list doc)
| DMap (m : list (string * doc)).

Abbreviation mapping := (list (string * doc)) (only parsing).

(** [value.get(key)]: the first pair, as a mapping holds a key once. *)
Fixpoint lookup_key (key : string) (m : mapping) : option doc :=
  match m with
  | [] => None
  | (k, v) :: m' => if decide (k = key) then Some v else lookup_key key m'
  end.
(** [value.get(key)], which is [None] both for a missing key and for a null. *)
Definition get (key : string) (m : mapping) : doc := default DNull (lookup_key key m).
Definition has_key (key : string) (m : mapping) : bool := bool_decide (is_Some (lookup_key key m)).
Definition get_or (dflt : doc) (key : string) (m : mapping) : doc := default dflt (lookup_key key m).

(** [m[key] = v]: in place, or at the end. *)
Fixpoint put_key (key : string) (v : doc) (m : mapping) : mapping :=
  match m with
  | [] => [(key, v)]
  | (k, w) :: m' => if decide (k = key) then (key, v) :: m' else (k, w) :: put_key key v m'
  end.
Definition drop_key (key : string) (m : mapping) : mapping := filter (λ p, p.1 ≠ key) m.

Definition is_null (v : doc) : bool := match v with DNull => true | _ => false end.

(** [bool(v)]: NaN is true. *)
Definition doc_truthy (v : doc) : bool :=
  match v with
  | DNull => false
  | DBool b => b
  | DInt z => negb (z =? 0)
  | DFloat (S754_zero _) => false
  | DFloat _ => true
  | DStr s => negb (bool_decide (s = ""))
  | DList l => match l with [] => false | _ => true end
  | DMap m => match m with [] => false | _ => true end
  end.

(** A text that counts as true. *)
Definition nonempty_text (o : option string) : option string :=
  match o with Some s => if decide (s = "") then None else Some s | None => None end.

(** [v == "text"]. *)
Definition is_text (text : string) (v : doc) : bool :=
  match v with DStr s => bool_decide (s = text) | _ => false end.

(** [str(v)].  What Python prints for a float, a list or a mapping is a parameter. *)
Class PyRepr := py_repr : doc → string.
Definition py_str `{PyRepr} (v : doc) : string :=
  match v with
  | DNull => "None"
  | DBool b => if b then "True" else "False"
  | DInt z => pretty z
  | DStr s => s
  | _ => py_repr v
  end.

(** ** Floats *)

Abbreviation float64 := spec_float (only parsing).
Definition normalize64 (m e : Z) : float64 := binary_normalize 53 1024 m e false.
Definition mul64 : float64 → float64 → float64 := SFmul 53 1024.
Definition div64 : float64 → float64 → float64 := SFdiv 53 1024.
Definition le64 : float64 → float64 → bool := SFleb.
Definition lt64 : float64 → float64 → bool := SFltb.
Definition isfinite (f : float64) : bool :=
  match f with S754_zero _ | S754_finite _ _ _ => true | _ => false end.

(** [float(z)] of an integer: the nearest float, or an OverflowError. *)
Definition float_of_Z (z : Z) : res float64 :=
  match normalize64 z 0 with
  | S754_infinity _ => Exc OverflowError
  | f => Ok f
  end.

(** [int(f)]: towards zero; OverflowError on an infinity, ValueError on NaN. *)
Definition trunc64 (f : float64) : res Z :=
  match f with
  | S754_zero _ => Ok 0
  | S754_infinity _ => Exc OverflowError
  | S754_nan => Exc ValueError
  | S754_finite s m e =>
      let v := if 0 <=? e then Zpos m * 2 ^ e else Zpos m / 2 ^ (- e) in
      Ok (if s then - v else v)
  end.

(** The float nearest to [m * 10 ^ e], for [0 <= m]. *)
Definition float_of_decimal (m e : Z) : float64 :=
  if 0 <=? e then normalize64 (m * 10 ^ e) 0
  else match m with
       | Zpos p => div64 (S754_finite false p 0) (S754_finite false (Z.to_pos (10 ^ (- e))) 0)
       | _ => S754_zero false
       end.

(** ** [float(s)] of a text *)

Definition digit_of (c : ascii) : option Z :=
  let n := Z.of_N (N_of_ascii c) in if (48 <=? n) && (n <=? 57) then Some (n - 48) else None.
Definition starts_with_digit (l : list ascii) : bool :=
  match l with c :: _ => bool_decide (is_Some (digit_of c)) | [] => false end.

(** Digits from the front: their value, how many, and the rest.  An underscore may
    stand between two digits. *)
Fixpoint take_digits (acc n : Z) (seen : bool) (l : list ascii) : Z * Z * list ascii :=
  match l with
  | c :: l' =>
      match digit_of c with
      | Some d => take_digits (acc * 10 + d) (n + 1) true l'
      | None =>
          if seen && bool_decide (c = "_"%char) && starts_with_digit l'
          then take_digits acc n false l' else (acc, n, l)
      end
  | [] => (acc, n, [])
  end.

Definition take_sign (l : list ascii) : bool * list ascii :=
  match l with
  | "-"%char :: l' => (true, l')
  | "+"%char :: l' => (false, l')
  | _ => (false, l)
  end.

(** The exponent, if one is written. *)
Definition take_exponent (l : list ascii) : option (Z * list ascii) :=
  match l with
  | c :: l' =>
      if bool_decide (to_lower c = "e"%char) then
        let '(neg, l'') := take_sign l' in
        let '(e, n, rest) := take_digits 0 0 false l'' in
        if n =? 0 then None else Some (if (neg : bool) then - e else e, rest)
      else Some (0, l)
  | [] => Some (0, [])
  end.

Definition with_sign (neg : bool) (f : float64) : float64 := if neg then SFopp f else f.

Definition parse_float (s : string) : option float64 :=
  let '(neg, l) := take_sign (String.list_ascii_of_string (strip s)) in
  let word := lower (String.string_of_list_ascii l) in
  if bool_decide (word ∈ ["inf"; "infinity"]) then Some (with_sign neg (S754_infinity false))
  else if bool_decide (word = "nan") then Some S754_nan
  else
    let '(m, n, l) := take_digits 0 0 false l in
    let '(m, k, l) := match l with
                      | "."%char :: l' => take_digits m 0 false l'
                      | _ => (m, 0, l)
                      end in
    if n + k =? 0 then None
    else match take_exponent l with
         | Some (e, []) => Some (with_sign neg (float_of_decimal m (e - k)))
         | _ => None
         end.

(** [float(v)]: of a text ValueError, of anything else TypeError. *)
Definition py_float (v : doc) : res float64 :=
  match v with
  | DBool b => Ok (if b then normalize64 1 0 else S754_zero false)
  | DInt z => float_of_Z z
  | DFloat f => Ok f
  | DStr s => match parse_float s with Some f => Ok f | None => Exc ValueError end
  | _ => Exc TypeError
  end.

Example floats_are_rounded :
  parse_float "0.5" = Some (normalize64 1 (-1)) ∧ parse_float " 3 " = Some (normalize64 3 0) ∧
  parse_float "1_0.2_5e-1" = parse_float "1.025" ∧ parse_float "1._5" = None ∧ parse_float "." = None ∧
  parse_float "5." = Some (normalize64 5 0) ∧ parse_float "3.00000000000000000001" = Some (normalize64 3 0) ∧
  parse_float "1e400" = Some (S754_infinity false) ∧ parse_float "0.1" = Some (normalize64 3602879701896397 (-55)).
Proof. split_and!; by vm_compute. Qed.

(** ** Facts *)

Lemma get_null key m : is_null (get key m) = true ↔ lookup_key key m = None ∨ lookup_key key m = Some DNull.
Proof. unfold get. destruct (lookup_key key m) as [[]|]; naive_solver. Qed.
Lemma lookup_key_in key m v : lookup_key key m = Some v → (key, v) ∈ m.
Proof.
  induction m as [|[k w] m IH]; [done|]. cbn. destruct (decide (k = key)) as [->|].
  - intros [= <-]. by left.
  - intros Hv. right. by apply IH.
Qed.
Lemma lookup_put_key key v m : lookup_key key (put_key key v m) = Some v.
Proof.
  induction m as [|[k w] m IH]; cbn; [by rewrite decide_True|].
  destruct (decide (k = key)) as [->|]; cbn; [by rewrite decide_True|by rewrite decide_False].
Qed.
Lemma lookup_put_other key key' v m : key ≠ key' → lookup_key key' (put_key key v m) = lookup_key key' m.
Proof.
  intros Hne. induction m as [|[k w] m IH]; cbn; [by rewrite decide_False|].
  destruct (decide (k = key)) as [->|]; cbn.
  - by rewrite !decide_False.
  - by rewrite IH.
Qed.
Lemma lookup_drop_key key m : lookup_key key (drop_key key m) = None.
Proof.
  induction m as [|[k w] m IH]; [done|]. unfold drop_key in *. rewrite filter_cons. cbn.
  case_decide; [|done]. cbn. by rewrite decide_False.
Qed.
Lemma lookup_drop_other key key' m : key ≠ key' → lookup_key key' (drop_key key m) = lookup_key key' m.
Proof.
  intros Hne. induction m as [|[k w] m IH]; [done|]. unfold drop_key in *. rewrite filter_cons. cbn.
  case_decide as Hk; cbn; [by rewrite IH|]. subst. by rewrite decide_False.
Qed.
Lemma get_put key v m : get key (put_key key v m) = v.
Proof. unfold get. by rewrite lookup_put_key. Qed.
Lemma get_put_other key key' v m : key ≠ key' → get key' (put_key key v m) = get key' m.
Proof. intros. unfold get. by rewrite lookup_put_other. Qed.
