(* ===== verification/Db.v ===== *)
(** * Db: the tables the API keeps

    The remaining rows of [shared/models] the modelled endpoints touch, the
    database as one map per table, and the row-level reads and writes the
    endpoints are built from.  An endpoint is an [M Database] computation; the
    session's commit boundary is [transaction]. *)

From S2P Require Import Prelude Vocabulary Contracts Docs.

#[export] Instance Task_eq_dec : EqDecision Task.
Proof. solve_decision. Defined.
#[export] Instance Run_eq_dec : EqDecision Run.
Proof. solve_decision. Defined.

(** ** Rows *)

(** [user.py], [User]: the columns authorization and delivery read. *)
Record User := mkUser {
  u_id : Z;
  u_telegram_id : Z;
  u_is_admin : bool;
}.

(** [project.py], [Project]. *)
Record Project := mkProject {
  p_id : string;
  p_title : string;
  p_slug : string;
  p_status : string;
  p_initiating_run_id : option string;
  p_config : mapping;
  p_owner_id : Z;
}.
#[export] Instance Project_rebuild : Rebuild Project := λ r,
  mkProject (p_id r) (p_title r) (p_slug r) (p_status r) (p_initiating_run_id r) (p_config r)
    (p_owner_id r).

(** [repository.py], [Repository]. *)
Record Repository := mkRepository {
  rp_id : string;
  rp_project_id : string;
  rp_name : string;
  rp_git_url : string;
  rp_role : string;
  rp_acceptance_criteria : option string;
  rp_bot_username : option string;
  rp_created_at : Z;
}.

(** [application.py], [Application]. *)
Record Application := mkApplication {
  a_id : Z;
  a_repo_id : string;
  a_server_handle : string;
  a_service_name : string;
  a_reserved_ram_mb : Z;
  a_status : string;
}.
#[export] Instance Application_rebuild : Rebuild Application := λ r,
  mkApplication (a_id r) (a_repo_id r) (a_server_handle r) (a_service_name r)
    (a_reserved_ram_mb r) (a_status r).

(** [deployment.py], [Deployment]: a deployment attempt. *)
Record Deployment := mkDeployment {
  dp_id : Z;
  dp_application_id : option Z;
  dp_project_id : string;
  dp_service_name : string;
  dp_server_handle : string;
  dp_port : Z;
  dp_result : string;
  dp_deployed_at : Z;
  dp_deployment_info : doc;
  dp_deployed_sha : option string;
}.

(** [temporary_access_grant.py], [TemporaryAccessGrant]. *)
Record Grant := mkGrant {
  g_id : string;
  g_project_id : string;
  g_env_key : string;
  g_subject : string;
  g_head_sha : string;
  g_qa_run_id : string;
  g_grant_run_id : string;
  g_qa_message : QAMessage;
  g_status : string;
  g_granted_at : Z;
  g_qa_dispatched_at : option Z;
  g_revoked_at : option Z;
  g_revoke_reason : option string;
  g_revoke_run_id : option string;
  g_revoke_attempts : Z;
  g_escalated_at : option Z;
  g_last_error : option string;
  g_observed_at : option Z;
  g_observation_id : option string;
  g_slot_clear_since : option Z;
  g_slot_clear_readings : Z;
  g_reopened_at : option Z;
}.
#[export] Instance Grant_rebuild : Rebuild Grant := λ r,
  mkGrant (g_id r) (g_project_id r) (g_env_key r) (g_subject r) (g_head_sha r) (g_qa_run_id r)
    (g_grant_run_id r) (g_qa_message r) (g_status r) (g_granted_at r) (g_qa_dispatched_at r)
    (g_revoked_at r) (g_revoke_reason r) (g_revoke_run_id r) (g_revoke_attempts r)
    (g_escalated_at r) (g_last_error r) (g_observed_at r) (g_observation_id r)
    (g_slot_clear_since r) (g_slot_clear_readings r) (g_reopened_at r).

(** ** The database *)

Record Database := mkDatabase {
  tasks : gmap string Task;
  task_events : list TaskEvent;          (** oldest first: the order of the serial key *)
  stories : gmap string Story;
  runs : gmap string Run;
  grants : gmap string Grant;
  projects : gmap string Project;
  users : gmap Z User;
  repositories : gmap string Repository;
  applications : gmap Z Application;
  brainstorms : gmap string string;      (** the project of each *)
  deployments : gmap Z Deployment;
}.
#[export] Instance Database_rebuild : Rebuild Database := λ r,
  mkDatabase (tasks r) (task_events r) (stories r) (runs r) (grants r) (projects r) (users r)
    (repositories r) (applications r) (brainstorms r) (deployments r).

Definition empty_database : Database := mkDatabase ∅ [] ∅ ∅ ∅ ∅ ∅ ∅ ∅ ∅ ∅.

(** ** Row access *)

Definition put_task (t : Task) : Database → Database :=
  λ db, db <| tasks ::= <[t.(t_id) := t]> |>.
Definition put_story (s : Story) : Database → Database :=
  λ db, db <| stories ::= <[s.(s_id) := s]> |>.
Definition put_run (r : Run) : Database → Database :=
  λ db, db <| runs ::= <[r.(r_id) := r]> |>.
Definition put_grant (g : Grant) : Database → Database :=
  λ db, db <| grants ::= <[g.(g_id) := g]> |>.
Definition add_event (e : TaskEvent) : Database → Database :=
  λ db, db <| task_events ::= λ l, l ++ [e] |>.

(** [onupdate=func.now()]: an UPDATE is issued only for a row that changed. *)
Definition touched (now : Z) (old new : Task) : Task :=
  if decide (new = old) then old else new <| t_updated_at := now |>.

(** The rows of a table a SELECT returns, in the query's order. *)
Definition select {R : Type} (rows : list R) (where_ : R → bool) (before : R → R → bool) : list R :=
  merge_sort before (filter (λ r, where_ r) rows).

(** [if filter: query = query.where(column == filter)]: an absent or empty
    filter selects everything. *)
Definition where_eq (wanted : option string) (column : option string) : bool :=
  match wanted with
  | None => true
  | Some w => bool_decide (w = "") || bool_decide (column = Some w)
  end.

(** The [LIMIT] clause. *)
Definition limit {R : Type} (n : option Z) (rows : list R) : list R :=
  match n with Some n => take (Z.to_nat n) rows | None => rows end.

Lemma touched_status now old new : t_status (touched now old new) = t_status new.
Proof. unfold touched. by destruct (decide (new = old)) as [->|]. Qed.
Lemma touched_id now old new : t_id (touched now old new) = t_id new.
Proof. unfold touched. by destruct (decide (new = old)) as [->|]. Qed.

Lemma elem_of_select {R} (rows : list R) w before r :
  r ∈ select rows w before ↔ r ∈ rows ∧ w r = true.
Proof.
  unfold select. rewrite (merge_sort_Permutation _ _).
  rewrite list_elem_of_filter, Is_true_true. by rewrite (comm (∧)).

Qed.

Lemma select_sorted {R} (rows : list R) w (before : R → R → bool) :
  (∀ a b, before a b ∨ before b a) → Sorted before (select rows w before).
Proof. intros Htot. apply Sorted_merge_sort. intros a b. apply Htot. Qed.

(** ** Rows of a table by their own key *)

Definition well_keyed (db : Database) : Prop :=
  (∀ id t, db.(tasks) !! id = Some t → t.(t_id) = id) ∧
  (∀ id s, db.(stories) !! id = Some s → s.(s_id) = id) ∧
  (∀ id r, db.(runs) !! id = Some r → r.(r_id) = id) ∧
  (∀ id g, db.(grants) !! id = Some g → g.(g_id) = id).

(** The same, decided on a concrete database. *)
Definition keyedb {A} (key : A → string) (m : gmap string A) : bool :=
  forallb (λ x, bool_decide (key x.2 = x.1)) (map_to_list m).
Definition well_keyedb (db : Database) : bool :=
  keyedb t_id db.(tasks) && keyedb s_id db.(stories) && keyedb r_id db.(runs) && keyedb g_id db.(grants).
Lemma keyedb_true {A} (key : A → string) (m : gmap string A) :
  keyedb key m = true → ∀ i x, m !! i = Some x → key x = i.
Proof.
  unfold keyedb. rewrite forallb_forall. intros H i x Hx. specialize (H (i, x)).
  rewrite <-list_elem_of_In, elem_of_map_to_list in H. by apply bool_decide_eq_true in H.
Qed.
Lemma well_keyed_true db : well_keyedb db = true → well_keyed db.
Proof.
  unfold well_keyedb. rewrite !andb_true_iff. intros [[[? ?] ?] ?].
  split_and!; by apply keyedb_true.
Qed.
