(* ===== verification/Api.v ===== *)
(** * Api: who may act, and whose work it is

    The parts of [services/api/src] every router shares: [dependencies.py]
    (who is acting), [routers/_ownership.py] (the run that owns a project's
    workers) and the row lookups that answer 404. *)

From S2P Require Import Prelude Vocabulary Contracts Db.

Abbreviation NOT_FOUND := (HTTPException 404).
Abbreviation UNPROCESSABLE := (HTTPException 422).
Abbreviation CONFLICT := (HTTPException 409).
Abbreviation UNAUTHORIZED := (HTTPException 401).
Abbreviation FORBIDDEN := (HTTPException 403).

(** ** Actors ([dependencies.py]) *)

(** Who a request says it comes from: the internal key, already compared, and
    the [X-Telegram-ID] header. *)
Record caller := mkCaller { c_is_internal : bool; c_telegram_id : option Z }.

(** A service acting for itself: what every service of the platform sends. *)
Definition service : caller := mkCaller true None.

(** [resolve_actor]: [None] is a service acting for itself. *)
Definition resolve_actor (c : caller) : M Database (option User) :=
  match c.(c_telegram_id) with
  | None => if c.(c_is_internal) then mret None else raise UNAUTHORIZED
  | Some telegram_id =>
      all ← gets (λ db, (map_to_list db.(users)).*2);
      match list_find (λ u, u.(u_telegram_id) = telegram_id) all with
      | Some (_, user) => mret (Some user)
      | None => raise NOT_FOUND
      end
  end.

(** [require_internal_or_admin]. *)
Definition require_internal_or_admin (c : caller) : M Database unit :=
  actor ← resolve_actor c;
  match actor with
  | None => mret tt
  | Some u => guard_not (negb u.(u_is_admin)) FORBIDDEN
  end.

(** ** Project ownership ([shared/contracts/dto/project.py], [_ownership.py]) *)

(** [require_initiating_run]: a project that predates run ownership has no run
    its workers could be attributed to. *)
Definition require_initiating_run (p : Project) : res string :=
  match p.(p_initiating_run_id) with
  | Some run_id => if decide (run_id = "") then Exc ProjectPredatesRunOwnership else Ok run_id
  | None => Exc ProjectPredatesRunOwnership
  end.

(** [initiating_run_or_conflict]: the same refusal as an HTTP 409. *)
Definition initiating_run_or_conflict {S} (p : Project) : M S string :=
  match require_initiating_run p with
  | Ok run_id => mret run_id
  | Exc _ => raise CONFLICT
  end.

(** ** Facts *)

(** A guard only reads. *)
Definition reads_only {A} (m : M Database A) : Prop := guar (=) m.

Lemma resolve_actor_reads c : reads_only (resolve_actor c).
Proof. unfold reads_only, resolve_actor. guar_auto. Qed.
#[export] Hint Resolve resolve_actor_reads : guar.

Lemma require_internal_or_admin_reads c : reads_only (require_internal_or_admin c).
Proof. unfold reads_only, require_internal_or_admin. guar_auto. all: apply resolve_actor_reads. Qed.
#[export] Hint Resolve require_internal_or_admin_reads : guar.

Lemma service_is_allowed db : require_internal_or_admin service db = (Ok tt, db).
Proof. done. Qed.

Lemma wp_service (Q : res unit → Database → Prop) db :
  Q (Ok tt) db → wp (require_internal_or_admin service) Q db.
Proof. done. Qed.

(** A read-only guard in front of a handler: the handler runs on the same state. *)
Lemma wp_reads {A} (m : M Database A) Q db :
  reads_only m → (∀ r, Q r db) → wp m Q db.
Proof. intros Hm HQ. unfold wp. rewrite <-(Hm db). apply HQ. Qed.

Lemma require_initiating_run_Ok p run_id :
  require_initiating_run p = Ok run_id ↔ p.(p_initiating_run_id) = Some run_id ∧ run_id ≠ "".
Proof.
  unfold require_initiating_run. destruct (p_initiating_run_id p) as [r|]; [|naive_solver].
  case_decide; naive_solver.
Qed.
