(* ===== verification/ApiTasks.v ===== *)
(** * ApiTasks: the planning layer's task endpoints

    [services/api/src/routers/tasks.py], [_task_actions.py] and
    [_task_helpers.py].  Each endpoint is a [transaction]: an exception rolls
    the session back.  [now] is the instant the request runs at and [fresh_id]
    the id [generate_id] drew.  [spawn_worker], which also publishes, is in
    [ApiActions]. *)

From Stdlib Require Import Ascii.
From S2P Require Import Prelude Vocabulary Contracts Db Api.

(** ** Requests ([shared/contracts/dto/task.py], [schemas/task.py]) *)

Record TaskCreate := mkTaskCreate {
  tc_project_id : string;
  tc_type : TaskType.t;
  tc_title : string;
  tc_status : TaskStatus.t;
  tc_description : option string;
  tc_acceptance_criteria : option string;
  tc_priority : Z;
  tc_max_iterations : Z;
  tc_need_e2e : bool;
  tc_created_by : string;
  tc_source_brainstorm_id : option string;
  tc_repository_id : option string;
  tc_story_id : option string;
  tc_blocked_by_task_id : option string;
  tc_failure_metadata : option metadata;
}.
#[export] Instance TaskCreate_rebuild : Rebuild TaskCreate := λ r,
  mkTaskCreate (tc_project_id r) (tc_type r) (tc_title r) (tc_status r) (tc_description r)
    (tc_acceptance_criteria r) (tc_priority r) (tc_max_iterations r) (tc_need_e2e r)
    (tc_created_by r) (tc_source_brainstorm_id r) (tc_repository_id r) (tc_story_id r)
    (tc_blocked_by_task_id r) (tc_failure_metadata r).

(** [TaskUpdate], dumped with [exclude_unset]: the fields the client set.  It
    has no status field. *)
Inductive TaskUpdate :=
| SetProjectId (v : option string)
| SetTitle (v : option string)
| SetDescription (v : option string)
| SetPlan (v : option string)
| SetAcceptanceCriteria (v : option string)
| SetPriority (v : option Z)
| SetNeedE2e (v : option bool)
| SetRepositoryId (v : option string)
| SetStoryId (v : option string)
| SetBlockedByTaskId (v : option string)
| SetSourceBrainstormId (v : option string)
| SetCurrentIteration (v : option Z)
| SetFailureMetadata (v : option metadata).

Record TaskTransition := mkTaskTransition {
  tt_reason : option string; tt_actor : string; tt_details : metadata }.
(** [TaskTransition()], for a request without a body. *)
Definition no_body : TaskTransition := mkTaskTransition None "system" ∅.

Record TaskResume := mkTaskResume { rs_guidance : string; rs_actor : string }.

Record TaskEventCreate := mkTaskEventCreate {
  ec_event_type : TaskEventType.t;
  ec_iteration : option Z;
  ec_details : metadata;
  ec_actor : string;
}.

(** ** Helpers ([_task_helpers.py]) *)

Definition get_task (task_id : string) : M Database Task :=
  row ← gets (λ db, db.(tasks) !! task_id);
  some_or NOT_FOUND row.

(** The foreign keys of a task row. *)
Definition references_exist (db : Database) (t : Task) : bool :=
  bool_decide (is_Some (db.(projects) !! t.(t_project_id))) &&
  match t.(t_source_brainstorm_id) with
  | Some b => bool_decide (is_Some (db.(brainstorms) !! b)) | None => true end &&
  match t.(t_repository_id) with
  | Some r => bool_decide (is_Some (db.(repositories) !! r)) | None => true end &&
  match t.(t_story_id) with
  | Some s => bool_decide (is_Some (db.(stories) !! s)) | None => true end &&
  match t.(t_blocked_by_task_id) with
  | Some b => bool_decide (is_Some (db.(tasks) !! b)) | None => true end.

(** [commit_or_raise_fk] of one written row: the commit's IntegrityError as 422. *)
Definition commit_or_raise_fk (accepted : Database → bool) : M Database unit :=
  ok ← gets accepted;
  guard_not (negb ok) UNPROCESSABLE.

Definition create_status_event (task : Task) (from_status to_status actor : string)
    (details : metadata) : M Database unit :=
  modify (add_event (mkTaskEvent task.(t_id) (value TaskEventType.STATUS_CHANGE)
    (Some from_status) (Some to_status) None details actor)).

Definition validate_transition (from_status to_status : string) : M Database unit :=
  from_s ← some_or UNPROCESSABLE (member_of (A:=TaskStatus.t) from_status);
  to_s ← some_or UNPROCESSABLE (member_of (A:=TaskStatus.t) to_status);
  guard_not (negb (bool_decide (to_s ∈ task_VALID_TRANSITIONS from_s))) UNPROCESSABLE.

(** ** Actions ([_task_actions.py]) *)

(** [old_status = task.status; task.status = to_status;
    create_status_event(task, old_status, to_status, actor, details)]: the three
    lines every action repeats. *)
Definition set_status (now : Z) (task : Task) (to_status actor : string) (details : metadata)
    : M Database Task :=
  let task' := task <| t_status := to_status |> <| t_updated_at := now |> in
  modify (put_task task');;
  create_status_event task task.(t_status) to_status actor details;;
  mret task'.

Definition start_task (now : Z) (task_id : string) (body : TaskTransition) : M Database Task :=
  transaction (
    task ← get_task task_id;
    task ← (if decide (task.(t_status) = value TaskStatus.BACKLOG)
            then set_status now task (value TaskStatus.TODO) body.(tt_actor) ∅
            else mret task);
    validate_transition task.(t_status) (value TaskStatus.IN_DEV);;
    set_status now task (value TaskStatus.IN_DEV) body.(tt_actor) body.(tt_details)).

(** [_COMPLETE_PATH]. *)
Definition COMPLETE_PATH (status : string) : option (list TaskStatus.t) :=
  match member_of status with
  | Some TaskStatus.IN_DEV => Some [TaskStatus.IN_CI; TaskStatus.TESTING; TaskStatus.DONE]
  | Some TaskStatus.IN_CI => Some [TaskStatus.TESTING; TaskStatus.DONE]
  | Some TaskStatus.TESTING => Some [TaskStatus.DONE]
  | _ => None
  end.

Definition complete_task (now : Z) (task_id : string) (body : TaskTransition) : M Database Task :=
  transaction (
    task ← get_task task_id;
    path ← some_or UNPROCESSABLE (COMPLETE_PATH task.(t_status));
    fold_m (λ task next_status,
      set_status now task (value next_status) body.(tt_actor) body.(tt_details)) task path).

(** [details = body.details.copy(); if body.reason: details["reason"] = body.reason]. *)
Definition details_with_reason (body : TaskTransition) : metadata :=
  match body.(tt_reason) with
  | Some r => if decide (r = "") then body.(tt_details) else <["reason" := MStr r]> body.(tt_details)
  | None => body.(tt_details)
  end.

Definition fail_task (now : Z) (task_id : string) (body : TaskTransition) : M Database Task :=
  transaction (
    task ← get_task task_id;
    validate_transition task.(t_status) (value TaskStatus.FAILED);;
    set_status now task (value TaskStatus.FAILED) body.(tt_actor) (details_with_reason body)).

Definition reopen_task (now : Z) (task_id : string) (body : TaskTransition) : M Database Task :=
  transaction (
    task ← get_task task_id;
    validate_transition task.(t_status) (value TaskStatus.BACKLOG);;
    set_status now task (value TaskStatus.BACKLOG) body.(tt_actor) (details_with_reason body)).

Definition resume_task (now : Z) (task_id : string) (body : TaskResume) : M Database Task :=
  transaction (
    task ← get_task task_id;
    validate_transition task.(t_status) (value TaskStatus.IN_DEV);;
    task ← set_status now task (value TaskStatus.IN_DEV) body.(rs_actor)
             {[ "guidance" := MStr body.(rs_guidance) ]};
    modify (add_event (mkTaskEvent task.(t_id) (value TaskEventType.NOTE) None None None
      (<["action" := MStr "guidance"]> {[ "guidance" := MStr body.(rs_guidance) ]})
      body.(rs_actor)));;
    mret task).

Definition transition_task (now : Z) (task_id to_status : string) (body : TaskTransition)
    : M Database Task :=
  transaction (
    task ← get_task task_id;
    validate_transition task.(t_status) to_status;;
    set_status now task to_status body.(tt_actor) body.(tt_details)).

(** ** CRUD ([tasks.py]) *)

(** [Task(...)] as both creation endpoints build it. *)
Definition new_task (now : Z) (fresh_id : string) (priority : Z) (body : TaskCreate) : Task :=
  mkTask fresh_id body.(tc_project_id) (value body.(tc_type)) body.(tc_title)
    body.(tc_description) None (value body.(tc_status)) priority body.(tc_acceptance_criteria)
    0 body.(tc_max_iterations) body.(tc_need_e2e) body.(tc_created_by)
    body.(tc_source_brainstorm_id) body.(tc_repository_id) body.(tc_story_id)
    body.(tc_blocked_by_task_id) body.(tc_failure_metadata) now now.

(** [db.add(task); await commit_or_raise_fk(db)]: the primary key must be new and
    the references must exist (a row may reference itself). *)
Definition insert_task (task : Task) : M Database Task :=
  commit_or_raise_fk (λ db, bool_decide (db.(tasks) !! task.(t_id) = None));;
  modify (put_task task);;
  commit_or_raise_fk (λ db, references_exist db task);;
  mret task.

Definition create_task (now : Z) (fresh_id : string) (body : TaskCreate) : M Database Task :=
  transaction (insert_task (new_task now fresh_id body.(tc_priority) body)).

(** [select(func.min(Task.priority)).where(Task.status == BACKLOG)]. *)
Definition min_backlog_priority (db : Database) : option Z :=
  foldr (λ t acc, Some (match acc with Some m => Z.min t.(t_priority) m | None => t.(t_priority) end))
    None
    (filter (λ t, t.(t_status) = value TaskStatus.BACKLOG) (map_to_list db.(tasks)).*2).

Definition push_task (now : Z) (fresh_id : string) (body : TaskCreate) : M Database Task :=
  transaction (
    min_priority ← gets min_backlog_priority;
    let auto_priority := default 0 min_priority - 1 in
    insert_task (new_task now fresh_id auto_priority body)).

(** [setattr(task, field, value)]; [None] where the column is NOT NULL. *)
Definition set_task_field (t : Task) (f : TaskUpdate) : option Task :=
  match f with
  | SetProjectId v => p ← v; Some (t <| t_project_id := p |>)
  | SetTitle v => x ← v; Some (t <| t_title := x |>)
  | SetDescription v => Some (t <| t_description := v |>)
  | SetPlan v => Some (t <| t_plan := v |>)
  | SetAcceptanceCriteria v => Some (t <| t_acceptance_criteria := v |>)
  | SetPriority v => p ← v; Some (t <| t_priority := p |>)
  | SetNeedE2e v => b ← v; Some (t <| t_need_e2e := b |>)
  | SetRepositoryId v => Some (t <| t_repository_id := v |>)
  | SetStoryId v => Some (t <| t_story_id := v |>)
  | SetBlockedByTaskId v => Some (t <| t_blocked_by_task_id := v |>)
  | SetSourceBrainstormId v => Some (t <| t_source_brainstorm_id := v |>)
  | SetCurrentIteration v => n ← v; Some (t <| t_current_iteration := n |>)
  | SetFailureMetadata v => Some (t <| t_failure_metadata := v |>)
  end.

Definition set_task_fields (t : Task) (fs : list TaskUpdate) : option Task :=
  foldl (λ acc f, t ← acc; set_task_field t f) (Some t) fs.

Definition update_task (now : Z) (task_id : string) (body : list TaskUpdate) : M Database Task :=
  transaction (
    task ← get_task task_id;
    task' ← some_or UNPROCESSABLE (set_task_fields task body);
    commit_or_raise_fk (λ db, references_exist db task');;
    let task' := touched now task task' in
    modify (put_task task');;
    mret task').

Definition cancel_task (now : Z) (task_id : string) : M Database Task :=
  transaction (
    task ← get_task task_id;
    if decide (task.(t_status) = value TaskStatus.CANCELLED) then mret task
    else
      validate_transition task.(t_status) (value TaskStatus.CANCELLED);;
      set_status now task (value TaskStatus.CANCELLED) "system" ∅).

Definition create_task_event (task_id : string) (body : TaskEventCreate) : M Database TaskEvent :=
  transaction (
    get_task task_id;;
    let event := mkTaskEvent task_id (value body.(ec_event_type)) None None body.(ec_iteration)
                   body.(ec_details) body.(ec_actor) in
    modify (add_event event);;
    mret event).

(** [list_task_events]. *)
Definition list_task_events (task_id : string) (event_type : option string)
    : M Database (list TaskEvent) :=
  get_task task_id;;
  gets (λ db, filter (λ e, e.(te_task_id) = task_id ∧
                           where_eq event_type (Some e.(te_event_type)) = true) db.(task_events)).

(** [_TaskFilters]. *)
Record TaskFilters := mkTaskFilters {
  tf_project_id : option string;
  tf_status : option string;
  tf_type : option string;
  tf_source_brainstorm_id : option string;
  tf_repository_id : option string;
  tf_story_id : option string;
  tf_since : option Z;
  tf_limit : option Z;
  tf_sort : option string;
}.
#[export] Instance TaskFilters_rebuild : Rebuild TaskFilters := λ r,
  mkTaskFilters (tf_project_id r) (tf_status r) (tf_type r) (tf_source_brainstorm_id r)
    (tf_repository_id r) (tf_story_id r) (tf_since r) (tf_limit r) (tf_sort r).
Definition no_filter : TaskFilters := mkTaskFilters None None None None None None None None None.

Definition task_where (f : TaskFilters) (t : Task) : bool :=
  where_eq f.(tf_project_id) (Some t.(t_project_id)) &&
  where_eq f.(tf_status) (Some t.(t_status)) &&
  where_eq f.(tf_type) (Some t.(t_type)) &&
  where_eq f.(tf_source_brainstorm_id) t.(t_source_brainstorm_id) &&
  where_eq f.(tf_repository_id) t.(t_repository_id) &&
  where_eq f.(tf_story_id) t.(t_story_id) &&
  match f.(tf_since) with Some since => since <=? t.(t_updated_at) | None => true end.

Definition task_order (sort : option string) (a b : Task) : bool :=
  if decide (sort = Some "-created_at") then b.(t_created_at) <=? a.(t_created_at)
  else if decide (sort = Some "created_at") then a.(t_created_at) <=? b.(t_created_at)
  else (a.(t_priority) <? b.(t_priority)) ||
       ((a.(t_priority) =? b.(t_priority)) && (a.(t_created_at) <=? b.(t_created_at))).

Definition list_tasks (f : TaskFilters) : M Database (list Task) :=
  gets (λ db, limit f.(tf_limit)
    (select (map_to_list db.(tasks)).*2 (task_where f) (task_order f.(tf_sort)))).

(** [get_task_stats]: counts by status, and their sum. *)
Definition count_status (project_id : option string) (s : TaskStatus.t) (db : Database) : Z :=
  Z.of_nat (length (filter (λ t, t.(t_status) = value s ∧
    where_eq project_id (Some t.(t_project_id)) = true) (map_to_list db.(tasks)).*2)).

Definition get_task_stats (project_id : option string)
    : M Database (list (TaskStatus.t * Z) * Z) :=
  gets (λ db,
    let counts := (λ s, (s, count_status project_id s db)) <$> members (A:=TaskStatus.t) in
    (counts, foldl (λ total c, total + c.2) 0 counts)).

(** [get_next_tag]: [re.match(r"^#(\d+)\s", title)] on ASCII titles. *)
Definition is_digit (c : ascii) : bool :=
  let n := Z.of_N (N_of_ascii c) in (48 <=? n) && (n <=? 57).

(** [\s] also matches the separators 28 to 31. *)
Definition is_re_space (c : ascii) : bool :=
  let n := Z.of_N (N_of_ascii c) in is_space c || ((28 <=? n) && (n <=? 31)).

Fixpoint take_tag (acc : option Z) (l : list ascii) : option Z :=
  match l with
  | c :: l' =>
      if is_digit c
      then take_tag (Some (10 * default 0 acc + (Z.of_N (N_of_ascii c) - 48))) l'
      else if is_re_space c then acc else None
  | [] => None
  end.

Definition title_tag (title : string) : option Z :=
  match String.list_ascii_of_string title with
  | "#"%char :: l => take_tag None l
  | _ => None
  end.

Definition get_next_tag : M Database Z :=
  gets (λ db, foldr (λ t acc, match title_tag t.(t_title) with
                              | Some tag => Z.max tag acc | None => acc end)
                0 (map_to_list db.(tasks)).*2 + 1).
