(* ===== verification/TaskLifecycle.v ===== *)
(** * TaskLifecycle: what the task endpoints guarantee together

    The calls a client can make, sequences of them, and the invariants every
    endpoint of [ApiTasks] keeps: the audit log of status changes is a chain of
    allowed transitions that ends in the row's status. *)

From S2P Require Import Prelude Vocabulary Contracts Db Api ApiTasks.

(** ** The calls a client can make *)

Inductive TaskCall :=
| CreateTask (fresh_id : string) (body : TaskCreate)
| PushTask (fresh_id : string) (body : TaskCreate)
| StartTask (id : string) (body : TaskTransition)
| CompleteTask (id : string) (body : TaskTransition)
| FailTask (id : string) (body : TaskTransition)
| ReopenTask (id : string) (body : TaskTransition)
| ResumeTask (id : string) (body : TaskResume)
| TransitionTask (id to_status : string) (body : TaskTransition)
| UpdateTask (id : string) (body : list TaskUpdate)
| CancelTask (id : string)
| CreateTaskEvent (id : string) (body : TaskEventCreate).

Definition serve_task (now : Z) (c : TaskCall) : M Database unit :=
  match c with
  | CreateTask i b => create_task now i b;; mret tt
  | PushTask i b => push_task now i b;; mret tt
  | StartTask i b => start_task now i b;; mret tt
  | CompleteTask i b => complete_task now i b;; mret tt
  | FailTask i b => fail_task now i b;; mret tt
  | ReopenTask i b => reopen_task now i b;; mret tt
  | ResumeTask i b => resume_task now i b;; mret tt
  | TransitionTask i s b => transition_task now i s b;; mret tt
  | UpdateTask i b => update_task now i b;; mret tt
  | CancelTask i => cancel_task now i;; mret tt
  | CreateTaskEvent i b => create_task_event i b;; mret tt
  end.

(** The database after a sequence of requests, refused ones included. *)
Definition serve_tasks (calls : list (Z * TaskCall)) (db : Database) : Database :=
  foldl (λ db c, (serve_task c.1 c.2 db).2) db calls.

(** ** The audit log *)

Definition allowed (from_status to_status : string) : Prop :=
  ∃ a b : TaskStatus.t, from_status = value a ∧ to_status = value b ∧
    b ∈ task_VALID_TRANSITIONS a.

(** The status changes the log records for one task, oldest first. *)
Definition trail (id : string) (log : list TaskEvent) : list (string * string) :=
  omap (λ e, if decide (e.(te_task_id) = id)
             then a ← e.(te_from_status); b ← e.(te_to_status); Some (a, b)
             else None) log.
Arguments trail : simpl never.

(** [linked s l e]: the changes [l] lead from status [s] to status [e], each
    starting where the previous one ended and each allowed. *)
Fixpoint linked (s : string) (l : list (string * string)) (e : string) : Prop :=
  match l with
  | [] => s = e
  | (a, b) :: l => a = s ∧ allowed a b ∧ linked b l e
  end.

Record audited (db : Database) : Prop := {
  audited_keyed : ∀ id t, db.(tasks) !! id = Some t → t.(t_id) = id;
  audited_logged : ∀ e, e ∈ db.(task_events) → is_Some (db.(tasks) !! e.(te_task_id));
  audited_linked : ∀ id t, db.(tasks) !! id = Some t →
    ∃ s0 : TaskStatus.t, linked (value s0) (trail id db.(task_events)) t.(t_status);
}.

(** ** Facts about the log *)

Lemma linked_snoc s l e e' : linked s l e → allowed e e' → linked s (l ++ [(e, e')]) e'.
Proof.
  revert s. induction l as [|[a b] l IH]; intros s; cbn; [by intros ->|].
  intros (-> & Hab & Hl) He. eauto.
Qed.

Lemma linked_member (s0 : TaskStatus.t) l e : linked (value s0) l e → ∃ s : TaskStatus.t, e = value s.
Proof.
  revert s0. induction l as [|[a b] l IH]; intros s0; cbn; [intros <-; eauto|].
  intros (-> & (x & y & _ & -> & _) & Hl). eauto.
Qed.

Lemma trail_app id l l' : trail id (l ++ l') = trail id l ++ trail id l'.
Proof. apply omap_app. Qed.

Lemma trail_fresh id (log : list TaskEvent) :
  (∀ e, e ∈ log → e.(te_task_id) ≠ id) → trail id log = [].
Proof.
  induction log as [|e log IH]; intros Hlog; [done|]. unfold trail. cbn.
  rewrite decide_False by (apply Hlog; left). apply IH. intros e' He'. apply Hlog. by right.
Qed.

(** A row write that keeps the status keeps the log right. *)
Lemma audited_put db t :
  audited db → (∃ t0, db.(tasks) !! t.(t_id) = Some t0 ∧ t0.(t_status) = t.(t_status)) →
  audited (put_task t db).
Proof.
  intros [Hk Hl Hc] (t0 & Ht0 & Hst). split; cbn.
  - intros id t'. rewrite lookup_insert_Some. naive_solver.
  - intros e He. rewrite lookup_insert_is_Some. destruct (decide (t_id t = te_task_id e)); auto.
  - intros id t'. rewrite lookup_insert_Some. intros [[<- <-]|[_ ?]]; [|eauto].
    rewrite <-Hst. eauto.
Qed.

(** A log entry that is not a status change keeps it right as well. *)
Lemma audited_note db e :
  audited db → is_Some (db.(tasks) !! e.(te_task_id)) → e.(te_to_status) = None →
  audited (add_event e db).
Proof.
  intros [Hk Hl Hc] He Hto. split; cbn; [done| |].
  - intros e'. rewrite elem_of_app, list_elem_of_singleton. intros [?| ->]; auto.
  - intros id t Ht. rewrite trail_app. replace (trail id [e]) with (@nil (string * string)).
    + rewrite app_nil_r. eauto.
    + unfold trail. cbn. rewrite Hto. case_decide; [|done]. by destruct (te_from_status e).
Qed.

Section endpoints.
Variable now : Z.
Implicit Types (db : Database) (task : Task).

Lemma wp_get_task id Q db :
  (∀ t, db.(tasks) !! id = Some t → Q (Ok t) db) →
  (db.(tasks) !! id = None → Q (Exc NOT_FOUND) db) →
  wp (get_task id) Q db.
Proof.
  intros Hs Hn. unfold get_task. wp_auto; eauto.
Qed.

Lemma wp_validate_transition a b (Q : res unit → Database → Prop) db :
  (allowed a b → Q (Ok tt) db) → (¬ allowed a b → Q (Exc UNPROCESSABLE) db) →
  wp (validate_transition a b) Q db.
Proof.
  intros Hy Hn. unfold validate_transition. wp_auto.
  - apply member_of_Some in H as ->. apply member_of_Some in H0 as ->.
    apply Hy. apply negb_false_iff, bool_decide_eq_true in H1. by exists a0, a1.
  - apply member_of_Some in H as ->. apply member_of_Some in H0 as ->.
    apply Hn. apply negb_true_iff, bool_decide_eq_false in H1.
    intros (x & y & Hx%(inj value) & Hy'%(inj value) & ?). by subst.
  - apply Hn. intros (x & y & _ & -> & _). by rewrite member_of_value in *.
  - apply Hn. intros (x & y & -> & _). by rewrite member_of_value in *.
Qed.

(** A status move from the row as it stands. *)
Lemma set_status_moves task to_status actor details db :
  audited db → db.(tasks) !! task.(t_id) = Some task → allowed task.(t_status) to_status →
  wp (set_status now task to_status actor details)
    (λ r db', ∃ task', r = Ok task' ∧ audited db' ∧ db'.(tasks) = <[task.(t_id) := task']> db.(tasks) ∧
       task'.(t_id) = task.(t_id) ∧ task'.(t_status) = to_status) db.
Proof.
  intros [Hk Hl Hc] Ht Hal. unfold set_status, create_status_event. wp_auto.
  eexists. split; [done|]. split; [|done]. split; cbn.
  - intros id t'. rewrite lookup_insert_Some. naive_solver.
  - intros e. rewrite elem_of_app, list_elem_of_singleton, lookup_insert_is_Some. cbn.
    intros [He| ->]; cbn; [|by left].
    destruct (decide (t_id task = te_task_id e)); auto.
  - intros id t'. rewrite trail_app, lookup_insert_Some. cbn.
    intros [[<- <-]|[Hne Ht']]; cbn.
    + destruct (Hc _ _ Ht) as [s0 Hs0]. exists s0. unfold trail at 2. cbn.
      rewrite decide_True by done. cbn. by apply linked_snoc.
    + unfold trail at 2. cbn. rewrite decide_False by congruence. cbn. rewrite app_nil_r. eauto.
Qed.

(** Rows only move along allowed transitions, and never disappear. *)
Definition evolves db db' : Prop := ∀ id t, db.(tasks) !! id = Some t →
  ∃ t', db'.(tasks) !! id = Some t' ∧ rtc allowed t.(t_status) t'.(t_status).

Definition sound_step db db' : Prop := audited db' ∧ evolves db db'.

Lemma evolves_same db db' : db'.(tasks) = db.(tasks) → evolves db db'.
Proof. intros Heq id t Ht. exists t. rewrite Heq. split; [done|apply rtc_refl]. Qed.

Lemma evolves_insert db db' t t' :
  db.(tasks) !! t.(t_id) = Some t → db'.(tasks) = <[t.(t_id) := t']> db.(tasks) →
  rtc allowed t.(t_status) t'.(t_status) → evolves db db'.
Proof.
  intros Ht Heq Hr id t0 Ht0. rewrite Heq. destruct (decide (id = t_id t)) as [->|].
  - exists t'. rewrite lookup_insert_eq. split; [done|]. by simplify_eq.
  - exists t0. rewrite lookup_insert_ne by done. split; [done|apply rtc_refl].
Qed.

Lemma evolves_trans db1 db2 db3 : evolves db1 db2 → evolves db2 db3 → evolves db1 db3.
Proof.
  intros H1 H2 id t Ht. destruct (H1 _ _ Ht) as (t2 & Ht2 & Hr).
  destruct (H2 _ _ Ht2) as (t3 & Ht3 & Hr'). exists t3. split; [done|]. by etrans.
Qed.

Lemma sound_step_refl db : audited db → sound_step db db.
Proof. intros Ha. split; [done|by apply evolves_same]. Qed.

(** A status move, for use in the walk through an action. *)
Lemma wp_set_status id task to_status actor details (Q : res Task → Database → Prop) db0 db :
  sound_step db0 db → db.(tasks) !! id = Some task → allowed task.(t_status) to_status →
  (∀ task' db', sound_step db0 db' → db'.(tasks) !! id = Some task' →
     task'.(t_status) = to_status → Q (Ok task') db') →
  wp (set_status now task to_status actor details) Q db.
Proof.
  intros [Ha He] Ht Hal HQ. pose proof (audited_keyed _ Ha _ _ Ht) as Hid. subst id.
  eapply wp_mono; [by apply set_status_moves|].
  intros r db' (task' & -> & Ha' & Hdb & Hid & Hst). apply HQ; [|by rewrite Hdb, lookup_insert_eq|done].
  split; [done|]. eapply evolves_trans; [done|].
  eapply evolves_insert; [done|done|]. rewrite Hst. by apply rtc_once.
Qed.

(** Inserting a row with a status of the enumeration. *)
Lemma wp_insert_task (s : TaskStatus.t) task (Q : res Task → Database → Prop) db :
  audited db → task.(t_status) = value s →
  (∀ db', sound_step db db' → db'.(tasks) = <[task.(t_id) := task]> db.(tasks) →
     db.(tasks) !! task.(t_id) = None → Q (Ok task) db') →
  (∀ e db', Q (Exc e) db') →
  wp (insert_task task) Q db.
Proof.
  intros Ha Hst HQ HE. unfold insert_task, commit_or_raise_fk. wp_auto; auto.
  apply negb_false_iff, bool_decide_eq_true in H. apply HQ; [|done|done].
  destruct Ha as [Hk Hl Hc]. split; [split|]; cbn.
  - intros id t. rewrite lookup_insert_Some. naive_solver.
  - intros e He. rewrite lookup_insert_is_Some.
    destruct (decide (t_id task = te_task_id e)); auto.
  - intros id t. rewrite lookup_insert_Some. intros [[<- <-]|[_ ?]]; [|eauto].
    exists s. rewrite trail_fresh; [by symmetry|].
    intros e He Heq. destruct (Hl _ He) as [? Ht]. by rewrite Heq, H in Ht.
  - intros id t Ht. exists t. cbn. rewrite lookup_insert_ne by congruence.
    split; [done|apply rtc_refl].
Qed.
End endpoints.

(** Walk through an action: look the row up, validate, move. *)
Ltac task_walk :=
  repeat first
    [ wp_step; cbn beta iota
    | apply wp_get_task; [intros ? ?|intros ?]
    | apply wp_validate_transition; intros ?
    | eapply wp_set_status; [eassumption|eassumption|eassumption|intros ? ? ? ? ?]
    | progress unfold on_ok ];
  auto using sound_step_refl.

Lemma allowed_values (a b : TaskStatus.t) : b ∈ task_VALID_TRANSITIONS a → allowed (value a) (value b).
Proof. intros ?. by exists a, b. Qed.

Section preservation.
Variable now : Z.
Implicit Types db : Database.

(** Every action but [complete] has this shape. *)
Definition sound {A} (m : M Database A) : Prop :=
  ∀ db, audited db → wp m (λ _ db', sound_step db db') db.

Lemma start_task_sound id body : sound (start_task now id body).
Proof.
  intros db Ha. pose proof (sound_step_refl _ Ha). unfold start_task. task_walk.
  eapply wp_set_status; [eassumption|eassumption| |intros ? ? ? ? ?].
  - rewrite e. apply allowed_values. set_solver.
  - task_walk.
Qed.

(** A path of statuses each allowed from the one before. *)
Fixpoint walkable (s : string) (path : list TaskStatus.t) : Prop :=
  match path with
  | [] => True
  | p :: path => allowed s (value p) ∧ walkable (value p) path
  end.

Lemma COMPLETE_PATH_walkable s path : COMPLETE_PATH s = Some path → walkable s path.
Proof.
  unfold COMPLETE_PATH. destruct (member_of s) as [x|] eqn:E; [|done].
  apply member_of_Some in E as ->.
  destruct x; intros [= <-]; repeat split; apply allowed_values; set_solver.
Qed.

Lemma wp_walk id actor details (Q : res Task → Database → Prop) db0 path :
  ∀ task db, sound_step db0 db → db.(tasks) !! id = Some task → walkable task.(t_status) path →
  (∀ task' db', sound_step db0 db' → db'.(tasks) !! id = Some task' →
     task'.(t_status) = default task.(t_status) (value <$> last path) → Q (Ok task') db') →
  wp (fold_m (λ task s, set_status now task (value s) actor details) task path) Q db.
Proof.
  induction path as [|p path IH]; intros task db Hs Ht Hw HQ.
  - apply wp_ret. by apply HQ.
  - destruct Hw as [Hal Hw]. apply wp_bind.
    eapply wp_set_status; [done|done|done|]. intros task' db' Hs' Ht' Hst.
    apply (IH task'); [done|done|by rewrite Hst|].
    intros t2 db2 Hs2 Ht2 Hst2. apply HQ; [done|done|]. rewrite Hst2, Hst.
    rewrite last_cons. by destruct (last path).
Qed.

Lemma complete_task_sound id body : sound (complete_task now id body).
Proof.
  intros db Ha. pose proof (sound_step_refl _ Ha). unfold complete_task. task_walk.
  eapply wp_walk; [eassumption|eassumption|by apply COMPLETE_PATH_walkable|]. done.
Qed.

Lemma fail_task_sound id body : sound (fail_task now id body).
Proof. intros db Ha. pose proof (sound_step_refl _ Ha). unfold fail_task. task_walk. Qed.

Lemma reopen_task_sound id body : sound (reopen_task now id body).
Proof. intros db Ha. pose proof (sound_step_refl _ Ha). unfold reopen_task. task_walk. Qed.

Lemma transition_task_sound id s body : sound (transition_task now id s body).
Proof. intros db Ha. pose proof (sound_step_refl _ Ha). unfold transition_task. task_walk. Qed.

Lemma cancel_task_sound id : sound (cancel_task now id).
Proof. intros db Ha. pose proof (sound_step_refl _ Ha). unfold cancel_task. task_walk. Qed.

Lemma add_event_sound db e :
  audited db → is_Some (db.(tasks) !! e.(te_task_id)) → e.(te_to_status) = None →
  sound_step db (add_event e db).
Proof. intros. split; [by apply audited_note|by apply evolves_same]. Qed.

Lemma sound_step_trans db1 db2 db3 : sound_step db1 db2 → sound_step db2 db3 → sound_step db1 db3.
Proof. intros [_ H1] [Ha H2]. split; [done|by eapply evolves_trans]. Qed.

Lemma resume_task_sound id body : sound (resume_task now id body).
Proof.
  intros db Ha. pose proof (sound_step_refl _ Ha). unfold resume_task. task_walk.
  eapply sound_step_trans; [eassumption|]. apply add_event_sound; [by destruct H2| |done].
  cbn. pose proof (audited_keyed _ (proj1 H2) _ _ H3) as ->. by eexists.
Qed.

Lemma create_task_event_sound id body : sound (create_task_event id body).
Proof.
  intros db Ha. pose proof (sound_step_refl _ Ha). unfold create_task_event. task_walk.
  by apply add_event_sound.
Qed.

Lemma insert_sound (s : TaskStatus.t) task : task.(t_status) = value s →
  sound (transaction (insert_task task)).
Proof.
  intros Hst db Ha. apply wp_transaction.
  eapply wp_insert_task; [done|done|done|]. intros. by apply sound_step_refl.
Qed.

Lemma create_task_sound id body : sound (create_task now id body).
Proof. by eapply insert_sound. Qed.

Lemma push_task_sound id body : sound (push_task now id body).
Proof.
  intros db Ha. unfold push_task. apply wp_transaction, wp_bind, wp_gets. cbn.
  eapply wp_insert_task; [done|done|done|]. intros. by apply sound_step_refl.
Qed.

Lemma set_task_field_keeps t f t' :
  set_task_field t f = Some t' → t'.(t_id) = t.(t_id) ∧ t'.(t_status) = t.(t_status).
Proof. destruct f as [[]|[]| | | |[]|[]| | | | |[]|]; intros [= <-]; done. Qed.

Lemma set_task_fields_keeps fs : ∀ t t',
  set_task_fields t fs = Some t' → t'.(t_id) = t.(t_id) ∧ t'.(t_status) = t.(t_status).
Proof.
  unfold set_task_fields. induction fs as [|f fs IH] using rev_ind; intros t t'; cbn; [by intros [= ->]|].
  rewrite foldl_app. cbn. intros Hb. apply bind_Some in Hb as (t1 & H1 & H2).
  apply IH in H1 as [? ?]. apply set_task_field_keeps in H2 as [? ?]. split; congruence.
Qed.

Lemma update_task_sound id body : sound (update_task now id body).
Proof.
  intros db Ha. pose proof (sound_step_refl _ Ha). unfold update_task, commit_or_raise_fk. task_walk.
  match goal with H : set_task_fields _ _ = Some ?u |- _ =>
    apply set_task_fields_keeps in H as [Hid Hst]; rename u into t' end.
  pose proof (audited_keyed _ Ha _ _ H0) as <-. split.
  - apply audited_put; [done|]. rewrite touched_id, touched_status, Hid, Hst. eauto.
  - eapply evolves_insert; [done|cbn; by rewrite touched_id, Hid|].
    rewrite touched_status, Hst. apply rtc_refl.
Qed.

Lemma serve_task_sound c : sound (serve_task now c).
Proof.
  assert (∀ A (m : M Database A), sound m → sound (m;; mret tt)) as Hret.
  { intros A m Hm db Ha. apply wp_bind. eapply wp_mono; [by apply Hm|].
    intros [a|e] db' H; done. }
  destruct c; cbn; apply Hret; auto using create_task_sound, push_task_sound, start_task_sound,
    complete_task_sound, fail_task_sound, reopen_task_sound, resume_task_sound,
    transition_task_sound, update_task_sound, cancel_task_sound, create_task_event_sound.
Qed.
End preservation.

Lemma serve_tasks_sound calls db : audited db → sound_step db (serve_tasks calls db).
Proof.
  revert db. induction calls as [|[now c] calls IH]; intros db Ha; cbn; [by apply sound_step_refl|].
  pose proof (serve_task_sound now c db Ha) as Hs. unfold wp in Hs.
  eapply sound_step_trans; [exact Hs|]. apply IH, Hs.
Qed.

Lemma audited_no_tasks db : db.(tasks) = ∅ → db.(task_events) = [] → audited db.
Proof.
  intros Ht He. split; intros *; rewrite ?Ht, ?He, ?lookup_empty; [done| |done].
  by rewrite elem_of_nil.
Qed.

(** ** The properties *)


(** From any consistent database and under any requests, a task's
    status moves only along [VALID_TRANSITIONS]; a cancelled task stays
    cancelled for good, and no task row disappears. *)
Theorem task_statuses_follow_the_machine db calls id t :
  audited db → db.(tasks) !! id = Some t →
  ∃ t', (serve_tasks calls db).(tasks) !! id = Some t' ∧
    rtc allowed t.(t_status) t'.(t_status) ∧
    (t.(t_status) = value TaskStatus.CANCELLED → t'.(t_status) = value TaskStatus.CANCELLED).
Proof.
  intros Ha Ht. destruct (serve_tasks_sound calls db Ha) as [_ He].
  destruct (He _ _ Ht) as (t' & Ht' & Hr). exists t'. split; [done|]. split; [done|].
  intros Hc. rewrite Hc in Hr. inversion Hr as [|? y ? (a & b & Ea & _ & Hb) _]; [done|].
  apply (inj value) in Ea as <-. by apply elem_of_nil in Hb.
Qed.

(** The log entry of one status change. *)
Definition status_entry (id actor : string) (details : metadata) (from_status to_status : string)
    : TaskEvent :=
  mkTaskEvent id (value TaskEventType.STATUS_CHANGE) (Some from_status) (Some to_status) None
    details actor.

(** A row written and logged. *)
Definition logged (id : string) (t : Task) (entries : list TaskEvent) (db : Database) : Database :=
  db <| tasks ::= <[id := t]> |> <| task_events ::= λ l, l ++ entries |>.

Lemma logged_twice id t1 t2 e1 e2 db :
  logged id t2 e2 (logged id t1 e1 db) = logged id t2 (e1 ++ e2) db.
Proof.
  destruct db. unfold logged, put_field. cbn. f_equal; [apply insert_insert_eq|by rewrite <-app_assoc].
Qed.

(** Walking a task along a path, as an equation. *)
Lemma walk_eq now actor details (p : TaskStatus.t) (path : list TaskStatus.t) : ∀ t db,
  fold_m (λ task s, set_status now task (value s) actor details) t (p :: path) db =
    let t' := t <| t_status := value (foldl (λ _ s, s) p path) |> <| t_updated_at := now |> in
    (Ok t', logged t.(t_id) t'
       (zip_with (status_entry t.(t_id) actor details)
          (t.(t_status) :: (value <$> (p :: path))) (value <$> (p :: path))) db).
Proof.
  revert p. induction path as [|q path IH]; intros p t db; [reflexivity|].
  etransitivity; [exact (IH q (t <| t_status := value p |> <| t_updated_at := now |>)
    (logged t.(t_id) (t <| t_status := value p |> <| t_updated_at := now |>)
      [status_entry t.(t_id) actor details t.(t_status) (value p)] db))|].
  clear IH. cbv zeta.
  change (t_id (t <| t_status := value p |> <| t_updated_at := now |>)) with (t_id t).
  rewrite logged_twice. reflexivity.
Qed.

(** [complete_task] on every branch: an unknown task is a 404
    and a task not in development, CI or testing a 422, neither of which changes
    anything; otherwise the task is DONE, and the log gains one entry for every
    status it was walked through, in order, by the caller's actor. *)
Theorem complete_task_branches now id body db :
  well_keyed db →
  complete_task now id body db =
    match db.(tasks) !! id with
    | None => (Exc NOT_FOUND, db)
    | Some t =>
        match COMPLETE_PATH t.(t_status) with
        | None => (Exc UNPROCESSABLE, db)
        | Some path =>
            let t' := t <| t_status := value TaskStatus.DONE |> <| t_updated_at := now |> in
            (Ok t', logged id t' (zip_with (status_entry id body.(tt_actor) body.(tt_details))
                       (t.(t_status) :: (value <$> path)) (value <$> path)) db)
        end
    end.
Proof.
  intros (Hk & _). unfold complete_task, transaction, get_task, mbind, M_bind, gets, some_or.
  destruct (tasks db !! id) as [t|] eqn:Ht; [|done].
  pose proof (Hk _ _ Ht) as <-. cbv beta iota delta [mret M_ret].
  unfold COMPLETE_PATH. destruct (member_of (t_status t)) as [[]|]; try reflexivity;
    cbv beta iota; rewrite walk_eq; reflexivity.
Qed.

(** The order of a listing by priority is total and transitive. *)
Lemma task_order_total sort a b : task_order sort a b ∨ task_order sort b a.
Proof. unfold task_order. rewrite !Is_true_true. repeat case_decide; lia. Qed.
Lemma task_order_trans sort a b c :
  task_order sort a b → task_order sort b c → task_order sort a c.
Proof. unfold task_order. rewrite !Is_true_true. repeat case_decide; lia. Qed.

Lemma min_backlog_priority_spec db t id :
  db.(tasks) !! id = Some t → t.(t_status) = value TaskStatus.BACKLOG →
  ∃ m, min_backlog_priority db = Some m ∧ m ≤ t.(t_priority).
Proof.
  intros Ht Hst. unfold min_backlog_priority.
  set (l := filter _ _). assert (t ∈ l) as Hin.
  { apply list_elem_of_filter. split; [done|]. apply list_elem_of_fmap.
    exists (id, t). split; [done|]. by apply elem_of_map_to_list. }
  clearbody l. induction l as [|u l IH]; [by apply elem_of_nil in Hin|]. cbn.
  apply elem_of_cons in Hin as [<-|Hin].
  - eexists. split; [done|]. destruct (foldr _ _ l); lia.
  - destruct (IH Hin) as (m & -> & ?). eexists. split; [done|]. lia.
Qed.

(** A task pushed into the backlog is the first one the
    backlog listing returns, ahead of every task already there. *)
Theorem pushed_task_heads_the_backlog now fresh_id body db t db' :
  body.(tc_status) = TaskStatus.BACKLOG →
  push_task now fresh_id body db = (Ok t, db') →
  ∃ rest, list_tasks (no_filter <| tf_status := Some (value TaskStatus.BACKLOG) |>) db' =
          (Ok (t :: rest), db').
Proof.
  intros Hst Hpush. unfold list_tasks, gets. cbn.
  assert (t_status t = value TaskStatus.BACKLOG ∧ db'.(tasks) = <[t.(t_id) := t]> db.(tasks) ∧
          t.(t_priority) = default 0 (min_backlog_priority db) - 1) as (Ht & Hdb & Hp).
  { assert (wp (push_task now fresh_id body) (λ r db', match r with
      | Ok t => t_status t = value TaskStatus.BACKLOG ∧ db'.(tasks) = <[t.(t_id) := t]> db.(tasks) ∧
                t.(t_priority) = default 0 (min_backlog_priority db) - 1
      | Exc _ => True end) db) as Hwp.
    { unfold push_task, insert_task, commit_or_raise_fk. wp_auto; [|done..].
      split_and!; [by cbn; rewrite Hst|done|done]. }
    unfold wp in Hwp. by rewrite Hpush in Hwp. }
  set (l := select _ _ _).
  assert (t ∈ l) as Hin.
  { apply elem_of_select. split.
    - apply list_elem_of_fmap. exists (t_id t, t). split; [done|].
      apply elem_of_map_to_list. by rewrite Hdb, lookup_insert_eq.
    - unfold task_where. cbn. by rewrite Ht. }
  assert (StronglySorted (task_order None) l) as Hsort.
  { apply Sorted_StronglySorted; [intros a b c; apply task_order_trans|].
    apply select_sorted. intros a b. apply task_order_total. }
  assert (∀ u, u ∈ l → u = t ∨ t.(t_priority) < u.(t_priority)) as Hlow.
  { intros u (Hu & Hw)%elem_of_select. apply list_elem_of_fmap in Hu as ([i u'] & -> & Hu).
    apply elem_of_map_to_list in Hu. rewrite Hdb in Hu.
    apply lookup_insert_Some in Hu as [[_ <-]|[_ Hu]]; [by left|right]. cbn in *.
    destruct (min_backlog_priority_spec db u' i) as (m & Hm & Hle); [done| |].
    - unfold task_where in Hw. cbn in Hw. destruct_and? Hw.
      apply andb_true_iff in Hw as [Hw _]. repeat (apply andb_true_iff in Hw as [Hw _]).
      revert Hw. rewrite orb_true_iff, !bool_decide_eq_true. naive_solver.
    - rewrite Hm in Hp. cbn in Hp. lia. }
  clearbody l. destruct l as [|h rest]; [by apply elem_of_nil in Hin|].
  exists rest. do 2 f_equal. destruct (Hlow h) as [->|Hlt]; [by left|done|].
  apply elem_of_cons in Hin as [->|Hin]; [done|].
  apply StronglySorted_inv in Hsort as [_ Hall]. rewrite list.Forall_forall in Hall.
  specialize (Hall _ Hin). apply Is_true_true in Hall. revert Hall. unfold task_order.
  rewrite !decide_False by done. lia.
Qed.

(** Sums over a list, as [foldl] writes them. *)
Definition total_of {A} (f : A → Z) (l : list A) : Z := foldl (λ total x, total + f x) 0 l.

Lemma total_of_plus {A} (f g : A → Z) l : total_of (λ x, f x + g x) l = total_of f l + total_of g l.
Proof.
  unfold total_of. change 0 with (0 + 0) at 1. generalize 0 at 1 3 as b. generalize 0 as c.
  induction l as [|x l IH]; intros c b; cbn; [done|]. rewrite <-IH. f_equal. lia.
Qed.

Lemma total_of_ext {A} (f g : A → Z) l : (∀ x, f x = g x) → total_of f l = total_of g l.
Proof.
  intros H. unfold total_of. generalize 0. induction l as [|x l IH]; intros b; cbn; [done|].
  by rewrite H, IH.
Qed.

(** A sum over the statuses of how many of [l] have each is the length of [l]. *)
Lemma counts_by_status (project : option string) (l : list Task) :
  (∀ t, t ∈ l → ∃ s : TaskStatus.t, t.(t_status) = value s) →
  total_of (λ s, Z.of_nat (length (filter (λ t, t.(t_status) = value s ∧
    where_eq project (Some t.(t_project_id)) = true) l))) (members (A:=TaskStatus.t)) =
  Z.of_nat (length (filter (λ t, where_eq project (Some t.(t_project_id)) = true) l)).
Proof.
  intros Hl. induction l as [|t l IH]; [done|].
  assert (∃ s : TaskStatus.t, t_status t = value s) as [s Hs] by (apply Hl; left).
  specialize (IH (λ u Hu, Hl u (list_elem_of_further _ _ _ Hu))). clear Hl.
  set (mine := where_eq project (Some t.(t_project_id))).
  rewrite (total_of_ext _ (λ x, (if decide (s = x ∧ mine = true) then 1 else 0) +
    Z.of_nat (length (filter (λ t, t.(t_status) = value x ∧
      where_eq project (Some t.(t_project_id)) = true) l)))).
  2: { intros x. rewrite filter_cons.
       rewrite (decide_ext _ (s = x ∧ mine = true)); [case_decide; cbn [length]; lia|].
       rewrite Hs. split; intros [E ?]; (split; [|done]); [by apply (inj value)|by subst]. }
  rewrite total_of_plus, IH, filter_cons. fold mine.
  assert (∀ b : bool, total_of (λ x, if decide (s = x ∧ b = true) then 1 else 0) members =
    if b then 1 else 0) as -> by (intros []; destruct s; vm_compute; reflexivity).
  destruct mine; [rewrite decide_True by done|rewrite decide_False by done]; cbn [length]; lia.
Qed.

Lemma get_task_stats_eq project db :
  get_task_stats project db =
    (Ok ((λ s, (s, count_status project s db)) <$> members,
         total_of (λ s, count_status project s db) members), db).
Proof. reflexivity. Qed.

(** The statistics endpoint partitions the tasks: in a database
    reached by requests, the counts by status add up to the number of tasks of
    the project, so no task is missing from the board or counted twice. *)
Theorem task_stats_partition_the_tasks db calls project counts total db' :
  db.(tasks) = ∅ → db.(task_events) = [] →
  get_task_stats project (serve_tasks calls db) = (Ok (counts, total), db') →
  (∀ s n, (s, n) ∈ counts → n = count_status project s db') ∧
  total = Z.of_nat (length (filter (λ t, where_eq project (Some t.(t_project_id)) = true)
    (map_to_list db'.(tasks)).*2)).
Proof.
  intros Ht He. destruct (serve_tasks_sound calls db) as [Ha _]; [by apply audited_no_tasks|].
  generalize dependent (serve_tasks calls db). intros db1 Ha H.
  assert (db' = db1 ∧ counts = ((λ s, (s, count_status project s db1)) <$> members) ∧
    total = total_of (λ s, count_status project s db1) members) as (-> & -> & ->).
  { rewrite get_task_stats_eq in H.
    remember ((λ s, (s, count_status project s db1)) <$> members) as cs eqn:Hcs. clear Hcs.
    remember (total_of (λ s, count_status project s db1) members) as n eqn:Hn. clear Hn.
    by simplify_eq. }
  split.
  - intros s n (s' & [= <- <-] & _)%list_elem_of_fmap. done.
  - apply counts_by_status. intros t ([id t'] & -> & Hin)%list_elem_of_fmap.
    apply elem_of_map_to_list in Hin. destruct (audited_linked _ Ha _ _ Hin) as [s0 Hs].
    by eapply linked_member.
Qed.

(** The tag [get_next_tag] hands out is larger than every tag
    a task title already carries, so a tag is never handed out twice for tasks
    that kept theirs. *)
Theorem next_tag_is_fresh db n db' id t tag :
  get_next_tag db = (Ok n, db') → db.(tasks) !! id = Some t →
  title_tag t.(t_title) = Some tag → tag < n.
Proof.
  intros [= <- _] Ht Htag.
  assert (t ∈ (map_to_list (tasks db)).*2) as Hin.
  { apply list_elem_of_fmap. exists (id, t). split; [done|]. by apply elem_of_map_to_list. }
  induction (map_to_list (tasks db)).*2 as [|u l IH]; [by apply elem_of_nil in Hin|].
  cbn. apply elem_of_cons in Hin as [<-|Hin]; [rewrite Htag; lia|].
  specialize (IH Hin). destruct (title_tag (t_title u)); lia.
Qed.

(** ** The properties at concrete inputs *)

Definition sample_project : Project :=
  mkProject "project-1" "Todo bot" "todo-bot" "active" (Some "live-1") [] 7.
Definition sample_db : Database :=
  empty_database <| projects := {[ "project-1" := sample_project ]} |>.
Definition sample_body : TaskCreate :=
  mkTaskCreate "project-1" TaskType.FEATURE "#4 Add login" TaskStatus.BACKLOG None None 5 3 false
    "system" None None None None None.
Definition sample_calls : list (Z * TaskCall) :=
  [(1, CreateTask "task-1" sample_body); (2, StartTask "task-1" no_body);
   (3, StartTask "task-1" no_body); (4, CompleteTask "task-1" no_body)].
Definition sample_row (calls : list (Z * TaskCall)) : Task :=
  default (new_task 0 "none" 0 sample_body) ((serve_tasks calls sample_db).(tasks) !! "task-1").


Lemma sample_audited : audited (serve_tasks sample_calls sample_db).
Proof. apply serve_tasks_sound, audited_no_tasks; reflexivity. Qed.

Lemma task_statuses_follow_the_machine_witness :
  let db := serve_tasks (sample_calls ++ [(5, ReopenTask "task-1" no_body); (6, CancelTask "task-1")])
              sample_db in
  ∃ t', (serve_tasks [(7, ReopenTask "task-1" no_body)] db).(tasks) !! "task-1" = Some t' ∧
    rtc allowed "cancelled" t'.(t_status) ∧ ("cancelled" = "cancelled" → t'.(t_status) = "cancelled").
Proof.
  apply (task_statuses_follow_the_machine _ _ "task-1"
    (sample_row (sample_calls ++ [(5, ReopenTask "task-1" no_body); (6, CancelTask "task-1")]))).
  - apply serve_tasks_sound, audited_no_tasks; reflexivity.
  - vm_compute. reflexivity.
Defined.

Lemma complete_task_branches_witness :
  (complete_task 9 "task-2" no_body sample_db).1 = Exc NOT_FOUND.
Proof.
  rewrite (complete_task_branches 9 "task-2" no_body sample_db); [reflexivity|].
  repeat split; intros * H; vm_compute in H; discriminate H.
Defined.

Definition backlog_db : Database := serve_tasks [(1, CreateTask "task-1" sample_body)] sample_db.
Definition pushed := push_task 9 "task-2" sample_body backlog_db.
Lemma pushed_task_heads_the_backlog_witness :
  match pushed with
  | (Ok t, db') => ∃ rest, list_tasks (no_filter <| tf_status := Some "backlog" |>) db' =
                           (Ok (t :: rest), db')
  | _ => False
  end.
Proof.
  destruct pushed as [[t|e] db'] eqn:E; [|vm_compute in E; discriminate E].
  exact (pushed_task_heads_the_backlog 9 "task-2" sample_body backlog_db t db' eq_refl E).
Defined.

Lemma task_stats_partition_the_tasks_witness :
  match get_task_stats None (serve_tasks sample_calls sample_db) with
  | (Ok (counts, total), db') =>
      (∀ s n, (s, n) ∈ counts → n = count_status None s db') ∧
      total = Z.of_nat (length (filter (λ t, where_eq None (Some t.(t_project_id)) = true)
        (map_to_list db'.(tasks)).*2))
  | _ => False
  end.
Proof.
  destruct (get_task_stats None (serve_tasks sample_calls sample_db)) as [[[counts total]|e] db'] eqn:E;
    [|discriminate E].
  apply (task_stats_partition_the_tasks sample_db sample_calls None counts total db');
    [reflexivity|reflexivity|exact E].
Defined.

Lemma next_tag_is_fresh_witness :
  (get_next_tag (serve_tasks sample_calls sample_db)).1 = Ok 5 ∧ 4 < 5.
Proof.
  split; [vm_compute; reflexivity|].
  eapply (next_tag_is_fresh (serve_tasks sample_calls sample_db) 5 _ "task-1" (sample_row sample_calls));
    vm_compute; reflexivity.
Defined.
