(* ===== verification/ApiStories.v ===== *)
(** * ApiStories: the story endpoints

    [services/api/src/routers/stories.py]: creation, listing, the field update
    and the actions of the story state machine.  [send_to_architect], which also
    publishes, is in [ApiActions].  An exception rolls the session back; an
    [IntegrityError] no handler catches is the API's 500. *)

From S2P Require Import Prelude Vocabulary Contracts Db Api.

(** ** Requests ([shared/contracts/dto/story.py]) *)

Record StoryCreate := mkStoryCreate {
  sc_project_id : string;
  sc_title : string;
  sc_description : option string;
  sc_acceptance_criteria : option string;
  sc_parent_story_id : option string;
  sc_type : StoryType.t;
  sc_priority : Z;
  sc_blocked_by_story_id : option string;
  sc_created_by : string;
}.

(** [StoryUpdate], dumped with [exclude_unset]. *)
Inductive StoryUpdate :=
| StorySetTitle (v : option string)
| StorySetDescription (v : option string)
| StorySetAcceptanceCriteria (v : option string)
| StorySetParentStoryId (v : option string)
| StorySetType (v : option StoryType.t)
| StorySetPriority (v : option Z)
| StorySetBlockedBy (v : option string)
| StorySetQuarantineReason (v : option metadata)
| StorySetPrNumber (v : option Z).

(** ** Helpers *)

Definition get_story (story_id : string) : M Database Story :=
  row ← gets (λ db, db.(stories) !! story_id);
  some_or NOT_FOUND row.

Definition story_validate_transition (from_status to_status : string) : M Database unit :=
  from_s ← some_or UNPROCESSABLE (member_of (A:=StoryStatus.t) from_status);
  to_s ← some_or UNPROCESSABLE (member_of (A:=StoryStatus.t) to_status);
  guard_not (negb (bool_decide (to_s ∈ story_VALID_TRANSITIONS from_s))) UNPROCESSABLE.

Definition do_transition (story : Story) (to_status : StoryStatus.t) : M Database Story :=
  story_validate_transition story.(s_status) (value to_status);;
  mret (story <| s_status := value to_status |>).

(** [qa_failure] of a quarantine reason is a dictionary. *)
Definition holds_qa_failure (reason : metadata) : bool :=
  match reason !! "qa_failure" with
  | Some (MQAFailure _) | Some (MObj _) | Some (MJson _) => true
  | _ => false
  end.

Definition validate_retry_parent (body : StoryCreate) : M Database unit :=
  match body.(sc_parent_story_id) with
  | None => mret tt
  | Some parent_id =>
      row ← gets (λ db, db.(stories) !! parent_id);
      parent ← some_or NOT_FOUND (p ← row; if decide (p.(s_project_id) = body.(sc_project_id))
                                           then Some p else None);
      guard_not (bool_decide (parent.(s_status) = value StoryStatus.WAITING_HUMAN_REVIEW) &&
                 holds_qa_failure (default ∅ parent.(s_quarantine_reason))) CONFLICT
  end.

(** The foreign keys of a story row. *)
Definition story_references_exist (db : Database) (s : Story) : bool :=
  bool_decide (is_Some (db.(projects) !! s.(s_project_id))) &&
  match s.(s_parent_story_id) with
  | Some p => bool_decide (is_Some (db.(stories) !! p)) | None => true end &&
  match s.(s_blocked_by_story_id) with
  | Some b => bool_decide (is_Some (db.(stories) !! b)) | None => true end.

(** ** CRUD *)

Definition create_story (now : Z) (fresh_id : string) (body : StoryCreate) : M Database Story :=
  transaction (
    validate_retry_parent body;;
    let story := mkStory fresh_id body.(sc_project_id) body.(sc_parent_story_id) body.(sc_title)
      body.(sc_description) body.(sc_acceptance_criteria) (value body.(sc_type))
      (value StoryStatus.CREATED) body.(sc_priority) body.(sc_blocked_by_story_id)
      body.(sc_created_by) None None None now in
    taken ← gets (λ db, bool_decide (is_Some (db.(stories) !! fresh_id)));
    guard_not taken IntegrityError;;
    modify (put_story story);;
    ok ← gets (λ db, story_references_exist db story);
    guard_not (negb ok) IntegrityError;;
    mret story).

Record StoryFilters := mkStoryFilters {
  sf_project_id : option string;
  sf_status : option string;
  sf_parent_story_id : option string;
  sf_type : option string;
  sf_priority : option Z;
  sf_sort : option string;
}.
#[export] Instance StoryFilters_rebuild : Rebuild StoryFilters := λ r,
  mkStoryFilters (sf_project_id r) (sf_status r) (sf_parent_story_id r) (sf_type r)
    (sf_priority r) (sf_sort r).
Definition no_story_filter : StoryFilters := mkStoryFilters None None None None None None.

Definition story_where (f : StoryFilters) (s : Story) : bool :=
  where_eq f.(sf_project_id) (Some s.(s_project_id)) &&
  where_eq f.(sf_status) (Some s.(s_status)) &&
  where_eq f.(sf_parent_story_id) s.(s_parent_story_id) &&
  where_eq f.(sf_type) (Some s.(s_type)) &&
  match f.(sf_priority) with Some p => s.(s_priority) =? p | None => true end.

Definition story_order (sort : option string) (a b : Story) : bool :=
  if decide (sort = Some "-created_at") then b.(s_created_at) <=? a.(s_created_at)
  else if decide (sort = Some "created_at") then a.(s_created_at) <=? b.(s_created_at)
  else if decide (sort = Some "-priority") then
    (b.(s_priority) <? a.(s_priority)) ||
    ((a.(s_priority) =? b.(s_priority)) && (a.(s_created_at) <=? b.(s_created_at)))
  else (a.(s_priority) <? b.(s_priority)) ||
       ((a.(s_priority) =? b.(s_priority)) && (a.(s_created_at) <=? b.(s_created_at))).

Definition list_stories (f : StoryFilters) : M Database (list Story) :=
  gets (λ db, select (map_to_list db.(stories)).*2 (story_where f) (story_order f.(sf_sort))).

(** [setattr(story, field, value)]; [None] where the column is NOT NULL. *)
Definition set_story_field (s : Story) (f : StoryUpdate) : option Story :=
  match f with
  | StorySetTitle v => x ← v; Some (s <| s_title := x |>)
  | StorySetDescription v => Some (s <| s_description := v |>)
  | StorySetAcceptanceCriteria v => Some (s <| s_acceptance_criteria := v |>)
  | StorySetParentStoryId v => Some (s <| s_parent_story_id := v |>)
  | StorySetType v => x ← v; Some (s <| s_type := value x |>)
  | StorySetPriority v => x ← v; Some (s <| s_priority := x |>)
  | StorySetBlockedBy v => Some (s <| s_blocked_by_story_id := v |>)
  | StorySetQuarantineReason v => Some (s <| s_quarantine_reason := v |>)
  | StorySetPrNumber v => Some (s <| s_pr_number := v |>)
  end.

Definition set_story_fields (s : Story) (fs : list StoryUpdate) : option Story :=
  foldl (λ acc f, s ← acc; set_story_field s f) (Some s) fs.

Definition update_story (story_id : string) (body : list StoryUpdate) : M Database Story :=
  transaction (
    story ← get_story story_id;
    story' ← some_or IntegrityError (set_story_fields story body);
    ok ← gets (λ db, story_references_exist db story');
    guard_not (negb ok) IntegrityError;;
    modify (put_story story');;
    mret story').

(** ** Actions *)

(** The body the action endpoints share: look up, transition, commit. *)
Definition move_story (to_status : StoryStatus.t) (story_id : string) : M Database Story :=
  transaction (
    story ← get_story story_id;
    story ← do_transition story to_status;
    modify (put_story story);;
    mret story).

Definition human_review_story : string → M Database Story :=
  move_story StoryStatus.WAITING_HUMAN_REVIEW.
Definition wait_user_secret_story : string → M Database Story :=
  move_story StoryStatus.WAITING_USER_SECRET.
Definition complete_story : string → M Database Story := move_story StoryStatus.COMPLETED.
Definition fail_story : string → M Database Story := move_story StoryStatus.FAILED.
Definition pr_review_story : string → M Database Story := move_story StoryStatus.PR_REVIEW.
Definition deploy_story : string → M Database Story := move_story StoryStatus.DEPLOYING.
Definition test_story : string → M Database Story := move_story StoryStatus.TESTING.
Definition archive_story : string → M Database Story := move_story StoryStatus.ARCHIVED.

Definition start_story (story_id : string) : M Database Story :=
  transaction (
    story ← get_story story_id;
    (match story.(s_blocked_by_story_id) with
     | Some blocker_id =>
         if decide (blocker_id = "") then mret tt
         else
           blocker ← get_story blocker_id;
           guard_not (negb (bool_decide (blocker.(s_status) = value StoryStatus.COMPLETED)))
             UNPROCESSABLE
     | None => mret tt
     end);;
    story ← do_transition story StoryStatus.IN_PROGRESS;
    modify (put_story story);;
    mret story).

Definition reopen_story (story_id : string) (user_report : option string) : M Database Story :=
  transaction (
    story ← get_story story_id;
    story ← do_transition story StoryStatus.REOPENED;
    let story := match user_report with
                 | Some report => story <| s_user_report := Some report |>
                 | None => story
                 end in
    modify (put_story story);;
    mret story).

(** [POST /stories/{id}/{action}] without a body, as the scheduler calls it: the
    route of the action, or 404 when the API has none. *)
Definition post_story_action (action story_id : string) : M Database Story :=
  if decide (action = "human-review") then human_review_story story_id
  else if decide (action = "wait-user-secret") then wait_user_secret_story story_id
  else if decide (action = "start") then start_story story_id
  else if decide (action = "complete") then complete_story story_id
  else if decide (action = "fail") then fail_story story_id
  else if decide (action = "pr_review") then pr_review_story story_id
  else if decide (action = "deploy") then deploy_story story_id
  else if decide (action = "test") then test_story story_id
  else if decide (action = "reopen") then reopen_story story_id None
  else if decide (action = "archive") then archive_story story_id
  else raise NOT_FOUND.

(** ** The calls a client can make *)

Inductive StoryCall :=
| CreateStory (fresh_id : string) (body : StoryCreate)
| UpdateStory (id : string) (body : list StoryUpdate)
| ReopenStory (id : string) (user_report : option string)
| StoryAction (action id : string).

Definition serve_story (now : Z) (c : StoryCall) : M Database unit :=
  match c with
  | CreateStory i b => create_story now i b;; mret tt
  | UpdateStory i b => update_story i b;; mret tt
  | ReopenStory i r => reopen_story i r;; mret tt
  | StoryAction a i => post_story_action a i;; mret tt
  end.

Definition serve_stories (calls : list (Z * StoryCall)) (db : Database) : Database :=
  foldl (λ db c, (serve_story c.1 c.2 db).2) db calls.

(** ** Facts *)

Definition story_allowed (from_status to_status : string) : Prop :=
  ∃ a b : StoryStatus.t, from_status = value a ∧ to_status = value b ∧
    b ∈ story_VALID_TRANSITIONS a.

(** Stories only move along allowed transitions, never disappear, and keep their
    project; [R] is what one endpoint may do to the table. *)
Definition stories_evolve (db db' : Database) : Prop :=
  (∀ id s, db.(stories) !! id = Some s → s.(s_id) = id) →
  (∀ id s, db'.(stories) !! id = Some s → s.(s_id) = id) ∧
  ∀ id s, db.(stories) !! id = Some s → ∃ s', db'.(stories) !! id = Some s' ∧
    rtc story_allowed s.(s_status) s'.(s_status) ∧ s'.(s_project_id) = s.(s_project_id).

#[export] Instance stories_evolve_preorder : PreOrder stories_evolve.
Proof.
  split.
  - intros db Hk. split; [done|]. intros id s Hs. exists s. split_and!; [done|apply rtc_refl|done].
  - intros db1 db2 db3 H12 H23 Hk. destruct (H12 Hk) as [Hk2 H2]. destruct (H23 Hk2) as [Hk3 H3].
    split; [done|]. intros id s Hs. destruct (H2 _ _ Hs) as (s2 & Hs2 & Hr2 & Hp2).
    destruct (H3 _ _ Hs2) as (s3 & Hs3 & Hr3 & Hp3). exists s3.
    split_and!; [done|by etrans|congruence].
Qed.

Lemma stories_evolve_put db s s' :
  db.(stories) !! s'.(s_id) = Some s → rtc story_allowed s.(s_status) s'.(s_status) →
  s'.(s_project_id) = s.(s_project_id) → stories_evolve db (put_story s' db).
Proof.
  intros Hs Hr Hp Hk. cbn. split.
  - intros id t. rewrite lookup_insert_Some. naive_solver.
  - intros id t Ht. destruct (decide (s_id s' = id)) as [<-|].
    + exists s'. rewrite lookup_insert_eq. by simplify_eq.
    + exists t. rewrite lookup_insert_ne by done. eauto using rtc_refl.
Qed.

Lemma wp_get_story id Q db :
  (∀ s, db.(stories) !! id = Some s → Q (Ok s) db) →
  (db.(stories) !! id = None → Q (Exc NOT_FOUND) db) →
  wp (get_story id) Q db.
Proof. intros Hs Hn. unfold get_story. wp_auto; eauto. Qed.

Lemma wp_do_transition s to (Q : res Story → Database → Prop) db :
  (story_allowed s.(s_status) (value to) → Q (Ok (s <| s_status := value to |>)) db) →
  (¬ story_allowed s.(s_status) (value to) → Q (Exc UNPROCESSABLE) db) →
  wp (do_transition s to) Q db.
Proof.
  intros Hy Hn. unfold do_transition, story_validate_transition. wp_auto.
  - apply member_of_Some in H as Hs. apply member_of_Some in H0 as ->%(inj value).
    apply Hy. apply negb_false_iff, bool_decide_eq_true in H1. by exists a, a0.
  - apply member_of_Some in H as Hs. apply member_of_Some in H0 as ->%(inj value).
    apply Hn. apply negb_true_iff, bool_decide_eq_false in H1.
    intros (x & y & Hx & Hy'%(inj value) & ?). rewrite Hs in Hx. apply (inj value) in Hx. by subst.
  - by rewrite member_of_value in *.
  - apply Hn. intros (x & y & Hx & _). by rewrite Hx, member_of_value in *.
Qed.

Ltac story_walk :=
  repeat first
    [ wp_step; cbn beta iota
    | apply wp_get_story; [intros ? ?|intros ?]
    | apply wp_do_transition; intros ?
    | progress unfold on_ok ].

Definition story_sound {A} (m : M Database A) : Prop :=
  ∀ db, (∀ id s, db.(stories) !! id = Some s → s.(s_id) = id) →
    wp m (λ _ db', stories_evolve db db') db.

Lemma move_story_sound to id : story_sound (move_story to id).
Proof.
  intros db Hk. unfold move_story. story_walk; try done.
  pose proof (Hk _ _ H) as <-. eapply stories_evolve_put; [done|by apply rtc_once|done].
Qed.

Lemma start_story_sound id : story_sound (start_story id).
Proof.
  intros db Hk. unfold start_story. story_walk; try done.
  all: pose proof (Hk _ _ H) as <-; eapply stories_evolve_put; [done|by apply rtc_once|done].
Qed.

Lemma reopen_story_sound id r : story_sound (reopen_story id r).
Proof.
  intros db Hk. unfold reopen_story. story_walk; try done.
  all: pose proof (Hk _ _ H) as <-; destruct r;
    (eapply stories_evolve_put; [done|by apply rtc_once|done]).
Qed.

Lemma set_story_fields_keeps fs : ∀ s s', set_story_fields s fs = Some s' →
  s'.(s_id) = s.(s_id) ∧ s'.(s_status) = s.(s_status) ∧ s'.(s_project_id) = s.(s_project_id).
Proof.
  unfold set_story_fields. induction fs as [|f fs IH] using rev_ind; intros s s'; cbn; [by intros [= ->]|].
  rewrite foldl_app. cbn. intros Hb. apply bind_Some in Hb as (s1 & H1 & H2).
  apply IH in H1 as (? & ? & ?).
  assert (s_id s' = s_id s1 ∧ s_status s' = s_status s1 ∧ s_project_id s' = s_project_id s1)
    as (? & ? & ?) 
      by (destruct f as [[?|]|?|?|?|[?|]|[?|]|?|?|?]; simplify_eq/=; done).
  split_and!; congruence.
Qed.

Lemma update_story_sound id body : story_sound (update_story id body).
Proof.
  intros db Hk. unfold update_story. story_walk; try done.
  apply set_story_fields_keeps in H0 as (Hi & Hs & Hp). pose proof (Hk _ _ H) as <-.
  eapply stories_evolve_put; [by rewrite Hi|rewrite Hs; apply rtc_refl|done].
Qed.

Lemma create_story_sound now id body : story_sound (create_story now id body).
Proof.
  intros db Hk. unfold create_story.
  apply wp_transaction, wp_bind. eapply wp_reads.
  { unfold reads_only, validate_retry_parent. guar_auto. }
  intros [[]|e]; unfold on_ok; [|done]. wp_auto; try done.
  intros Hk'. cbn. apply bool_decide_eq_false in H. split.
  - intros i s. rewrite lookup_insert_Some. naive_solver.
  - intros i s Hs. exists s. split_and!; [|apply rtc_refl|done].
    rewrite lookup_insert_ne; [done|]. intros <-. by apply H.
Qed.

Lemma serve_story_sound now c : story_sound (serve_story now c).
Proof.
  assert (∀ A (m : M Database A), story_sound m → story_sound (m;; mret tt)) as Hret.
  { intros A m Hm db Hk. apply wp_bind. eapply wp_mono; [by apply Hm|]. intros [a|e] db' H; done. }
  destruct c as [i b|i b|i r|a i]; apply Hret;
    auto using create_story_sound, update_story_sound, reopen_story_sound.
  unfold post_story_action.
  repeat (case_decide; [first [apply move_story_sound|apply start_story_sound|apply reopen_story_sound]|]).
  intros db Hk. by apply wp_raise.
Qed.

Lemma serve_stories_sound calls db :
  (∀ id s, db.(stories) !! id = Some s → s.(s_id) = id) → stories_evolve db (serve_stories calls db).
Proof.
  revert db. induction calls as [|[now c] calls IH]; intros db Hk; cbn; [reflexivity|].
  pose proof (serve_story_sound now c db Hk) as Hs. unfold wp in Hs.
  etransitivity; [exact Hs|]. apply IH, Hs, Hk.
Qed.

(** No action leads from a status to itself. *)
Lemma no_self_transition (a : StoryStatus.t) : ¬ story_allowed (value a) (value a).
Proof.
  intros (x & y & Hx%(inj value) & Hy%(inj value) & Hin). subst x. subst y.
  destruct a; vm_compute in Hin; set_solver.
Qed.

(** ** The properties *)

(** Whatever requests clients send, a story's status moves only
    along [VALID_TRANSITIONS], an archived story stays archived, and no story
    changes project or disappears. *)
Theorem story_statuses_follow_the_machine db calls id s :
  well_keyed db → db.(stories) !! id = Some s →
  ∃ s', (serve_stories calls db).(stories) !! id = Some s' ∧
    rtc story_allowed s.(s_status) s'.(s_status) ∧
    s'.(s_project_id) = s.(s_project_id) ∧
    (s.(s_status) = value StoryStatus.ARCHIVED → s'.(s_status) = value StoryStatus.ARCHIVED).
Proof.
  intros (_ & Hk & _) Hs. destruct (serve_stories_sound calls db Hk Hk) as [_ He].
  destruct (He _ _ Hs) as (s' & Hs' & Hr & Hp). exists s'. split_and!; [done|done|done|].
  intros Ha. rewrite Ha in Hr. inversion Hr as [|? y ? (a & b & Ea & _ & Hb) _]; [done|].
  apply (inj value) in Ea as <-. by apply elem_of_nil in Hb.
Qed.

(** A story whose blocker, if it names one, is completed. *)
Definition unblocked (db : Database) (s : Story) : Prop :=
  match s.(s_blocked_by_story_id) with
  | Some b => b = "" ∨ ∃ blocker, db.(stories) !! b = Some blocker ∧
                blocker.(s_status) = value StoryStatus.COMPLETED
  | None => True
  end.

(** [start] succeeds exactly for a known story whose status may
    move to IN_PROGRESS and whose blocker is completed; when it does not succeed
    it changes nothing. *)
Theorem start_story_exactly_when_unblocked db id :
  (match start_story id db with
   | (Ok s', db') => s'.(s_status) = value StoryStatus.IN_PROGRESS ∧ db' = put_story s' db
   | (Exc _, db') => db' = db
   end) ∧
  ((∃ s', (start_story id db).1 = Ok s') ↔
   ∃ s, db.(stories) !! id = Some s ∧ unblocked db s ∧
        story_allowed s.(s_status) (value StoryStatus.IN_PROGRESS)).
Proof.
  assert (wp (start_story id) (λ r db', match r with
     | Ok s' => s'.(s_status) = value StoryStatus.IN_PROGRESS ∧ db' = put_story s' db ∧
                ∃ s, db.(stories) !! id = Some s ∧ unblocked db s ∧
                  story_allowed s.(s_status) (value StoryStatus.IN_PROGRESS)
     | Exc _ => db' = db ∧ ¬ ∃ s, db.(stories) !! id = Some s ∧ unblocked db s ∧
                  story_allowed s.(s_status) (value StoryStatus.IN_PROGRESS)
     end) db) as Hwp.
  { unfold start_story, unblocked. story_walk.
    all: split; try done.
    all: try (split; [done|]; eexists; split; [done|]; rewrite E; split; [|done]; auto).
    all: try (intros (s' & Hs' & Hu & Ha); simplify_eq; rewrite ?E in Hu; naive_solver).
    - right. eexists. split; [done|]. by apply negb_false_iff, bool_decide_eq_true in H1.
    - intros (s' & Hs' & Hu & Ha). simplify_eq. rewrite E in Hu.
      apply negb_true_iff, bool_decide_eq_false in H1. naive_solver. }
  unfold wp in Hwp. destruct (start_story id db) as [[s'|e] db']; cbn in *; split; try naive_solver.
Qed.

(** A retry of a story whose QA failure is waiting for a human is
    refused with a 409, a retry naming a parent of another project or none at
    all with a 404, and neither creates a row. *)
Theorem retry_waits_for_the_human now fresh_id body db parent_id :
  body.(sc_parent_story_id) = Some parent_id →
  (∀ parent reason e, db.(stories) !! parent_id = Some parent →
     parent.(s_project_id) = body.(sc_project_id) →
     parent.(s_status) = value StoryStatus.WAITING_HUMAN_REVIEW →
     parent.(s_quarantine_reason) = Some reason → reason !! "qa_failure" = Some (MQAFailure e) →
     create_story now fresh_id body db = (Exc CONFLICT, db)) ∧
  ((∀ parent, db.(stories) !! parent_id = Some parent → parent.(s_project_id) ≠ body.(sc_project_id)) →
     create_story now fresh_id body db = (Exc NOT_FOUND, db)).
Proof.
  intros Hp. unfold create_story, validate_retry_parent, transaction, mbind, M_bind, gets.
  rewrite Hp. cbn. split.
  - intros parent reason e Hl Hproj Hst Hr Hq. rewrite Hl. cbn. rewrite decide_True by done. cbn.
    rewrite Hst, Hr. cbn. unfold holds_qa_failure. by rewrite Hq.
  - intros Hno. destruct (stories db !! parent_id) as [p|] eqn:E; cbn; [|done].
    by rewrite decide_False by (by apply Hno).
Qed.

(** Where a successful action leaves the story, and what the next attempt meets. *)
Definition refused_when_repeated (m : M Database Story) : Prop := ∀ db s1 db1,
  (∀ id s, db.(stories) !! id = Some s → s.(s_id) = id) → m db = (Ok s1, db1) →
  m db1 = (Exc UNPROCESSABLE, db1).

Lemma refused_by_wp (m : M Database Story) :
  (∀ db, (∀ id s, db.(stories) !! id = Some s → s.(s_id) = id) →
     wp m (λ r db', match r with
       | Ok _ => wp m (λ r' db'', r' = Exc UNPROCESSABLE ∧ db'' = db') db'
       | Exc _ => True end) db) →
  refused_when_repeated m.
Proof.
  intros Hm db s1 db1 Hk Heq. specialize (Hm db Hk). unfold wp in Hm. rewrite Heq in Hm. cbn in Hm.
  destruct (m db1) as [r d]. cbn in Hm. by destruct Hm as [-> ->].
Qed.

Lemma move_story_not_repeatable to id : refused_when_repeated (move_story to id).
Proof.
  apply refused_by_wp. intros db Hk. unfold move_story at 1. story_walk; try done.
  pose proof (Hk _ _ H) as <-. unfold move_story. story_walk; try done.
  all: cbn in *; rewrite lookup_insert_eq in *; simplify_eq.
  by apply no_self_transition in H2.
Qed.

Lemma reopen_story_not_repeatable id r : refused_when_repeated (reopen_story id r).
Proof.
  apply refused_by_wp. intros db Hk. unfold reopen_story at 1. story_walk; try done.
  all: pose proof (Hk _ _ H) as <-; unfold reopen_story; story_walk; try done.
  all: cbn in *; destruct r; rewrite lookup_insert_eq in *; simplify_eq.
  all: exfalso; by eapply (no_self_transition StoryStatus.REOPENED).
Qed.

Lemma start_story_not_repeatable id : refused_when_repeated (start_story id).
Proof.
  apply refused_by_wp. intros db Hk. unfold start_story at 1. story_walk; try done.
  all: pose proof (Hk _ _ H) as <-; unfold start_story; story_walk; try done.
  all: cbn in *; simplify_map_eq; try (exfalso; by eapply (no_self_transition StoryStatus.IN_PROGRESS)).
  all: match goal with H : <[_ := _]> _ !! _ = None |- _ => apply lookup_insert_None in H as [? ?] end.
  all: repeat match goal with H : decide _ = _ |- _ => clear H end; congruence.
Qed.

(** An action endpoint is not repeatable: once an action has moved
    a story, the same action on the same story is refused with a 422 and changes
    nothing, so a client retrying after a lost response cannot move it twice. *)
Theorem story_action_is_not_repeatable action id db s1 db1 :
  well_keyed db → post_story_action action id db = (Ok s1, db1) →
  post_story_action action id db1 = (Exc UNPROCESSABLE, db1).
Proof.
  intros (_ & Hk & _). unfold post_story_action.
  repeat (case_decide; [first [by apply move_story_not_repeatable|by apply start_story_not_repeatable
                              |by apply reopen_story_not_repeatable]|]).
  done.
Qed.

(** ** The properties at concrete inputs *)

Definition story_row (id status : string) (blocked_by : option string) : Story :=
  mkStory id "project-1" None "A story" None None "product" status 0 blocked_by "po" None None None 0.
Definition stories_db (rows : list Story) : Database :=
  empty_database <| projects := {[ "project-1" := mkProject "project-1" "Todo" "todo" "active" None [] 7 ]} |>
                 <| stories := list_to_map ((λ s, (s.(s_id), s)) <$> rows) |>.

Lemma stories_db_keyed rows : well_keyed (stories_db rows).
Proof.
  split_and!; cbn; [intros id t H; by rewrite lookup_empty in H| |intros id t H; by rewrite lookup_empty in H..].
  intros id s H. apply elem_of_list_to_map_2, list_elem_of_fmap in H as (s' & [= -> ->] & _). done.
Qed.

Lemma story_statuses_follow_the_machine_witness :
  ∃ s', (serve_stories [(1, StoryAction "archive" "story-1"); (2, StoryAction "start" "story-1")]
           (stories_db [story_row "story-1" "archived" None])).(stories) !! "story-1" = Some s' ∧
    rtc story_allowed "archived" s'.(s_status) ∧ s'.(s_project_id) = "project-1" ∧
    ("archived" = "archived" → s'.(s_status) = "archived").
Proof.
  apply (story_statuses_follow_the_machine _ _ "story-1" (story_row "story-1" "archived" None));
    [apply stories_db_keyed|reflexivity].
Defined.

Lemma retry_waits_for_the_human_witness :
  (create_story 1 "story-2"
     (mkStoryCreate "project-1" "Retry" None None (Some "story-1") StoryType.PRODUCT 0 None "po")
     (stories_db [])).1 = Exc NOT_FOUND.
Proof.
  rewrite (proj2 (retry_waits_for_the_human 1 "story-2"
     (mkStoryCreate "project-1" "Retry" None None (Some "story-1") StoryType.PRODUCT 0 None "po")
     (stories_db []) "story-1" eq_refl)); [reflexivity|].
  intros p H. discriminate H.
Defined.

Lemma story_action_is_not_repeatable_witness :
  (post_story_action "deploy" "story-1"
     (put_story (story_row "story-1" "deploying" None) (stories_db [story_row "story-1" "in_progress" None]))).1
  = Exc UNPROCESSABLE.
Proof.
  rewrite (story_action_is_not_repeatable "deploy" "story-1"
    (stories_db [story_row "story-1" "in_progress" None]) (story_row "story-1" "deploying" None));
    [reflexivity|apply stories_db_keyed|reflexivity].
Defined.
