(* ===== verification/ApiRuns.v ===== *)
(** * ApiRuns: the execution layer's run endpoints

    [services/api/src/routers/runs.py] and the answers of
    [shared/contracts/dto/deploy_dispatch.py].  A handler that decides from what
    the row says takes it under a lock, so each is one atomic step; an exception
    before the commit rolls the step back, one after it does not. *)

From S2P Require Import Prelude Vocabulary Contracts Db Api.

(** ** Requests and answers *)

(** [RunCreate]. *)
Record RunCreate := mkRunCreate {
  rc_id : string;
  rc_type : string;
  rc_project_id : option string;
  rc_user_id : option Z;
  rc_story_id : option string;
  rc_task_id : option string;
  rc_run_metadata : metadata;
}.

(** [RunUpdate], dumped with [exclude_unset]: [None] is a field the client did
    not send.  The observability fields, which no rule reads, are left out. *)
Record RunUpdate := mkRunUpdate {
  ru_status : option (option string);
  ru_run_metadata : option metadata;
  ru_result : option (option run_result);
  ru_error_message : option (option string);
  ru_completed_at : option (option Z);
}.
#[export] Instance RunUpdate_rebuild : Rebuild RunUpdate := λ r,
  mkRunUpdate (ru_status r) (ru_run_metadata r) (ru_result r) (ru_error_message r)
    (ru_completed_at r).
Definition no_update : RunUpdate := mkRunUpdate None None None None None.

Record DeployDispatchClaim := mkDeployDispatchClaim {
  dc_run_id : string;
  dc_granted : bool;
  dc_run_status : RunStatus.t;
  dc_claimed_at : option Z;
  dc_lease_expires_at : option Z;
}.
Record DeployRunStart := mkDeployRunStart {
  ds_run_id : string; ds_started : bool; ds_run_status : RunStatus.t }.
Record DeployDispatchWithdrawal := mkDeployDispatchWithdrawal {
  dd_run_id : string;
  dd_outcome : DispatchWithdrawal.t;
  dd_run_status : RunStatus.t;
  dd_claimed_at : option Z;
}.
Record DeployDispatchSupersede := mkDeployDispatchSupersede {
  dp_run_id : string;
  dp_outcome : DispatchSupersede.t;
  dp_run_status : RunStatus.t;
  dp_claimed_at : option Z;
  dp_lease_expires_at : option Z;
}.

(** [DeployDispatchSupersede.settled]. *)
Definition settled (a : DeployDispatchSupersede) : bool :=
  negb (bool_decide (a.(dp_outcome) = DispatchSupersede.LEASE_LIVE)).

(** ** Rules *)

(** [_TERMINAL_RUN_STATUSES]. *)
Definition TERMINAL_RUN_STATUSES : list string :=
  [value RunStatus.COMPLETED; value RunStatus.FAILED; value RunStatus.CANCELLED].

Definition is_terminal (status : string) : bool := bool_decide (status ∈ TERMINAL_RUN_STATUSES).

(** [_has_recorded_outcome]. *)
Definition has_recorded_outcome (run : Run) : bool :=
  bool_decide (run.(r_result) ≠ None) ||
  (bool_decide (run.(r_type) = value RunType.QA) && is_terminal run.(r_status)).

(** [_record_first_terminal_completion]. *)
Definition record_first_terminal_completion (now : Z) (run : Run) : Run :=
  match run.(r_completed_at) with
  | Some _ => run
  | None => run <| r_completed_at := Some now |>
  end.

Definition claimed_at (run : Run) : option Z :=
  meta_time (meta_get DISPATCH_CLAIMED_AT_KEY run.(r_run_metadata)).
Definition lease_expires_at (run : Run) : option Z :=
  meta_time (meta_get DISPATCH_LEASE_EXPIRES_AT_KEY run.(r_run_metadata)).
Definition superseded_at (run : Run) : option Z :=
  meta_time (meta_get DISPATCH_SUPERSEDED_AT_KEY run.(r_run_metadata)).

(** [_lock_run]: the read every deciding writer starts from. *)
Definition lock_run (run_id : string) : M Database Run :=
  row ← gets (λ db, db.(runs) !! run_id);
  some_or NOT_FOUND row.

(** [_check_run_access]. *)
Definition check_run_access (run : Run) (c : caller) : M Database unit :=
  actor ← resolve_actor c;
  match actor with
  | None => mret tt
  | Some u => guard_not (negb u.(u_is_admin) && negb (bool_decide (run.(r_user_id) = Some u.(u_id))))
                FORBIDDEN
  end.

(** [RunStatus(run.status)] in an answer. *)
Definition status_of (run : Run) : M Database RunStatus.t :=
  some_or ValueError (member_of run.(r_status)).

(** ** Endpoints *)

(** The foreign keys of a run row. *)
Definition run_references_exist (db : Database) (r : Run) : bool :=
  match r.(r_project_id) with
  | Some p => bool_decide (is_Some (db.(projects) !! p)) | None => true end &&
  match r.(r_user_id) with
  | Some u => bool_decide (is_Some (db.(users) !! u)) | None => true end &&
  match r.(r_story_id) with
  | Some s => bool_decide (is_Some (db.(stories) !! s)) | None => true end &&
  match r.(r_task_id) with
  | Some t => bool_decide (is_Some (db.(tasks) !! t)) | None => true end.

Definition create_run (now : Z) (run : RunCreate) : M Database Run :=
  transaction (
    (match run.(rc_user_id) with
     | Some u =>
         if decide (u = 0) then mret tt
         else known ← gets (λ db, bool_decide (is_Some (db.(users) !! u)));
              guard_not (negb known) NOT_FOUND
     | None => mret tt
     end);;
    let db_run := mkRun run.(rc_id) run.(rc_type) (value RunStatus.QUEUED) run.(rc_project_id)
      run.(rc_user_id) run.(rc_run_metadata) None None None run.(rc_story_id) run.(rc_task_id) now in
    accepted ← gets (λ db, bool_decide (db.(runs) !! run.(rc_id) = None) &&
                           run_references_exist db db_run);
    guard_not (negb accepted) IntegrityError;;
    modify (put_run db_run);;
    mret db_run).

Definition get_run (c : caller) (run_id : string) : M Database Run :=
  run ← lock_run run_id;
  check_run_access run c;;
  mret run.

Record RunFilters := mkRunFilters {
  rf_project_id : option string;
  rf_task_id : option string;
  rf_story_id : option string;
  rf_run_type : option string;
  rf_status : option string;
}.
#[export] Instance RunFilters_rebuild : Rebuild RunFilters := λ r,
  mkRunFilters (rf_project_id r) (rf_task_id r) (rf_story_id r) (rf_run_type r) (rf_status r).
Definition no_run_filter : RunFilters := mkRunFilters None None None None None.

Definition run_where (f : RunFilters) (owner : option User) (r : Run) : bool :=
  where_eq f.(rf_project_id) r.(r_project_id) &&
  where_eq f.(rf_task_id) r.(r_task_id) &&
  where_eq f.(rf_story_id) r.(r_story_id) &&
  where_eq f.(rf_run_type) (Some r.(r_type)) &&
  where_eq f.(rf_status) (Some r.(r_status)) &&
  match owner with
  | Some u => u.(u_is_admin) || bool_decide (r.(r_user_id) = Some u.(u_id))
  | None => true
  end.

(** Newest first. *)
Definition list_runs (c : caller) (f : RunFilters) : M Database (list Run) :=
  actor ← resolve_actor c;
  gets (λ db, select (map_to_list db.(runs)).*2 (run_where f actor)
                (λ a b, b.(r_created_at) <=? a.(r_created_at))).

(** [list_runs_owing_owner_notification]: the record is there and owed; oldest first. *)
Definition owner_notification (run : Run) : option OwnerNotification :=
  match run.(r_run_metadata) !! OWNER_NOTIFICATION_KEY with
  | Some (MNotification n) => Some n
  | _ => None
  end.

Definition list_runs_owing_owner_notification (c : caller) (page : Z) : M Database (list Run) :=
  require_internal_or_admin c;;
  gets (λ db, limit (Some page) (select (map_to_list db.(runs)).*2
    (λ r, match owner_notification r with Some n => owed n | None => false end)
    (λ a b, (a.(r_created_at) <? b.(r_created_at)) ||
            ((a.(r_created_at) =? b.(r_created_at)) && string_leb a.(r_id) b.(r_id))))).

(** The fields of [_OUTCOME_FIELDS] an update would change. *)
Definition rewrites_outcome (run : Run) (u : RunUpdate) : bool :=
  match u.(ru_status) with Some s => negb (bool_decide (s = Some run.(r_status))) | None => false end ||
  match u.(ru_result) with Some r => negb (bool_decide (r = run.(r_result))) | None => false end ||
  match u.(ru_error_message) with
  | Some e => negb (bool_decide (e = run.(r_error_message))) | None => false end.

(** The loop of [setattr]s; [completed_at] was dropped before it, metadata merges. *)
Definition apply_update (run : Run) (u : RunUpdate) : res Run :=
  let run := match u.(ru_run_metadata) with
             | Some m => run <| r_run_metadata ::= λ old, merge old m |> | None => run end in
  let run := match u.(ru_result) with Some r => run <| r_result := r |> | None => run end in
  let run := match u.(ru_error_message) with
             | Some e => run <| r_error_message := e |> | None => run end in
  match u.(ru_status) with
  | Some (Some s) => Ok (run <| r_status := s |>)
  | Some None => Exc IntegrityError        (* [status] is NOT NULL *)
  | None => Ok run
  end.

Definition update_run (now : Z) (c : caller) (run_id : string) (u : RunUpdate) : M Database Run :=
  transaction (
    run ← lock_run run_id;
    actor ← resolve_actor c;
    guard_not (match actor with Some a => negb a.(u_is_admin) | None => false end) FORBIDDEN;;
    let requested_status := default None u.(ru_status) in
    guard_not (is_terminal run.(r_status) &&
               match requested_status with Some s => negb (is_terminal s) | None => false end) CONFLICT;;
    let stamped := match requested_status with
                   | Some s => if is_terminal s then record_first_terminal_completion now run else run
                   | None => run
                   end in
    guard_not (is_terminal run.(r_status) && has_recorded_outcome run && rewrites_outcome run u)
      CONFLICT;;
    run' ← of_res (apply_update stamped u);
    modify (put_run run');;
    mret run').

Definition start_run (c : caller) (run_id : string) : M Database DeployRunStart :=
  require_internal_or_admin c;;
  run ← lock_run run_id;
  if is_terminal run.(r_status) then
    s ← status_of run;
    mret (mkDeployRunStart run_id false s)
  else
    modify (put_run (run <| r_status := value RunStatus.RUNNING |>));;
    mret (mkDeployRunStart run_id true RunStatus.RUNNING).

Definition claim_run_dispatch (now : Z) (c : caller) (run_id : string)
    : M Database DeployDispatchClaim :=
  require_internal_or_admin c;;
  run ← lock_run run_id;
  if is_terminal run.(r_status) then
    s ← status_of run;
    mret (mkDeployDispatchClaim run_id false s (claimed_at run) (lease_expires_at run))
  else
    let claimed := default now (claimed_at run) in
    let lease := now + DISPATCH_LEASE in
    modify (put_run (run <| r_run_metadata ::= λ m,
      <[DISPATCH_LEASE_EXPIRES_AT_KEY := MTime lease]>
        (<[DISPATCH_CLAIMED_AT_KEY := MTime claimed]> m) |>));;
    s ← status_of run;
    mret (mkDeployDispatchClaim run_id true s (Some claimed) (Some lease)).

(** [if reason: run.error_message = reason]. *)
Definition with_reason (reason : string) (run : Run) : Run :=
  if decide (reason = "") then run else run <| r_error_message := Some reason |>.

(** [run.status = CANCELLED; _record_first_terminal_completion(run); if reason: ...],
    as both ways of taking the boundary back close a run. *)
Definition cancelled (now : Z) (reason : string) (run : Run) : Run :=
  with_reason reason (record_first_terminal_completion now
    (run <| r_status := value RunStatus.CANCELLED |>)).

Definition supersede_run_dispatch (now : Z) (c : caller) (run_id reason : string)
    : M Database DeployDispatchSupersede :=
  require_internal_or_admin c;;
  run ← lock_run run_id;
  let answer (run' : Run) (outcome : DispatchSupersede.t) :=
    s ← status_of run';
    mret (mkDeployDispatchSupersede run_id outcome s (claimed_at run) (lease_expires_at run)) in
  if is_terminal run.(r_status) && has_recorded_outcome run then
    match superseded_at run with
    | Some _ => answer run DispatchSupersede.SUPERSEDED
    | None => answer run DispatchSupersede.ALREADY_SETTLED
    end
  else
    match claimed_at run with
    | None => answer run DispatchSupersede.NOT_CLAIMED
    | Some _ =>
        match superseded_at run with
        | Some _ => answer run DispatchSupersede.SUPERSEDED
        | None =>
            if match lease_expires_at run with Some e => now <? e | None => false end
            then answer run DispatchSupersede.LEASE_LIVE
            else
              let run' := (cancelled now reason run)
                            <| r_run_metadata ::= <[DISPATCH_SUPERSEDED_AT_KEY := MTime now]> |> in
              modify (put_run run');;
              answer run' DispatchSupersede.SUPERSEDED
        end
    end.

Definition withdraw_run_dispatch (now : Z) (c : caller) (run_id reason : string)
    : M Database DeployDispatchWithdrawal :=
  require_internal_or_admin c;;
  run ← lock_run run_id;
  if is_terminal run.(r_status) then
    s ← status_of run;
    mret (mkDeployDispatchWithdrawal run_id DispatchWithdrawal.ALREADY_TERMINAL s (claimed_at run))
  else
    modify (put_run (cancelled now reason run));;
    mret (mkDeployDispatchWithdrawal run_id
      (match claimed_at run with
       | Some _ => DispatchWithdrawal.ALREADY_DISPATCHED
       | None => DispatchWithdrawal.WITHDRAWN
       end) RunStatus.CANCELLED (claimed_at run)).
