(* ===== verification/ApiGrants.v ===== *)
(** * ApiGrants: the temporary access grants the API records

    [services/api/src/routers/temporary_access.py]: the durable record that
    access to a deployed bot was handed out, and the only way to close it. *)

From S2P Require Import Prelude Vocabulary Contracts Db Api ApiRuns.

(** ** Requests ([shared/contracts/dto/temporary_access.py]) *)

(** [REVOKE_CONFIRMATION_WINDOW], [REVOKE_CONFIRMATION_READINGS]. *)
Definition REVOKE_CONFIRMATION_WINDOW : Z := 10 * MINUTE.
Definition REVOKE_CONFIRMATION_READINGS : Z := 2.

(** [LIVE_TEMPORARY_ACCESS_STATUSES]. *)
Definition LIVE_TEMPORARY_ACCESS_STATUSES : list TemporaryAccessStatus.t :=
  [TemporaryAccessStatus.GRANTING; TemporaryAccessStatus.GRANTED;
   TemporaryAccessStatus.REVOKING; TemporaryAccessStatus.REVOKE_FAILED].

Record GrantCreate := mkGrantCreate {
  gc_id : string;
  gc_project_id : string;
  gc_env_key : string;
  gc_subject : string;
  gc_head_sha : string;
  gc_qa_run_id : string;
  gc_grant_run_id : string;
  gc_qa_message : QAMessage;
}.

(** What building a [TemporaryAccessGrantCreate] gives: [CommitSha] normalises the
    commit, [Field(min_length=1)] refuses what is missing. *)
Definition GrantCreate_validated (g : GrantCreate) : res GrantCreate :=
  match CommitSha g.(gc_head_sha) with
  | Some sha =>
      if forallb (λ s, bool_decide (s ≠ ""))
           [g.(gc_id); g.(gc_env_key); g.(gc_subject); g.(gc_qa_run_id); g.(gc_grant_run_id)]
      then Ok (mkGrantCreate g.(gc_id) g.(gc_project_id) g.(gc_env_key) g.(gc_subject) sha
                 g.(gc_qa_run_id) g.(gc_grant_run_id) g.(gc_qa_message))
      else Exc ValidationError
  | None => Exc ValidationError
  end.

(** [TemporaryAccessGrantUpdate], dumped with [exclude_unset]. *)
Record GrantUpdate := mkGrantUpdate {
  gu_status : option (option TemporaryAccessStatus.t);
  gu_grant_run_id : option (option string);
  gu_qa_dispatched : option (option bool);
  gu_revoke_reason : option (option TemporaryAccessRevokeReason.t);
  gu_revoke_run_id : option (option string);
  gu_revoke_attempts : option (option Z);
  gu_escalated : option (option bool);
  gu_last_error : option (option string);
}.
#[export] Instance GrantUpdate_rebuild : Rebuild GrantUpdate := λ r,
  mkGrantUpdate (gu_status r) (gu_grant_run_id r) (gu_qa_dispatched r) (gu_revoke_reason r)
    (gu_revoke_run_id r) (gu_revoke_attempts r) (gu_escalated r) (gu_last_error r).
Definition no_grant_update : GrantUpdate := mkGrantUpdate None None None None None None None None.

(** [_revoked_is_not_a_field_to_set]: the schema refuses REVOKED. *)
Definition revoked_is_not_a_field_to_set (u : GrantUpdate) : bool :=
  negb (bool_decide (u.(gu_status) = Some (Some TemporaryAccessStatus.REVOKED))).

Record Observation := mkObservation {
  ob_observation_id : string;
  ob_application_id : Z;
  ob_server_handle : string;
  ob_service_slug : string;
  ob_env_key : string;
  ob_present : bool;
  ob_containers : Z;
}.

(** [TemporaryAccessObservation]: something was running when it was read. *)
Definition Observation_valid (o : Observation) : bool :=
  forallb (λ s, bool_decide (s ≠ ""))
    [o.(ob_observation_id); o.(ob_server_handle); o.(ob_service_slug); o.(ob_env_key)] &&
  (1 <=? o.(ob_containers)).

Record Escalation := mkEscalation {
  es_error : string;
  es_run_error_message : string;
  es_run_result : QARunResult;
}.

(** [TemporaryAccessGrantDTO._revoked_grant_carries_its_evidence]. *)
Definition revoked_grant_carries_its_evidence (g : Grant) : bool :=
  negb (bool_decide (g.(g_status) = value TemporaryAccessStatus.REVOKED)) ||
  (bool_decide (is_Some g.(g_revoked_at)) && bool_decide (is_Some g.(g_revoke_reason)) &&
   bool_decide (is_Some g.(g_observation_id))).

(** ** Endpoints *)

(** [_load]. *)
Definition load_grant (grant_id : string) : M Database Grant :=
  row ← gets (λ db, db.(grants) !! grant_id);
  some_or NOT_FOUND row.

Definition is_revoked (g : Grant) : bool :=
  bool_decide (g.(g_status) = value TemporaryAccessStatus.REVOKED).

(** The grants holding the slot [(project, env_key)]. *)
Definition slot_holders (project_id env_key : string) (db : Database) : list Grant :=
  filter (λ g, g.(g_project_id) = project_id ∧ g.(g_env_key) = env_key ∧ is_revoked g = false)
    (map_to_list db.(grants)).*2.

(** [scalar_one_or_none()]: more than one row is an error. *)
Definition scalar_one_or_none {A} (rows : list A) : M Database (option A) :=
  match rows with
  | [] => mret None
  | [row] => mret (Some row)
  | _ => raise RuntimeError
  end.

(** The foreign keys and the partial unique index of the table. *)
Definition grant_accepted (g : Grant) (db : Database) : bool :=
  bool_decide (is_Some (db.(projects) !! g.(g_project_id))) &&
  bool_decide (is_Some (db.(runs) !! g.(g_qa_run_id))) &&
  (is_revoked g ||
   forallb (λ h, bool_decide (h.(g_id) = g.(g_id))) (slot_holders g.(g_project_id) g.(g_env_key) db)).

Definition create_grant (now : Z) (c : caller) (grant_in : GrantCreate) : M Database Grant :=
  require_internal_or_admin c;;
  existing ← gets (λ db, db.(grants) !! grant_in.(gc_id));
  match existing with
  | Some grant => mret grant
  | None =>
      live ← gets (slot_holders grant_in.(gc_project_id) grant_in.(gc_env_key));
      held ← scalar_one_or_none live;
      guard_not (bool_decide (is_Some (g_id <$> held))) CONFLICT;;
      let grant := mkGrant grant_in.(gc_id) grant_in.(gc_project_id) grant_in.(gc_env_key)
        grant_in.(gc_subject) grant_in.(gc_head_sha) grant_in.(gc_qa_run_id)
        grant_in.(gc_grant_run_id) grant_in.(gc_qa_message)
        (value TemporaryAccessStatus.GRANTING) now None None None None 0 None None None None None 0
        None in
      ok ← gets (grant_accepted grant);
      guard_not (negb ok) IntegrityError;;
      modify (put_grant grant);;
      mret grant
  end.

(** [list_grants] and [_slot_due_for_audit]. *)
Record GrantFilters := mkGrantFilters {
  gf_project_id : option string;
  gf_qa_run_id : option string;
  gf_status : list TemporaryAccessStatus.t;
  gf_live : bool;
  gf_revoked_after : option Z;
  gf_slot_audit_before : option Z;
}.

Definition slot_due_for_audit (read_before : Z) (all : list Grant) (g : Grant) : bool :=
  is_revoked g &&
  match g.(g_observed_at) with Some t => t <? read_before | None => true end &&
  negb (existsb (λ n, bool_decide (n.(g_project_id) = g.(g_project_id)) &&
                      bool_decide (n.(g_env_key) = g.(g_env_key)) &&
                      (g.(g_granted_at) <? n.(g_granted_at))) all).

Definition grant_where (f : GrantFilters) (all : list Grant) (g : Grant) : bool :=
  match f.(gf_project_id) with Some p => bool_decide (g.(g_project_id) = p) | None => true end &&
  match f.(gf_qa_run_id) with Some r => bool_decide (g.(g_qa_run_id) = r) | None => true end &&
  match f.(gf_status) with
  | [] => true
  | l => bool_decide (g.(g_status) ∈ (value <$> l))
  end &&
  (negb f.(gf_live) ||
   bool_decide (g.(g_status) ∈ (value <$> LIVE_TEMPORARY_ACCESS_STATUSES)) ||
   match f.(gf_revoked_after), g.(g_revoked_at) with
   | Some t, Some at_ => is_revoked g && (t <=? at_)
   | _, _ => false
   end ||
   match f.(gf_slot_audit_before) with Some t => slot_due_for_audit t all g | None => false end).

Definition list_grants (c : caller) (f : GrantFilters) : M Database (list Grant) :=
  require_internal_or_admin c;;
  gets (λ db, let all := (map_to_list db.(grants)).*2 in
    select all (grant_where f all) (λ a b, b.(g_granted_at) <=? a.(g_granted_at))).

Definition get_grant (c : caller) (grant_id : string) : M Database Grant :=
  require_internal_or_admin c;;
  load_grant grant_id.

(** [if x is None: x = now]. *)
Definition stamp_once (now : Z) (x : option Z) : option Z :=
  match x with Some t => Some t | None => Some now end.

Definition escalate_grant (now : Z) (c : caller) (grant_id : string) (escalation : Escalation)
    : M Database Grant :=
  require_internal_or_admin c;;
  transaction (
    grant ← load_grant grant_id;
    guard_not (is_revoked grant) CONFLICT;;
    run ← gets (λ db, db.(runs) !! grant.(g_qa_run_id));
    (match run with
     | Some run =>
         if is_terminal run.(r_status) then mret tt
         else modify (put_run (record_first_terminal_completion now
                (run <| r_status := value RunStatus.FAILED |>
                     <| r_error_message := Some escalation.(es_run_error_message) |>
                     <| r_result := Some (QAResult escalation.(es_run_result)) |>)))
     | None => mret tt
     end);;
    let grant' := grant <| g_status := value TemporaryAccessStatus.REVOKE_FAILED |>
                        <| g_last_error := Some escalation.(es_error) |>
                        <| g_escalated_at ::= stamp_once now |> in
    modify (put_grant grant');;
    mret grant').

(** [_read_a_closed_grant], on the grant already stamped with the reading. *)
Definition read_a_closed_grant (now : Z) (error : string) (grant : Grant) (o : Observation)
    : M Database Grant :=
  if negb o.(ob_present) then
    let grant' := grant <| g_slot_clear_readings ::= Z.succ |> in
    modify (put_grant grant');;
    mret grant'
  else
    live ← gets (slot_holders grant.(g_project_id) grant.(g_env_key));
    owner ← scalar_one_or_none live;
    let grant' :=
      match owner with
      | None =>
          grant <| g_status := value TemporaryAccessStatus.REVOKING |>
                <| g_revoke_reason := Some (value TemporaryAccessRevokeReason.OBSERVED_AFTER_REVOKE) |>
                <| g_revoked_at := None |>
                <| g_reopened_at := Some now |>
                <| g_revoke_attempts := 0 |>
                <| g_slot_clear_since := None |>
                <| g_slot_clear_readings := 0 |>
                <| g_last_error := Some error |>
      | Some _ => grant
      end in
    modify (put_grant grant');;
    mret grant'.

(** The streak of clear readings, and when it confirms that the slot is empty. *)
Definition count_clear_reading (now : Z) (grant : Grant) : Grant :=
  match grant.(g_slot_clear_since) with
  | None => grant <| g_slot_clear_since := Some now |> <| g_slot_clear_readings := 1 |>
  | Some _ => grant <| g_slot_clear_readings ::= Z.succ |>
  end.

Definition confirmed (now : Z) (grant : Grant) : bool :=
  match grant.(g_slot_clear_since) with
  | Some since => (REVOKE_CONFIRMATION_READINGS <=? grant.(g_slot_clear_readings)) &&
                  (REVOKE_CONFIRMATION_WINDOW <=? now - since)
  | None => false
  end.

(** [record_observation].  [error] is the text of [last_error]. *)
Definition record_observation (now : Z) (c : caller) (error grant_id : string) (o : Observation)
    : M Database Grant :=
  require_internal_or_admin c;;
  transaction (
    grant ← load_grant grant_id;
    guard_not (negb (bool_decide (o.(ob_env_key) = grant.(g_env_key)))) UNPROCESSABLE;;
    guard_not (negb (bool_decide (o.(ob_application_id) = grant.(g_qa_message).(qm_application_id))))
      UNPROCESSABLE;;
    guard_not (negb (bool_decide (grant.(g_status) = value TemporaryAccessStatus.REVOKING) ||
                     is_revoked grant)) CONFLICT;;
    if bool_decide (grant.(g_observation_id) = Some o.(ob_observation_id)) then mret grant
    else
      let grant := grant <| g_observation_id := Some o.(ob_observation_id) |>
                         <| g_observed_at := Some now |> in
      if is_revoked grant then read_a_closed_grant now error grant o
      else if o.(ob_present) then
        let grant := grant <| g_slot_clear_since := None |> <| g_slot_clear_readings := 0 |> in
        modify (put_grant grant);;
        mret grant
      else
        let grant := count_clear_reading now grant in
        if confirmed now grant then
          guard_not (bool_decide (grant.(g_revoke_reason) = None)) UNPROCESSABLE;;
          let grant := grant <| g_status := value TemporaryAccessStatus.REVOKED |>
                             <| g_revoked_at := Some now |> in
          modify (put_grant grant);;
          mret grant
        else
          modify (put_grant grant);;
          mret grant).

(** [setattr(grant, key, value)] of the remaining fields; [None] where the column
    is NOT NULL. *)
Definition set_grant_fields (g : Grant) (u : GrantUpdate) : option Grant :=
  g ← (match u.(gu_grant_run_id) with
       | Some v => x ← v; Some (g <| g_grant_run_id := x |>) | None => Some g end);
  g ← (match u.(gu_revoke_attempts) with
       | Some v => x ← v; Some (g <| g_revoke_attempts := x |>) | None => Some g end);
  let g := match u.(gu_revoke_reason) with
           | Some v => g <| g_revoke_reason := value <$> v |> | None => g end in
  let g := match u.(gu_revoke_run_id) with Some v => g <| g_revoke_run_id := v |> | None => g end in
  let g := match u.(gu_last_error) with Some v => g <| g_last_error := v |> | None => g end in
  Some g.

(** Both moments are stamped once. *)
Definition stamp_moments (now : Z) (grant : Grant) (u : GrantUpdate) : Grant :=
  let grant := match u.(gu_qa_dispatched) with
               | Some (Some true) => grant <| g_qa_dispatched_at ::= stamp_once now |>
               | _ => grant end in
  match u.(gu_escalated) with
  | Some (Some true) => grant <| g_escalated_at ::= stamp_once now |>
  | _ => grant
  end.

Definition update_grant (now : Z) (c : caller) (grant_id : string) (u : GrantUpdate)
    : M Database Grant :=
  guard_not (negb (revoked_is_not_a_field_to_set u)) UNPROCESSABLE;;
  require_internal_or_admin c;;
  transaction (
    grant ← load_grant grant_id;
    guard_not (is_revoked grant) CONFLICT;;
    grant ← some_or IntegrityError (set_grant_fields (stamp_moments now grant u) u);
    let grant := match u.(gu_status) with
                 | Some (Some s) => grant <| g_status := value s |> | _ => grant end in
    modify (put_grant grant);;
    mret grant).
