(* ===== verification/RunLifecycle.v ===== *)
(** * RunLifecycle: what the run endpoints guarantee together

    Terminal runs stay terminal, a recorded outcome is immutable, the completion
    is stamped once, and the dispatch boundary has one winner: invariants of
    every endpoint of [ApiRuns] and of [ApiGrants.escalate_grant], the other
    writer of runs. *)

From S2P Require Import Prelude Vocabulary Contracts Db Api ApiRuns ApiGrants.

(** ** The calls a client can make *)

Inductive RunCall :=
| CreateRun (body : RunCreate)
| UpdateRun (c : caller) (id : string) (u : RunUpdate)
| StartRun (c : caller) (id : string)
| ClaimDispatch (c : caller) (id : string)
| SupersedeDispatch (c : caller) (id reason : string)
| WithdrawDispatch (c : caller) (id reason : string)
| EscalateGrant (c : caller) (grant_id : string) (e : Escalation).

Definition serve_run (now : Z) (call : RunCall) : M Database unit :=
  match call with
  | CreateRun b => create_run now b;; mret tt
  | UpdateRun c i u => update_run now c i u;; mret tt
  | StartRun c i => start_run c i;; mret tt
  | ClaimDispatch c i => claim_run_dispatch now c i;; mret tt
  | SupersedeDispatch c i r => supersede_run_dispatch now c i r;; mret tt
  | WithdrawDispatch c i r => withdraw_run_dispatch now c i r;; mret tt
  | EscalateGrant c g e => escalate_grant now c g e;; mret tt
  end.

Definition serve_runs (calls : list (Z * RunCall)) (db : Database) : Database :=
  foldl (λ db c, (serve_run c.1 c.2 db).2) db calls.

(** A call that leaves the record of the dispatch claim to its own endpoints. *)
Definition leaves_boundary (call : RunCall) : Prop :=
  match call with
  | UpdateRun _ _ u => default ∅ u.(ru_run_metadata) !! DISPATCH_CLAIMED_AT_KEY = None
  | _ => True
  end.

(** ** Reading a locked run *)

Lemma wp_lock_run id Q db :
  (∀ r, db.(runs) !! id = Some r → Q (Ok r) db) →
  (db.(runs) !! id = None → Q (Exc NOT_FOUND) db) →
  wp (lock_run id) Q db.
Proof. intros Hs Hn. unfold lock_run. wp_auto; eauto. Qed.

Ltac run_walk :=
  repeat first
    [ wp_step; cbn beta iota
    | apply wp_lock_run; [intros ? ?|intros ?]
    | eapply wp_reads; [by auto with guar|intros [?|?]]
    | progress unfold on_ok, status_of, load_grant ].

(** ** What may happen to one run

    Under any call the first five; a claim on record stays on record under calls
    for which [K], which the proofs below instantiate with [leaves_boundary]. *)

Section evolution.
Variable K : Prop.

Record run_evolves (r r' : Run) : Prop := {
  ev_type : r'.(r_type) = r.(r_type);
  ev_terminal : is_terminal r.(r_status) = true → is_terminal r'.(r_status) = true;
  ev_outcome : is_terminal r.(r_status) = true → has_recorded_outcome r = true →
    r'.(r_status) = r.(r_status) ∧ r'.(r_result) = r.(r_result) ∧
    r'.(r_error_message) = r.(r_error_message);
  ev_completed : ∀ t, r.(r_completed_at) = Some t → r'.(r_completed_at) = Some t;
  ev_stamped : (is_terminal r.(r_status) = true → is_Some r.(r_completed_at)) →
    is_terminal r'.(r_status) = true → is_Some r'.(r_completed_at);
  ev_claimed : K → ∀ t, claimed_at r = Some t → claimed_at r' = Some t;
}.

Definition keyed_runs (db : Database) : Prop := ∀ id r, db.(runs) !! id = Some r → r.(r_id) = id.

(** Every terminal run carries the moment it completed. *)
Definition stamped (db : Database) : Prop := ∀ id r, db.(runs) !! id = Some r →
  is_terminal r.(r_status) = true → is_Some r.(r_completed_at).

Definition runs_evolve (db db' : Database) : Prop :=
  keyed_runs db' ∧ (stamped db → stamped db') ∧
  ∀ id r, db.(runs) !! id = Some r → ∃ r', db'.(runs) !! id = Some r' ∧ run_evolves r r'.

Lemma run_evolves_refl r : run_evolves r r.
Proof. split; auto. Qed.

Lemma run_evolves_trans r1 r2 r3 : run_evolves r1 r2 → run_evolves r2 r3 → run_evolves r1 r3.
Proof.
  intros [Ht1 He1 Ho1 Hc1 Hs1 Hk1] [Ht2 He2 Ho2 Hc2 Hs2 Hk2]. split; auto; [congruence|].
  intros Ht Ho. destruct (Ho1 Ht Ho) as (E1 & E2 & E3).
  destruct Ho2 as (E4 & E5 & E6); [by rewrite E1| |split_and!; congruence].
  unfold has_recorded_outcome in *. by rewrite E2, E1, Ht1.
Qed.

Lemma runs_evolve_refl db : keyed_runs db → runs_evolve db db.
Proof. intros Hk. split_and!; [done|done|]. eauto using run_evolves_refl. Qed.

Lemma runs_evolve_trans db1 db2 db3 : runs_evolve db1 db2 → runs_evolve db2 db3 → runs_evolve db1 db3.
Proof.
  intros (_ & Hs & He) (Hk & Hs' & He'). split_and!; [done|auto|].
  intros id r Hr. destruct (He _ _ Hr) as (r2 & Hr2 & Hev). destruct (He' _ _ Hr2) as (r3 & Hr3 & Hev').
  eauto using run_evolves_trans.
Qed.

Lemma runs_evolve_put db r r' :
  keyed_runs db → db.(runs) !! r.(r_id) = Some r → r'.(r_id) = r.(r_id) → run_evolves r r' →
  runs_evolve db (put_run r' db).
Proof.
  intros Hk Hr Hid Hev. split_and!.
  - intros i x. cbn. rewrite Hid, lookup_insert_Some. intros [[<- <-]|[_ ?]]; [done|by apply Hk].
  - intros Hs i x. cbn. rewrite Hid, lookup_insert_Some. intros [[<- <-]|[_ ?]]; [|by apply (Hs i)].
    apply (ev_stamped _ _ Hev). by apply Hs with (r_id r).
  - intros i x Hx. cbn. rewrite Hid. destruct (decide (i = r_id r)) as [->|].
    + exists r'. rewrite lookup_insert_eq. by simplify_eq.
    + exists x. rewrite lookup_insert_ne by done. auto using run_evolves_refl.
Qed.

(** Only the table of runs matters here. *)
Lemma runs_evolve_same db db' : keyed_runs db → db'.(runs) = db.(runs) → runs_evolve db db'.
Proof.
  intros Hk Heq. unfold runs_evolve, keyed_runs, stamped. rewrite Heq.
  split_and!; [done|done|]. eauto using run_evolves_refl.
Qed.

(** ** The writes the handlers make *)

Lemma record_first_spec now r :
  let r' := record_first_terminal_completion now r in
  r'.(r_id) = r.(r_id) ∧ r'.(r_type) = r.(r_type) ∧ r'.(r_status) = r.(r_status) ∧
  r'.(r_result) = r.(r_result) ∧ r'.(r_error_message) = r.(r_error_message) ∧
  r'.(r_run_metadata) = r.(r_run_metadata) ∧
  r'.(r_completed_at) = Some (default now r.(r_completed_at)).
Proof. unfold record_first_terminal_completion. destruct (r_completed_at r) eqn:E; by rewrite ?E. Qed.

Lemma with_reason_spec reason r :
  let r' := with_reason reason r in
  r'.(r_id) = r.(r_id) ∧ r'.(r_type) = r.(r_type) ∧ r'.(r_status) = r.(r_status) ∧
  r'.(r_result) = r.(r_result) ∧ r'.(r_completed_at) = r.(r_completed_at) ∧
  r'.(r_run_metadata) = r.(r_run_metadata).
Proof. unfold with_reason. by case_decide. Qed.

(** The row a granted claim writes. *)
Lemma claim_row_spec first lease r :
  let r' := r <| r_run_metadata ::= λ m,
    <[DISPATCH_LEASE_EXPIRES_AT_KEY := MTime lease]> (<[DISPATCH_CLAIMED_AT_KEY := MTime first]> m) |> in
  claimed_at r' = Some first ∧ lease_expires_at r' = Some lease ∧ superseded_at r' = superseded_at r.
Proof.
  unfold claimed_at, lease_expires_at, superseded_at, meta_get. cbn. split_and!.
  - by rewrite lookup_insert_ne, lookup_insert_eq.
  - by rewrite lookup_insert_eq.
  - by rewrite !lookup_insert_ne.
Qed.

(** A run that has no recorded outcome yet, or is not over, may be closed. *)
Lemma run_evolves_close r r' t :
  r'.(r_type) = r.(r_type) → (is_terminal r.(r_status) && has_recorded_outcome r) = false →
  is_terminal r'.(r_status) = true → r'.(r_completed_at) = Some (default t r.(r_completed_at)) →
  claimed_at r' = claimed_at r → run_evolves r r'.
Proof.
  intros Ht Ho Hst Hc Hcl. split; [done|done| | | |by intros _ ? <-].
  - intros H1 H2. by rewrite H1, H2 in Ho.
  - intros x Hx. by rewrite Hc, Hx.
  - intros _ _. rewrite Hc. by eexists.
Qed.

(** A write that leaves the outcome columns alone. *)
Lemma run_evolves_same_outcome r r' :
  r'.(r_type) = r.(r_type) → r'.(r_status) = r.(r_status) → r'.(r_result) = r.(r_result) →
  r'.(r_error_message) = r.(r_error_message) → r'.(r_completed_at) = r.(r_completed_at) →
  (∀ t, claimed_at r = Some t → claimed_at r' = Some t) → run_evolves r r'.
Proof. intros Ht Hs Hr He Hc ?. split; rewrite ?Ht, ?Hs, ?Hr, ?He, ?Hc; auto. Qed.

(** A run that is not over may change status freely. *)
Lemma run_evolves_open r r' :
  r'.(r_type) = r.(r_type) → is_terminal r.(r_status) = false →
  r'.(r_completed_at) = r.(r_completed_at) → is_terminal r'.(r_status) = false →
  claimed_at r' = claimed_at r → run_evolves r r'.
Proof.
  intros Ht Hs Hc Hs' Hcl. split; rewrite ?Hc, ?Hcl; [done|congruence|congruence|auto|congruence|done].
Qed.

Lemma apply_update_spec now r u r' :
  (K → default ∅ u.(ru_run_metadata) !! DISPATCH_CLAIMED_AT_KEY = None) →
  let requested := default None u.(ru_status) in
  let stamped := match requested with
                 | Some s => if is_terminal s then record_first_terminal_completion now r else r
                 | None => r end in
  (is_terminal r.(r_status) && match requested with Some s => negb (is_terminal s) | None => false end) = false →
  (is_terminal r.(r_status) && has_recorded_outcome r && rewrites_outcome r u) = false →
  apply_update stamped u = Ok r' → r'.(r_id) = r.(r_id) ∧ run_evolves r r'.
Proof.
  intros Hkey requested st Hback Hrew Happ.
  pose proof (record_first_spec now r) as (Hi & Hty & Hs & Hre & Her & Hm & Hc).
  assert (st.(r_id) = r.(r_id) ∧ st.(r_type) = r.(r_type) ∧ st.(r_status) = r.(r_status) ∧
    st.(r_result) = r.(r_result) ∧ st.(r_error_message) = r.(r_error_message) ∧
    (∀ t, r.(r_completed_at) = Some t → st.(r_completed_at) = Some t) ∧
    (∀ s, requested = Some s → is_terminal s = true → is_Some st.(r_completed_at)) ∧
    st.(r_run_metadata) = r.(r_run_metadata))
    as (Ki & Kt & Ks & Kr & Ke & Kc & Kn & Km).
  { unfold st. destruct requested as [s|]; [destruct (is_terminal s) eqn:Es|].
    all: split_and!; auto; try (intros t Ht; rewrite Hc, Ht; done).
    all: intros s' Hs' Ht; simplify_eq; first [congruence|by rewrite Hc]. }
  assert (r'.(r_id) = st.(r_id) ∧ r'.(r_type) = st.(r_type) ∧
    r'.(r_completed_at) = st.(r_completed_at) ∧
    r'.(r_status) = default st.(r_status) requested ∧
    r'.(r_result) = default st.(r_result) u.(ru_result) ∧
    r'.(r_error_message) = default st.(r_error_message) u.(ru_error_message) ∧
    r'.(r_run_metadata) = from_option (merge st.(r_run_metadata)) st.(r_run_metadata) u.(ru_run_metadata))
    as (Ji & Jt & Jc & Js & Jr & Je & Jm).
  { clearbody st. unfold apply_update, requested in *. destruct u as [us um ur ue uc]; cbn in *.
    destruct um, ur, ue, us as [[?|]|]; simplify_eq/=; done. }
  split; [congruence|]. split; [congruence| | | | |].
  - intros Ht. rewrite Js. destruct requested as [s|]; cbn; [|by rewrite Ks].
    rewrite Ht in Hback. cbn in Hback. by apply negb_false_iff in Hback.
  - intros Ht Ho. rewrite Ht, Ho in Hrew. cbn in Hrew. unfold rewrites_outcome in Hrew.
    apply orb_false_iff in Hrew as [[Ha Hb]%orb_false_iff Hd].
    rewrite Js, Jr, Je, Ks, Kr, Ke. unfold requested.
    split_and!.
    + destruct (ru_status u) as [[s|]|]; cbn in *; [|done|done].
      apply negb_false_iff, bool_decide_eq_true in Ha. congruence.
    + destruct (ru_result u); cbn in *; [|done]. by apply negb_false_iff, bool_decide_eq_true in Hb.
    + destruct (ru_error_message u); cbn in *; [|done]. by apply negb_false_iff, bool_decide_eq_true in Hd.
  - intros t Hx. rewrite Jc. auto.
  - intros Hst Ht. rewrite Jc. destruct requested as [s|]; cbn in *.
    + apply (Kn s); [done|congruence].
    + rewrite Js, Ks in Ht. destruct (Hst Ht) as [t Hx]. rewrite (Kc _ Hx). by eexists.
  - intros HK t. unfold claimed_at. rewrite Jm, Km. specialize (Hkey HK).
    destruct (ru_run_metadata u) as [m|]; cbn in *; [|done].
    unfold meta_get, merge. by rewrite lookup_union_r.
Qed.

(** ** Every endpoint keeps the rules *)

Definition run_sound {A} (m : M Database A) : Prop :=
  ∀ db, keyed_runs db → wp m (λ _ db', runs_evolve db db') db.

Lemma create_run_sound now b : run_sound (create_run now b).
Proof.
  intros db Hk. unfold create_run. run_walk; auto using runs_evolve_refl.
  all: match goal with H : negb _ = false |- _ =>
         apply negb_false_iff, andb_true_iff in H as [H%bool_decide_eq_true _] end.
  all: split_and!; [intros i x; cbn; rewrite lookup_insert_Some; naive_solver| |].
  all: try (intros Hs i x; cbn; rewrite lookup_insert_Some; intros [[<- <-]|[_ ?]]; [done|by apply (Hs i)]).
  all: intros i x Hx; exists x; cbn; rewrite lookup_insert_ne by congruence; auto using run_evolves_refl.
Qed.

Lemma update_run_sound now c id u :
  (K → leaves_boundary (UpdateRun c id u)) → run_sound (update_run now c id u).
Proof.
  intros Hkey db Hk. unfold update_run. run_walk; auto using runs_evolve_refl.
  match goal with H : apply_update _ _ = Ok _ |- _ => apply apply_update_spec in H as [Hi He]; [|done..] end.
  pose proof (Hk _ _ H) as <-. by eapply runs_evolve_put.
Qed.

Lemma start_run_sound c id : run_sound (start_run c id).
Proof.
  intros db Hk. unfold start_run. run_walk; auto using runs_evolve_refl.
  pose proof (Hk _ _ H) as <-. eapply runs_evolve_put; [done|done|done|]. by apply run_evolves_open.
Qed.

Lemma claim_run_dispatch_sound now c id : run_sound (claim_run_dispatch now c id).
Proof.
  intros db Hk. unfold claim_run_dispatch. run_walk; auto using runs_evolve_refl.
  all: pose proof (Hk _ _ H) as <-; (eapply runs_evolve_put; [done|done|done|]);
    (apply run_evolves_same_outcome; [done..|]); intros t Ht; rewrite Ht;
    apply claim_row_spec.
Qed.

(** The row a withdrawal or a supersede writes. *)
Lemma cancelled_spec now reason r :
  (cancelled now reason r).(r_id) = r.(r_id) ∧ (cancelled now reason r).(r_type) = r.(r_type) ∧
  (cancelled now reason r).(r_status) = value RunStatus.CANCELLED ∧
  (cancelled now reason r).(r_result) = r.(r_result) ∧
  (cancelled now reason r).(r_completed_at) = Some (default now r.(r_completed_at)) ∧
  (cancelled now reason r).(r_run_metadata) = r.(r_run_metadata).
Proof.
  unfold cancelled. destruct (with_reason_spec reason (record_first_terminal_completion now
    (r <| r_status := value RunStatus.CANCELLED |>))) as (-> & -> & -> & -> & -> & ->).
  destruct (record_first_spec now (r <| r_status := value RunStatus.CANCELLED |>))
    as (-> & -> & -> & -> & _ & -> & ->). done.
Qed.

Lemma withdraw_run_dispatch_sound now c id reason : run_sound (withdraw_run_dispatch now c id reason).
Proof.
  intros db Hk. unfold withdraw_run_dispatch. run_walk; auto using runs_evolve_refl.
  all: pose proof (Hk _ _ H) as <-; pose proof (cancelled_spec now reason r) as (Hi & Hty & Hs & _ & Hc & Hm).
  all: eapply runs_evolve_put; [done|done|done|].
  all: eapply run_evolves_close; [done|by rewrite E|by rewrite Hs|done|].
  all: unfold claimed_at; by rewrite Hm.
Qed.

Lemma supersede_run_dispatch_sound now c id reason : run_sound (supersede_run_dispatch now c id reason).
Proof.
  intros db Hk. unfold supersede_run_dispatch. run_walk; auto using runs_evolve_refl.
  all: pose proof (Hk _ _ H) as <-; pose proof (cancelled_spec now reason r) as (Hi & Hty & Hs & _ & Hc & Hm).
  all: eapply runs_evolve_put; [done|done|done|].
  all: eapply (run_evolves_close _ _ now); [done|done|by (cbn; rewrite Hs)|done|].
  all: unfold claimed_at, meta_get; cbn; by rewrite lookup_insert_ne, Hm.
Qed.

Lemma escalate_keeps_runs now c g e : run_sound (escalate_grant now c g e).
Proof.
  intros db Hk. unfold escalate_grant. run_walk; auto using runs_evolve_refl.
  all: try by apply runs_evolve_same.
  match goal with H : db.(runs) !! _ = Some ?r |- _ => rename r into run; pose proof (Hk _ _ H) as Hid end.
  set (closed := record_first_terminal_completion _ _).
  destruct (record_first_spec now (run <| r_status := value RunStatus.FAILED |>
    <| r_error_message := Some e.(es_run_error_message) |>
    <| r_result := Some (QAResult e.(es_run_result)) |>)) as (Hi & Hty & Hs & _ & _ & Hm & Hc).
  fold closed in Hi, Hty, Hs, Hm, Hc. clearbody closed. cbn in *.
  assert (runs_evolve db (put_run closed db)) as Hput.
  { eapply runs_evolve_put; [done|by rewrite Hid|done|].
    eapply (run_evolves_close _ _ now); [done|by rewrite E0|by rewrite Hs|done|].
    unfold claimed_at. by rewrite Hm. }
  eapply runs_evolve_trans; [exact Hput|]. apply runs_evolve_same; [|done]. apply Hput.
Qed.

Lemma serve_run_sound now call : (K → leaves_boundary call) → run_sound (serve_run now call).
Proof.
  intros Hkey.
  assert (∀ A (m : M Database A), run_sound m → run_sound (m;; mret tt)) as Hret.
  { intros A m Hm db Hk. apply wp_bind. eapply wp_mono; [by apply Hm|]. intros [a|e] db' H; done. }
  destruct call; apply Hret; auto using create_run_sound, update_run_sound, start_run_sound,
    claim_run_dispatch_sound, withdraw_run_dispatch_sound, supersede_run_dispatch_sound,
    escalate_keeps_runs.
Qed.

Lemma serve_runs_sound calls db :
  (K → Forall (λ c, leaves_boundary c.2) calls) → keyed_runs db →
  runs_evolve db (serve_runs calls db).
Proof.
  revert db. induction calls as [|[now call] calls IH]; intros db Hl Hk; cbn.
  { by apply runs_evolve_refl. }
  assert (runs_evolve db (serve_run now call db).2) as Hs.
  { apply (serve_run_sound now call); [|done]. intros HK. by destruct (Forall_cons_1 _ _ _ (Hl HK)). }
  eapply runs_evolve_trans; [exact Hs|]. apply IH; [|apply Hs].
  intros HK. by destruct (Forall_cons_1 _ _ _ (Hl HK)).
Qed.
End evolution.

(** ** The properties *)

(** C1 (safety).  Whatever requests clients send, in any order: a run in a
    terminal status stays in one, and once a terminal run has recorded its
    outcome its status, result and error message never change again. *)
Theorem recorded_outcomes_are_final db calls id r :
  well_keyed db → db.(runs) !! id = Some r → is_terminal r.(r_status) = true →
  ∃ r', (serve_runs calls db).(runs) !! id = Some r' ∧
    is_terminal r'.(r_status) = true ∧
    (has_recorded_outcome r = true →
     r'.(r_status) = r.(r_status) ∧ r'.(r_result) = r.(r_result) ∧
     r'.(r_error_message) = r.(r_error_message)).
Proof.
  intros (_ & _ & Hk & _) Hr Ht. destruct (serve_runs_sound False calls db) as (_ & _ & He); [done|done|].
  destruct (He _ _ Hr) as (r' & Hr' & Hev). exists r'. split; [done|].
  split; [by apply (ev_terminal _ _ _ Hev)|]. intros Ho. by apply (ev_outcome _ _ _ Hev).
Qed.

(** Starting from no runs, every terminal run carries the moment
    it completed; and from any database that moment, once stamped, is the one the
    row keeps, whatever timestamp later writers send. *)
Theorem completion_is_stamped_once db calls more id r t :
  db.(runs) = ∅ → (serve_runs calls db).(runs) !! id = Some r →
  (is_terminal r.(r_status) = true → is_Some r.(r_completed_at)) ∧
  (r.(r_completed_at) = Some t →
   ∃ r', (serve_runs (calls ++ more) db).(runs) !! id = Some r' ∧ r'.(r_completed_at) = Some t).
Proof.
  intros Hdb Hr. assert (keyed_runs db) as Hk by (intros i x; by rewrite Hdb, lookup_empty).
  destruct (serve_runs_sound False calls db) as (Hk' & Hs & _); [done|done|]. split.
  - assert (stamped db) as Hst by (intros i x; by rewrite Hdb, lookup_empty). exact (Hs Hst id r Hr).
  - intros Hc. unfold serve_runs. rewrite foldl_app. fold (serve_runs calls db).
    destruct (serve_runs_sound False more _ (λ f, match f with end) Hk') as (_ & _ & He).
    destruct (He _ _ Hr) as (r' & Hr' & Hev). exists r'. split; [done|].
    by apply (ev_completed _ _ _ Hev).
Qed.

(** A claim on a run that is over is refused. *)
Lemma claim_refused now c id db r :
  db.(runs) !! id = Some r → is_terminal r.(r_status) = true →
  wp (claim_run_dispatch now c id)
    (λ a db', db' = db ∧ ∀ x, a = Ok x → x.(dc_granted) = false) db.
Proof.
  intros Hr Ht. unfold claim_run_dispatch. run_walk; try (split; congruence).
  split; [done|]. by intros x [= <-].
Qed.

Lemma withdraw_spec now c id reason db :
  keyed_runs db →
  wp (withdraw_run_dispatch now c id reason) (λ a db', ∀ x, a = Ok x →
    ∃ r r', db.(runs) !! id = Some r ∧ db'.(runs) !! id = Some r' ∧ is_terminal r'.(r_status) = true ∧
      (x.(dd_outcome) = DispatchWithdrawal.WITHDRAWN ↔
         is_terminal r.(r_status) = false ∧ claimed_at r = None)) db.
Proof.
  intros Hk. unfold withdraw_run_dispatch. run_walk; intros x Hx; try discriminate Hx.
  all: injection Hx as <-; cbn; pose proof (Hk _ _ H) as <-.
  - exists r, r. split_and!; [done..|]. split; [done|]. intros [? ?]. congruence.
  - exists r, (cancelled now reason r). destruct (cancelled_spec now reason r) as (Hi & _ & Hs & _).
    rewrite Hi, lookup_insert_eq, Hs. split_and!; [done|done|done|].
    destruct (claimed_at r); naive_solver.
Qed.

(** C2 (safety).  The dispatch boundary has one winner.  A withdrawal answers
    WITHDRAWN only for a run nobody had claimed and that was not over; and after
    any withdrawal, under any later requests, no claim on that run is granted. *)
Theorem withdrawn_run_never_dispatches now c id reason db a db1 calls now' c' :
  well_keyed db → withdraw_run_dispatch now c id reason db = (Ok a, db1) →
  (a.(dd_outcome) = DispatchWithdrawal.WITHDRAWN →
     ∃ r, db.(runs) !! id = Some r ∧ is_terminal r.(r_status) = false ∧ claimed_at r = None) ∧
  ∀ x db2, claim_run_dispatch now' c' id (serve_runs calls db1) = (Ok x, db2) → x.(dc_granted) = false.
Proof.
  intros (_ & _ & Hk & _) Heq. pose proof (withdraw_spec now c id reason db Hk) as Hw.
  pose proof (withdraw_run_dispatch_sound False now c id reason db Hk) as Hs.
  unfold wp in Hw, Hs. rewrite Heq in Hw, Hs. cbn in Hw, Hs.
  destruct (Hw a eq_refl) as (r & r' & Hr & Hr' & Ht & Hiff). split; [naive_solver|].
  intros x db2 Hx. destruct (serve_runs_sound False calls db1) as (_ & _ & He); [done|apply Hs|].
  destruct (He _ _ Hr') as (r2 & Hr2 & Hev). apply (ev_terminal _ _ _ Hev) in Ht.
  pose proof (claim_refused now' c' id _ _ Hr2 Ht) as Hc. unfold wp in Hc. rewrite Hx in Hc.
  by apply Hc.
Qed.

(** The other side of the same decision: once a worker's claim was
    granted, and as long as nobody writes the claim's own metadata key, a
    withdrawal is never told the deploy was stopped before it reached GitHub. *)
Theorem claimed_run_is_never_withdrawn now c id db x db1 calls now' c' reason :
  well_keyed db → claim_run_dispatch now c id db = (Ok x, db1) → x.(dc_granted) = true →
  Forall (λ call, leaves_boundary call.2) calls →
  ∀ a db2, withdraw_run_dispatch now' c' id reason (serve_runs calls db1) = (Ok a, db2) →
    a.(dd_outcome) ≠ DispatchWithdrawal.WITHDRAWN.
Proof.
  intros (_ & _ & Hk & _) Heq Hg Hl a db2 Ha.
  pose proof (claim_run_dispatch_sound True now c id db Hk) as Hs.
  assert (wp (claim_run_dispatch now c id) (λ a db', ∀ x, a = Ok x → dc_granted x = true →
    ∃ r t, db'.(runs) !! id = Some r ∧ claimed_at r = Some t) db) as Hw.
  { unfold claim_run_dispatch. run_walk; intros y Hy Hgy; simplify_eq/=.
    pose proof (Hk _ _ H) as <-. do 2 eexists. rewrite lookup_insert_eq. split; [done|].
    apply claim_row_spec. }
  unfold wp in Hw, Hs. rewrite Heq in Hw, Hs. cbn in Hw, Hs.
  destruct (Hw x eq_refl Hg) as (r & t & Hr & Hc).
  destruct (serve_runs_sound True calls db1) as (Hk2 & _ & He); [done|apply Hs|].
  destruct (He _ _ Hr) as (r2 & Hr2 & Hev). pose proof (ev_claimed _ _ _ Hev I _ Hc) as Hc2.
  pose proof (withdraw_spec now' c' id reason _ Hk2) as Hwd. unfold wp in Hwd. rewrite Ha in Hwd.
  destruct (Hwd a eq_refl) as (r3 & _ & Hr3 & _ & _ & Hiff). naive_solver.
Qed.

(** A granted claim is good for five minutes: asked before the
    lease runs out, reconciliation answers LEASE_LIVE and changes nothing, and a
    renewal extends the lease but keeps the moment of the first crossing. *)
Theorem live_lease_is_waited_for now c id db x db1 now' c' reason r :
  well_keyed db → db.(runs) !! id = Some r → superseded_at r = None →
  claim_run_dispatch now c id db = (Ok x, db1) → x.(dc_granted) = true →
  now' < now + DISPATCH_LEASE →
  x.(dc_claimed_at) = Some (default now (claimed_at r)) ∧
  ∀ a db2, supersede_run_dispatch now' c' id reason db1 = (Ok a, db2) →
    a.(dp_outcome) = DispatchSupersede.LEASE_LIVE ∧ settled a = false ∧ db2 = db1.
Proof.
  intros (_ & _ & Hk & _) Hr Hsup Heq Hg Hnow.
  assert (wp (claim_run_dispatch now c id) (λ a db', ∀ x, a = Ok x → dc_granted x = true →
    x.(dc_claimed_at) = Some (default now (claimed_at r)) ∧
    ∃ r' t, db'.(runs) !! id = Some r' ∧ is_terminal r'.(r_status) = false ∧
      claimed_at r' = Some t ∧ lease_expires_at r' = Some (now + DISPATCH_LEASE) ∧
      superseded_at r' = None) db) as Hw.
  { unfold claim_run_dispatch. run_walk; intros y Hy Hgy; simplify_eq/=. split; [done|].
    pose proof (Hk _ _ Hr) as <-. do 2 eexists. rewrite lookup_insert_eq. split; [done|].
    rewrite <-Hsup. split; [done|]. apply claim_row_spec. }
  unfold wp in Hw. rewrite Heq in Hw. destruct (Hw x eq_refl Hg) as (Hx & r' & t & Hr' & Ht & Hc & Hl & Hs).
  split; [done|]. intros a db2 Ha.
  assert (wp (supersede_run_dispatch now' c' id reason) (λ a db', ∀ y, a = Ok y →
    y.(dp_outcome) = DispatchSupersede.LEASE_LIVE ∧ db' = db1) db1) as Hws.
  { unfold supersede_run_dispatch. run_walk; intros y Hy; simplify_eq/=; try done.
    all: exfalso; rewrite ?Ht, ?Hl in *; cbn in *; try congruence; lia. }
  unfold wp in Hws. rewrite Ha in Hws. destruct (Hws a eq_refl) as [Ho Hd].
  split_and!; [done| |done]. unfold settled. by rewrite Ho.
Qed.

(**  Reconciliation takes a claim back only when there is one and
    its lease has run out, and after that, under any later requests, the silent
    worker can never claim the boundary again. *)
Theorem superseded_claim_is_over now c id reason db a db1 r calls now' c' :
  well_keyed db → db.(runs) !! id = Some r → superseded_at r = None →
  supersede_run_dispatch now c id reason db = (Ok a, db1) →
  a.(dp_outcome) = DispatchSupersede.SUPERSEDED →
  is_Some (claimed_at r) ∧ (∀ e, lease_expires_at r = Some e → e ≤ now) ∧
  ∀ x db2, claim_run_dispatch now' c' id (serve_runs calls db1) = (Ok x, db2) → x.(dc_granted) = false.
Proof.
  intros (_ & _ & Hk & _) Hr Hsup Heq Ho.
  pose proof (supersede_run_dispatch_sound False now c id reason db Hk) as Hs.
  assert (wp (supersede_run_dispatch now c id reason) (λ a db', ∀ y, a = Ok y →
    dp_outcome y = DispatchSupersede.SUPERSEDED →
    is_Some (claimed_at r) ∧ (∀ e, lease_expires_at r = Some e → e ≤ now) ∧
    ∃ r', db'.(runs) !! id = Some r' ∧ is_terminal r'.(r_status) = true) db) as Hw.
  { unfold supersede_run_dispatch. run_walk; intros y Hy Hoy; simplify_eq/=.
    pose proof (Hk _ _ Hr) as <-. destruct (cancelled_spec now reason r) as (Hi & _ & Hst & _).
    split_and!; [by eexists|intros e He; rewrite He in *; lia|].
    eexists. rewrite Hi, lookup_insert_eq. split; [done|]. cbn. by rewrite Hst. }
  unfold wp in Hw, Hs. rewrite Heq in Hw, Hs. destruct (Hw a eq_refl Ho) as (H1 & H2 & r' & Hr' & Ht).
  split_and!; [done|done|]. intros x db2 Hx.
  destruct (serve_runs_sound False calls db1) as (_ & _ & He); [done|apply Hs|].
  destruct (He _ _ Hr') as (r2 & Hr2 & Hev). apply (ev_terminal _ _ _ Hev) in Ht.
  pose proof (claim_refused now' c' id _ _ Hr2 Ht) as Hc. unfold wp in Hc. rewrite Hx in Hc.
  by apply Hc.
Qed.

(** A deploy run that was cancelled at the dispatch boundary
    carries no result, and its worker may still be alive: the first account it
    sends is recorded, keeping the completion moment, and every later account
    that differs from it is refused with a 409 and changes nothing. *)
Theorem late_worker_records_once now id db r s result :
  well_keyed db → db.(runs) !! id = Some r → is_terminal r.(r_status) = true →
  r.(r_type) ≠ value RunType.QA → r.(r_result) = None → is_terminal s = true →
  ∃ r', update_run now service id
      (no_update <| ru_status := Some (Some s) |> <| ru_result := Some (Some result) |>) db
      = (Ok r', put_run r' db) ∧
    r'.(r_status) = s ∧ r'.(r_result) = Some result ∧
    r'.(r_completed_at) = Some (default now r.(r_completed_at)) ∧
    ∀ now' u, rewrites_outcome r' u = true →
      update_run now' service id u (put_run r' db) = (Exc CONFLICT, put_run r' db).
Proof.
  intros (_ & _ & Hk & _) Hr Ht Hty Hres Hs. pose proof (Hk _ _ Hr) as Hid. subst id.
  destruct (record_first_spec now r) as (Hi & Hty' & _ & _ & _ & _ & Hc).
  set (r' := (record_first_terminal_completion now r) <| r_result := Some result |> <| r_status := s |>).
  exists r'. split_and!; [|done|done|done|].
  - unfold update_run, transaction, lock_run, mbind, M_bind, gets, some_or, guard_not.
    rewrite Hr. cbn. unfold has_recorded_outcome. rewrite Ht, Hs, Hres.
    rewrite bool_decide_eq_false_2 by auto. by rewrite bool_decide_eq_false_2 by done.
  - intros now' u Hu. unfold update_run, transaction, lock_run, mbind, M_bind, gets, some_or, guard_not.
    assert ((put_run r' db).(runs) !! r.(r_id) = Some r') as ->.
    { cbn. by rewrite Hi, lookup_insert_eq. }
    cbn. rewrite Hs, Hu. cbn.
    destruct (match default None (ru_status u) with Some s => negb (is_terminal s) | None => false end); done.
Qed.

(** ** The properties at concrete inputs *)

Definition run_row (type status : string) (result : option run_result) (completed : option Z) : Run :=
  mkRun "run-1" type status (Some "project-1") None ∅ result None completed None None 0.
Definition runs_db (r : Run) : Database := empty_database <| runs := {[ r.(r_id) := r ]} |>.

Lemma runs_db_keyed r : well_keyed (runs_db r).
Proof.
  split_and!; cbn; intros id x H; try by rewrite lookup_empty in H.
  by apply lookup_singleton_Some in H as [<- <-].
Qed.

Definition passed : run_result :=
  QAResult (mkQARunResult QAOutcome.PASSED None [] None None None None None [] []).
Definition deployed : run_result :=
  DeployResult (mkDeployRunResult DeployOutcome.SUCCESS None None None false 0 None [] None None None
    None None None).

Lemma recorded_outcomes_are_final_witness :
  ∃ r', (serve_runs [(5, UpdateRun service "run-1" (no_update <| ru_status := Some (Some "failed") |>));
                     (6, StartRun service "run-1")]
           (runs_db (run_row "qa" "completed" (Some passed) (Some 3)))).(runs) !! "run-1" = Some r' ∧
    is_terminal r'.(r_status) = true ∧
    (has_recorded_outcome (run_row "qa" "completed" (Some passed) (Some 3)) = true →
     r'.(r_status) = "completed" ∧ r'.(r_result) = Some passed ∧ r'.(r_error_message) = None).
Proof.
  apply (recorded_outcomes_are_final _ _ "run-1" (run_row "qa" "completed" (Some passed) (Some 3)));
    [apply runs_db_keyed|reflexivity|reflexivity].
Defined.

Definition deploy_run : RunCreate := mkRunCreate "run-1" "deploy" None None None None ∅.
Definition finished : list (Z * RunCall) :=
  [(1, CreateRun deploy_run); (2, StartRun service "run-1");
   (3, UpdateRun service "run-1" (no_update <| ru_status := Some (Some "completed") |>
          <| ru_result := Some (Some deployed) |> <| ru_completed_at := Some (Some 99) |>))].

Definition finished_row : Run :=
  mkRun "run-1" "deploy" "completed" None None ∅ (Some deployed) None (Some 3) None None 1.
Definition restamp : list (Z * RunCall) :=
  [(4, UpdateRun service "run-1" (no_update <| ru_completed_at := Some (Some 1) |>))].

Lemma completion_is_stamped_once_witness :
  (is_terminal finished_row.(r_status) = true → is_Some finished_row.(r_completed_at)) ∧
  (finished_row.(r_completed_at) = Some 3 → ∃ r', (serve_runs (finished ++ restamp)
      empty_database).(runs) !! "run-1" = Some r' ∧ r'.(r_completed_at) = Some 3).
Proof.
  apply (completion_is_stamped_once empty_database finished restamp "run-1" finished_row 3);
    [reflexivity|vm_compute; reflexivity].
Defined.

Lemma withdrawn_run_never_dispatches_witness :
  match withdraw_run_dispatch 5 service "run-1" "revoked" (runs_db (run_row "deploy" "running" None None)) with
  | (Ok a, db1) => ∀ x db2, claim_run_dispatch 7 service "run-1"
        (serve_runs [(6, UpdateRun service "run-1" (no_update <| ru_status := Some (Some "running") |>))] db1)
        = (Ok x, db2) → x.(dc_granted) = false
  | _ => False
  end.
Proof.
  destruct (withdraw_run_dispatch _ _ _ _ _) as [[a|e] db1] eqn:E; [|vm_compute in E; discriminate E].
  apply (withdrawn_run_never_dispatches 5 service "run-1" "revoked" _ a db1 _ 7 service
    (runs_db_keyed _) E).
Defined.

Lemma claimed_run_is_never_withdrawn_witness :
  match claim_run_dispatch 5 service "run-1" (runs_db (run_row "deploy" "running" None None)) with
  | (Ok x, db1) => ∀ a db2, withdraw_run_dispatch 7 service "run-1" "" (serve_runs [(6, StartRun service "run-1")] db1)
        = (Ok a, db2) → a.(dd_outcome) ≠ DispatchWithdrawal.WITHDRAWN
  | _ => False
  end.
Proof.
  destruct (claim_run_dispatch _ _ _ _) as [[x|e] db1] eqn:E; [|vm_compute in E; discriminate E].
  apply (claimed_run_is_never_withdrawn 5 service "run-1" _ x db1 _ 7 service "" (runs_db_keyed _) E).
  - vm_compute in E. injection E as <- _. reflexivity.
  - repeat constructor.
Defined.

Lemma live_lease_is_waited_for_witness :
  match claim_run_dispatch 5 service "run-1" (runs_db (run_row "deploy" "running" None None)) with
  | (Ok x, db1) => ∀ a db2, supersede_run_dispatch 6 service "run-1" "silent" db1 = (Ok a, db2) →
      a.(dp_outcome) = DispatchSupersede.LEASE_LIVE ∧ settled a = false ∧ db2 = db1
  | _ => False
  end.
Proof.
  destruct (claim_run_dispatch _ _ _ _) as [[x|e] db1] eqn:E; [|vm_compute in E; discriminate E].
  apply (live_lease_is_waited_for 5 service "run-1" _ x db1 6 service "silent"
    (run_row "deploy" "running" None None) (runs_db_keyed (run_row "deploy" "running" None None)) eq_refl eq_refl E).
  - vm_compute in E. injection E as <- _. reflexivity.
  - reflexivity.
Defined.

Lemma superseded_claim_is_over_witness :
  let r := (run_row "deploy" "running" None None)
             <| r_run_metadata := {[ DISPATCH_CLAIMED_AT_KEY := MTime 1 ]} |> in
  match supersede_run_dispatch 9 service "run-1" "silent" (runs_db r) with
  | (Ok a, db1) => is_Some (claimed_at r) ∧ (∀ e, lease_expires_at r = Some e → e ≤ 9) ∧
      ∀ x db2, claim_run_dispatch 10 service "run-1" (serve_runs [] db1) = (Ok x, db2) → x.(dc_granted) = false
  | _ => False
  end.
Proof.
  set (r := _ <| r_run_metadata := _ |>). cbv zeta.
  destruct (supersede_run_dispatch _ _ _ _ _) as [[a|e] db1] eqn:E; [|vm_compute in E; discriminate E].
  apply (superseded_claim_is_over 9 service "run-1" "silent" (runs_db r) a db1 r [] 10 service
    (runs_db_keyed r) eq_refl eq_refl E).
  vm_compute in E. injection E as <- _. reflexivity.
Defined.

Lemma late_worker_records_once_witness :
  ∃ r', update_run 9 service "run-1"
      (no_update <| ru_status := Some (Some "failed") |> <| ru_result := Some (Some deployed) |>)
      (runs_db (run_row "deploy" "cancelled" None (Some 4)))
      = (Ok r', put_run r' (runs_db (run_row "deploy" "cancelled" None (Some 4)))) ∧
    r'.(r_status) = "failed" ∧ r'.(r_result) = Some deployed ∧ r'.(r_completed_at) = Some 4 ∧
    ∀ now' u, rewrites_outcome r' u = true →
      update_run now' service "run-1" u (put_run r' (runs_db (run_row "deploy" "cancelled" None (Some 4))))
      = (Exc CONFLICT, put_run r' (runs_db (run_row "deploy" "cancelled" None (Some 4)))).
Proof.
  apply (late_worker_records_once 9 "run-1" _ (run_row "deploy" "cancelled" None (Some 4)) "failed" deployed
    (runs_db_keyed (run_row "deploy" "cancelled" None (Some 4)))); [reflexivity|reflexivity|discriminate|reflexivity|reflexivity].
Defined.
