(* ===== verification/GrantLifecycle.v ===== *)
(** * GrantLifecycle: what the grant endpoints guarantee together

    One live grant per contract slot, and a grant is closed only by readings of
    the running service that agreed over the confirmation window: invariants of
    every endpoint of [ApiGrants]. *)

From S2P Require Import Prelude Vocabulary Contracts Db Api ApiRuns ApiGrants.

Inductive GrantCall :=
| CreateGrant (c : caller) (body : GrantCreate)
| UpdateGrant (c : caller) (id : string) (u : GrantUpdate)
| EscalateGrantCall (c : caller) (id : string) (e : Escalation)
| ObserveGrant (c : caller) (error id : string) (o : Observation).

Definition serve_grant (now : Z) (call : GrantCall) : M Database unit :=
  match call with
  | CreateGrant c b => create_grant now c b;; mret tt
  | UpdateGrant c i u => update_grant now c i u;; mret tt
  | EscalateGrantCall c i e => escalate_grant now c i e;; mret tt
  | ObserveGrant c e i o => record_observation now c e i o;; mret tt
  end.

Definition serve_grants (calls : list (Z * GrantCall)) (db : Database) : Database :=
  foldl (λ db c, (serve_grant c.1 c.2 db).2) db calls.

(** What a closed grant's row proves: enough readings found the slot empty, over
    the whole window, and the row names the last one and why it was revoked. *)
Definition evidence (g : Grant) : Prop :=
  is_revoked g = true →
  ∃ since revoked, g.(g_slot_clear_since) = Some since ∧ g.(g_revoked_at) = Some revoked ∧
    REVOKE_CONFIRMATION_WINDOW ≤ revoked - since ∧
    REVOKE_CONFIRMATION_READINGS ≤ g.(g_slot_clear_readings) ∧
    is_Some g.(g_observation_id) ∧ is_Some g.(g_revoke_reason).

Definition same_slot (g h : Grant) : Prop :=
  g.(g_project_id) = h.(g_project_id) ∧ g.(g_env_key) = h.(g_env_key).

Record grants_ok (db : Database) : Prop := {
  go_keyed : ∀ id g, db.(grants) !! id = Some g → g.(g_id) = id;
  go_slot : ∀ i j g h, db.(grants) !! i = Some g → db.(grants) !! j = Some h →
    same_slot g h → is_revoked g = false → is_revoked h = false → i = j;
  go_evidence : ∀ id g, db.(grants) !! id = Some g → evidence g;
}.

Lemma grants_ok_same db db' : db'.(grants) = db.(grants) → grants_ok db → grants_ok db'.
Proof. intros Heq [Hk Hs He]. split; rewrite Heq; done. Qed.

Lemma slot_holders_empty p k db id g :
  slot_holders p k db = [] → db.(grants) !! id = Some g →
  g.(g_project_id) = p → g.(g_env_key) = k → is_revoked g = true.
Proof.
  intros Hno Hg Hp Hk. destruct (is_revoked g) eqn:Hr; [done|].
  assert (g ∈ slot_holders p k db) as Hin.
  { apply list_elem_of_filter. split; [done|]. apply list_elem_of_fmap.
    exists (id, g). split; [done|]. by apply elem_of_map_to_list. }
  rewrite Hno in Hin. by apply elem_of_nil in Hin.
Qed.

(** Writing a row that is revoked, was live already, or takes an empty slot. *)
Lemma grants_ok_put db g :
  grants_ok db → evidence g →
  (is_revoked g = false →
     (∃ g0, db.(grants) !! g.(g_id) = Some g0 ∧ same_slot g g0 ∧ is_revoked g0 = false) ∨
     slot_holders g.(g_project_id) g.(g_env_key) db = []) →
  grants_ok (put_grant g db).
Proof.
  intros [Hk Hs He] Hev Hlive.
  assert (∀ j h, db.(grants) !! j = Some h → same_slot g h → is_revoked g = false →
    is_revoked h = false → j = g.(g_id)) as Hone.
  { intros j h Hh [Hp Hkey] Hg Hr. destruct (Hlive Hg) as [(g0 & Hg0 & [Hp0 Hk0] & Hr0)|Hno].
    - apply (Hs _ _ h g0); [done|done| |done|done]. split; congruence.
    - by rewrite (slot_holders_empty _ _ _ _ _ Hno Hh) in Hr. }
  split; cbn.
  - intros id h. rewrite lookup_insert_Some. naive_solver.
  - intros i j x y. rewrite !lookup_insert_Some.
    intros [[<- <-]|[Hi Hx]] [[<- <-]|[Hj Hy]] Hsl Hrx Hry; [done| | |by eapply Hs].
    + symmetry. by eapply Hone.
    + eapply Hone; [done| |done|done]. by destruct Hsl.
  - intros id h. rewrite lookup_insert_Some. intros [[_ <-]|[_ Hh]]; [done|by eapply He].
Qed.

Lemma wp_load_grant id Q db :
  (∀ g, db.(grants) !! id = Some g → Q (Ok g) db) →
  (db.(grants) !! id = None → Q (Exc NOT_FOUND) db) →
  wp (load_grant id) Q db.
Proof. intros Hs Hn. unfold load_grant. wp_auto; eauto. Qed.

Lemma wp_scalar {A} (rows : list A) (Q : res (option A) → Database → Prop) db :
  (rows = [] → Q (Ok None) db) → (∀ a, rows = [a] → Q (Ok (Some a)) db) →
  (∀ a b l, rows = a :: b :: l → Q (Exc RuntimeError) db) → wp (scalar_one_or_none rows) Q db.
Proof. intros H0 H1 H2. destruct rows as [|a [|b l]]; cbn; [apply wp_ret|apply wp_ret|apply wp_raise]; eauto. Qed.

Ltac grant_walk :=
  repeat first
    [ wp_step; cbn beta iota
    | apply wp_load_grant; [intros ? ?|intros ?]
    | apply wp_scalar; [intros ?|intros ? ?|intros ? ? ? ?]
    | apply wp_service
    | eapply wp_reads; [by auto with guar|intros [?|?]]
    | progress unfold on_ok ].

Definition grant_sound {A} (m : M Database A) : Prop :=
  ∀ db, grants_ok db → wp m (λ _ db', grants_ok db') db.

Lemma create_grant_sound now c b : grant_sound (create_grant now c b).
Proof.
  intros db Hok. unfold create_grant. grant_walk; try done.
  all: apply grants_ok_put; [done|intros H'; by apply bool_decide_eq_true in H'|intros _; by right].
Qed.

(** A live row rewritten in place. *)
Lemma grants_ok_rewrite db id g g' :
  grants_ok db → db.(grants) !! id = Some g → g'.(g_id) = g.(g_id) → same_slot g' g →
  is_revoked g = false → evidence g' → grants_ok (put_grant g' db).
Proof.
  intros Hok Hg Hid Hsl Hr Hev. apply grants_ok_put; [done|done|]. intros _. left.
  exists g. by rewrite Hid, (go_keyed _ Hok _ _ Hg).
Qed.

Lemma live_evidence g : is_revoked g = false → evidence g.
Proof. intros Hr H. congruence. Qed.

Lemma set_grant_fields_keeps g u g' : set_grant_fields g u = Some g' →
  g'.(g_id) = g.(g_id) ∧ same_slot g' g ∧ g'.(g_status) = g.(g_status).
Proof.
  unfold set_grant_fields, same_slot. destruct u as [us ug uq ur ui ua ue ul]; cbn.
  destruct ug as [[?|]|], ua as [[?|]|], ur, ui, ul; intros; simplify_eq/=; done.
Qed.

Lemma is_revoked_value g (s : TemporaryAccessStatus.t) :
  g.(g_status) = value s → is_revoked g = bool_decide (s = TemporaryAccessStatus.REVOKED).
Proof.
  intros Hs. unfold is_revoked. rewrite Hs. apply bool_decide_ext.
  split; [apply (inj value)|by intros ->].
Qed.

Lemma stamp_moments_keeps now g u :
  (stamp_moments now g u).(g_id) = g.(g_id) ∧ same_slot (stamp_moments now g u) g ∧
  (stamp_moments now g u).(g_status) = g.(g_status).
Proof.
  unfold stamp_moments, same_slot.
  destruct (gu_qa_dispatched u) as [[[]|]|], (gu_escalated u) as [[[]|]|]; done.
Qed.

Lemma update_grant_sound now c id u : grant_sound (update_grant now c id u).
Proof.
  intros db Hok. unfold update_grant. grant_walk; try done.
  all: match goal with H : set_grant_fields _ _ = Some _ |- _ =>
    apply set_grant_fields_keeps in H as (Hi & [Hp Hk] & Hst) end.
  all: destruct (stamp_moments_keeps now g u) as (Hi' & [Hp' Hk'] & Hst').
  all: destruct (gu_status u) as [[t|]|] eqn:E.
  all: (eapply grants_ok_rewrite; [done|done|exact (eq_trans Hi Hi')
    |exact (conj (eq_trans Hp Hp') (eq_trans Hk Hk'))|done|]).
  all: apply live_evidence.
  - rewrite (is_revoked_value _ t) by done. apply bool_decide_eq_false. intros ->.
    unfold revoked_is_not_a_field_to_set in *. rewrite E in *.
    by rewrite bool_decide_eq_true_2 in *.
  - unfold is_revoked in *. by rewrite Hst, Hst'.
  - unfold is_revoked in *. by rewrite Hst, Hst'.
Qed.

Lemma escalate_grant_sound now c id e : grant_sound (escalate_grant now c id e).
Proof.
  intros db Hok. unfold escalate_grant. grant_walk; try done.
  all: apply (grants_ok_rewrite _ id g); [|exact H|reflexivity|split; reflexivity|exact H0|by apply live_evidence].
  all: first [exact Hok|apply (grants_ok_same db); [reflexivity|exact Hok]].
Qed.

Lemma read_a_closed_grant_sound now error id g0 g o db :
  grants_ok db → db.(grants) !! id = Some g0 → g.(g_id) = g0.(g_id) → same_slot g g0 →
  is_revoked g = true → evidence g →
  wp (read_a_closed_grant now error g o) (λ _ db', grants_ok db') db.
Proof.
  intros Hok Hg Hid Hsl Hr Hev. unfold read_a_closed_grant. grant_walk; try done.
  all: apply grants_ok_put; [done| |].
  - intros H. destruct (Hev Hr) as (s & r & ? & ? & ? & ? & ? & ?). exists s, r. cbn. split_and!; auto. lia.
  - intros H. cbn in H. unfold is_revoked in *. cbn in *. congruence.
  - by apply live_evidence.
  - intros _. by right.
  - done.
  - congruence.
Qed.

Lemma count_clear_reading_keeps now g :
  let g' := count_clear_reading now g in
  g'.(g_id) = g.(g_id) ∧ same_slot g' g ∧ g'.(g_status) = g.(g_status) ∧
  g'.(g_observation_id) = g.(g_observation_id) ∧ g'.(g_revoke_reason) = g.(g_revoke_reason).
Proof. unfold count_clear_reading, same_slot. by destruct (g_slot_clear_since g). Qed.

Lemma confirmed_closes now g :
  confirmed now g = true → is_Some g.(g_observation_id) → g.(g_revoke_reason) ≠ None →
  evidence (g <| g_status := value TemporaryAccessStatus.REVOKED |> <| g_revoked_at := Some now |>).
Proof.
  unfold confirmed, evidence. cbn. destruct (g_slot_clear_since g) as [since|]; [|done].
  intros [? ?]%andb_true_iff Ho Hr _. exists since, now. split_and!; [done|done|lia|lia|done|].
  by apply not_eq_None_Some.
Qed.

Lemma record_observation_sound now c error id o : grant_sound (record_observation now c error id o).
Proof.
  intros db Hok. unfold record_observation. grant_walk; try done.
  all: set (read := g <| g_observation_id := _ |> <| g_observed_at := _ |>) in *.
  1: { eapply wp_mono; [eapply (read_a_closed_grant_sound _ _ id g); [done|done|done|by split|done|]|by intros [?|?]].
       intros H'. destruct (go_evidence _ Hok _ _ H H') as (s & r & ?). exists s, r. cbn. naive_solver. }
  all: apply (grants_ok_rewrite _ id g); [done|done| | |exact E0| ];
    try (by apply live_evidence); try done.
  all: destruct (count_clear_reading_keeps now read) as (Hi & Hsl & Hst & Ho & Hre).
  all: try exact Hi; try exact Hsl.
  - apply confirmed_closes; [done|by rewrite Ho; eexists|].
    intros Hno. match goal with H : bool_decide (_ = None) = false |- _ => apply bool_decide_eq_false in H; by apply H end.
  - apply live_evidence. unfold is_revoked in *. by rewrite Hst.
Qed.

Lemma serve_grant_sound now call : grant_sound (serve_grant now call).
Proof.
  assert (∀ A (m : M Database A), grant_sound m → grant_sound (m;; mret tt)) as Hret.
  { intros A m Hm db Hk. apply wp_bind. eapply wp_mono; [by apply Hm|]. intros [a|e] db' H; done. }
  destruct call; apply Hret; auto using create_grant_sound, update_grant_sound, escalate_grant_sound,
    record_observation_sound.
Qed.

Lemma serve_grants_sound calls db : grants_ok db → grants_ok (serve_grants calls db).
Proof.
  revert db. induction calls as [|[now call] calls IH]; intros db Hok; cbn; [done|].
  apply IH. exact (serve_grant_sound now call db Hok).
Qed.

Lemma no_grants_ok db : db.(grants) = ∅ → grants_ok db.
Proof. intros He. split; intros *; rewrite ?He, ?lookup_empty; done. Qed.

(** ** The properties *)



(** A call that leaves every grant's closedness as it was, or closes [id]. *)
Definition closes_only (P : string → Prop) (db db' : Database) : Prop :=
  ∀ id g g', db.(grants) !! id = Some g → db'.(grants) !! id = Some g' →
    is_revoked g = false → is_revoked g' = true → P id.

Lemma closes_only_same P db db' : db'.(grants) = db.(grants) → closes_only P db db'.
Proof. intros Heq id g g'. rewrite Heq. congruence. Qed.

Lemma closes_only_put (P : string → Prop) db g :
  (is_revoked g = false ∨ P g.(g_id)) → closes_only P db (put_grant g db).
Proof. intros H id x y Hx. cbn. rewrite lookup_insert_Some. intros [[<- <-]|[_ ?]]; intuition congruence. Qed.

(** Only a reading closes a grant: if serving one request turned a
    live grant REVOKED, the request was an observation of that grant, of its own
    key and of the application it was tested on, that found the slot empty. *)
Theorem only_an_observation_closes now call db id g g' :
  grants_ok db → db.(grants) !! id = Some g → (serve_grant now call db).2.(grants) !! id = Some g' →
  is_revoked g = false → is_revoked g' = true →
  ∃ c error o, call = ObserveGrant c error id o ∧ o.(ob_present) = false ∧
    o.(ob_env_key) = g.(g_env_key) ∧ o.(ob_application_id) = g.(g_qa_message).(qm_application_id).
Proof.
  intros Hok Hg Hg' Hr Hr'.
  assert (closes_only (λ i, ∃ c error o g, call = ObserveGrant c error i o ∧ o.(ob_present) = false ∧
    db.(grants) !! i = Some g ∧ o.(ob_env_key) = g.(g_env_key) ∧
    o.(ob_application_id) = g.(g_qa_message).(qm_application_id)) db (serve_grant now call db).2) as Hcl.
  { assert (∀ A (m : M Database A) P, wp m (λ _ db', closes_only P db db') db →
      closes_only P db ((m;; mret tt) db).2) as Hret.
    { intros A m P. unfold wp, mbind, M_bind. by destruct (m db) as [[a|e] d]. }
    destruct call as [c b|c i u|c i e|c er i o]; apply Hret.
    - unfold create_grant. grant_walk; try by apply closes_only_same.
      all: apply closes_only_put; left; by apply bool_decide_eq_false.
    - unfold update_grant. grant_walk; try by apply closes_only_same.
      all: match goal with H : set_grant_fields _ _ = Some _ |- _ =>
        apply set_grant_fields_keeps in H as (_ & _ & Hst) end.
      all: destruct (stamp_moments_keeps now g0 u) as (_ & _ & Hst'); apply closes_only_put; left.
      all: destruct (gu_status u) as [[t|]|] eqn:E; try (unfold is_revoked in *; by rewrite Hst, Hst').
      rewrite (is_revoked_value _ t) by done. apply bool_decide_eq_false. intros ->.
      unfold revoked_is_not_a_field_to_set in *. rewrite E in *. by rewrite bool_decide_eq_true_2 in *.
    - unfold escalate_grant. grant_walk; try by apply closes_only_same.
      all: try (apply closes_only_put; left; by apply bool_decide_eq_false).
      intros j x y Hx. cbn. rewrite lookup_insert_Some.
      intros [[_ <-]|[_ ?]] ? Hy; [by vm_compute in Hy|congruence].
    - unfold record_observation, read_a_closed_grant. grant_walk; try by apply closes_only_same.
      all: set (read := g0 <| g_observation_id := _ |> <| g_observed_at := _ |>) in *.
      all: pose proof (go_keyed _ Hok _ _ H) as Hid.
      all: destruct (count_clear_reading_keeps now read) as (Hi & _ & Hst & _).
      1-3: intros j x y Hx; cbn; rewrite lookup_insert_Some; intros [[Hj <-]|[_ ?]] Hnr Hrev;
             [exfalso|congruence].
      1-3: assert (x = g0) as -> by (cbn in Hj; congruence); unfold is_revoked in *; cbn in *; congruence.
      + apply closes_only_put. by left.
      + apply closes_only_put. right. exists c, er, o, g0. cbn.
        change (g_id (count_clear_reading now read) = g_id g0) in Hi. rewrite Hi, Hid.
        repeat match goal with H : negb (bool_decide _) = false |- _ =>
          apply negb_false_iff, bool_decide_eq_true in H end. done.
      + apply closes_only_put. left. unfold is_revoked in *. by rewrite Hst. }
  destruct (Hcl id g g' Hg Hg' Hr Hr') as (c & er & o & g0 & -> & Hp & Hg0 & Hk & Ha).
  exists c, er, o. simplify_eq. done.
Qed.

(** One reading counts once: delivering an observation again after
    it was recorded returns the stored grant and changes nothing, whoever
    repeats it and however much later. *)
Theorem repeated_reading_is_a_no_op now error id o db g db1 now' error' :
  grants_ok db → record_observation now service error id o db = (Ok g, db1) →
  record_observation now' service error' id o db1 = (Ok g, db1).
Proof.
  intros Hok Heq.
  assert (wp (record_observation now service error id o) (λ r db', ∀ x, r = Ok x →
    db'.(grants) !! id = Some x ∧ o.(ob_env_key) = x.(g_env_key) ∧
    o.(ob_application_id) = x.(g_qa_message).(qm_application_id) ∧
    x.(g_observation_id) = Some o.(ob_observation_id) ∧
    (bool_decide (x.(g_status) = value TemporaryAccessStatus.REVOKING) || is_revoked x) = true) db) as Hw.
  { unfold record_observation, read_a_closed_grant. grant_walk; intros x Hx; simplify_eq/=.
    all: repeat match goal with H : negb _ = false |- _ => apply negb_false_iff in H end.
    all: repeat match goal with H : bool_decide _ = true |- _ => apply bool_decide_eq_true in H end.
    all: pose proof (go_keyed _ Hok _ _ H) as <-.
    all: try (destruct (count_clear_reading_keeps now (g0 <| g_observation_id := Some o.(ob_observation_id) |>
                <| g_observed_at := Some now |>)) as (Hi & [_ Hk] & Hst & Ho & _);
              assert (Hq : (count_clear_reading now (g0 <| g_observation_id := Some o.(ob_observation_id) |>
                <| g_observed_at := Some now |>)).(g_qa_message) = g0.(g_qa_message))
                by (unfold count_clear_reading; cbn; by destruct (g_slot_clear_since g0)); cbn in Hi, Hk, Hst, Ho).
    all: try (rewrite Hi; rewrite lookup_insert_eq; split_and!; [done|cbn; congruence|cbn; congruence|done|]).
    all: try (rewrite lookup_insert_eq; split_and!; done).
    all: try (split_and!; done).
    - by apply bool_decide_eq_true.
    - unfold is_revoked in *. by rewrite Hst. }
  unfold wp in Hw. rewrite Heq in Hw. cbn in Hw.
  destruct (Hw g eq_refl) as (Hg & Hk & Ha & Ho & Hst).
  assert (wp (record_observation now' service error' id o) (λ r d, r = Ok g ∧ d = db1) db1) as Hr.
  { unfold record_observation. grant_walk; simplify_eq; try done.
    all: exfalso; repeat match goal with
      | H : negb _ = true |- _ => apply negb_true_iff in H
      | H : bool_decide _ = false |- _ => apply bool_decide_eq_false in H end; first [congruence|cbn in *; congruence]. }
  unfold wp in Hr. rewrite (surjective_pairing (record_observation now' service error' id o db1)).
  by destruct Hr as [-> ->].
Qed.

(** The slot has no owner or one. *)
Lemma slot_holders_at_most_one p k db : grants_ok db →
  slot_holders p k db = [] ∨ ∃ h, slot_holders p k db = [h].
Proof.
  intros Hok. assert (NoDup (slot_holders p k db)) as Hnd.
  { apply NoDup_filter, NoDup_fmap_2_strong; [|apply NoDup_map_to_list].
    intros [i x] [j y] Hx Hy Heq. cbn in Heq. subst y. apply elem_of_map_to_list in Hx, Hy.
    by rewrite <-(go_keyed _ Hok _ _ Hx), <-(go_keyed _ Hok _ _ Hy). }
  assert (∀ h, h ∈ slot_holders p k db → ∃ i, db.(grants) !! i = Some h ∧
    h.(g_project_id) = p ∧ h.(g_env_key) = k ∧ is_revoked h = false) as Hin.
  { intros h ((? & ? & ?) & ([i h'] & -> & Hh)%list_elem_of_fmap)%list_elem_of_filter.
    exists i. by apply elem_of_map_to_list in Hh. }
  destruct (slot_holders p k db) as [|a [|b l]]; [by left|right; by eexists|exfalso].
  destruct (Hin a) as (i & Hi & ? & ? & ?); [by left|].
  destruct (Hin b) as (j & Hj & ? & ? & ?); [by right; left|].
  assert (i = j) as -> by (eapply (go_slot _ Hok); [done|done|split; congruence|done|done]).
  rewrite Hi in Hj. injection Hj as ->. apply NoDup_cons in Hnd as [Hnd _]. apply Hnd. by left.
Qed.

(** A value found again on a closed grant puts the grant back
    under reconciliation with a fresh budget, unless a live grant owns the slot:
    then the reading is kept and the grant stays closed. *)
Theorem returned_value_reopens_the_grant now error id o db g :
  grants_ok db → db.(grants) !! id = Some g → is_revoked g = true →
  o.(ob_present) = true → o.(ob_env_key) = g.(g_env_key) →
  o.(ob_application_id) = g.(g_qa_message).(qm_application_id) →
  g.(g_observation_id) ≠ Some o.(ob_observation_id) →
  ∃ g', record_observation now service error id o db = (Ok g', put_grant g' db) ∧
    g'.(g_observed_at) = Some now ∧
    if decide (slot_holders g.(g_project_id) g.(g_env_key) db = [])
    then g'.(g_status) = value TemporaryAccessStatus.REVOKING ∧
         g'.(g_revoke_reason) = Some (value TemporaryAccessRevokeReason.OBSERVED_AFTER_REVOKE) ∧
         g'.(g_revoked_at) = None ∧ g'.(g_reopened_at) = Some now ∧
         g'.(g_revoke_attempts) = 0 ∧ g'.(g_slot_clear_readings) = 0
    else g' = g <| g_observation_id := Some o.(ob_observation_id) |> <| g_observed_at := Some now |>.
Proof.
  intros Hok Hg Hr Hp Hk Ha Ho.
  assert (wp (record_observation now service error id o) (λ r d, ∃ g', r = Ok g' ∧ d = put_grant g' db ∧
    g'.(g_observed_at) = Some now ∧
    if decide (slot_holders g.(g_project_id) g.(g_env_key) db = [])
    then g'.(g_status) = value TemporaryAccessStatus.REVOKING ∧
         g'.(g_revoke_reason) = Some (value TemporaryAccessRevokeReason.OBSERVED_AFTER_REVOKE) ∧
         g'.(g_revoked_at) = None ∧ g'.(g_reopened_at) = Some now ∧
         g'.(g_revoke_attempts) = 0 ∧ g'.(g_slot_clear_readings) = 0
    else g' = g <| g_observation_id := Some o.(ob_observation_id) |> <| g_observed_at := Some now |>) db) as Hw.
  { unfold record_observation, read_a_closed_grant. grant_walk; simplify_eq.
    all: repeat match goal with
      | H : negb _ = true |- _ => apply negb_true_iff in H
      | H : bool_decide _ = true |- _ => apply bool_decide_eq_true in H
      | H : bool_decide _ = false |- _ => apply bool_decide_eq_false in H end.
    all: try (exfalso; unfold is_revoked in *; cbn in *; congruence).
    all: try (exfalso; congruence).
    - eexists. do 2 (split; [done|]). by rewrite decide_True.
    - eexists. do 2 (split; [done|]). rewrite decide_False; [done|]. cbn in *. congruence.
    - exfalso. destruct (slot_holders_at_most_one g.(g_project_id) g.(g_env_key) db Hok) as [Hno|[h Hone]];
        cbn in *; congruence.
    - exfalso. rewrite Hr, orb_true_r in *. congruence. }
  unfold wp in Hw. destruct Hw as (g' & H1 & H2 & H3). exists g'. split; [|done].
  rewrite (surjective_pairing (record_observation now service error id o db)). by rewrite H1, H2.
Qed.

(** ** The properties at concrete inputs *)

Definition qa_message : QAMessage :=
  mkQAMessage "story-1" "project-1" "live-1" "42" "https://bot" 3 "it answers" "qa-1" None 0.
Definition grant_in : GrantCreate :=
  mkGrantCreate "grant-1" "project-1" "ADMIN_ID" "42" "sha" "qa-1" "deploy-1" qa_message.
Definition slot_db : Database :=
  empty_database <| projects := {[ "project-1" := mkProject "project-1" "Todo" "todo" "active" None [] 7 ]} |>
    <| runs := {[ "qa-1" := mkRun "qa-1" "qa" "running" None None ∅ None None None None None 0 ]} |>.
Definition reading (id : string) (present : bool) : Observation :=
  mkObservation id 3 "srv" "bot" "ADMIN_ID" present 1.
Definition revoke : list (Z * GrantCall) :=
  [(1, CreateGrant service grant_in);
   (2, UpdateGrant service "grant-1" (no_grant_update
      <| gu_status := Some (Some TemporaryAccessStatus.REVOKING) |>
      <| gu_revoke_reason := Some (Some TemporaryAccessRevokeReason.EXPIRED) |>));
   (3, ObserveGrant service "back" "grant-1" (reading "r1" true));
   (4 * MINUTE, ObserveGrant service "back" "grant-1" (reading "r2" false));
   (15 * MINUTE, ObserveGrant service "back" "grant-1" (reading "r3" false))].
Definition grant_row (calls : list (Z * GrantCall)) : option Grant :=
  (serve_grants calls slot_db).(grants) !! "grant-1".



Definition almost_revoked : Database := serve_grants (take 4 revoke) slot_db.
Lemma almost_revoked_ok : grants_ok almost_revoked.
Proof. apply serve_grants_sound, no_grants_ok. reflexivity. Qed.

Lemma only_an_observation_closes_witness :
  ∃ c error o, ObserveGrant service "back" "grant-1" (reading "r3" false) = ObserveGrant c error "grant-1" o ∧
    o.(ob_present) = false ∧ o.(ob_env_key) = "ADMIN_ID" ∧ o.(ob_application_id) = 3.
Proof.
  destruct (almost_revoked.(grants) !! "grant-1") as [g|] eqn:E; [|vm_compute in E; discriminate E].
  destruct (grant_row revoke) as [g'|] eqn:E'; [|vm_compute in E'; discriminate E'].
  assert (g.(g_env_key) = "ADMIN_ID" ∧ g.(g_qa_message).(qm_application_id) = 3 ∧ is_revoked g = false)
    as (Hk & Ha & Hr)
    by (vm_compute in E; clear E'; injection E as <-; split_and!; reflexivity).
  rewrite <-Hk, <-Ha.
  apply (only_an_observation_closes (15 * MINUTE) _ almost_revoked "grant-1" g g');
    [apply almost_revoked_ok|exact E|exact E'|exact Hr|].
  vm_compute in E'. injection E' as <-. reflexivity.
Defined.

Lemma repeated_reading_is_a_no_op_witness :
  match record_observation (15 * MINUTE) service "back" "grant-1" (reading "r3" false) almost_revoked with
  | (Ok g, db1) => record_observation (99 * MINUTE) service "again" "grant-1" (reading "r3" false) db1 = (Ok g, db1)
  | _ => False
  end.
Proof.
  destruct (record_observation _ _ _ _ _ _) as [[g|e] db1] eqn:E; [|vm_compute in E; discriminate E].
  exact (repeated_reading_is_a_no_op _ _ _ _ _ g db1 _ _ almost_revoked_ok E).
Defined.

Lemma returned_value_reopens_the_grant_witness :
  match grant_row revoke with
  | Some g => ∃ g', record_observation (20 * MINUTE) service "back" "grant-1" (reading "r4" true)
        (serve_grants revoke slot_db) = (Ok g', put_grant g' (serve_grants revoke slot_db)) ∧
      g'.(g_observed_at) = Some (20 * MINUTE)
  | None => False
  end.
Proof.
  destruct (grant_row revoke) as [g|] eqn:E; [|vm_compute in E; discriminate E].
  assert (is_revoked g = true ∧ "ADMIN_ID" = g.(g_env_key) ∧ 3 = g.(g_qa_message).(qm_application_id) ∧
    g.(g_observation_id) ≠ Some "r4") as (H1 & H2 & H3 & H4) by (vm_compute in E; injection E as <-; done).
  destruct (returned_value_reopens_the_grant (20 * MINUTE) "back" "grant-1" (reading "r4" true)
    (serve_grants revoke slot_db) g) as (g' & Hg' & Ho & _);
    [apply serve_grants_sound, no_grants_ok; reflexivity|exact E|exact H1|reflexivity|exact H2|exact H3|exact H4|].
  exists g'. by split.
Defined.
