(* ===== verification/Disposition.v ===== *)
(** * Disposition: what a failed placement attempt may do to a story

    [shared/allocation_disposition.py]: the classification of allocation
    refusals and the behaviour each placement path owes each class. *)

From S2P Require Import Prelude Vocabulary.

(** [AttemptDisposition]. *)
Inductive AttemptDisposition :=
| INFRASTRUCTURE_WAIT
| OPERATOR_REVIEW
| TECHNICAL_FAILURE
| PRODUCT_FAILURE
| NO_FAILURE.                           (** the source's [NONE] *)
#[export] Instance AttemptDisposition_eq_dec : EqDecision AttemptDisposition.
Proof. solve_decision. Defined.

(** [ALLOCATION_DISPOSITIONS]: total over the reasons. *)
Definition ALLOCATION_DISPOSITIONS (r : AllocationFailureReason.t) : AttemptDisposition :=
  match r with
  | AllocationFailureReason.INSUFFICIENT_FREE_MEMORY => INFRASTRUCTURE_WAIT
  | AllocationFailureReason.INSUFFICIENT_RESERVED_MEMORY => INFRASTRUCTURE_WAIT
  | AllocationFailureReason.SERVER_NOT_PROVISIONED => INFRASTRUCTURE_WAIT
  | AllocationFailureReason.IMPOSSIBLE_CAPACITY => OPERATOR_REVIEW
  | AllocationFailureReason.NO_FRESH_METRICS => TECHNICAL_FAILURE
  end.

Definition INFRASTRUCTURE_DISPOSITIONS : list AttemptDisposition :=
  [INFRASTRUCTURE_WAIT; OPERATOR_REVIEW; TECHNICAL_FAILURE].

Definition attempt_disposition (allocation_failure : option AllocationFailureReason.t)
    (product_failure : bool) : AttemptDisposition :=
  match allocation_failure with
  | Some reason => ALLOCATION_DISPOSITIONS reason
  | None => if product_failure then PRODUCT_FAILURE else NO_FAILURE
  end.

Definition may_terminate_story (d : AttemptDisposition) : bool :=
  bool_decide (d = PRODUCT_FAILURE).

(** [PlacementPath] and [RefusalRouting]. *)
Inductive PlacementPath := ENGINEERING | DEPLOY.

Inductive RefusalRouting :=
| PARK_WAITING_RESOURCES
| WAIT_FOR_ADMISSIBLE_TARGET
| HUMAN_REVIEW_WITH_OWNER_NOTICE
| HUMAN_REVIEW_PLATFORM_ALERT
| CALLER_FAILURE_ROUTING
| NO_REFUSAL.
#[export] Instance RefusalRouting_eq_dec : EqDecision RefusalRouting.
Proof. solve_decision. Defined.

(** [REFUSAL_ROUTING], read through [refusal_routing]. *)
Definition refusal_routing (path : PlacementPath) (d : AttemptDisposition) : RefusalRouting :=
  match path, d with
  | ENGINEERING, INFRASTRUCTURE_WAIT => PARK_WAITING_RESOURCES
  | DEPLOY, INFRASTRUCTURE_WAIT => WAIT_FOR_ADMISSIBLE_TARGET
  | _, OPERATOR_REVIEW => HUMAN_REVIEW_WITH_OWNER_NOTICE
  | _, TECHNICAL_FAILURE => HUMAN_REVIEW_PLATFORM_ALERT
  | _, PRODUCT_FAILURE => CALLER_FAILURE_ROUTING
  | _, NO_FAILURE => NO_REFUSAL
  end.

(** An allocation refusal never terminates a story, also when the
    same attempt carries a product failure: on both paths the behaviour it gets
    is never the caller's own failure routing, and a story may be terminated
    only when there was no refusal and there was a product failure. *)
Theorem allocation_refusal_never_terminates path failure product :
  (may_terminate_story (attempt_disposition failure product) = true ↔
     failure = None ∧ product = true) ∧
  (refusal_routing path (attempt_disposition failure product) = CALLER_FAILURE_ROUTING ↔
     failure = None ∧ product = true) ∧
  (is_Some failure → attempt_disposition failure product ∈ INFRASTRUCTURE_DISPOSITIONS).
Proof.
  split_and!.
  - destruct failure as [[]|], product; split; try naive_solver; by vm_compute.
  - destruct failure as [[]|], product, path; split; try naive_solver; by vm_compute.
  - intros [r ->]. unfold INFRASTRUCTURE_DISPOSITIONS. destruct r; cbn; set_solver.
Qed.

(** No path answers two dispositions the same way, and the
    paths differ only in how they wait. *)
Theorem refusal_routing_is_injective path d d' :
  (refusal_routing path d = refusal_routing path d' → d = d') ∧
  (refusal_routing ENGINEERING d = refusal_routing DEPLOY d ↔ d ≠ INFRASTRUCTURE_WAIT).
Proof. destruct path, d, d'; split; cbn; try done; split; done. Qed.
