(* ===== verification/Placement.v ===== *)
(** * Placement: which server may take an application

    [shared/server_admission.py], the allocator's search
    ([services/langgraph/src/allocations.py]) and the scheduler's re-check of a
    parked request ([services/scheduler/src/tasks/supervisor.py],
    [_admissible_target_exists]).  Both searches read the API and decide; they
    are modelled over the answers they read ([Fleet]) at one instant. *)

From S2P Require Import Prelude Vocabulary Contracts.

(** ** What the API answers *)

(** [ServerDTO]: the fields admission and capacity read. *)
Record Server := mkServer {
  sv_handle : string;
  sv_is_managed : bool;
  sv_status : ServerStatus.t;
  sv_labels : gmap string string;
  sv_capacity_ram_mb : Z;
  sv_capacity_disk_mb : Z;
  sv_used_ram_mb : Z;
  sv_last_health_check : option Z;
  sv_public_ip : string;
  sv_ssh_user : string;
}.

(** [IncidentDTO]. *)
Record Incident := mkIncident { in_server_handle : option string; in_type : IncidentType.t }.

(** An application as [GET /applications?server_handle=...] lists it. *)
Record HostedApp := mkHostedApp { ha_status : ApplicationStatus.t; ha_reserved_ram_mb : Z }.

Record Fleet := mkFleet {
  fl_servers : list Server;                       (** [GET /servers/] *)
  fl_active_incidents : list Incident;            (** [GET /incidents/active] *)
  fl_applications : string → list HostedApp;      (** by server handle *)
  fl_ssh_keys : gmap string string;               (** [GET /servers/{handle}/ssh-key] *)
}.

(** ** Admission ([server_admission.py]) *)

Definition PROVISIONING_PHASE_LABEL : string := "provisioning_phase".
Definition PROVISIONING_PHASE_COMPLETE : string := "complete".

Definition ADMITTING_SERVER_STATUSES : list ServerStatus.t :=
  [ServerStatus.ACTIVE; ServerStatus.READY; ServerStatus.IN_USE].

Inductive ServerAdmissionRejection :=
| NOT_MANAGED | STATUS_NOT_ADMITTING | PROVISIONING_INCOMPLETE | PROVISIONING_FAILED.

Definition ADMISSION_FAILURE_REASON : AllocationFailureReason.t :=
  AllocationFailureReason.SERVER_NOT_PROVISIONED.

Definition provisioning_failed_server_handles (incidents : list Incident) : gset string :=
  list_to_set (omap (λ i, if decide (i.(in_type) = IncidentType.PROVISIONING_FAILED)
                          then i.(in_server_handle) else None) incidents).

Definition server_admission_rejection (server : Server) (failed : gset string)
    : option ServerAdmissionRejection :=
  if negb server.(sv_is_managed) then Some NOT_MANAGED
  else if negb (bool_decide (server.(sv_status) ∈ ADMITTING_SERVER_STATUSES))
  then Some STATUS_NOT_ADMITTING
  else if negb (bool_decide (server.(sv_labels) !! PROVISIONING_PHASE_LABEL =
                             Some PROVISIONING_PHASE_COMPLETE))
  then Some PROVISIONING_INCOMPLETE
  else if decide (server.(sv_handle) ∈ failed) then Some PROVISIONING_FAILED
  else None.

Definition server_admits_application (server : Server) (failed : gset string) : bool :=
  match server_admission_rejection server failed with None => true | Some _ => false end.

(** ** The allocator ([allocations.py]) *)

(** [AllocationError]: the refusal and the budget it was refused for. *)
Record AllocationError := mkAllocationError {
  ae_reason : AllocationFailureReason.t;
  ae_required_ram_mb : Z;
  ae_min_disk_mb : Z;
}.

(** [Settings]: the two admission controls; times are in microseconds. *)
Record AllocatorSettings := mkAllocatorSettings {
  allocation_ram_reserve_mb : Z;
  allocation_metrics_freshness_seconds : Z;
}.

Definition allocation_required_ram_mb (cfg : AllocatorSettings) (min_ram_mb : Z) : Z :=
  min_ram_mb + cfg.(allocation_ram_reserve_mb).

(** [_has_fresh_metrics]. *)
Definition has_fresh_metrics (now : Z) (last_health_check : option Z) (freshness_seconds : Z) : bool :=
  match last_health_check with
  | None => false
  | Some t => (0 <=? now - t) && (now - t <=? freshness_seconds * SECOND)
  end.

(** [_holds_ram_reservation]. *)
Definition holds_ram_reservation (app : HostedApp) : bool :=
  negb (bool_decide (app.(ha_status) = ApplicationStatus.NOT_DEPLOYED) ||
        bool_decide (app.(ha_status) = ApplicationStatus.STOPPED)).

(** [sum(app.reserved_ram_mb for app in applications if _holds_ram_reservation(app))]. *)
Definition reserved_ram (apps : list HostedApp) : Z :=
  foldr (λ a acc, a.(ha_reserved_ram_mb) + acc) 0 (filter (λ a, holds_ram_reservation a) apps).

(** [_request_exceeds_every_server]. *)
Definition request_exceeds_every_server (servers : list Server) (required_ram_mb min_disk_mb : Z) : bool :=
  negb (existsb (λ s, (required_ram_mb <=? s.(sv_capacity_ram_mb)) &&
                      (min_disk_mb <=? s.(sv_capacity_disk_mb))) servers).

(** What the loop of [_find_suitable_server] decides about one server: the string
    it adds to [rejection_reasons], the admission rejection, or the remaining RAM. *)
Inductive Verdict :=
| NotAdmitted (r : ServerAdmissionRejection)
| InsufficientCapacity
| InsufficientReservedMemory
| NoFreshMetrics
| InsufficientFreeMemory
| Suitable (remaining : Z).

Definition judge (cfg : AllocatorSettings) (now : Z) (fleet : Fleet) (required min_disk_mb : Z)
    (srv : Server) : Verdict :=
  match server_admission_rejection srv
          (provisioning_failed_server_handles fleet.(fl_active_incidents)) with
  | Some r => NotAdmitted r
  | None =>
      if srv.(sv_capacity_disk_mb) <? min_disk_mb then InsufficientCapacity
      else
        let reserved := reserved_ram (fleet.(fl_applications) srv.(sv_handle)) in
        if srv.(sv_capacity_ram_mb) <? reserved + required then InsufficientReservedMemory
        else if negb (has_fresh_metrics now srv.(sv_last_health_check)
                        cfg.(allocation_metrics_freshness_seconds)) then NoFreshMetrics
        else
          let effective := Z.max reserved srv.(sv_used_ram_mb) in
          if srv.(sv_capacity_ram_mb) <? effective + required then InsufficientFreeMemory
          else Suitable (srv.(sv_capacity_ram_mb) - effective)
  end.

(** [max(suitable, key=...)]: the first of the largest. *)
Fixpoint max_remaining (l : list (Server * Z)) : option (Server * Z) :=
  match l with
  | [] => None
  | x :: l =>
      match max_remaining l with
      | Some y => if x.2 <? y.2 then Some y else Some x
      | None => Some x
      end
  end.

Definition find_suitable_server (cfg : AllocatorSettings) (now : Z) (fleet : Fleet)
    (min_ram_mb min_disk_mb : Z) : Server + AllocationError :=
  let all_managed_servers := filter (λ s, s.(sv_is_managed)) fleet.(fl_servers) in
  let required := allocation_required_ram_mb cfg min_ram_mb in
  let verdicts := (λ s, (s, judge cfg now fleet required min_disk_mb s)) <$> all_managed_servers in
  let suitable := omap (λ v, match v.2 with Suitable n => Some (v.1, n) | _ => None end) verdicts in
  match max_remaining suitable with
  | Some (srv, _) => inl srv
  | None =>
      let refuse r := inr (mkAllocationError r required min_disk_mb) in
      if request_exceeds_every_server all_managed_servers required min_disk_mb
      then refuse AllocationFailureReason.IMPOSSIBLE_CAPACITY
      else if existsb (λ v, match v.2 with NotAdmitted _ => true | _ => false end) verdicts
      then refuse ADMISSION_FAILURE_REASON
      else if existsb (λ v, match v.2 with NoFreshMetrics => true | _ => false end) verdicts
      then refuse AllocationFailureReason.NO_FRESH_METRICS
      else if existsb (λ v, match v.2 with InsufficientReservedMemory => true | _ => false end) verdicts
      then refuse AllocationFailureReason.INSUFFICIENT_RESERVED_MEMORY
      else refuse AllocationFailureReason.INSUFFICIENT_FREE_MEMORY
  end.

(** [_refuse_inadmissible_target]: re-admission of an already bound host. *)
Definition refuse_inadmissible_target (cfg : AllocatorSettings) (server : Server) (failed : gset string)
    (min_ram_mb min_disk_mb : Z) : option AllocationError :=
  match server_admission_rejection server failed with
  | None => None
  | Some _ => Some (mkAllocationError ADMISSION_FAILURE_REASON
                      (allocation_required_ram_mb cfg min_ram_mb) min_disk_mb)
  end.

(** ** The scheduler's re-check ([supervisor.py], [_admissible_target_exists]) *)

Definition admissible_target_exists (freshness_seconds now : Z) (fleet : Fleet)
    (required_ram_mb min_disk_mb : Z) : bool :=
  let failed := provisioning_failed_server_handles fleet.(fl_active_incidents) in
  existsb (λ server,
    server_admits_application server failed &&
    negb ((server.(sv_capacity_ram_mb) <? required_ram_mb) ||
          (server.(sv_capacity_disk_mb) <? min_disk_mb)) &&
    match server.(sv_last_health_check) with
    | None => false
    | Some checked =>
        let age := now - checked in
        (0 <=? age) && (age <=? freshness_seconds * SECOND)
    end &&
    (let apps := fleet.(fl_applications) server.(sv_handle) in
     let reserved := foldr (λ a acc, a.(ha_reserved_ram_mb) + acc) 0
       (filter (λ a, a.(ha_status) ≠ ApplicationStatus.NOT_DEPLOYED ∧
                     a.(ha_status) ≠ ApplicationStatus.STOPPED) apps) in
     Z.max reserved server.(sv_used_ram_mb) + required_ram_mb <=? server.(sv_capacity_ram_mb)))
    fleet.(fl_servers).

(** ** Facts *)

Lemma max_remaining_Some l : l ≠ [] → is_Some (max_remaining l).
Proof.
  destruct l as [|x l]; [done|intros _]. cbn. destruct (max_remaining l) as [y|]; [|by eexists].
  case_match; by eexists.
Qed.

Lemma max_remaining_spec l x : max_remaining l = Some x → x ∈ l ∧ ∀ y, y ∈ l → y.2 ≤ x.2.
Proof.
  revert x. induction l as [|z l IH]; intros x; [done|]. cbn.
  destruct (max_remaining l) as [y|] eqn:E.
  - destruct (IH y eq_refl) as [Hy Hmax]. case_match eqn:Hlt; intros [= <-].
    + split; [by right|]. intros w [->|Hw]%elem_of_cons; [lia|auto].
    + split; [by left|]. intros w [->|Hw]%elem_of_cons; [lia|]. specialize (Hmax w Hw). lia.
  - intros [= <-]. destruct l as [|w l]; [|by destruct (max_remaining_Some (w :: l)) as [? ?]; congruence].
    split; [by left|]. intros w ->%list_elem_of_singleton. lia.
Qed.

Lemma existsb_elem {A} (f : A → bool) l : existsb f l = true ↔ ∃ x, x ∈ l ∧ f x = true.
Proof.
  rewrite existsb_exists. split; intros (x & Hx & Hf); exists x; split; try done;
    by apply list_elem_of_In.
Qed.

(** What a [Suitable] verdict means. *)
Lemma judge_Suitable cfg now fleet required disk s n :
  judge cfg now fleet required disk s = Suitable n ↔
    let reserved := reserved_ram (fleet.(fl_applications) s.(sv_handle)) in
    server_admits_application s (provisioning_failed_server_handles fleet.(fl_active_incidents)) = true ∧
    disk ≤ s.(sv_capacity_disk_mb) ∧
    has_fresh_metrics now s.(sv_last_health_check) cfg.(allocation_metrics_freshness_seconds) = true ∧
    Z.max reserved s.(sv_used_ram_mb) + required ≤ s.(sv_capacity_ram_mb) ∧
    n = s.(sv_capacity_ram_mb) - Z.max reserved s.(sv_used_ram_mb).
Proof.
  unfold judge, server_admits_application.
  destruct (server_admission_rejection _ _); [split; [done|naive_solver]|].
  repeat case_match; cbn; split; intros; destruct_and?; simplify_eq; split_and?; try done; try lia.
  all: destruct (has_fresh_metrics _ _ _); done.
Qed.

Section search.
Context (cfg : AllocatorSettings) (now : Z) (fleet : Fleet) (min_ram_mb min_disk_mb : Z).
Notation required := (allocation_required_ram_mb cfg min_ram_mb).
Notation managed := (filter (λ s, s.(sv_is_managed)) fleet.(fl_servers)).
Notation verdict := (judge cfg now fleet required min_disk_mb).

(** The search, by cases on whether some managed server is suitable. *)
Lemma find_cases :
  (∃ s n, find_suitable_server cfg now fleet min_ram_mb min_disk_mb = inl s ∧
     s ∈ managed ∧ verdict s = Suitable n ∧
     ∀ s' n', s' ∈ managed → verdict s' = Suitable n' → n' ≤ n) ∨
  (∀ s n, s ∈ managed → verdict s ≠ Suitable n).
Proof.
  unfold find_suitable_server. set (vs := (λ s, _) <$> _). set (suitable := omap _ vs).
  assert (∀ s n, (s, n) ∈ suitable ↔ s ∈ managed ∧ verdict s = Suitable n) as Hin.
  { intros s n. unfold suitable, vs. rewrite list_elem_of_omap. split.
    - intros ([s' v] & (s'' & [= -> ->] & Hs)%list_elem_of_fmap & Hv). cbn in Hv.
      destruct (verdict s'') eqn:E; simplify_eq. done.
    - intros [Hs Hv]. exists (s, verdict s). rewrite list_elem_of_fmap. split; [by exists s|].
      cbn. by rewrite Hv. }
  destruct (max_remaining suitable) as [[s n]|] eqn:E.
  - left. apply max_remaining_spec in E as [Hs Hmax]. apply Hin in Hs as [Hs Hv].
    exists s, n. split_and!; [done|done|done|]. intros s' n' Hs' Hv'.
    apply (Hmax (s', n')). by apply Hin.
  - right. intros s n Hs Hv. destruct (max_remaining_Some suitable) as [? ?]; [|congruence].
    intros Hnil. assert ((s, n) ∈ suitable) as H by (by apply Hin). rewrite Hnil in H.
    by apply elem_of_nil in H.
Qed.

Lemma find_inl_Suitable s : find_suitable_server cfg now fleet min_ram_mb min_disk_mb = inl s →
  s ∈ managed ∧ ∃ n, verdict s = Suitable n ∧
    ∀ s' n', s' ∈ managed → verdict s' = Suitable n' → n' ≤ n.
Proof.
  intros Hf. destruct find_cases as [(s' & n & Hf' & Hs & Hv & Hmax)|Hno].
  - rewrite Hf in Hf'. injection Hf' as <-. eauto.
  - exfalso. revert Hf. unfold find_suitable_server. set (vs := (λ s, _) <$> _).
    destruct (max_remaining _) as [[s' n']|] eqn:E; [|repeat case_match; done]. intros _.
    apply max_remaining_spec in E as [([s2 v] & (s3 & [= -> ->] & Hs)%list_elem_of_fmap & Hv)%list_elem_of_omap _].
    cbn in Hv. destruct (verdict s3) eqn:E; simplify_eq. by eapply Hno.
Qed.

(** Which verdicts occurred. *)
Lemma some_verdict (f : Verdict → bool) :
  existsb (λ v : Server * Verdict, f v.2) ((λ s, (s, verdict s)) <$> managed) = true ↔
  ∃ s, s ∈ managed ∧ f (verdict s) = true.
Proof.
  rewrite existsb_elem. split.
  - intros (x & (s & -> & Hs)%list_elem_of_fmap & Hf). eauto.
  - intros (s & Hs & Hf). exists (s, verdict s). split; [|done]. apply list_elem_of_fmap. eauto.
Qed.

Definition not_admitted (v : Verdict) : bool := match v with NotAdmitted _ => true | _ => false end.
Definition stale (v : Verdict) : bool := match v with NoFreshMetrics => true | _ => false end.
Definition overbooked (v : Verdict) : bool :=
  match v with InsufficientReservedMemory => true | _ => false end.

(** The reason of a refusal, by the verdicts that occurred. *)
Lemma refusal_reason e : find_suitable_server cfg now fleet min_ram_mb min_disk_mb = inr e →
  e.(ae_reason) =
    if request_exceeds_every_server managed required min_disk_mb
    then AllocationFailureReason.IMPOSSIBLE_CAPACITY
    else if existsb (λ v, not_admitted v.2) ((λ s, (s, verdict s)) <$> managed) then ADMISSION_FAILURE_REASON
    else if existsb (λ v, stale v.2) ((λ s, (s, verdict s)) <$> managed)
    then AllocationFailureReason.NO_FRESH_METRICS
    else if existsb (λ v, overbooked v.2) ((λ s, (s, verdict s)) <$> managed)
    then AllocationFailureReason.INSUFFICIENT_RESERVED_MEMORY
    else AllocationFailureReason.INSUFFICIENT_FREE_MEMORY.
Proof.
  unfold find_suitable_server. destruct (max_remaining _) as [[??]|]; [done|].
  cbv zeta. unfold not_admitted, stale, overbooked. repeat case_match; intros [= <-]; done.
Qed.

Lemma exceeds_every_server servers r d :
  request_exceeds_every_server servers r d = true ↔
  ∀ s, s ∈ servers → ¬ (r ≤ s.(sv_capacity_ram_mb) ∧ d ≤ s.(sv_capacity_disk_mb)).
Proof.
  unfold request_exceeds_every_server. rewrite negb_true_iff, <-not_true_iff_false, existsb_elem. split.
  - intros H s Hs [? ?]. apply H. exists s. split; [done|]. lia.
  - intros H (s & Hs & Hf). apply (H s Hs). lia.
Qed.

Lemma judge_not_admitted s :
  not_admitted (verdict s) = negb (server_admits_application s
    (provisioning_failed_server_handles fleet.(fl_active_incidents))).
Proof.
  unfold judge, server_admits_application. destruct (server_admission_rejection _ _); [done|].
  repeat case_match; done.
Qed.

Lemma judge_stale s : stale (verdict s) = true →
  has_fresh_metrics now s.(sv_last_health_check) cfg.(allocation_metrics_freshness_seconds) = false.
Proof. unfold judge. destruct (has_fresh_metrics _ _ _); [|done]. repeat case_match; done. Qed.

Lemma judge_overbooked s : overbooked (verdict s) = true →
  s.(sv_capacity_ram_mb) < reserved_ram (fleet.(fl_applications) s.(sv_handle)) + required.
Proof. unfold judge. repeat case_match; try done. lia. Qed.

(** An admitted server that fits and is not suitable is stale, overbooked, or
    short of observed memory with fresh metrics. *)
Lemma judge_rest s :
  not_admitted (verdict s) = false → stale (verdict s) = false → overbooked (verdict s) = false →
  (∀ n, verdict s ≠ Suitable n) → min_disk_mb ≤ s.(sv_capacity_disk_mb) →
  has_fresh_metrics now s.(sv_last_health_check) cfg.(allocation_metrics_freshness_seconds) = true ∧
  s.(sv_capacity_ram_mb) < s.(sv_used_ram_mb) + required.
Proof.
  unfold judge. repeat case_match; cbn; intros; try congruence; try lia.
  all: match goal with H : ∀ n, Suitable ?x ≠ _ |- _ => by destruct (H x) | _ => idtac end.
  split; [by apply negb_false_iff|]. lia.
Qed.
End search.

(** ** The properties *)

(** A managed server with everything this request needs, by the source's words:
    admissible, enough disk, fresh metrics, and room for the budget above the
    larger of what is reserved and what is observed in use. *)
Definition can_take (cfg : AllocatorSettings) (now : Z) (fleet : Fleet) (required min_disk_mb : Z)
    (s : Server) : Prop :=
  s ∈ fleet.(fl_servers) ∧
  server_admits_application s (provisioning_failed_server_handles fleet.(fl_active_incidents)) = true ∧
  min_disk_mb ≤ s.(sv_capacity_disk_mb) ∧
  has_fresh_metrics now s.(sv_last_health_check) cfg.(allocation_metrics_freshness_seconds) = true ∧
  Z.max (reserved_ram (fleet.(fl_applications) s.(sv_handle))) s.(sv_used_ram_mb) + required
    ≤ s.(sv_capacity_ram_mb).

Definition remaining_ram (fleet : Fleet) (s : Server) : Z :=
  s.(sv_capacity_ram_mb) -
  Z.max (reserved_ram (fleet.(fl_applications) s.(sv_handle))) s.(sv_used_ram_mb).

Lemma admits_managed s failed : server_admits_application s failed = true → s.(sv_is_managed) = true.
Proof. unfold server_admits_application, server_admission_rejection. by destruct (sv_is_managed s). Qed.

Lemma can_take_Suitable cfg now fleet required disk s :
  can_take cfg now fleet required disk s ↔
  s ∈ filter (λ s, s.(sv_is_managed)) fleet.(fl_servers) ∧
  judge cfg now fleet required disk s = Suitable (remaining_ram fleet s).
Proof.
  unfold can_take, remaining_ram. rewrite judge_Suitable, list_elem_of_filter, Is_true_true. cbv zeta.
  split.
  - intros (? & Ha & ?). pose proof (admits_managed _ _ Ha). tauto.
  - tauto.
Qed.

(**  The allocator finds a server exactly when one can take the
    request, the server it returns is one of them, and none of the others has
    more remaining memory; it returns a refusal, with the budget it refused,
    exactly when no server can. *)
Theorem allocator_picks_the_roomiest cfg now fleet min_ram_mb min_disk_mb :
  let required := allocation_required_ram_mb cfg min_ram_mb in
  match find_suitable_server cfg now fleet min_ram_mb min_disk_mb with
  | inl s => can_take cfg now fleet required min_disk_mb s ∧
      ∀ s', can_take cfg now fleet required min_disk_mb s' → remaining_ram fleet s' ≤ remaining_ram fleet s
  | inr e => (∀ s, ¬ can_take cfg now fleet required min_disk_mb s) ∧
      e.(ae_required_ram_mb) = required ∧ e.(ae_min_disk_mb) = min_disk_mb
  end.
Proof.
  intros required. destruct (find_suitable_server _ _ _ _ _) as [s|e] eqn:Hf.
  - apply find_inl_Suitable in Hf as (Hs & n & Hv & Hmax).
    pose proof Hv as (_ & _ & _ & _ & Hn)%judge_Suitable.
    split; [apply can_take_Suitable; split; [done|etransitivity; [exact Hv|f_equal; exact Hn]]|].
    intros s' [Hs' Hv']%can_take_Suitable. specialize (Hmax _ _ Hs' Hv'). unfold remaining_ram in *. lia.
  - split.
    + intros s [Hs Hv]%can_take_Suitable.
      destruct (find_cases cfg now fleet min_ram_mb min_disk_mb) as [(? & ? & ? & _)|Hno]; [congruence|].
      by eapply Hno.
    + revert Hf. unfold find_suitable_server. repeat case_match; intros [= <-]; done.
Qed.

(** What a refusal says is what is wrong with the fleet.
    IMPOSSIBLE_CAPACITY: no managed server could ever fit the request.  Every
    other reason: some managed server could.  NO_FRESH_METRICS, and both memory
    reasons, are only given when every managed server was admitted; and a memory
    reason names a server whose metrics were not what stopped it: one short of
    reserved memory, or one with fresh metrics, enough disk and enough capacity
    whose observed use leaves too little. *)
Theorem refusal_names_the_real_blocker cfg now fleet min_ram_mb min_disk_mb e :
  let required := allocation_required_ram_mb cfg min_ram_mb in
  let managed := filter (λ s, s.(sv_is_managed)) fleet.(fl_servers) in
  let failed := provisioning_failed_server_handles fleet.(fl_active_incidents) in
  let fits s := required ≤ s.(sv_capacity_ram_mb) ∧ min_disk_mb ≤ s.(sv_capacity_disk_mb) in
  find_suitable_server cfg now fleet min_ram_mb min_disk_mb = inr e →
  match e.(ae_reason) with
  | AllocationFailureReason.IMPOSSIBLE_CAPACITY => ∀ s, s ∈ managed → ¬ fits s
  | AllocationFailureReason.SERVER_NOT_PROVISIONED =>
      (∃ s, s ∈ managed ∧ fits s) ∧ ∃ s, s ∈ managed ∧ server_admits_application s failed = false
  | AllocationFailureReason.NO_FRESH_METRICS =>
      (∀ s, s ∈ managed → server_admits_application s failed = true) ∧
      ∃ s, s ∈ managed ∧ has_fresh_metrics now s.(sv_last_health_check)
                           cfg.(allocation_metrics_freshness_seconds) = false
  | AllocationFailureReason.INSUFFICIENT_RESERVED_MEMORY =>
      (∀ s, s ∈ managed → server_admits_application s failed = true) ∧
      ∃ s, s ∈ managed ∧ s.(sv_capacity_ram_mb) < reserved_ram (fleet.(fl_applications) s.(sv_handle)) + required
  | AllocationFailureReason.INSUFFICIENT_FREE_MEMORY =>
      (∀ s, s ∈ managed → server_admits_application s failed = true) ∧
      ∃ s, s ∈ managed ∧ fits s ∧
        has_fresh_metrics now s.(sv_last_health_check) cfg.(allocation_metrics_freshness_seconds) = true ∧
        s.(sv_capacity_ram_mb) < s.(sv_used_ram_mb) + required
  end.
Proof.
  intros required managed failed fits Hf. subst required. pose proof (refusal_reason _ _ _ _ _ _ Hf) as Hr.
  destruct (find_cases cfg now fleet min_ram_mb min_disk_mb) as [(? & ? & ? & _)|Hno]; [congruence|].
  fold managed in Hr, Hno. rewrite Hr. clear Hf Hr.
  destruct (request_exceeds_every_server _ _ _) eqn:E1; [by apply exceeds_every_server|].
  assert (∃ s, s ∈ managed ∧ fits s) as Hfit.
  { apply negb_false_iff, existsb_elem in E1 as (s & Hs & Hf). exists s. split; [done|]. unfold fits. lia. }
  destruct (existsb (λ v, not_admitted v.2) _) eqn:E2; [cbn; split; [done|]|].
  { apply some_verdict in E2 as (s & Hs & Hv). exists s. split; [done|].
    rewrite judge_not_admitted in Hv. by apply negb_true_iff in Hv. }
  assert (∀ s, s ∈ managed → not_admitted (judge cfg now fleet (allocation_required_ram_mb cfg min_ram_mb) min_disk_mb s) = false) as Hadm.
  { intros s Hs. apply not_true_iff_false. intros Hv. apply not_true_iff_false in E2. apply E2.
    apply some_verdict. eauto. }
  assert (∀ s, s ∈ managed → server_admits_application s failed = true) as Hadm'.
  { intros s Hs. specialize (Hadm s Hs). rewrite judge_not_admitted in Hadm. by apply negb_false_iff in Hadm. }
  destruct (existsb (λ v, stale v.2) _) eqn:E3; [split; [done|]|].
  { apply some_verdict in E3 as (s & Hs & Hv). exists s. split; [done|]. by eapply judge_stale. }
  destruct (existsb (λ v, overbooked v.2) _) eqn:E4; [split; [done|]|].
  { apply some_verdict in E4 as (s & Hs & Hv). exists s. split; [done|]. by eapply judge_overbooked. }
  split; [done|]. destruct Hfit as (s & Hs & Hf). exists s. split; [done|]. split; [done|].
  apply (judge_rest cfg now fleet min_ram_mb min_disk_mb s); [by apply Hadm| | |auto|apply Hf].
  - apply not_true_iff_false. intros Hv. apply not_true_iff_false in E3. apply E3, some_verdict. eauto.
  - apply not_true_iff_false. intros Hv. apply not_true_iff_false in E4. apply E4, some_verdict. eauto.
Qed.

(** The scheduler's own sum and freshness test are the allocator's. *)
Lemma scheduler_reserved apps :
  foldr (λ a acc, a.(ha_reserved_ram_mb) + acc) 0
    (filter (λ a, a.(ha_status) ≠ ApplicationStatus.NOT_DEPLOYED ∧
                  a.(ha_status) ≠ ApplicationStatus.STOPPED) apps) = reserved_ram apps.
Proof.
  unfold reserved_ram. f_equal. apply list_filter_iff. intros a.
  unfold holds_ram_reservation. rewrite Is_true_true, negb_true_iff, orb_false_iff, !bool_decide_eq_false.
  done.
Qed.

Lemma reserved_ram_nonneg apps :
  Forall (λ a, 0 ≤ a.(ha_reserved_ram_mb)) apps → 0 ≤ reserved_ram apps.
Proof.
  unfold reserved_ram. induction 1 as [|a apps Ha _ IH]; [done|].
  rewrite filter_cons. case_decide; cbn; lia.
Qed.

Lemma target_exists_iff freshness now fleet required disk :
  (∀ h, Forall (λ a, 0 ≤ a.(ha_reserved_ram_mb)) (fleet.(fl_applications) h)) →
  admissible_target_exists freshness now fleet required disk = true ↔
  ∃ s, can_take (mkAllocatorSettings 0 freshness) now fleet required disk s.
Proof.
  intros Hpos. unfold admissible_target_exists, can_take. cbv zeta. rewrite existsb_elem.
  apply exist_proper. intros s. rewrite scheduler_reserved, !andb_true_iff, negb_true_iff, orb_false_iff.
  pose proof (reserved_ram_nonneg _ (Hpos s.(sv_handle))). unfold has_fresh_metrics. cbn.
  destruct (sv_last_health_check s); [rewrite !andb_true_iff|]; rewrite ?Z.leb_le, ?Z.ltb_ge; [|naive_solver].
  split; intros; destruct_and?; split_and?; try done; lia.
Qed.

(** C40 (equivalence).  The wait and the allocator mean the same thing by
    "resources are available": for the budget the allocator recorded, the
    scheduler finds an admissible target exactly when the allocator's search
    would return a server, whenever both are configured with the same metrics
    freshness; and with a stricter freshness on the scheduler's side, a task is
    never woken towards a fleet the allocator refuses.  (The API validates every
    reservation to be at least 1.) *)
Theorem wait_ends_when_the_allocator_would_place cfg freshness now fleet min_ram_mb min_disk_mb :
  (∀ h, Forall (λ a, 0 ≤ a.(ha_reserved_ram_mb)) (fleet.(fl_applications) h)) →
  freshness ≤ cfg.(allocation_metrics_freshness_seconds) →
  (admissible_target_exists freshness now fleet (allocation_required_ram_mb cfg min_ram_mb) min_disk_mb = true →
   ∃ s, find_suitable_server cfg now fleet min_ram_mb min_disk_mb = inl s) ∧
  (freshness = cfg.(allocation_metrics_freshness_seconds) →
   (∃ s, find_suitable_server cfg now fleet min_ram_mb min_disk_mb = inl s) →
   admissible_target_exists freshness now fleet (allocation_required_ram_mb cfg min_ram_mb) min_disk_mb = true).
Proof.
  intros Hpos Hfr. rewrite (target_exists_iff _ _ _ _ _ Hpos). split.
  - intros (s & Hin & Ha & Hd & Hf & Hc).
    assert (can_take cfg now fleet (allocation_required_ram_mb cfg min_ram_mb) min_disk_mb s) as Hs.
    { split_and!; [done|done|done| |done]. revert Hf. unfold has_fresh_metrics. cbn.
      destruct (sv_last_health_check s); [|done]. rewrite !andb_true_iff, !Z.leb_le. unfold SECOND in *. lia. }
    apply can_take_Suitable in Hs as [Hs Hv].
    destruct (find_cases cfg now fleet min_ram_mb min_disk_mb) as [(s' & ? & ? & _)|Hno]; [by eexists|].
    by destruct (Hno _ _ Hs Hv).
  - intros -> (s & (Hs & n & Hv & _)%find_inl_Suitable). exists s.
    apply judge_Suitable in Hv as (Ha & Hd & Hf & Hc & _). apply list_elem_of_filter in Hs as [_ Hs].
    by split_and!.
Qed.

(** Reuse is placement too: the bound host is refused exactly when
    the search would have rejected it for admission, and with the same reason. *)
Theorem bound_host_is_readmitted cfg now fleet min_ram_mb min_disk_mb s :
  let failed := provisioning_failed_server_handles fleet.(fl_active_incidents) in
  (refuse_inadmissible_target cfg s failed min_ram_mb min_disk_mb = None ↔
     s.(sv_is_managed) = true ∧ s.(sv_status) ∈ ADMITTING_SERVER_STATUSES ∧
     s.(sv_labels) !! "provisioning_phase" = Some "complete" ∧
     (∀ i, i ∈ fleet.(fl_active_incidents) → i.(in_server_handle) = Some s.(sv_handle) →
        i.(in_type) ≠ IncidentType.PROVISIONING_FAILED)) ∧
  (∀ e, refuse_inadmissible_target cfg s failed min_ram_mb min_disk_mb = Some e →
     e.(ae_reason) = AllocationFailureReason.SERVER_NOT_PROVISIONED ∧
     not_admitted (judge cfg now fleet (allocation_required_ram_mb cfg min_ram_mb) min_disk_mb s) = true).
Proof.
  intros failed. split.
  - unfold refuse_inadmissible_target, server_admission_rejection.
    assert (s.(sv_handle) ∈ failed ↔ ∃ i, i ∈ fleet.(fl_active_incidents) ∧
      i.(in_server_handle) = Some s.(sv_handle) ∧ i.(in_type) = IncidentType.PROVISIONING_FAILED) as Hin.
    { unfold failed, provisioning_failed_server_handles. rewrite elem_of_list_to_set, list_elem_of_omap.
      apply exist_proper. intros i. case_decide; naive_solver. }
    destruct (sv_is_managed s); cbn; [|naive_solver].
    case_bool_decide; cbn; [|naive_solver]. case_bool_decide; cbn; [|naive_solver].
    case_decide; naive_solver.
  - intros e. unfold refuse_inadmissible_target. rewrite judge_not_admitted.
    unfold server_admits_application. fold failed. destruct (server_admission_rejection s failed); [|done].
    by intros [= <-].
Qed.

(** ** The properties at concrete inputs *)

Definition sample_cfg : AllocatorSettings := mkAllocatorSettings 256 300.
Definition sample_server (handle : string) (ram used : Z) : Server :=
  mkServer handle true ServerStatus.ACTIVE {[ "provisioning_phase" := "complete" ]} ram 20000 used (Some 0) "10.0.0.1" "root".
Definition sample_fleet : Fleet :=
  mkFleet [sample_server "small" 2048 1500; sample_server "large" 8192 1000] []
    (λ h, if decide (h = "large") then [mkHostedApp ApplicationStatus.RUNNING 3000] else []) ∅.

Lemma refusal_names_the_real_blocker_witness :
  (∀ s, s ∈ filter (λ s, s.(sv_is_managed)) sample_fleet.(fl_servers) →
     server_admits_application s (provisioning_failed_server_handles []) = true) ∧
  ∃ s, s ∈ filter (λ s, s.(sv_is_managed)) sample_fleet.(fl_servers) ∧
    has_fresh_metrics (400 * SECOND) s.(sv_last_health_check) 300 = false.
Proof.
  apply (refusal_names_the_real_blocker sample_cfg (400 * SECOND) sample_fleet 512 1024
    (mkAllocationError AllocationFailureReason.NO_FRESH_METRICS 768 1024)).
  vm_compute. reflexivity.
Defined.

Lemma wait_ends_when_the_allocator_would_place_witness :
  ∃ s, find_suitable_server sample_cfg (60 * SECOND) sample_fleet 512 1024 = inl s.
Proof.
  apply (wait_ends_when_the_allocator_would_place sample_cfg 120 (60 * SECOND) sample_fleet 512 1024).
  - intros h. cbn. case_decide; repeat constructor. cbn. lia.
  - cbn. lia.
  - vm_compute. reflexivity.
Defined.
