(* ===== verification/Paths.v ===== *)
(** * Paths: [pathlib] on POSIX

    Pure paths as [PurePosixPath] keeps them (a root and the components between the
    slashes, without dots), and the file system as a parameter: where a path leads
    once symbolic links are followed is not in the program. *)

From S2P Require Import Prelude Contracts Docs.
From Stdlib Require Import Ascii.

Record path := mkPath { p_root : string; p_parts : list string }.
#[export] Instance path_eq_dec : EqDecision path.
Proof. solve_decision. Defined.

(** [text.split(sep)]. *)
Fixpoint split_chars (sep : ascii) (cur : list ascii) (l : list ascii) : list string :=
  match l with
  | [] => [String.string_of_list_ascii (rev cur)]
  | c :: l' => if bool_decide (c = sep) then String.string_of_list_ascii (rev cur) :: split_chars sep [] l'
               else split_chars sep (c :: cur) l'
  end.
Definition split (sep : ascii) (s : string) : list string := split_chars sep [] (String.list_ascii_of_string s).

Definition starts_with (pre s : string) : bool := String.prefix pre s.

(** [Path(s)]: two leading slashes are a root of their own, three are one. *)
Definition path_of (s : string) : path :=
  mkPath (if starts_with "///" s then "/" else if starts_with "//" s then "//"
          else if starts_with "/" s then "/" else "")
    (filter (λ c, c ≠ "" ∧ c ≠ ".") (split "/" s)).

(** [a / b]: an absolute [b] replaces [a]. *)
Definition join (a b : path) : path :=
  if bool_decide (b.(p_root) = "") then mkPath a.(p_root) (a.(p_parts) ++ b.(p_parts)) else b.
Definition is_absolute (p : path) : bool := negb (bool_decide (p.(p_root) = "")).
(** [str(p)]. *)
Definition path_str (p : path) : string :=
  if decide (p.(p_root) = "" ∧ p.(p_parts) = []) then "."
  else p.(p_root) +:+ String.concat "/" p.(p_parts).
Definition parent (p : path) : path := mkPath p.(p_root) (removelast p.(p_parts)).

(** [p.relative_to(base)] does not raise: [base] is [p] or above it. *)
Definition is_relative_to (p base : path) : bool :=
  bool_decide (p.(p_root) = base.(p_root)) && bool_decide (base.(p_parts) `prefix_of` p.(p_parts)).

(** [p.resolve()], following symbolic links: OSError, ValueError or RuntimeError. *)
Class Filesystem := resolve : path → res path.

(** [except (OSError, ValueError)]. *)
Definition os_or_value_error (e : exn) : bool := bool_decide (e ∈ [OSError; ValueError]).

(** [p.resolve().relative_to(base.resolve())] as a test; a RuntimeError is raised. *)
Definition resolves_under `{Filesystem} (p base : path) : res bool :=
  match p' ← resolve p; base' ← resolve base; mret (is_relative_to p' base') with
  | Ok b => Ok b
  | Exc e => if os_or_value_error e then Ok false else Exc e
  end.

(** The same as a fact. *)
Definition under `{Filesystem} (p base : path) : Prop :=
  ∃ p' base', resolve p = Ok p' ∧ resolve base = Ok base' ∧ is_relative_to p' base' = true.

Lemma resolves_under_true `{Filesystem} p base : resolves_under p base = Ok true ↔ under p base.
Proof.
  unfold resolves_under, under. destruct (resolve p) as [p'|e]; cbn.
  - destruct (resolve base) as [b'|e]; cbn; [|destruct (os_or_value_error e); naive_solver].
    split; [intros [= Hb]; eauto|]. intros (? & ? & [= <-] & [= <-] & ->). done.
  - destruct (os_or_value_error e); naive_solver.
Qed.

(** A file system without symbolic links: dots are taken away. *)
Fixpoint undot (done todo : list string) : list string :=
  match todo with
  | [] => rev done
  | c :: todo' => undot (if decide (c = "..") then tail done else c :: done) todo'
  end.
Definition lexical (cwd : path) : Filesystem := λ p,
  let q := join cwd p in Ok (mkPath q.(p_root) (undot [] q.(p_parts))).

Example paths_are_pure :
  path_of "/w//a/./b/" = mkPath "/" ["w"; "a"; "b"] ∧ path_of "//x" = mkPath "//" ["x"] ∧
  path_str (join (path_of "ctx") (path_of "Dockerfile")) = "ctx/Dockerfile" ∧
  path_str (path_of "") = "." ∧
  @resolves_under (lexical (path_of "/")) (path_of "/w/../etc") (path_of "/w") = Ok false ∧
  @resolves_under (lexical (path_of "/")) (path_of "/w/x/..") (path_of "/w") = Ok true.
Proof. split_and!; by vm_compute. Qed.
