(* ===== verification/ComposePolicy.v ===== *)
(** * ComposePolicy: which Compose projects a worker may run

    [services/worker-manager/src/compose_validator.py]: the admission policy over a
    worker's Compose commands, its source files and the project Docker resolves
    from them.  Every function appends the errors it finds; a project with none is
    admitted.  Rejections are texts, and what Python itself raises is raised. *)

From S2P Require Import Prelude Contracts Docs Paths.
From Stdlib Require Import Ascii SpecFloat.

(** ** Appending errors *)

Abbreviation check := (res (list string)) (only parsing).
(** [if b: errors.append(error)]. *)
Definition deny (b : bool) (error : string) : check := Ok (if b then [error] else []).
(** One check after the other; an exception leaves the function. *)
Fixpoint all_of (l : list check) : check :=
  match l with
  | [] => Ok []
  | c :: l' => es ← c; es' ← all_of l'; mret (es ++ es')
  end.
Definition for_each {A} (l : list A) (f : A → check) : check := all_of (f <$> l).

Record ValidationResult := mkValidationResult { valid : bool; errors : list string }.
(** [ValidationResult(valid=not errors, errors=errors)]. *)
Definition result_of (es : list string) : ValidationResult :=
  mkValidationResult (bool_decide (es = [])) es.
Definition refused (error : string) : ValidationResult := mkValidationResult false [error].

Definition service_error (name text : string) : string := "Service '" +:+ name +:+ "': " +:+ text.
Definition volume_error (name text : string) : string := "Volume '" +:+ name +:+ "': " +:+ text.

(** [kind.title()] of a word in lower case. *)
Definition title (kind : string) : string :=
  match kind with
  | String c rest => String (let n := N_of_ascii c in if (97 <=? n)%N && (n <=? 122)%N then ascii_of_N (n - 32) else c) rest
  | EmptyString => ""
  end.

(** ** The tables *)

Definition ALLOWED_COMMANDS : list string := ["up"; "down"; "build"; "run"; "ps"; "logs"; "stop"].
Definition CONTAINER_CREATING_COMMANDS : list string := ["up"; "build"; "run"].
Definition VALUE_FLAGS : list string :=
  ["-f"; "--file"; "--project-directory"; "--project-name"; "--env-file"; "-p"; "--profile"].
Definition SCOPE_OVERRIDE_FLAGS : list string :=
  ["--project-directory"; "--project-name"; "--env-file"; "-p"; "--network"].
Definition GLOBAL_FILE_FLAGS : list string := ["-f"; "--file"].
Definition SAFE_COMMAND_FLAGS (subcommand : string) : list string :=
  if decide (subcommand = "up") then ["-d"; "--detach"; "--wait"; "--build"; "--no-build"]
  else if decide (subcommand = "build") then ["--no-cache"; "--pull"]
  else if decide (subcommand = "down") then ["-v"; "--volumes"; "--remove-orphans"]
  else if decide (subcommand = "ps") then ["-a"; "--all"; "--quiet"; "-q"]
  else if decide (subcommand = "logs") then ["-f"; "--follow"; "--no-color"; "--timestamps"]
  else [].
Definition SAFE_VALUE_COMMAND_FLAGS (subcommand : string) : list string :=
  if decide (subcommand = "up") then ["--wait-timeout"]
  else if decide (subcommand = "logs") then ["--tail"; "--since"; "--until"]
  else [].

Definition MAX_CPU_LIMIT : spec_float := Eval vm_compute in normalize64 3 0.
Definition MAX_MEMORY_LIMIT_BYTES : Z := 4 * 1024 * 1024 * 1024.

(** [allowed] of every field; the rest of a policy is prose. *)
Definition COMPOSE_HOST_CAPABILITY_POLICIES : list (string * bool) :=
  [("env_file", true); ("extends.file", true); ("build.context", true); ("build.dockerfile", true);
   ("build.args", true); ("secrets.*.file", true); ("configs.*.file", true); ("label_file", false);
   ("include", false); ("build.dockerfile_inline", false); ("build.entitlements", false);
   ("build.additional_contexts", false); ("build.cache_from", false); ("build.cache_to", false);
   ("build.extra_hosts", false); ("build.isolation", false); ("build.labels", false);
   ("build.network", false); ("build.no_cache", false); ("build.platforms", false);
   ("build.privileged", false); ("build.pull", false); ("build.secrets", false);
   ("build.shm_size", false); ("build.ssh", false); ("build.tags", false); ("build.target", false);
   ("build.ulimits", false); ("credential_spec.file", false); ("develop.watch.path", false)].

Definition PERMITTED_BUILD_KEYS : list string :=
  omap (λ p, if p.2 && starts_with "build." p.1
             then Some (String.substring 6 (String.length p.1 - 6) p.1) else None)
    COMPOSE_HOST_CAPABILITY_POLICIES.
Example the_permitted_build_keys : PERMITTED_BUILD_KEYS = ["context"; "dockerfile"; "args"].
Proof. reflexivity. Qed.

(** ** Manager-owned identities: [ResourceIdentityPolicy] *)

Definition build_image `{Sha256} (worker_id service_name : string) : string :=
  "codegen-project-" +:+ String.substring 0 16 (sha256_hexdigest worker_id) +:+ "-" +:+
  String.substring 0 16 (sha256_hexdigest service_name) +:+ ":generated".

(** The service with its image, if it is built. *)
Definition own_image `{Sha256} (worker_id name : string) (service : mapping) : mapping :=
  if is_null (get "build" service) then service
  else put_key "image" (DStr (build_image worker_id name)) service.
Fixpoint own_images `{Sha256} (worker_id : string) (services : mapping) : res mapping :=
  match services with
  | [] => Ok []
  | (name, DMap service) :: rest =>
      rest' ← own_images worker_id rest; mret ((name, DMap (own_image worker_id name service)) :: rest')
  | _ => Exc ValueError
  end.
Definition unnamed_volume (p : string * doc) : string * doc :=
  match p with (name, DMap v) => (name, DMap (drop_key "name" v)) | _ => p end.
Definition apply_identities `{Sha256} (data : mapping) (worker_id : string) : res mapping :=
  match get "services" data with
  | DMap services =>
      services' ← own_images worker_id services;
      let data := put_key "services" (DMap services') data in
      mret (match get "volumes" data with
            | DMap volumes => put_key "volumes" (DMap (unnamed_volume <$> volumes)) data
            | _ => data
            end)
  | _ => Exc ValueError
  end.

Definition container_name_check (p : string * doc) : check :=
  match p with
  | (name, DMap service) => deny (has_key "container_name" service) (service_error name "container_name is not allowed")
  | _ => Ok []
  end.
Definition volume_name_check (p : string * doc) : check :=
  match p with
  | (name, DMap v) => deny (has_key "name" v) (volume_error name "name is not allowed")
  | _ => Ok []
  end.
Definition image_check `{Sha256} (worker_id : string) (p : string * doc) : check :=
  match p with
  | (name, DMap service) =>
      let expected_image := build_image worker_id name in
      deny (negb (is_null (get "build" service)) && negb (is_text expected_image (get "image" service)))
        (service_error name ("build image must be '" +:+ expected_image +:+ "'"))
  | _ => Ok []
  end.

Definition validate_source_identities (data : mapping) : check :=
  all_of [match get_or (DMap []) "services" data with
          | DMap services => for_each services container_name_check
          | _ => Ok []
          end;
          match get "volumes" data with
          | DNull => Ok []
          | DMap volumes => for_each volumes volume_name_check
          | _ => deny true "Compose volumes must be a mapping"
          end].

Definition validate_effective_identities `{Sha256} (data : mapping) (worker_id : string) : check :=
  all_of [match get "services" data with
          | DMap services =>
              for_each services (λ p, all_of [container_name_check p; image_check worker_id p])
          | _ => Ok []
          end;
          match get "volumes" data with
          | DMap volumes => for_each volumes volume_name_check
          | _ => Ok []
          end].

Definition assert_snapshot `{Sha256} (data : mapping) (worker_id : string) : res unit :=
  match validate_effective_identities data worker_id with
  | Ok [] => Ok tt
  | Ok _ => Exc ValueError
  | Exc e => Exc e
  end.

(** ** Volumes and files *)

Definition flag_is_set (arg flag : string) : bool :=
  bool_decide (arg = flag) || starts_with (flag +:+ "=") arg ||
  (bool_decide (flag = "-p") && starts_with "-p" arg && negb (bool_decide (arg = "-p"))).

Definition contains (sub s : string) : bool := bool_decide (is_Some (String.index 0 sub s)).
Definition is_socket_path (p : string) : bool :=
  contains "docker.sock" (lower p) || contains "compose.sock" (lower p).

(** Source, target and type of a mount. *)
Definition volume_parts `{PyRepr} (volume : doc) : string * string * string :=
  match volume with
  | DStr s =>
      match split ":" s with
      | source :: target :: _ => (source, target, "bind")
      | _ => ("", "", "bind")
      end
  | DMap m => (py_str (get_or (DStr "") "source" m), py_str (get_or (DStr "") "target" m),
               py_str (get_or (DStr "volume") "type" m))
  | _ => ("", "", "")
  end.

Definition is_within_workspace `{Filesystem} (source : string) (workspace : path) : res bool :=
  resolves_under (path_of source) workspace.

(** [workspace_path is None or not _is_within_workspace(...)]: an error unless inside. *)
Definition deny_outside `{Filesystem} (source : string) (workspace : option path) (error : string) : check :=
  match workspace with
  | None => deny true error
  | Some w => inside ← is_within_workspace source w; deny (negb inside) error
  end.

Definition volume_check `{PyRepr} `{Filesystem} (name : string) (workspace : option path) (resolved : bool)
    (volume : doc) : check :=
  let '(source, target, volume_type) := volume_parts volume in
  let outside := service_error name ("absolute bind mount source '" +:+ source +:+ "' is not allowed") in
  all_of [deny (is_socket_path source || is_socket_path target)
            (service_error name "Docker or Compose socket mount is not allowed");
          if negb (bool_decide (volume_type = "bind")) then Ok []
          else if negb resolved then deny (starts_with "/" source) outside
          else if negb (starts_with "/" source) then deny true outside
          else deny_outside source workspace outside].

Definition validate_volumes `{PyRepr} `{Filesystem} (name : string) (config : mapping)
    (workspace : option path) (resolved : bool) : check :=
  match get_or (DList []) "volumes" config with
  | DList volumes => for_each volumes (volume_check name workspace resolved)
  | _ => deny true (service_error name "volumes must be a list")
  end.

Definition named_volume_check (p : string * doc) : check :=
  let '(name, v) := p in
  match v with
  | DNull => Ok []
  | DMap config =>
      all_of [deny (doc_truthy (get "external" config)) (volume_error name "external volumes are not allowed");
              deny (negb (is_text "local" (get_or (DStr "local") "driver" config)))
                (volume_error name "only the default local driver is allowed");
              deny (doc_truthy (get "driver_opts" config)) (volume_error name "driver_opts are not allowed")]
  | _ => deny true ("Volume '" +:+ name +:+ "' must be a mapping")
  end.
Definition validate_named_volumes (data : mapping) : check :=
  match get_or (DMap []) "volumes" data with
  | DNull => Ok []
  | DMap volumes => for_each volumes named_volume_check
  | _ => deny true "Resolved Compose volumes must be a mapping"
  end.

Definition file_source_check `{Filesystem} (kind : string) (workspace : option path) (p : string * doc) : check :=
  let '(name, v) := p in
  let error text := title kind +:+ " '" +:+ name +:+ "'" +:+ text in
  match v with
  | DMap definition =>
      all_of [deny (doc_truthy (get "external" definition)) (error ": external sources are not allowed");
              let outside := error ": file source must remain within the worker workspace" in
              let source := get "file" definition in
              match source with
              | DStr s => if decide (s = "") then Ok [] else deny_outside s workspace outside
              | _ => deny (doc_truthy source) outside
              end]
  | _ => deny true (error " must be a mapping")
  end.
Definition validate_file_sources `{Filesystem} (kind : string) (definitions : doc) (workspace : option path) : check :=
  match definitions with
  | DNull => Ok []
  | DMap l => for_each l (file_source_check kind workspace)
  | _ => deny true ("Resolved Compose " +:+ kind +:+ " must be a mapping")
  end.

(** ** Builds *)

Definition unsupported_build_keys (build : mapping) : list string :=
  merge_sort string_leb (remove_dups (filter (λ k, k ∉ PERMITTED_BUILD_KEYS) build.*1)).
Definition validate_build_keys (name : string) (build : mapping) (source : bool) : check :=
  for_each (unsupported_build_keys build) (λ key,
    deny true (service_error name ("build" +:+ (if source then " " else ".") +:+ key +:+ " is not supported"))).

Definition build_mapping (build : doc) : option mapping :=
  match build with
  | DStr s => Some [("context", DStr s)]
  | DMap m => Some m
  | _ => None
  end.

Definition context_check `{Filesystem} (name : string) (workspace : option path) (context : doc) : check :=
  let outside := service_error name "build.context must remain within the worker workspace" in
  match context with
  | DStr s => if decide (s = "") then Ok [] else deny_outside s workspace outside
  | _ => deny (doc_truthy context) outside
  end.
Definition dockerfile_check `{Filesystem} (name : string) (workspace : option path) (context dockerfile : doc) : check :=
  let outside := service_error name "build.dockerfile must remain within the worker workspace" in
  match dockerfile, workspace with
  | DStr s, Some _ =>
      if decide (s = "") then Ok []
      else if is_absolute (path_of s) then deny_outside s workspace outside
      else match context with
           | DStr c => deny_outside (path_str (join (path_of c) (path_of s))) workspace outside
           | _ => deny true outside
           end
  | _, _ => deny (doc_truthy dockerfile) outside
  end.
Definition validate_build `{Filesystem} (name : string) (config : mapping) (workspace : option path) : check :=
  let declared := get "build" config in
  if is_null declared then Ok []
  else match build_mapping declared with
       | Some build =>
           all_of [validate_build_keys name build false;
                   context_check name workspace (get "context" build);
                   dockerfile_check name workspace (get "context" build) (get "dockerfile" build)]
       | None => deny true (service_error name "build must be a mapping")
       end.

(** Of an execution snapshot. *)
Definition assert_permitted_build_shape (config : mapping) : res unit :=
  match get "build" config with
  | DNull | DStr _ => Ok tt
  | DMap build => match unsupported_build_keys build with [] => Ok tt | _ => Exc ValueError end
  | _ => Exc ValueError
  end.

(** ** Resource limits *)

Fixpoint plain_digits (acc n : Z) (l : list ascii) : Z * Z * list ascii :=
  match l with
  | c :: l' => match digit_of c with
               | Some d => plain_digits (acc * 10 + d) (n + 1) l'
               | None => (acc, n, l)
               end
  | [] => (acc, n, [])
  end.

(** The amount of [_MEMORY_LIMIT_RE], as a float, and the text of its unit. *)
Definition match_amount (l : list ascii) : option (spec_float * list ascii) :=
  let '(m, n, l) := plain_digits 0 0 l in
  if n =? 0 then None
  else match l with
       | "."%char :: l' =>
           let '(m, k, l') := plain_digits m 0 l' in
           if k =? 0 then None else Some (float_of_decimal m (- k), l')
       | _ => Some (float_of_decimal m 0, l)
       end.

(** The factor of a unit [([kKmMgGtT](?:i)?[bB]?)?], which is spelt to the end. *)
Definition unit_exponent (c : ascii) : option Z :=
  let c := to_lower c in
  if bool_decide (c = "k"%char) then Some 1 else if bool_decide (c = "m"%char) then Some 2
  else if bool_decide (c = "g"%char) then Some 3 else if bool_decide (c = "t"%char) then Some 4 else None.
Definition match_unit (l : list ascii) : option Z :=
  match l with
  | [] => Some 1
  | c :: l' =>
      match unit_exponent c with
      | None => None
      | Some e =>
          let '(base, l') := match l' with "i"%char :: l' => (1024, l') | _ => (1000, l') end in
          match l' with
          | [] | ["b"%char] | ["B"%char] => Some (base ^ e)
          | _ => None
          end
      end
  end.

Definition memory_bytes (v : doc) : res (option Z) :=
  match v with
  | DInt z => Ok (if 0 <? z then Some z else None)
  | DStr s =>
      match match_amount (String.list_ascii_of_string (strip s)) with
      | Some (amount, l) =>
          match match_unit l with
          | Some factor =>
              if le64 amount (S754_zero false) then Ok None
              else n ← trunc64 (mul64 amount (normalize64 factor 0)); mret (Some n)
          | None => Ok None
          end
      | None => Ok None
      end
  | _ => Ok None
  end.

(** [float(cpus)], zero where it is a TypeError or a ValueError. *)
Definition cpu_limit (cpus : doc) : res spec_float :=
  match py_float cpus with
  | Ok f => Ok f
  | Exc e => if bool_decide (e ∈ [TypeError; ValueError]) then Ok (S754_zero false) else Exc e
  end.
Definition cpu_in_bounds (f : spec_float) : bool :=
  isfinite f && negb (le64 f (S754_zero false)) && negb (lt64 MAX_CPU_LIMIT f).

(** [service_config["deploy"]["resources"]["limits"]], or a KeyError or TypeError. *)
Definition subscript (key : string) (v : doc) : option doc :=
  match v with DMap m => lookup_key key m | _ => None end.
Definition limits_of (config : mapping) : option doc :=
  deploy ← subscript "deploy" (DMap config); resources ← subscript "resources" deploy;
  subscript "limits" resources.

Definition validate_resource_limits (name : string) (config : mapping) : check :=
  match limits_of config with
  | None => deny true (service_error name "deploy.resources.limits with CPU and memory limits is required")
  | Some (DMap limits) =>
      all_of [cpu ← cpu_limit (get "cpus" limits);
              deny (negb (cpu_in_bounds cpu)) (service_error name "CPU limit must be greater than 0 and at most 3.0");
              memory ← memory_bytes (get "memory" limits);
              deny (match memory with Some n => MAX_MEMORY_LIMIT_BYTES <? n | None => true end)
                (service_error name "memory limit must be a positive value at most 4294967296 bytes")]
  | Some _ => deny true (service_error name "deploy.resources.limits must be a mapping")
  end.

(** "A positive value" is tested before the fraction is cut off. *)
Example limits_are_read :
  memory_bytes (DStr "512MiB") = Ok (Some 536870912) ∧ memory_bytes (DStr "1.5g") = Ok (Some 1500000000) ∧
  memory_bytes (DStr "0") = Ok None ∧ memory_bytes (DStr "4 g") = Ok None ∧ memory_bytes (DStr "0.5") = Ok (Some 0) ∧
  (cpu_in_bounds <$> py_float (DStr "3.0")) = Ok true ∧ (cpu_in_bounds <$> py_float (DStr "nan")) = Ok false.
Proof. split_and!; by vm_compute. Qed.

(** ** The command line *)

(** The flags before the subcommand: their errors, and the subcommand with what
    follows it, if there is one. *)
Fixpoint global_flags (args : list string) : list string * option (string * list string) :=
  match args with
  | [] => ([], None)
  | arg :: rest =>
      if bool_decide (arg ∈ GLOBAL_FILE_FLAGS) then
        match rest with
        | [] => (["Compose file flag requires a separate path"], None)
        | file :: rest' => if starts_with "-" file then (["Compose file flag requires a separate path"], None)
                           else global_flags rest'
        end
      else if starts_with "-" arg then
        let '(es, found) := global_flags rest in
        ((if existsb (flag_is_set arg) SCOPE_OVERRIDE_FLAGS
          then "Flag '" +:+ arg +:+ "' cannot override the worker Compose scope"
          else if starts_with "--file=" arg || (starts_with "-f" arg && negb (bool_decide (arg = "-f")))
          then "Flag '" +:+ arg +:+ "' must use a separate Compose file path"
          else "Global flag '" +:+ arg +:+ "' is not allowed") :: es, found)
      else ([], Some (arg, rest))
  end.

(** The flags after it. *)
Fixpoint command_flags (subcommand : string) (args : list string) : list string :=
  match args with
  | [] => []
  | arg :: rest =>
      if negb (starts_with "-" arg) then command_flags subcommand rest
      else if bool_decide (arg ∈ SAFE_COMMAND_FLAGS subcommand) then command_flags subcommand rest
      else if bool_decide (arg ∈ SAFE_VALUE_COMMAND_FLAGS subcommand) then
        match rest with
        | [] => ["Flag '" +:+ arg +:+ "' requires a value"]
        | v :: rest' =>
            (if starts_with "-" v then ["Flag '" +:+ arg +:+ "' requires a value"] else []) ++
            command_flags subcommand rest'
        end
      else if existsb (λ flag, starts_with (flag +:+ "=") arg) (SAFE_VALUE_COMMAND_FLAGS subcommand) then
        command_flags subcommand rest
      else
        (if existsb (flag_is_set arg) SCOPE_OVERRIDE_FLAGS
         then "Flag '" +:+ arg +:+ "' cannot override the worker Compose scope"
         else "Flag '" +:+ arg +:+ "' is not allowed for '" +:+ subcommand +:+ "'") ::
        command_flags subcommand rest
  end.

(** A list of texts as Python prints it. *)
Definition printed_list (l : list string) : string :=
  "[" +:+ String.concat ", " ((λ s, "'" +:+ s +:+ "'") <$> l) +:+ "]".

Definition validate_command (args : list string) : ValidationResult :=
  match global_flags args with
  | (es, None) => mkValidationResult false (es ++ ["No subcommand found in args"])
  | (es, Some (subcommand, rest)) =>
      if negb (bool_decide (subcommand ∈ ALLOWED_COMMANDS)) then
        mkValidationResult false (es ++ ["Command '" +:+ subcommand +:+ "' is not allowed. Allowed: " +:+
          printed_list (merge_sort string_leb ALLOWED_COMMANDS)])
      else result_of (es ++ command_flags subcommand rest)
  end.

Example commands_are_scoped :
  validate_command ["-f"; "a.yml"; "up"; "-d"; "web"] = mkValidationResult true [] ∧
  validate_command ["logs"; "-f"; "--tail"; "5"] = mkValidationResult true [] ∧
  valid (validate_command ["up"; "-pother"]) = false ∧ valid (validate_command ["run"; "--rm"; "web"]) = false ∧
  valid (validate_command ["--file=x"; "up"]) = false ∧
  errors (validate_command ["exec"]) =
    ["Command 'exec' is not allowed. Allowed: ['build', 'down', 'logs', 'ps', 'run', 'stop', 'up']"].
Proof. split_and!; by vm_compute. Qed.

(** ** The source files *)

(** [_COMPOSE_PATH_INTERPOLATION_RE.search]: a dollar and a name, or a closed brace. *)
Definition starts_name (c : ascii) : bool :=
  let n := Z.of_N (N_of_ascii c) in
  (65 <=? n) && (n <=? 90) || (97 <=? n) && (n <=? 122) || (n =? 95).
Fixpoint interpolates (l : list ascii) : bool :=
  match l with
  | "$"%char :: rest =>
      match rest with
      | "{"%char :: r => bool_decide ("}"%char ∈ r)
      | c :: _ => starts_name c
      | [] => false
      end || interpolates rest
  | _ :: rest => interpolates rest
  | [] => false
  end.

Section source.
Context `{Filesystem} (project_directory workspace : path).

Definition source_path (value : doc) (label : string) : check :=
  match value with
  | DStr s =>
      if decide (s = "") then deny true (label +:+ " must be a non-empty workspace path")
      else if interpolates (String.list_ascii_of_string s) then
        deny true (label +:+ " must not use Compose interpolation")
      else
        inside ← resolves_under (join project_directory (path_of s)) workspace;
        deny (negb inside) (label +:+ " must remain within the worker workspace")
  | _ => deny true (label +:+ " must be a non-empty workspace path")
  end.

Definition source_path_values (value : doc) (label : string) : check :=
  match value with
  | DStr _ => source_path value label
  | DList l => for_each l (λ item,
      source_path (match item with DMap m => get "path" m | _ => item end) label)
  | _ => deny true (label +:+ " must be a workspace path or list of workspace paths")
  end.

(** A directive that is not in the table is a KeyError. *)
Definition admit_source_directive (directive : string) (value : doc) (label : string) (multiple : bool) : check :=
  match list_find (λ p, p.1 = directive) COMPOSE_HOST_CAPABILITY_POLICIES with
  | None => Exc KeyError
  | Some (_, (_, false)) => deny true (label +:+ " is not supported")
  | Some (_, (_, true)) => if multiple then source_path_values value label else source_path value label
  end.

(** [if key in m: _admit_source_directive(...)]. *)
Definition admit_if_declared (m : mapping) (key directive label : string) (multiple : bool) : check :=
  match lookup_key key m with
  | Some v => admit_source_directive directive v label multiple
  | None => Ok []
  end.

Definition validate_source_build (name : string) (config : mapping) : check :=
  match get "build" config with
  | DNull => Ok []
  | DStr s => admit_source_directive "build.context" (DStr s) (service_error name "build context") false
  | DMap build =>
      let context := get_or (DStr ".") "context" build in
      all_of [validate_build_keys name build true;
              admit_source_directive "build.context" context (service_error name "build context") false;
              match lookup_key "dockerfile" build with
              | None => Ok []
              | Some (DStr d) =>
                  match context with
                  | DStr c => admit_source_directive "build.dockerfile"
                      (DStr (path_str (join (path_of c) (path_of d)))) (service_error name "build dockerfile") false
                  | _ => deny true (service_error name "build dockerfile must be a workspace path")
                  end
              | Some _ => deny true (service_error name "build dockerfile must be a workspace path")
              end]
  | _ => deny true (service_error name "build must be a mapping")
  end.

(** The directives of one service that read a file. *)
Definition source_service_check (name : string) (config : mapping) : check :=
  all_of [admit_if_declared config "env_file" "env_file" (service_error name "env_file") true;
          admit_if_declared config "label_file" "label_file" (service_error name "label_file") true;
          match get "extends" config with
          | DMap extends => admit_if_declared extends "file" "extends.file" (service_error name "extends file") false
          | DNull => Ok []
          | _ => deny true (service_error name "extends must be a mapping")
          end;
          validate_source_build name config;
          match get "credential_spec" config with
          | DMap spec => admit_if_declared spec "file" "credential_spec.file" (service_error name "credential_spec file") false
          | _ => Ok []
          end;
          match get "develop" config with
          | DMap develop => admit_if_declared develop "watch" "develop.watch.path" (service_error name "develop watch path") true
          | _ => Ok []
          end].

Definition source_definition_check (kind : string) (p : string * doc) : check :=
  let '(name, v) := p in
  let error text := title kind +:+ " '" +:+ name +:+ "'" +:+ text in
  match v with
  | DMap definition =>
      all_of [deny (doc_truthy (get "external" definition)) (error ": external sources are not allowed");
              admit_if_declared definition "file" (kind +:+ ".*.file") (error ": file") false]
  | _ => deny true (error " must be a mapping")
  end.
Definition source_definitions_check (data : mapping) (kind : string) : check :=
  match get_or (DMap []) kind data with
  | DMap definitions => for_each definitions (source_definition_check kind)
  | _ => deny true (title kind +:+ " must be a mapping")
  end.
End source.

(** [validate_compose_file] of the parsed content; [source] is the directory its paths
    are relative to, and the workspace, when the caller gives them. *)
Definition validate_compose_file `{PyRepr} `{Filesystem} (content : doc) (source : option (path * path))
    : res ValidationResult :=
  match content with
  | DMap data =>
      match get_or (DMap []) "services" data with
      | DMap services =>
          es ← all_of [validate_source_identities data;
                 for_each services (λ p, match p with
                   | (name, DMap config) =>
                       all_of [validate_volumes name config None false;
                               match source with
                               | Some (base, workspace) => source_service_check base workspace name config
                               | None => Ok []
                               end]
                   | (name, _) => deny true ("Service '" +:+ name +:+ "' must be a mapping")
                   end);
                 match source with
                 | Some (base, workspace) =>
                     all_of [admit_if_declared base workspace data "include" "include" "Compose include" true;
                             source_definitions_check base workspace data "secrets";
                             source_definitions_check base workspace data "configs"]
                 | None => Ok []
                 end];
          mret (result_of es)
      | _ => Ok (refused "'services' must be a mapping")
      end
  | _ => Ok (refused "Compose file must be a YAML mapping")
  end.

(** ** The resolved project *)

Definition NAMESPACE_FIELDS : list string := ["network_mode"; "pid"; "ipc"; "uts"; "userns_mode"; "cgroup"].
Definition CAPABILITY_FIELDS : list string := ["devices"; "device_cgroup_rules"; "cap_add"].
Definition UNSUPPORTED_FIELDS : list string := ["volumes_from"; "security_opt"].

(** [set(networks)]: the keys of a mapping, the items of a list if they hash. *)
Definition network_names (networks : doc) : res (list doc) :=
  match networks with
  | DMap m => Ok (DStr <$> m.*1)
  | DList l => if existsb (λ v, match v with DList _ | DMap _ => true | _ => false end) l
               then Exc TypeError else Ok l
  | _ => Ok []
  end.
(** [== {"default"}]. *)
Definition only_default (names : list doc) : bool :=
  match names with [] => false | _ => forallb (is_text "default") names end.

Definition network_check (data : mapping) (worker_id : string) : check :=
  let expected_network := "dev_proj_" +:+ worker_id in
  let only := "Resolved Compose configuration may use only the worker default network" in
  match get "networks" data with
  | DMap networks =>
      if only_default (DStr <$> networks.*1) then
        deny (match lookup_key "default" networks with
              | Some (DMap default_network) =>
                  negb (is_text expected_network (get "name" default_network)) ||
                  negb (doc_truthy (get "external" default_network))
              | _ => true
              end) ("Resolved Compose default network must be external '" +:+ expected_network +:+ "'")
      else deny true only
  | _ => deny true only
  end.

Definition effective_service_check `{PyRepr} `{Filesystem} (workspace : option path) (p : string * doc) : check :=
  match p with
  | (name, DMap config) =>
      let denied field := service_error name (field +:+ " is not allowed") in
      all_of [deny (doc_truthy (get "privileged" config)) (denied "privileged");
              for_each NAMESPACE_FIELDS (λ f, deny (negb (is_null (get f config))) (denied f));
              for_each CAPABILITY_FIELDS (λ f, deny (doc_truthy (get f config)) (denied f));
              for_each UNSUPPORTED_FIELDS (λ f, deny (doc_truthy (get f config)) (denied f));
              validate_build name config workspace;
              validate_volumes name config workspace true;
              names ← network_names (get "networks" config);
              deny (negb (only_default names)) (service_error name "only the worker default network is allowed");
              validate_resource_limits name config]
  | (name, _) => deny true ("Service '" +:+ name +:+ "' must be a mapping")
  end.

Definition validate_effective_compose `{PyRepr} `{Filesystem} `{Sha256} (data : doc) (worker_id : string)
    (workspace : option path) : res ValidationResult :=
  match data with
  | DMap data =>
      match get "services" data with
      | DMap (s :: rest) =>
          es ← all_of [network_check data worker_id;
                       validate_named_volumes data;
                       validate_effective_identities data worker_id;
                       validate_file_sources "secrets" (get "secrets" data) workspace;
                       validate_file_sources "configs" (get "configs" data) workspace;
                       for_each (s :: rest) (effective_service_check workspace)];
          mret (result_of es)
      | _ => Ok (refused "Resolved Compose configuration must contain services")
      end
  | _ => Ok (refused "Resolved Compose configuration must be a mapping")
  end.

(** [resolve_compose_path]: the file, if it stays in the workspace.  What the system
    says of a failure is left out of the error. *)
Definition resolve_compose_path `{Filesystem} (compose_file : string) (workspace : path)
    : res (path * ValidationResult) :=
  match p ← resolve (join workspace (path_of compose_file)); w ← resolve workspace;
        (if is_relative_to p w then Ok p else Exc ValueError) with
  | Ok p => Ok (p, mkValidationResult true [])
  | Exc ValueError =>
      Ok (workspace, refused ("Path traversal detected: '" +:+ compose_file +:+ "' resolves outside workspace"))
  | Exc e =>
      if bool_decide (e ∈ [OSError; RuntimeError])
      then Ok (workspace, refused ("Failed to resolve path '" +:+ compose_file +:+ "'")) else Exc e
  end.
