(* ===== verification/ComposeIsolation.v ===== *)
(** * ComposeIsolation: what an admitted Compose project cannot do

    The contract of [ComposePolicy] as a predicate on the project Docker resolves:
    no privileges, no host namespaces, files and mounts inside the workspace, the
    worker's own network and images, bounded processors and memory.  The validator
    admits exactly the projects that meet it. *)

From S2P Require Import Prelude Contracts Docs Paths ComposePolicy.
From Stdlib Require Import Ascii SpecFloat.

(** ** The contract *)

Section contract.
Context `{PyRepr} `{Filesystem} `{Sha256} (worker_id : string) (workspace : option path).

(** The field is not set, or is set to something false. *)
Definition off (config : mapping) (field : string) : Prop := doc_truthy (get field config) = false.
Definition absent (config : mapping) (field : string) : Prop := is_null (get field config) = true.

Definition inside (s : string) : Prop := ∃ w, workspace = Some w ∧ under (path_of s) w.

(** No socket of the daemon, and a bind mount of an absolute path of the workspace. *)
Definition mount_confined (volume : doc) : Prop :=
  let '(source, target, volume_type) := volume_parts volume in
  is_socket_path source = false ∧ is_socket_path target = false ∧
  (volume_type = "bind" → starts_with "/" source = true ∧ inside source).

Definition context_confined (context : doc) : Prop :=
  doc_truthy context = false ∨ ∃ s, context = DStr s ∧ inside s.
(** A Dockerfile is relative to the context of its build. *)
Definition dockerfile_confined (context dockerfile : doc) : Prop :=
  doc_truthy dockerfile = false ∨
  ∃ d, dockerfile = DStr d ∧
    if is_absolute (path_of d) then inside d
    else ∃ c, context = DStr c ∧ inside (path_str (join (path_of c) (path_of d))).

Definition build_confined (config : mapping) : Prop :=
  absent config "build" ∨
  ∃ build, build_mapping (get "build" config) = Some build ∧
    (∀ k, k ∈ build.*1 → k ∈ PERMITTED_BUILD_KEYS) ∧
    context_confined (get "context" build) ∧
    dockerfile_confined (get "context" build) (get "dockerfile" build).

Definition limits_confined (config : mapping) : Prop :=
  ∃ limits cpu memory, limits_of config = Some (DMap limits) ∧
    cpu_limit (get "cpus" limits) = Ok cpu ∧ cpu_in_bounds cpu = true ∧
    memory_bytes (get "memory" limits) = Ok (Some memory) ∧ memory ≤ MAX_MEMORY_LIMIT_BYTES.

Definition own_network_only (networks : doc) : Prop :=
  ∃ names, network_names networks = Ok names ∧ names ≠ [] ∧ ∀ v, v ∈ names → v = DStr "default".

(** One service, under its name. *)
Definition service_confined (name : string) (config : mapping) : Prop :=
  off config "privileged" ∧
  (∀ f, f ∈ NAMESPACE_FIELDS → absent config f) ∧
  (∀ f, f ∈ CAPABILITY_FIELDS ++ UNSUPPORTED_FIELDS → off config f) ∧
  has_key "container_name" config = false ∧
  (absent config "build" ∨ get "image" config = DStr (build_image worker_id name)) ∧
  build_confined config ∧
  (∃ l, get_or (DList []) "volumes" config = DList l ∧ ∀ v, v ∈ l → mount_confined v) ∧
  own_network_only (get "networks" config) ∧
  limits_confined config.

(** A named volume: local, without options, and without a name of the worker's. *)
Definition volume_confined (v : doc) : Prop :=
  v = DNull ∨
  ∃ m, v = DMap m ∧ off m "external" ∧ get_or (DStr "local") "driver" m = DStr "local" ∧
    off m "driver_opts" ∧ has_key "name" m = false.

Definition definitions_confined (definitions : doc) : Prop :=
  definitions = DNull ∨
  ∃ l, definitions = DMap l ∧ ∀ name v, (name, v) ∈ l →
    ∃ m, v = DMap m ∧ off m "external" ∧ context_confined (get "file" m).

Definition project_confined (data : mapping) : Prop :=
  (∃ services, get "services" data = DMap services ∧ services ≠ [] ∧
     ∀ name v, (name, v) ∈ services → ∃ config, v = DMap config ∧ service_confined name config) ∧
  (∃ networks m, get "networks" data = DMap networks ∧ (∀ k, k ∈ networks.*1 → k = "default") ∧
     lookup_key "default" networks = Some (DMap m) ∧
     get "name" m = DStr ("dev_proj_" +:+ worker_id) ∧ doc_truthy (get "external" m) = true) ∧
  (get "volumes" data = DNull ∨
   ∃ l, get "volumes" data = DMap l ∧ ∀ name v, (name, v) ∈ l → volume_confined v) ∧
  definitions_confined (get "secrets" data) ∧
  definitions_confined (get "configs" data).
End contract.

(** ** The contract of a source file

    Every path a Compose loader reads is a literal path of the workspace, as seen
    from the directory of the project; what loads by another way is refused. *)

Section source_contract.
Context `{PyRepr} `{Filesystem} (base workspace : path).

Definition literal_path (v : doc) : Prop :=
  ∃ s, v = DStr s ∧ s ≠ "" ∧ interpolates (String.list_ascii_of_string s) = false ∧
    under (join base (path_of s)) workspace.
(** A path, or a list of paths and of mappings that name one. *)
Definition literal_paths (v : doc) : Prop :=
  literal_path v ∨
  ∃ l, v = DList l ∧ ∀ item, item ∈ l → literal_path (match item with DMap m => get "path" m | _ => item end).

Definition if_declared (m : mapping) (key : string) (P : doc → Prop) : Prop :=
  ∀ v, lookup_key key m = Some v → P v.
Definition undeclared (m : mapping) (key : string) : Prop := lookup_key key m = None.

Definition source_build_confined (config : mapping) : Prop :=
  match get "build" config with
  | DNull => True
  | DMap build =>
      (∀ k, k ∈ build.*1 → k ∈ PERMITTED_BUILD_KEYS) ∧
      literal_path (get_or (DStr ".") "context" build) ∧
      if_declared build "dockerfile" (λ v, ∃ c d, get_or (DStr ".") "context" build = DStr c ∧ v = DStr d ∧
        literal_path (DStr (path_str (join (path_of c) (path_of d)))))
  | context => literal_path context
  end.

(** The mapping under the key, if it is one, does not declare the field. *)
Definition nowhere (config : mapping) (key field : string) : Prop :=
  ∀ m, get key config = DMap m → undeclared m field.

Definition source_service_confined (config : mapping) : Prop :=
  if_declared config "env_file" literal_paths ∧
  undeclared config "label_file" ∧
  (absent config "extends" ∨
   ∃ m, get "extends" config = DMap m ∧ if_declared m "file" literal_path) ∧
  source_build_confined config ∧
  nowhere config "credential_spec" "file" ∧ nowhere config "develop" "watch".

Definition source_mount_confined (volume : doc) : Prop :=
  let '(source, target, volume_type) := volume_parts volume in
  is_socket_path source = false ∧ is_socket_path target = false ∧
  (volume_type = "bind" → starts_with "/" source = false).

Definition source_definitions_confined (data : mapping) (kind : string) : Prop :=
  ∃ l, get_or (DMap []) kind data = DMap l ∧ ∀ name v, (name, v) ∈ l →
    ∃ m, v = DMap m ∧ off m "external" ∧ if_declared m "file" literal_path.

Definition source_confined (data : mapping) : Prop :=
  (∃ services, get_or (DMap []) "services" data = DMap services ∧
     ∀ name v, (name, v) ∈ services → ∃ config, v = DMap config ∧
       has_key "container_name" config = false ∧
       (∃ l, get_or (DList []) "volumes" config = DList l ∧ ∀ v, v ∈ l → source_mount_confined v) ∧
       source_service_confined config) ∧
  (get "volumes" data = DNull ∨
   ∃ l, get "volumes" data = DMap l ∧ ∀ name v m, (name, v) ∈ l → v = DMap m → has_key "name" m = false) ∧
  undeclared data "include" ∧
  source_definitions_confined data "secrets" ∧ source_definitions_confined data "configs".
End source_contract.

(** ** A check that finds nothing *)

Lemma clean_deny b e : deny b e = Ok [] ↔ b = false.
Proof. destruct b; naive_solver. Qed.
Lemma clean_all_of l : all_of l = Ok [] ↔ Forall (λ c, c = Ok []) l.
Proof.
  induction l as [|c l IH]; cbn; [by split|]. rewrite Forall_cons, <-IH.
  destruct c as [es|e]; cbn; [|naive_solver]. destruct (all_of l) as [es'|e]; cbn; [|naive_solver].
  split; [intros [= [-> ->]%app_eq_nil]; done|by intros [[= ->] [= ->]]].
Qed.
Lemma clean_for_each {A} (l : list A) f : for_each l f = Ok [] ↔ ∀ x, x ∈ l → f x = Ok [].
Proof. unfold for_each. rewrite clean_all_of, Forall_fmap, Forall_forall. done. Qed.
Lemma clean_pairs {A B} (l : list (A * B)) f :
  (∀ x, x ∈ l → f x = Ok []) ↔ ∀ a b, (a, b) ∈ l → f (a, b) = Ok ([] : list string).
Proof. split; [auto|]. intros Hl [a b]. apply Hl. Qed.
Lemma clean_bind {A} (m : res A) f : m ≫= f = Ok ([] : list string) ↔ ∃ a, m = Ok a ∧ f a = Ok [].
Proof. destruct m; cbn; naive_solver. Qed.
Lemma clean_result m :
  (es ← m; mret (result_of es)) = Ok (mkValidationResult true []) ↔ m = Ok [].
Proof.
  destruct m as [es|e]; cbn; [|naive_solver]. unfold result_of.
  split; [intros [= _ ->]; done|by intros [= ->]].
Qed.
Lemma is_text_true t v : is_text t v = true ↔ v = DStr t.
Proof. destruct v; cbn; rewrite ?bool_decide_eq_true; naive_solver. Qed.
#[export] Hint Rewrite clean_deny clean_all_of @clean_for_each @clean_bind negb_false_iff
  andb_false_iff orb_false_iff @Forall_cons @Forall_nil is_text_true : clean.

(** A test of a list, as a quantifier. *)
Lemma forall_in_cons {A} (P : A → Prop) x l : (∀ y, y ∈ x :: l → P y) ↔ P x ∧ ∀ y, y ∈ l → P y.
Proof. setoid_rewrite elem_of_cons. naive_solver. Qed.

(** ** Each check and its part of the contract *)

#[local] Arguments deny_outside : simpl never.
#[local] Arguments deny : simpl never.

Ltac case_and :=
  match goal with
  | H : _ ∧ _ |- _ => destruct H
  | H : _ ∨ _ |- _ => destruct H
  | H : ∃ _, _ |- _ => destruct H
  end.
(** A document of another shape: refused, and outside the contract. *)
Ltac other_shape :=
  rewrite ?clean_deny; split;
  [by intros; repeat case_and | intros; repeat case_and; done].

Section checks.
Context `{PyRepr} `{Filesystem} `{Sha256} (worker_id : string) (workspace : option path).

Lemma clean_outside source e : deny_outside source workspace e = Ok [] ↔ inside workspace source.
Proof.
  unfold deny_outside, inside, is_within_workspace. destruct workspace as [w|]; [|naive_solver].
  rewrite clean_bind. setoid_rewrite clean_deny. setoid_rewrite negb_false_iff.
  setoid_rewrite <-resolves_under_true. naive_solver.
Qed.

Lemma clean_mount name v : volume_check name workspace true v = Ok [] ↔ mount_confined workspace v.
Proof.
  unfold volume_check, mount_confined. destruct (volume_parts v) as [[source target] volume_type].
  autorewrite with clean.
  destruct (decide (volume_type = "bind")) as [->|]; cbn; [|rewrite bool_decide_false by done; naive_solver].
  rewrite bool_decide_true by done.
  destruct (starts_with "/" source); cbn; rewrite ?clean_outside, ?clean_deny; naive_solver.
Qed.
Lemma clean_volumes name config :
  validate_volumes name config workspace true = Ok [] ↔
  ∃ l, get_or (DList []) "volumes" config = DList l ∧ ∀ v, v ∈ l → mount_confined workspace v.
Proof.
  unfold validate_volumes. setoid_rewrite <-clean_mount.
  destruct (get_or _ _ _); try naive_solver. autorewrite with clean. naive_solver.
Qed.

(** The fields whose value is a path are false, or a text. *)
Lemma no_text v (P : string → Prop) :
  (∀ s, v ≠ DStr s) → doc_truthy v = false ↔ doc_truthy v = false ∨ ∃ s, v = DStr s ∧ P s.
Proof. naive_solver. Qed.
Lemma clean_path_field v e :
  match v with
  | DStr s => if decide (s = "") then Ok [] else deny_outside s workspace e
  | _ => deny (doc_truthy v) e
  end = Ok [] ↔ context_confined workspace v.
Proof.
  unfold context_confined. destruct v; rewrite ?clean_deny; try by apply no_text. cbn.
  destruct (decide (s = "")) as [->|Hs]; [naive_solver|].
  rewrite clean_outside, bool_decide_false by done. naive_solver.
Qed.
Lemma clean_context name context :
  context_check name workspace context = Ok [] ↔ context_confined workspace context.
Proof. apply clean_path_field. Qed.
Lemma clean_dockerfile name context dockerfile :
  dockerfile_check name workspace context dockerfile = Ok [] ↔
  dockerfile_confined workspace context dockerfile.
Proof.
  unfold dockerfile_check, dockerfile_confined.
  destruct dockerfile as [| | | |s| |], workspace as [w|] eqn:Hw; rewrite ?clean_deny;
    try by apply no_text.
  - cbn. destruct (decide (s = "")) as [->|Hs]; [naive_solver|]. rewrite bool_decide_false by done; cbn.
    rewrite <-Hw.
    trans (if is_absolute (path_of s) then inside workspace s
           else ∃ c, context = DStr c ∧ inside workspace (path_str (join (path_of c) (path_of s)))).
    + destruct (is_absolute (path_of s)); [by rewrite clean_outside|].
      destruct context; rewrite ?clean_outside, ?clean_deny; naive_solver.
    + split; [eauto|]. intros [?|(d & [= <-] & Hd)]; done.
  - split; [auto|]. intros [?|(d & [= <-] & Hd)]; [done|]. unfold inside in Hd.
    destruct (is_absolute _); naive_solver.
Qed.

Lemma clean_build_keys name build source :
  validate_build_keys name build source = Ok [] ↔ ∀ k, k ∈ build.*1 → k ∈ PERMITTED_BUILD_KEYS.
Proof.
  unfold validate_build_keys, unsupported_build_keys. rewrite clean_for_each.
  setoid_rewrite clean_deny. setoid_rewrite (merge_sort_Permutation string_leb).
  setoid_rewrite elem_of_remove_dups. setoid_rewrite list_elem_of_filter.
  split; [|naive_solver]. intros Hk k Hin. destruct (decide (k ∈ PERMITTED_BUILD_KEYS)); [done|].
  by discriminate (Hk k).
Qed.
Lemma clean_build name config :
  validate_build name config workspace = Ok [] ↔ build_confined workspace config.
Proof.
  unfold validate_build, build_confined, absent. destruct (is_null _); [naive_solver|].
  destruct (build_mapping _) as [build|]; rewrite ?clean_deny; [|naive_solver].
  rewrite clean_all_of, !Forall_cons, clean_build_keys, clean_context, clean_dockerfile.
  split; [intros (?&?&?&_); eauto 6|]. intros [?|(? & [= <-] & ?)]; naive_solver.
Qed.

Lemma clean_limits name config :
  validate_resource_limits name config = Ok [] ↔ limits_confined config.
Proof.
  unfold validate_resource_limits, limits_confined.
  destruct (limits_of config) as [limits|]; rewrite ?clean_deny; [|naive_solver].
  destruct limits as [| | | | | |limits]; try other_shape.
  autorewrite with clean. setoid_rewrite clean_deny. setoid_rewrite negb_false_iff.
  split.
  - intros ((cpu & ? & ?) & ([memory|] & ? & ?) & _); [|done]. exists limits, cpu, memory.
    split_and!; try done. lia.
  - intros (? & cpu & memory & [= <-] & ? & ? & ? & ?).
    split_and!; eauto. exists (Some memory). split; [done|]. lia.
Qed.

Lemma clean_default_only names :
  only_default names = true ↔ names ≠ [] ∧ ∀ v, v ∈ names → v = DStr "default".
Proof.
  unfold only_default. destruct names as [|v l]; [naive_solver|].
  rewrite forallb_forall. setoid_rewrite is_text_true. setoid_rewrite list_elem_of_In. naive_solver.
Qed.
Lemma clean_networks networks e :
  (names ← network_names networks; deny (negb (only_default names)) e) = Ok [] ↔ own_network_only networks.
Proof.
  rewrite clean_bind. unfold own_network_only. setoid_rewrite clean_deny.
  setoid_rewrite negb_false_iff. by setoid_rewrite clean_default_only.
Qed.

Lemma clean_volume_name p : volume_name_check p = Ok [] ↔
  ∀ m, p.2 = DMap m → has_key "name" m = false.
Proof. destruct p as [? []]; cbn; rewrite ?clean_deny; naive_solver. Qed.
Lemma clean_named_volume name v :
  named_volume_check (name, v) = Ok [] ∧ volume_name_check (name, v) = Ok [] ↔ volume_confined v.
Proof.
  rewrite clean_volume_name. unfold named_volume_check, volume_confined, off. cbn [snd].
  destruct v; try other_shape; [naive_solver|]. autorewrite with clean. naive_solver.
Qed.
Lemma clean_definitions kind definitions :
  validate_file_sources kind definitions workspace = Ok [] ↔ definitions_confined workspace definitions.
Proof.
  unfold validate_file_sources, definitions_confined, off.
  destruct definitions as [| | | | | |l]; try other_shape; [naive_solver|].
  rewrite clean_for_each, clean_pairs.
  assert (∀ name v, file_source_check kind workspace (name, v) = Ok [] ↔
    ∃ m, v = DMap m ∧ doc_truthy (get "external" m) = false ∧ context_confined workspace (get "file" m))
    as Hone.
  { intros name v. destruct v as [| | | | | |m]; try other_shape. unfold file_source_check. cbv zeta.
    rewrite clean_all_of, !Forall_cons, clean_deny, clean_path_field. naive_solver. }
  setoid_rewrite Hone. split; [eauto|]. intros [?|(? & [= <-] & ?)]; done.
Qed.

Lemma clean_image name config :
  image_check worker_id (name, DMap config) = Ok [] ↔
  absent config "build" ∨ get "image" config = DStr (build_image worker_id name).
Proof.
  unfold image_check, absent. rewrite clean_deny, andb_false_iff, !negb_false_iff.
  by rewrite is_text_true.
Qed.
Lemma clean_service name v :
  effective_service_check workspace (name, v) = Ok [] ∧
  container_name_check (name, v) = Ok [] ∧ image_check worker_id (name, v) = Ok [] ↔
  ∃ config, v = DMap config ∧ service_confined worker_id workspace name config.
Proof.
  destruct v as [| | | | | |config]; try other_shape.
  rewrite clean_image. unfold effective_service_check, container_name_check. cbv zeta.
  rewrite clean_all_of, !Forall_cons, clean_build, clean_volumes, clean_networks, clean_limits,
    !clean_for_each. repeat setoid_rewrite clean_deny. setoid_rewrite negb_false_iff.
  unfold service_confined, off. setoid_rewrite elem_of_app. split.
  - intros ((?&?&?&?&?&?&?&?&_) & ? & ?). exists config. split_and!; try done. naive_solver.
  - intros (? & [= <-] & ? & ? & ? & ? & ? & ? & ? & ? & ?). split_and!; auto.
Qed.

Lemma clean_network data :
  network_check data worker_id = Ok [] ↔
  ∃ networks m, get "networks" data = DMap networks ∧ (∀ k, k ∈ networks.*1 → k = "default") ∧
    lookup_key "default" networks = Some (DMap m) ∧
    get "name" m = DStr ("dev_proj_" +:+ worker_id) ∧ doc_truthy (get "external" m) = true.
Proof.
  unfold network_check. destruct (get "networks" data) as [| | | | | |networks]; try other_shape.
  destruct (only_default _) eqn:Hnames.
  - apply clean_default_only in Hnames as [_ Hnames]. rewrite clean_deny.
    assert (∀ k, k ∈ networks.*1 → k = "default").
    { intros k Hk. assert (DStr k = DStr "default") as [= ->]; [|done].
      apply Hnames, list_elem_of_fmap_2, Hk. }
    destruct (lookup_key _ _) as [[| | | | | |m]|] eqn:Hd;
      try by (split; [|intros (? & ? & [= <-] & ? & ? & _); congruence]).
    rewrite orb_false_iff, !negb_false_iff, is_text_true. split.
    + intros []. by exists networks, m.
    + intros (? & m' & [= <-] & ? & ? & ?). assert (m' = m) as -> by congruence. done.
  - split; [done|]. intros (networks' & m & [= <-] & Hk & Hin & _).
    assert (only_default (DStr <$> networks.*1) = true); [|congruence].
    apply clean_default_only. split.
    + by destruct networks.
    + intros v (k & -> & Hk')%list_elem_of_fmap. f_equal. by apply Hk.
Qed.

Lemma clean_volume_names data :
  validate_named_volumes data = Ok [] ∧
  match get "volumes" data with DMap volumes => for_each volumes volume_name_check | _ => Ok [] end = Ok [] ↔
  get "volumes" data = DNull ∨
  ∃ l, get "volumes" data = DMap l ∧ ∀ name v, (name, v) ∈ l → volume_confined v.
Proof.
  unfold validate_named_volumes, get_or, get.
  destruct (lookup_key "volumes" data) as [[| | | | | |l]|]; cbn; try other_shape; [naive_solver| |naive_solver].
  rewrite !clean_for_each, !clean_pairs. split.
  - intros [? ?]. right. exists l. split; [done|]. intros name v ?. apply (clean_named_volume name).
    split; auto.
  - intros [?|(? & [= <-] & Hl)]; [done|]. split; intros name v Hin; apply Hl, (clean_named_volume name) in Hin; tauto.
Qed.
End checks.

(** ** The checks of a source file *)

Section source_checks.
Context `{PyRepr} `{Filesystem} (base workspace : path).

Lemma clean_source_path v label : source_path base workspace v label = Ok [] ↔ literal_path base workspace v.
Proof.
  unfold source_path, literal_path. destruct v as [| | | |s| |]; try other_shape.
  destruct (decide (s = "")) as [->|Hs]; [split; [done|naive_solver]|].
  destruct (interpolates _) eqn:Hi.
  { rewrite clean_deny. split; [done|]. intros (? & [= <-] & _ & ? & _). congruence. }
  rewrite clean_bind. setoid_rewrite clean_deny. setoid_rewrite negb_false_iff.
  setoid_rewrite <-resolves_under_true. split.
  - intros ([] & ? & ?); [eauto|done].
  - intros (? & [= <-] & _ & _ & ?). eauto.
Qed.
Lemma clean_source_paths v label :
  source_path_values base workspace v label = Ok [] ↔ literal_paths base workspace v.
Proof.
  unfold source_path_values, literal_paths.
  destruct v as [| | | |s|l|]; try by (rewrite clean_deny; split; [|intros [(? & [=] & _)|(? & [=] & _)]]).
  - rewrite clean_source_path. split; [auto|]. intros [?|(? & [=] & _)]; done.
  - rewrite clean_for_each. setoid_rewrite clean_source_path. split; [eauto|].
    intros [(? & [=] & _)|(? & [= <-] & ?)]. done.
Qed.

(** A directive the table admits, and one it does not. *)
Lemma clean_admitted directive v label multiple :
  list_find (λ p, p.1 = directive) COMPOSE_HOST_CAPABILITY_POLICIES ≫= (λ p, Some p.2.2) = Some true →
  admit_source_directive base workspace directive v label multiple = Ok [] ↔
  if multiple then literal_paths base workspace v else literal_path base workspace v.
Proof.
  unfold admit_source_directive. destruct (list_find _ _) as [[? [? []]]|]; try done. intros _.
  destruct multiple; [apply clean_source_paths|apply clean_source_path].
Qed.
Lemma clean_refused directive v label multiple :
  list_find (λ p, p.1 = directive) COMPOSE_HOST_CAPABILITY_POLICIES ≫= (λ p, Some p.2.2) = Some false →
  admit_source_directive base workspace directive v label multiple ≠ Ok [].
Proof. unfold admit_source_directive. by destruct (list_find _ _) as [[? [? []]]|]. Qed.
Lemma clean_if_admitted m key directive label multiple :
  list_find (λ p, p.1 = directive) COMPOSE_HOST_CAPABILITY_POLICIES ≫= (λ p, Some p.2.2) = Some true →
  admit_if_declared base workspace m key directive label multiple = Ok [] ↔
  if_declared m key (if multiple then literal_paths base workspace else literal_path base workspace).
Proof.
  intros Hd. unfold admit_if_declared, if_declared. destruct (lookup_key key m) as [v|]; [|by split].
  rewrite clean_admitted by done. destruct multiple; (split; [by intros ? ? [= <-]|auto]).
Qed.
Lemma clean_if_refused m key directive label multiple :
  list_find (λ p, p.1 = directive) COMPOSE_HOST_CAPABILITY_POLICIES ≫= (λ p, Some p.2.2) = Some false →
  admit_if_declared base workspace m key directive label multiple = Ok [] ↔ undeclared m key.
Proof.
  intros Hd. unfold admit_if_declared, undeclared. destruct (lookup_key key m) as [v|]; [|done].
  split; [|done]. intros []%clean_refused; done.
Qed.

Lemma clean_source_build name config :
  validate_source_build base workspace name config = Ok [] ↔ source_build_confined base workspace config.
Proof.
  unfold validate_source_build, source_build_confined.
  destruct (get "build" config) as [| | | |s| |build]; try (by split);
    try (by rewrite clean_deny; split; [|intros (? & [=] & _)]); [by rewrite clean_admitted|].
  cbv zeta. rewrite clean_all_of, !Forall_cons, clean_build_keys, clean_admitted by done.
  assert (∀ x y z w, y ↔ w → x ∧ z ∧ y ∧ True ↔ x ∧ z ∧ w) as Hand by tauto.
  rewrite Forall_nil. apply Hand. unfold if_declared.
  destruct (lookup_key "dockerfile" build) as [d|]; [|by split].
  destruct d as [| | | |d| |]; try by (rewrite clean_deny; split;
    [|intros Hd; destruct (Hd _ eq_refl) as (? & ? & _ & [=] & _)]).
  destruct (get_or _ "context" build) as [| | | |c| |]; try by (rewrite clean_deny; split;
    [|intros Hd; destruct (Hd _ eq_refl) as (? & ? & [=] & _)]).
  rewrite clean_admitted by done. split; [intros ? v [= <-]; by exists c, d|].
  intros Hd. by destruct (Hd _ eq_refl) as (? & ? & [= <-] & [= <-] & ?).
Qed.

(** The mapping under [key], where [field] is refused. *)
Lemma clean_nowhere config key field directive label multiple :
  list_find (λ p, p.1 = directive) COMPOSE_HOST_CAPABILITY_POLICIES ≫= (λ p, Some p.2.2) = Some false →
  match get key config with
  | DMap m => admit_if_declared base workspace m field directive label multiple
  | _ => Ok []
  end = Ok [] ↔ nowhere config key field.
Proof.
  intros Hd. unfold nowhere. destruct (get key config) as [| | | | | |m]; try by split.
  rewrite clean_if_refused by done. split; [by intros ? ? [= <-]|auto].
Qed.

Lemma clean_source_service name config :
  source_service_check base workspace name config = Ok [] ↔ source_service_confined base workspace config.
Proof.
  unfold source_service_check, source_service_confined.
  rewrite clean_all_of, !Forall_cons, Forall_nil, clean_source_build, !clean_nowhere, clean_if_admitted,
    clean_if_refused by done.
  assert (match get "extends" config with
          | DMap extends => admit_if_declared base workspace extends "file" "extends.file"
                              (service_error name "extends file") false
          | DNull => Ok []
          | _ => deny true (service_error name "extends must be a mapping")
          end = Ok [] ↔
          absent config "extends" ∨
          ∃ m, get "extends" config = DMap m ∧ if_declared m "file" (literal_path base workspace)) as ->.
  { unfold absent. destruct (get "extends" config) as [| | | | | |m]; try other_shape.
    - by split; [left|].
    - rewrite clean_if_admitted by done. split; [eauto|]. by intros [?|(? & [= <-] & ?)]. }
  tauto.
Qed.

Lemma clean_source_mount name v :
  volume_check name None false v = Ok [] ↔ source_mount_confined v.
Proof.
  unfold volume_check, source_mount_confined. destruct (volume_parts v) as [[source target] volume_type].
  rewrite clean_all_of, !Forall_cons, clean_deny, orb_false_iff, Forall_nil.
  destruct (decide (volume_type = "bind")) as [->|Hn]; cbn.
  - rewrite bool_decide_true by done. cbn. rewrite clean_deny. tauto.
  - rewrite bool_decide_false by done. cbn. tauto.
Qed.
Lemma clean_source_volumes name config :
  validate_volumes name config None false = Ok [] ↔
  ∃ l, get_or (DList []) "volumes" config = DList l ∧ ∀ v, v ∈ l → source_mount_confined v.
Proof.
  unfold validate_volumes. destruct (get_or _ _ _) as [| | | | |l|]; try other_shape.
  rewrite clean_for_each. setoid_rewrite clean_source_mount. split; [eauto|].
  by intros (? & [= <-] & ?).
Qed.

Lemma clean_source_definitions data kind :
  kind ∈ ["secrets"; "configs"] →
  source_definitions_check base workspace data kind = Ok [] ↔
  source_definitions_confined base workspace data kind.
Proof.
  intros Hkind. unfold source_definitions_check, source_definitions_confined.
  destruct (get_or _ kind data) as [| | | | | |l]; try other_shape.
  rewrite clean_for_each, clean_pairs.
  assert (∀ name v, source_definition_check base workspace kind (name, v) = Ok [] ↔
    ∃ m, v = DMap m ∧ off m "external" ∧ if_declared m "file" (literal_path base workspace)) as Hone.
  { intros name v. destruct v as [| | | | | |m]; try other_shape. unfold source_definition_check, off. cbv zeta.
    rewrite clean_all_of, !Forall_cons, clean_deny, clean_if_admitted, Forall_nil by
      (by repeat (apply elem_of_cons in Hkind as [->|Hkind]); [..|apply not_elem_of_nil in Hkind]).
    split; [intros (? & ? & _); eauto|]. by intros (? & [= <-] & ? & ?). }
  setoid_rewrite Hone. split; [eauto|]. by intros (? & [= <-] & ?).
Qed.

Lemma clean_identities data services :
  get_or (DMap []) "services" data = DMap services →
  validate_source_identities data = Ok [] ↔
  (∀ name v, (name, v) ∈ services → container_name_check (name, v) = Ok []) ∧
  (get "volumes" data = DNull ∨
   ∃ l, get "volumes" data = DMap l ∧ ∀ name v m, (name, v) ∈ l → v = DMap m → has_key "name" m = false).
Proof.
  intros Hs. unfold validate_source_identities. rewrite Hs, clean_all_of, !Forall_cons, Forall_nil.
  rewrite clean_for_each, clean_pairs. apply and_iff_compat_l.
  destruct (get "volumes" data) as [| | | | | |l]; try (split; [by intros []|]; by intros [|(? & [=] & _)]).
  - split; [by left|done].
  - rewrite clean_for_each, clean_pairs. setoid_rewrite clean_volume_name. cbn [snd]. split.
    + intros [Hl _]. right. exists l. split; [done|]. intros; by eapply Hl.
    + intros [?|(? & [= <-] & Hl)]; [done|]. split; [|done]. intros; by eapply Hl.
Qed.

Lemma clean_source_item p :
  match p with
  | (name, DMap config) =>
      all_of [validate_volumes name config None false; source_service_check base workspace name config]
  | (name, _) => deny true ("Service '" +:+ name +:+ "' must be a mapping")
  end = Ok [] ∧ container_name_check p = Ok [] ↔
  ∃ config, p.2 = DMap config ∧ has_key "container_name" config = false ∧
    (∃ l, get_or (DList []) "volumes" config = DList l ∧ ∀ v, v ∈ l → source_mount_confined v) ∧
    source_service_confined base workspace config.
Proof.
  destruct p as [name [| | | | | |config]]; try other_shape. unfold container_name_check.
  rewrite clean_all_of, !Forall_cons, clean_deny, clean_source_volumes, clean_source_service, Forall_nil.
  cbn [snd]. split; [intros ((? & ? & _) & ?); eauto|]. by intros (? & [= <-] & ? & ? & ?).
Qed.

Lemma validate_compose_file_iff data :
  validate_compose_file (DMap data) (Some (base, workspace)) = Ok (mkValidationResult true []) ↔
  source_confined base workspace data.
Proof.
  unfold validate_compose_file, source_confined.
  destruct (get_or _ "services" data) as [| | | | | |services] eqn:Hservices;
    try (by split; [|intros ((? & ? & _) & _)]).
  rewrite clean_result, clean_all_of, !Forall_cons, (clean_identities _ services), clean_all_of, !Forall_cons
    by done.
  rewrite clean_if_refused, !clean_source_definitions by (done || set_solver).
  rewrite clean_for_each. split.
  - intros ((Hnames & Hvolumes) & Hitems & (? & ? & ? & _) & _). split_and!; try done.
    exists services. split; [done|]. intros name v Hin.
    apply (clean_source_item (name, v)). split; [apply (Hitems _ Hin)|by apply Hnames].
  - intros ((? & [= <-] & Hitems) & ? & ? & ? & ?).
    assert (Hone := λ name v Hin, proj2 (clean_source_item (name, v)) (Hitems name v Hin)).
    split_and!; try done.
    + intros name v Hin. apply (Hone name v Hin).
    + intros [name v] Hin. apply (Hone name v Hin).
Qed.

(** A result is admitted when it has no error. *)
Lemma validate_compose_file_valid content source result :
  validate_compose_file content source = Ok result → valid result = true →
  result = mkValidationResult true [].
Proof.
  unfold validate_compose_file. destruct content; try (by intros [= <-]).
  destruct (get_or _ _ _); try (by intros [= <-]).
  destruct (all_of _) as [es|]; cbn; [|done]. intros [= <-]. unfold result_of. cbn.
  by intros ->%bool_decide_eq_true.
Qed.
End source_checks.

Lemma validate_effective_compose_iff `{PyRepr} `{Filesystem} `{Sha256} data worker_id workspace :
  validate_effective_compose data worker_id workspace = Ok (mkValidationResult true []) ↔
  ∃ m, data = DMap m ∧ project_confined worker_id workspace m.
Proof.
  unfold validate_effective_compose, project_confined.
  destruct data as [| | | | | |data]; try (by split; [|intros (? & [=] & _)]).
  destruct (get "services" data) as [| | | | | |services] eqn:Hservices;
    try (by split; [|intros (? & [= <-] & (? & Hs & _) & _); congruence]).
  destruct services as [|s rest].
  { split; [done|]. intros (? & [= <-] & (? & Hs & Hne & _) & _). congruence. }
  rewrite clean_result. set (services := s :: rest) in *.
  rewrite clean_all_of, !Forall_cons, clean_network, !clean_definitions.
  unfold validate_effective_identities. rewrite Hservices, clean_all_of, !Forall_cons.
  rewrite !clean_for_each. setoid_rewrite clean_all_of. setoid_rewrite Forall_cons. setoid_rewrite Forall_cons.
  split.
  - intros (Hn & Hv & (Hid & Hvn & _) & Hsec & Hconf & Hsvc & _). exists data. split_and!; try done.
    + exists services. split_and!; [done|done|]. intros name v Hin. apply clean_service.
      specialize (Hid _ Hin) as (? & ? & _). auto.
    + by apply clean_volume_names.
  - intros (? & [= <-] & (services' & Heq & _ & Hsvc) & Hn & Hv & Hsec & Hconf).
    rewrite Hservices in Heq. injection Heq as <-.
    apply clean_volume_names in Hv as [Hv Hvn].
    split_and!; try done; intros [name v] Hin; apply Hsvc, clean_service in Hin as (?&?&?); done.
Qed.

Lemma validate_effective_compose_valid `{PyRepr} `{Filesystem} `{Sha256} data worker_id workspace result :
  validate_effective_compose data worker_id workspace = Ok result → valid result = true →
  result = mkValidationResult true [].
Proof.
  unfold validate_effective_compose. destruct data as [| | | | | |data]; try (by intros [= <-]).
  destruct (get "services" data) as [| | | | | |[|]]; try (by intros [= <-]).
  destruct (all_of _) as [es|]; cbn; [|done]. intros [= <-]. unfold result_of. cbn.
  by intros ->%bool_decide_eq_true.
Qed.

(** C4 (equivalence). The validator admits exactly the projects that meet the contract:
    a resolved Compose configuration is admitted without an error if and only if it
    is a mapping whose services, named volumes, networks, secrets and configs are all
    confined to the worker: without privileges or host namespaces, with bounded
    processors and memory, with bind mounts, builds and files inside the workspace,
    on the worker's own network and under the manager's image names. *)
Theorem validator_admits_exactly_the_confined `{PyRepr} `{Filesystem} `{Sha256} data worker_id workspace :
  validate_effective_compose data worker_id workspace = Ok (mkValidationResult true []) ↔
  ∃ m, data = DMap m ∧ project_confined worker_id workspace m.
Proof. apply validate_effective_compose_iff. Qed.
