(* ===== verification/ComposeRunner.v ===== *)
(** * ComposeRunner: how a worker's Compose command is run

    [services/worker-manager/src/compose_runner.py]: a command that creates
    containers is resolved by Docker from the worker's files, which are validated
    first, and what is executed is the resolved project, with the manager's own
    values put in, out of the worker's reach; the other commands read nothing of the
    worker's.  Docker, the file system and the environment are parameters.  What the
    manager keeps is, for each worker, its plan directory. *)

From S2P Require Import Prelude Contracts Docs Paths ComposePolicy ComposeIsolation.
From Stdlib Require Import Ascii.

Definition NETWORK_INJECTION_COMMANDS : list string := ["up"; "run"; "build"].
Definition PLAN_DIRECTORY : string := ".compose-plans".
Definition NETWORK_OVERRIDE_FILENAME : string := ".codegen-network.yml".
Definition DEFAULT_CPU_LIMIT : string := "1.0".
Definition DEFAULT_MEMORY_LIMIT : string := "512MiB".
Definition DEFAULT_COMPOSE_FILES : list string := ["infra/compose.base.yml"; "infra/compose.dev.yml"].
Definition SNAPSHOT_LOADER_DIRECTIVES : list string := ["env_file"; "extends"; "label_file"].
Definition INHERITED_ENV_VARS : list string :=
  ["PATH"; "HOME"; "LANG"; "LC_ALL"; "TZ"; "DOCKER_HOST"; "DOCKER_CONFIG"; "DOCKER_CERT_PATH";
   "DOCKER_TLS_VERIFY"; "DOCKER_BUILDKIT"; "COMPOSE_DOCKER_CLI_BUILD"].

(** ** What is not in the program *)

Record completed := mkCompleted { returncode : Z; stdout : string; stderr : string }.

(** What the manager keeps of a worker: the files of its plan directory. *)
Record plan := mkPlan { override : option string; snapshot : option doc }.
#[export] Instance plan_rebuild : Rebuild plan := λ r, mkPlan (override r) (snapshot r).

(** A command that was started: its arguments, where, with which variables, and the
    plans as they were. *)
Record started := mkStarted {
  st_command : list string; st_cwd : path; st_env : list (string * string); st_plans : gmap string plan }.

Class Host := {
  host_files :: Filesystem;
  is_dir : path → bool;
  is_file : path → bool;
  path_exists : path → bool;
  (** [yaml.safe_load(p.read_text())]: OSError, or ValueError for what is not text or not YAML. *)
  load : path → res doc;
  (** [os.environ.get] *)
  environ : string → option string;
  DOCKER_EXECUTABLE : string;
  (** [subprocess.run]: OSError or TimeoutExpired *)
  docker : started → res completed;
  (** [yaml.safe_load] of an output *)
  parse_output : string → res doc }.

(** ** The command line *)

Definition skips (arg : string) : bool := bool_decide (arg ∈ VALUE_FLAGS).
Definition is_file_flag (arg : string) : bool := bool_decide (arg ∈ ["-f"; "--file"]).

Fixpoint subcommand (args : list string) : option string :=
  match args with
  | [] => None
  | arg :: rest =>
      if skips arg then match rest with [] => None | _ :: rest' => subcommand rest' end
      else if starts_with "-" arg then subcommand rest else Some arg
  end.

Fixpoint without_file_flags (args : list string) : list string :=
  match args with
  | [] => []
  | arg :: rest =>
      if is_file_flag arg then match rest with [] => [] | _ :: rest' => without_file_flags rest' end
      else arg :: without_file_flags rest
  end.

Fixpoint has_global_file_selection (args : list string) : bool :=
  match args with
  | [] => false
  | arg :: rest =>
      if is_file_flag arg then true
      else if skips arg then match rest with [] => false | _ :: rest' => has_global_file_selection rest' end
      else starts_with "-" arg && has_global_file_selection rest
  end.

(** [file_args] and [command_args]: the selected files, wherever they stand, and the rest. *)
Fixpoint take_file_flags (args : list string) : res (list string * list string) :=
  match args with
  | [] => Ok ([], [])
  | arg :: rest =>
      if is_file_flag arg then
        match rest with
        | [] => Exc ValueError
        | file :: rest' => '(files, others) ← take_file_flags rest'; mret (arg :: file :: files, others)
        end
      else '(files, others) ← take_file_flags rest; mret (files, arg :: others)
  end.
(** [[file_args[i + 1] for i in range(0, len(file_args), 2)]] *)
Fixpoint seconds (l : list string) : list string :=
  match l with _ :: x :: l' => x :: seconds l' | _ => [] end.

(** ** What the manager puts in *)

Definition generate_network_override (worker_id : string) : string :=
  "networks:" +:+ "
  default:
    name: dev_proj_" +:+ worker_id +:+ "
    external: true
".

Definition default_limits : doc :=
  DMap [("cpus", DStr DEFAULT_CPU_LIMIT); ("memory", DStr DEFAULT_MEMORY_LIMIT)].
(** [m.setdefault(key, {})]: the mapping, and what is at the key. *)
Definition set_default (key : string) (m : mapping) : mapping * doc :=
  match lookup_key key m with
  | Some v => (m, v)
  | None => (put_key key (DMap []) m, DMap [])
  end.
(** One service: no ports, and limits where there are none. *)
Definition override_service (service : mapping) : mapping :=
  let service := put_key "ports" (DList []) service in
  let '(service, deploy) := set_default "deploy" service in
  match deploy with
  | DMap deploy =>
      let '(deploy, resources) := set_default "resources" deploy in
      match resources with
      | DMap resources =>
          let resources := if is_null (get "limits" resources)
                           then put_key "limits" default_limits resources else resources in
          put_key "deploy" (DMap (put_key "resources" (DMap resources) deploy)) service
      | _ => service
      end
  | _ => service
  end.
Fixpoint override_services (services : mapping) : res mapping :=
  match services with
  | [] => Ok []
  | (name, DMap service) :: rest =>
      rest' ← override_services rest; mret ((name, DMap (override_service service)) :: rest')
  | _ => Exc ValueError
  end.
Definition apply_effective_overrides `{Sha256} (data : mapping) (worker_id : string) : res mapping :=
  match get "services" data with
  | DMap _ =>
      data ← apply_identities data worker_id;
      match get "services" data with
      | DMap services => services' ← override_services services; mret (put_key "services" (DMap services') data)
      | _ => Exc ValueError
      end
  | _ => Exc ValueError
  end.

(** The services of a snapshot retain nothing that a loader reads. *)
Fixpoint snapshot_services (services : mapping) : res unit :=
  match services with
  | [] => Ok tt
  | (_, DMap service) :: rest =>
      if existsb (λ directive, has_key directive service) SNAPSHOT_LOADER_DIRECTIVES then Exc ValueError
      else _ ← assert_permitted_build_shape service; snapshot_services rest
  | _ => Exc ValueError
  end.

(** ** The files a worker's project is loaded from *)

Section sources.
Context `{PyRepr} `{Host} (workspace : path).

(** A source, and the directory its paths are relative to. *)
Abbreviation source_context := (path * path)%type (only parsing).

(** [service["extends"]["file"]], if it is a text. *)
Definition extended_file (service : doc) : option string :=
  match service with
  | DMap m => match get "extends" m with
              | DMap extends => match get "file" extends with DStr file => Some file | _ => None end
              | _ => None
              end
  | _ => None
  end.
Definition extended_files (data : mapping) : list string :=
  match get_or (DMap []) "services" data with
  | DMap services => omap extended_file (snd <$> services)
  | _ => []
  end.

(** [except (OSError, ..., ValueError) as exc: raise ValueError]. *)
Definition as_value_error (e : exn) : exn := if os_or_value_error e then ValueError else e.

Definition visit_extended (visit : path → path → list source_context → res (list source_context))
    (source_base : path) : list string → list source_context → res (list source_context) :=
  fix go files seen :=
    match files with
    | [] => Ok seen
    | file :: files' =>
        target ← resolve (join source_base (path_of file));
        seen ← visit target (parent target) seen;
        go files' seen
    end.

(** [depth] is how deep the interpreter may still recurse. *)
Fixpoint validate_source_tree (depth : nat) (source source_base : path) (seen : list source_context)
    : res (list source_context) :=
  match depth with
  | O => Exc RecursionError
  | S depth =>
      match p ← resolve source; (if is_relative_to p workspace then Ok p else Exc ValueError) with
      | Exc e => Exc (as_value_error e)
      | Ok source =>
          base ← resolve source_base;
          if decide ((source, base) ∈ seen) then Ok seen
          else
            let seen := (source, base) :: seen in
            match content ← load source;
                  result ← validate_compose_file content (Some (source_base, workspace));
                  mret (content, result) with
            | Exc e => Exc (as_value_error e)
            | Ok (content, result) =>
                if negb (valid result) then Exc ValueError
                else match content with
                     | DMap data =>
                         visit_extended (validate_source_tree depth) source_base (extended_files data) seen
                     | _ => Ok seen
                     end
            end
      end
  end.
End sources.

(** ** The manager *)

Record engine := mkEngine {
  plans : gmap string plan;       (** the plan directories, by worker *)
  commands : list started         (** what was started, newest first *)
}.
#[export] Instance engine_rebuild : Rebuild engine := λ r, mkEngine (plans r) (commands r).

Record ComposeInvocation := mkInvocation {
  command : list string;
  config_command : list string;
  cwd : path;
  env : list (string * string);
  source_files : list string;
  workspace_path : path;
  project_directory : path;
  project_name : string;
  snapshot_path : option path;
  inv_worker_id : string;
}.
#[export] Instance ComposeInvocation_rebuild : Rebuild ComposeInvocation := λ r,
  mkInvocation (command r) (config_command r) (cwd r) (env r) (source_files r) (workspace_path r)
    (project_directory r) (project_name r) (snapshot_path r) (inv_worker_id r).

Section runner.
Context `{PyRepr} `{Host} `{Sha256} (workspace_base_path : path) (depth : nat).
Abbreviation Mgr := (M engine).

Definition plan_directory (worker_id : string) : path :=
  join workspace_base_path (join (path_of PLAN_DIRECTORY) (path_of worker_id)).
(** [mkdir(parents=True, exist_ok=True)] *)
Definition make_plan_directory (worker_id : string) : Mgr path :=
  _ ← modify (λ e, e <| plans ::= partial_alter (λ p, Some (default (mkPlan None None) p)) worker_id |>);
  mret (plan_directory worker_id).
Definition write_override (worker_id text : string) : Mgr unit :=
  modify (λ e, e <| plans ::= alter (λ p, p <| override := Some text |>) worker_id |>).
Definition write_plan_snapshot (worker_id : string) (data : mapping) : Mgr unit :=
  modify (λ e, e <| plans ::= alter (λ p, p <| snapshot := Some (DMap data) |>) worker_id |>).

(** [subprocess.run(command, cwd=..., env=...)] *)
Definition start (args : list string) (where_ : path) (vars : list (string * string)) : Mgr completed :=
  plans ← gets plans;
  let s := mkStarted args where_ vars plans in
  _ ← modify (λ e, e <| commands ::= cons s |>);
  of_res (docker s).

Definition docker_env : list (string * string) :=
  omap (λ key, value ← environ key; Some (key, value)) INHERITED_ENV_VARS ++
  [("HOST_UID", "1000"); ("HOST_GID", "1000")].
Definition project_of (worker_id : string) : string := "worker_" +:+ worker_id.
Definition worker_workspace (worker_id : string) (workspace_dir : option string) : path :=
  match workspace_dir with
  | Some dir => if decide (dir = "") then join workspace_base_path (join (path_of worker_id) (path_of "workspace"))
                else path_of dir
  | None => join workspace_base_path (join (path_of worker_id) (path_of "workspace"))
  end.

(** A selected file: in the workspace, and a file. *)
Definition compose_source (effective_cwd workspace : path) (compose_file : string) : res path :=
  match p ← resolve (join effective_cwd (path_of compose_file));
        (if is_relative_to p workspace then Ok p else Exc ValueError) with
  | Exc e => Exc (as_value_error e)
  | Ok source => if is_file source then Ok source else Exc ValueError
  end.

Definition prepare_invocation (worker_id : string) (args : list string) (dir : string)
    (caller_env : option (list (string * string))) (workspace_dir : option string) : Mgr ComposeInvocation :=
  _ ← guard_not (negb (valid (validate_command args))) ValueError;
  let worker_workspace := worker_workspace worker_id workspace_dir in
  _ ← guard_not (negb (is_dir worker_workspace)) ValueError;
  workspace ← of_res (resolve worker_workspace);
  effective_cwd ← of_res (resolve (join worker_workspace (path_of dir)));
  _ ← guard_not (negb (is_relative_to effective_cwd workspace)) ValueError;
  _ ← guard_not (negb (is_dir effective_cwd)) ValueError;
  plan_directory ← make_plan_directory worker_id;
  '(file_args, command_args) ← of_res (take_file_flags args);
  let source_files := match file_args with [] => DEFAULT_COMPOSE_FILES | _ => seconds file_args end in
  let default_file_args := match file_args with [] => flat_map (λ f, ["-f"; f]) DEFAULT_COMPOSE_FILES | _ => [] end in
  compose_sources ← map_m (λ f, of_res (compose_source effective_cwd workspace f)) source_files;
  project_directory ← some_or IndexError (parent <$> head compose_sources);
  let override_path := join plan_directory (path_of NETWORK_OVERRIDE_FILENAME) in
  network_args ←
    (if match subcommand args with Some s => bool_decide (s ∈ NETWORK_INJECTION_COMMANDS) | None => false end then
       _ ← write_override worker_id (generate_network_override worker_id);
       _ ← map_m (λ source, of_res (validate_source_tree workspace depth source project_directory [])) compose_sources;
       mret ["-f"; path_str override_path]
     else mret []);
  let dot_env := join workspace (path_of ".env") in
  let env_file_args := if path_exists dot_env then ["--env-file"; path_str dot_env] else [] in
  let prefix := [DOCKER_EXECUTABLE; "compose"; "--project-name"; project_of worker_id;
                 "--project-directory"; path_str project_directory] ++
                env_file_args ++ file_args ++ default_file_args ++ network_args in
  _ ← guard_not (match caller_env with Some (_ :: _) => true | _ => false end) ValueError;
  mret (mkInvocation (prefix ++ command_args) (prefix ++ ["config"; "--format"; "json"]) effective_cwd docker_env
    source_files workspace project_directory (project_of worker_id)
    (Some (join plan_directory (path_of "compose.resolved.yml"))) worker_id).

Definition prepare_recovery_invocation (worker_id : string) (args : list string) (workspace_dir : option string)
    : Mgr ComposeInvocation :=
  _ ← guard_not (negb (valid (validate_command args))) ValueError;
  _ ← guard_not (has_global_file_selection args) ValueError;
  let workspace := worker_workspace worker_id workspace_dir in
  _ ← guard_not (negb (is_dir workspace)) ValueError;
  plan_directory ← make_plan_directory worker_id;
  workspace_path ← of_res (resolve workspace);
  mret (mkInvocation
    ([DOCKER_EXECUTABLE; "compose"; "--project-name"; project_of worker_id;
      "--project-directory"; path_str plan_directory] ++ args)
    [] plan_directory docker_env [] workspace_path plan_directory (project_of worker_id) None "").

(** [_write_snapshot] *)
Definition write_snapshot (invocation : ComposeInvocation) (data : mapping) (command_args : list string)
    : Mgr ComposeInvocation :=
  match get "services" data with
  | DMap services =>
      _ ← of_res (snapshot_services services);
      _ ← of_res (assert_snapshot data (inv_worker_id invocation));
      plan_snapshot ← some_or ValueError (snapshot_path invocation);
      let resolved_path := join (parent plan_snapshot) (path_of "compose.resolved.yml") in
      _ ← write_plan_snapshot (inv_worker_id invocation) data;
      mret (invocation <| command := [DOCKER_EXECUTABLE; "compose"; "--project-name"; project_name invocation;
                                      "--project-directory"; path_str (project_directory invocation);
                                      "-f"; path_str resolved_path] ++ command_args |>
                       <| snapshot_path := Some resolved_path |>)
  | _ => raise ValueError
  end.

Definition creates_containers (args : list string) : bool :=
  match subcommand args with Some s => bool_decide (s ∈ CONTAINER_CREATING_COMMANDS) | None => false end.

Definition inspect (worker_id : string) (args : list string) (dir : string)
    (caller_env : option (list (string * string))) (workspace_dir : option string)
    : Mgr (mapping * ComposeInvocation) :=
  invocation ← prepare_invocation worker_id args dir caller_env workspace_dir;
  result ← catch (start (config_command invocation) (cwd invocation) (env invocation))
    (λ e, raise (if bool_decide (e ∈ [TimeoutExpired; OSError]) then ValueError else e));
  _ ← guard_not (negb (returncode result =? 0)) ValueError;
  parsed ← of_res (parse_output (stdout result));
  match parsed with
  | DMap data =>
      if creates_containers args then
        data ← of_res (apply_effective_overrides data worker_id);
        policy_result ← of_res (validate_effective_compose (DMap data) worker_id (Some (workspace_path invocation)));
        _ ← guard_not (negb (valid policy_result)) ValueError;
        invocation ← write_snapshot invocation data (without_file_flags args);
        mret (data, invocation)
      else mret (data, invocation)
  | _ => raise ValueError
  end.

Definition run (worker_id : string) (args : list string) (dir : string)
    (caller_env : option (list (string * string))) (workspace_dir : option string)
    (prepared : option ComposeInvocation) : Mgr completed :=
  invocation ←
    (if creates_containers args then
       match prepared with
       | None => '(_, invocation) ← inspect worker_id args dir caller_env workspace_dir; mret invocation
       | Some invocation => mret invocation
       end
     else prepare_recovery_invocation worker_id args workspace_dir);
  result ← catch (start (command invocation) (cwd invocation) (env invocation))
    (λ e, raise (if bool_decide (e = TimeoutExpired) then ValueError else e));
  _ ← (if bool_decide (subcommand args = Some "down") then modify (λ e, e <| plans ::= delete worker_id |>)
       else mret tt);
  mret result.
End runner.

(** ** The grammar of an accepted command *)

(** Arguments of a subcommand: words, its own flags, and its flags with a value. *)
Inductive safe_arguments (subcommand : string) : list string → Prop :=
| safe_nil : safe_arguments subcommand []
| safe_word word rest :
    starts_with "-" word = false → safe_arguments subcommand rest → safe_arguments subcommand (word :: rest)
| safe_flag flag rest :
    flag ∈ SAFE_COMMAND_FLAGS subcommand → safe_arguments subcommand rest →
    safe_arguments subcommand (flag :: rest)
| safe_value flag value rest :
    flag ∈ SAFE_VALUE_COMMAND_FLAGS subcommand → starts_with "-" value = false →
    safe_arguments subcommand rest → safe_arguments subcommand (flag :: value :: rest)
| safe_assignment arg flag rest :
    flag ∈ SAFE_VALUE_COMMAND_FLAGS subcommand → starts_with (flag +:+ "=") arg = true →
    safe_arguments subcommand rest → safe_arguments subcommand (arg :: rest).

(** [-f file] or [--file file], for each file selected. *)
Definition selection (files : list (string * string)) : list string :=
  flat_map (λ p, [p.1; p.2]) files.
Definition selected (files : list (string * string)) : Prop :=
  ∀ flag file, (flag, file) ∈ files → flag ∈ GLOBAL_FILE_FLAGS ∧ starts_with "-" file = false.

Definition accepted_command (args : list string) (files : list (string * string)) (sub : string)
    (rest : list string) : Prop :=
  args = selection files ++ sub :: rest ∧ selected files ∧
  starts_with "-" sub = false ∧ sub ∈ ALLOWED_COMMANDS ∧ safe_arguments sub rest.

Lemma selected_cons flag file files :
  selected ((flag, file) :: files) ↔ (flag ∈ GLOBAL_FILE_FLAGS ∧ starts_with "-" file = false) ∧ selected files.
Proof.
  unfold selected. split.
  - intros Hs. split; [apply Hs; left|]. intros ?? Hin. apply Hs. by right.
  - intros [? Hs] ?? [[= -> ->]|Hin]%elem_of_cons; [done|by apply Hs].
Qed.
Lemma selected_nil : selected [].
Proof. by intros ?? ?%not_elem_of_nil. Qed.

Lemma flags_are_dashed sub flag :
  flag ∈ SAFE_COMMAND_FLAGS sub ++ SAFE_VALUE_COMMAND_FLAGS sub → starts_with "-" flag = true.
Proof.
  unfold SAFE_COMMAND_FLAGS, SAFE_VALUE_COMMAND_FLAGS. intros Hf.
  repeat case_decide; subst; set_solver.
Qed.
Lemma dashed s : starts_with "-" s = true ↔ ∃ r, s = String "-" r.
Proof.
  destruct s as [|c s]; unfold starts_with; cbn [String.prefix]; [naive_solver|].
  destruct (ascii_dec "-" c) as [<-|Hc].
  - split; [eauto|]. by destruct s.
  - split; [done|]. intros (? & [= -> _]). done.
Qed.
Lemma assigned_is_dashed flag arg :
  starts_with "-" flag = true → starts_with (flag +:+ "=") arg = true → starts_with "-" arg = true.
Proof.
  intros [r ->]%dashed. destruct arg as [|c arg]; [done|]. rewrite dashed. unfold starts_with.
  change (String "-" r +:+ "=") with (String "-" (r +:+ "=")). cbn [String.prefix].
  destruct (ascii_dec "-" c) as [<-|?]; [eauto|done].
Qed.

#[local] Arguments starts_with : simpl never.

(** Two arguments at a time. *)
Lemma args_ind (P : list string → Prop) :
  P [] → (∀ a, P [a]) → (∀ a b l, P (b :: l) → P l → P (a :: b :: l)) → ∀ l, P l.
Proof.
  intros H0 H1 H2 l. assert (P l ∧ ∀ a, P (a :: l)) as [? _]; [|done].
  induction l as [|b l [? ?]]; split; auto.
Qed.

Lemma not_an_assignment sub f g :
  f ∈ SAFE_VALUE_COMMAND_FLAGS sub → g ∈ SAFE_VALUE_COMMAND_FLAGS sub → starts_with (f +:+ "=") g = false.
Proof.
  unfold SAFE_VALUE_COMMAND_FLAGS. intros Hf Hg.
  repeat case_decide; subst; try by apply not_elem_of_nil in Hf.
  all: repeat (apply elem_of_cons in Hf as [->|Hf]); try by apply not_elem_of_nil in Hf.
  all: repeat (apply elem_of_cons in Hg as [->|Hg]); try by apply not_elem_of_nil in Hg.
  all: by vm_compute.
Qed.

Lemma safe_command_flags sub rest : safe_arguments sub rest → command_flags sub rest = [].
Proof.
  assert (∀ f, f ∈ SAFE_COMMAND_FLAGS sub → starts_with "-" f = true) as Hflag.
  { intros f ?. apply (flags_are_dashed sub). set_solver. }
  assert (∀ f, f ∈ SAFE_VALUE_COMMAND_FLAGS sub → starts_with "-" f = true) as Hvalue.
  { intros f ?. apply (flags_are_dashed sub). set_solver. }
  induction 1 as [|word rest Hw _ IH|f rest Hf _ IH|f v rest Hf Hv _ IH|arg f rest Hf Ha _ IH];
    cbn [command_flags]; [done|..].
  - by rewrite Hw.
  - by rewrite (Hflag f Hf), bool_decide_true by done.
  - rewrite (Hvalue f Hf), Hv. cbn. rewrite (bool_decide_true (f ∈ SAFE_VALUE_COMMAND_FLAGS sub)) by done.
    by case_match.
  - rewrite (assigned_is_dashed f) by eauto. cbn. case_match; [done|].
    rewrite bool_decide_false by (intros Hin; by rewrite (not_an_assignment sub f) in Ha).
    assert (existsb (λ flag, starts_with (flag +:+ "=") arg) (SAFE_VALUE_COMMAND_FLAGS sub) = true) as ->; [|done].
    apply existsb_exists. exists f. by rewrite <-list_elem_of_In.
Qed.
Lemma command_flags_safe sub rest : command_flags sub rest = [] → safe_arguments sub rest.
Proof.
  induction rest as [|a|a b l IH1 IH2] using args_ind; [constructor|..]; cbn [command_flags];
    destruct (starts_with "-" a) eqn:Ha; cbn [negb]; try (intros; apply safe_word; by auto using safe_nil).
  all: case_bool_decide as Hf; [intros; apply safe_flag; by auto using safe_nil|].
  all: case_bool_decide as Hv; [|destruct (existsb (λ flag, starts_with (flag +:+ "=") a) _) eqn:He; [|by destruct (existsb _ _)]].
  all: try (apply existsb_exists in He as (f & ?%list_elem_of_In & ?); intros;
            apply (safe_assignment _ _ f); by auto using safe_nil).
  - done.
  - destruct (starts_with "-" b) eqn:Hb; [done|]. intros. apply safe_value; auto.
Qed.

Lemma global_flags_sound args sub rest :
  global_flags args = ([], Some (sub, rest)) →
  ∃ files, args = selection files ++ sub :: rest ∧ selected files ∧ starts_with "-" sub = false.
Proof.
  induction args as [|a|a b l IH1 IH2] using args_ind; [done|..]; cbn [global_flags].
  all: case_bool_decide as Hf; [try done|].
  all: destruct (starts_with "-" a) eqn:Ha; try (repeat case_match; by intros [=]).
  - intros [= <- <-]. exists []. by auto using selected_nil.
  - destruct (starts_with "-" b) eqn:Hb; [done|]. intros (files & -> & ? & ?)%IH2.
    exists ((a, b) :: files). by rewrite selected_cons.
  - destruct (starts_with "-" b) eqn:Hb; [done|]. intros (files & -> & ? & ?)%IH2.
    exists ((a, b) :: files). by rewrite selected_cons.
  - intros [= <- <-]. exists []. by auto using selected_nil.
Qed.
Lemma global_flags_complete files sub rest :
  selected files → starts_with "-" sub = false →
  global_flags (selection files ++ sub :: rest) = ([], Some (sub, rest)).
Proof.
  intros Hfiles Hsub. induction files as [|[flag file] files IH]; cbn.
  - rewrite bool_decide_false, Hsub; [done|]. intros Hin. set_unfold in Hin. naive_solver.
  - apply selected_cons in Hfiles as [[Hflag Hfile] ?]. rewrite bool_decide_true, Hfile by done. auto.
Qed.

Lemma accepted_command_iff args :
  validate_command args = mkValidationResult true [] ↔ ∃ files sub rest, accepted_command args files sub rest.
Proof.
  unfold validate_command, accepted_command. split.
  - destruct (global_flags args) as [es [[sub rest]|]] eqn:Hg; [|done].
    case_bool_decide as Hsub; [|done]. unfold result_of. intros [= _ [-> Hrest]%app_eq_nil].
    apply global_flags_sound in Hg as (files & ? & ? & ?). exists files, sub, rest.
    split_and!; auto using command_flags_safe.
  - intros (files & sub & rest & -> & ? & ? & ? & ?). rewrite global_flags_complete by done.
    rewrite bool_decide_true by done. cbn. by rewrite safe_command_flags.
Qed.
Lemma valid_command args : valid (validate_command args) = true ↔ validate_command args = mkValidationResult true [].
Proof.
  split; [|by intros ->]. unfold validate_command. destruct (global_flags args) as [es [[sub rest]|]]; [|done].
  case_bool_decide; [|done]. unfold result_of. cbn. by intros ->%bool_decide_eq_true.
Qed.

(** ** The runner reads an accepted command as the validator did *)

Lemma file_flag_eq flag : flag ∈ GLOBAL_FILE_FLAGS → is_file_flag flag = true ∧ skips flag = true.
Proof. intros [->|[->|?%not_elem_of_nil]%elem_of_cons]%elem_of_cons; done. Qed.
Lemma not_a_file_flag arg : starts_with "-" arg = false → is_file_flag arg = false ∧ skips arg = false.
Proof.
  intros Ha. split; apply bool_decide_eq_false; intros Hin; cut (starts_with "-" arg = true); try congruence.
  all: unfold VALUE_FLAGS in Hin; repeat (apply elem_of_cons in Hin as [->|Hin]; [done|]).
  all: by apply not_elem_of_nil in Hin.
Qed.

Lemma subcommand_accepted files sub rest :
  selected files → starts_with "-" sub = false → subcommand (selection files ++ sub :: rest) = Some sub.
Proof.
  intros Hfiles Hsub. induction files as [|[flag file] files IH]; cbn.
  - destruct (not_a_file_flag sub) as [_ ->]; [done|]. by rewrite Hsub.
  - apply selected_cons in Hfiles as [[Hflag _] ?]. destruct (file_flag_eq flag) as [_ ->]; auto.
Qed.
Lemma selection_seen files sub rest :
  selected files → starts_with "-" sub = false →
  has_global_file_selection (selection files ++ sub :: rest) = negb (bool_decide (files = [])).
Proof.
  intros Hfiles Hsub. destruct files as [|[flag file] files]; cbn.
  - destruct (not_a_file_flag sub) as [-> ->]; [done|]. by rewrite Hsub.
  - apply selected_cons in Hfiles as [[Hflag _] ?]. by destruct (file_flag_eq flag) as [-> _].
Qed.

(** Where the subcommand itself has no flag [-f]. *)
Lemma without_flags_safe sub rest :
  sub ∈ CONTAINER_CREATING_COMMANDS → safe_arguments sub rest → ∀ arg, arg ∈ rest → is_file_flag arg = false.
Proof.
  intros Hsub Hrest.
  assert (∀ f, f ∈ SAFE_COMMAND_FLAGS sub ++ SAFE_VALUE_COMMAND_FLAGS sub → is_file_flag f = false) as Hsafe.
  { intros f Hf. apply bool_decide_eq_false. intros Hin. 
    repeat (apply elem_of_cons in Hsub as [->|Hsub]; [set_solver|]). by apply not_elem_of_nil in Hsub. }
  assert (∀ f arg, f ∈ SAFE_VALUE_COMMAND_FLAGS sub → starts_with (f +:+ "=") arg = true → is_file_flag arg = false)
    as Hassign.
  { intros f arg Hf Ha. apply bool_decide_eq_false. intros Hin.
    repeat (apply elem_of_cons in Hsub as [->|Hsub]; [unfold SAFE_VALUE_COMMAND_FLAGS in Hf; cbn in Hf|]);
      try by apply not_elem_of_nil in Hsub.
    all: repeat (apply elem_of_cons in Hf as [->|Hf]); try by apply not_elem_of_nil in Hf.
    all: repeat (apply elem_of_cons in Hin as [->|Hin]); try by apply not_elem_of_nil in Hin.
    all: by vm_compute in Ha. }
  induction Hrest; intros x; rewrite ?elem_of_cons; intros Hx; destruct_or?; subst; eauto.
  - by apply not_elem_of_nil in Hx.
  - by apply not_a_file_flag.
  - apply Hsafe. set_solver.
  - apply Hsafe. set_solver.
  - by apply not_a_file_flag.
Qed.
Lemma without_no_flags l : (∀ arg, arg ∈ l → is_file_flag arg = false) → without_file_flags l = l ∧ take_file_flags l = Ok ([], l).
Proof.
  induction l as [|a l IH]; [done|]. intros Hl. cbn. rewrite (Hl a) by left.
  destruct IH as [-> ->]; [|done]. intros ??. apply Hl. by right.
Qed.
Lemma without_selection files l : selected files → without_file_flags (selection files ++ l) = without_file_flags l.
Proof.
  induction files as [|[flag file] files IH]; [done|]. intros [[Hflag _] ?]%selected_cons. cbn.
  destruct (file_flag_eq flag) as [-> _]; auto.
Qed.
Lemma take_selection files l others :
  selected files → take_file_flags l = Ok ([], others) → take_file_flags (selection files ++ l) = Ok (selection files, others).
Proof.
  intros Hfiles Hl. induction files as [|[flag file] files IH]; [done|].
  apply selected_cons in Hfiles as [[Hflag _] ?]. cbn. destruct (file_flag_eq flag) as [-> _]; [done|].
  specialize (IH ltac:(done)). unfold selection in IH. by rewrite IH.
Qed.
Lemma seconds_selection files : seconds (selection files) = snd <$> files.
Proof. induction files as [|[] files IH]; cbn; [done|]. by f_equal. Qed.

Lemma accepted_command_read args :
  valid (validate_command args) = true →
  ∃ files sub rest,
    accepted_command args files sub rest ∧ subcommand args = Some sub ∧
    has_global_file_selection args = negb (bool_decide (files = [])) ∧
    (sub ∈ CONTAINER_CREATING_COMMANDS →
       without_file_flags args = sub :: rest ∧
       take_file_flags args = Ok (selection files, sub :: rest) ∧ seconds (selection files) = snd <$> files).
Proof.
  intros (files & sub & rest & Hargs)%valid_command%accepted_command_iff.
  exists files, sub, rest. split; [done|]. destruct Hargs as (-> & Hfiles & Hsub & _ & Hrest).
  split; [by apply subcommand_accepted|]. split; [by apply selection_seen|]. intros Hcreates.
  destruct (without_no_flags (sub :: rest)) as [Hwithout Htake].
  { intros arg [->|Hin]%elem_of_cons; [by apply not_a_file_flag|]. by eapply without_flags_safe. }
  rewrite without_selection by done. auto using take_selection, seconds_selection.
Qed.

(** C22 (refinement). The validator and the runner read a command the same way.  An
    accepted command is a selection of Compose files, an allowed subcommand, and
    words and flags that the subcommand allows; the runner then finds that
    subcommand and, for one that creates containers, executes that subcommand with
    those arguments and nothing else, on the selected files. *)
Theorem accepted_commands_run_as_validated args :
  valid (validate_command args) = true →
  ∃ files sub rest,
    accepted_command args files sub rest ∧ subcommand args = Some sub ∧
    has_global_file_selection args = negb (bool_decide (files = [])) ∧
    (sub ∈ CONTAINER_CREATING_COMMANDS →
       without_file_flags args = sub :: rest ∧
       take_file_flags args = Ok (selection files, sub :: rest) ∧ seconds (selection files) = snd <$> files).
Proof. apply accepted_command_read. Qed.
