(* ===== verification/ComposeSafety.v ===== *)
(** * ComposeSafety: what the runner guarantees of the commands it starts

    The walk over a worker's source files ends and reaches every file Compose will
    load; what is executed for a command that creates containers is a project the
    policy confines; the other commands read no file of the worker's. *)

From S2P Require Import Prelude Contracts Docs Paths ComposePolicy ComposeIsolation ComposeRunner.

(** ** What the walk relies on of the file system and the loader *)

Class HostLaws `{Host} := {
  (** A path under a directory is resolved as under the resolved directory. *)
  resolve_join p p' q : resolve p = Ok p' → resolve (join p q) = resolve (join p' q);
  resolve_returns p : resolve p ≠ Exc RecursionError;
  load_returns p : load p ≠ Exc RecursionError }.

Lemma join_here p : join p (path_of "") = p.
Proof. destruct p. unfold join. cbn. by rewrite app_nil_r. Qed.
(** What is resolved stays. *)
Lemma resolve_resolved `{HostLaws} p p' : resolve p = Ok p' → resolve p' = Ok p'.
Proof. intros Hp. pose proof (resolve_join p p' (path_of "") Hp) as Hq. rewrite !join_here in Hq. congruence. Qed.

(** Two directories that paths are resolved under alike. *)
Definition same_place `{Filesystem} (b b' : path) : Prop := ∀ q, resolve (join b q) = resolve (join b' q).
#[export] Instance same_place_equivalence `{Filesystem} : Equivalence same_place.
Proof. split; [by intros ??|by intros ????|]. intros ??? Hxy Hyz q. by rewrite Hxy. Qed.
Lemma resolved_place `{HostLaws} b b' : resolve b = Ok b' → same_place b b'.
Proof. intros Hb q. by apply resolve_join. Qed.

(** ** The checks of a source depend on the place of its directory only *)

Section place.
Context `{PyRepr} `{Filesystem}.

#[local] Instance literal_path_place w : Proper (same_place ==> pointwise_relation _ iff) (λ b, literal_path b w).
Proof.
  intros b b' Hb v. unfold literal_path. do 2 f_equiv. do 3 f_equiv. unfold under. do 4 f_equiv. by rewrite Hb.
Qed.
#[local] Instance if_declared_proper m key : Proper (pointwise_relation _ iff ==> iff) (if_declared m key).
Proof. intros P Q HPQ. unfold if_declared. by setoid_rewrite HPQ. Qed.
Lemma source_build_place b b' w config :
  same_place b b' → source_build_confined b w config ↔ source_build_confined b' w config.
Proof.
  intros Hb. assert (∀ v, literal_path b w v ↔ literal_path b' w v) as Hlit by (by apply literal_path_place).
  unfold source_build_confined, if_declared. destruct (get "build" config); try apply Hlit; [done|].
  by repeat setoid_rewrite Hlit.
Qed.
Lemma source_confined_place b b' w data : same_place b b' → source_confined b w data ↔ source_confined b' w data.
Proof.
  intros Hb.
  assert (∀ v, literal_path b w v ↔ literal_path b' w v) as Hlit by (by apply literal_path_place).
  unfold source_confined, source_service_confined, source_definitions_confined, if_declared, literal_paths.
  setoid_rewrite (λ config, source_build_place b b' w config Hb). by repeat setoid_rewrite Hlit.
Qed.
End place.

(** ** The files Compose loads *)

Section walk.
Context `{PyRepr} `{HostLaws} (workspace : path).
Abbreviation source_context := (path * path)%type (only parsing).

(** The source, with the directory of its paths, extends another. *)
Inductive extends_to : source_context → source_context → Prop :=
| extends_to_file p b data file t b' :
    load p = Ok (DMap data) → file ∈ extended_files data →
    resolve (join b (path_of file)) = Ok t → resolve (parent t) = Ok b' →
    extends_to (p, b) (t, b').

(** The files loaded for a project whose source is [source]. *)
Inductive loaded (source base : path) : source_context → Prop :=
| loaded_source p b : resolve source = Ok p → resolve base = Ok b → loaded source base (p, b)
| loaded_extended c c' : loaded source base c → extends_to c c' → loaded source base c'.

Definition admissible (c : source_context) : Prop :=
  is_relative_to c.1 workspace = true ∧ ∃ data, load c.1 = Ok (DMap data) ∧ source_confined c.2 workspace data.

(** What was seen is checked, and what it extends was seen, but for what is still open. *)
Definition walked (opened seen : list source_context) : Prop :=
  ∀ c, c ∈ seen → c ∈ opened ∨ (admissible c ∧ ∀ c', extends_to c c' → c' ∈ seen).

Lemma walked_trans s1 s2 s3 : s2 ⊆ s3 → walked s1 s2 → walked s2 s3 → walked s1 s3.
Proof.
  intros Hsub H12 H23 c Hc. destruct (H23 c Hc) as [Hc2|?]; [|by right].
  destruct (H12 c Hc2) as [?|[Ha Hsucc]]; [by left|]. right. split; [done|]. intros c' Hc'. by apply Hsub, Hsucc.
Qed.
Lemma walked_refl s : walked s s.
Proof. by left. Qed.

(** One call: it only adds, it adds its own context, and it walks what it adds. *)
Definition visits (visit : path → path → list source_context → res (list source_context)) : Prop :=
  ∀ source base seen seen', visit source base seen = Ok seen' →
    seen ⊆ seen' ∧ walked seen seen' ∧
    ∃ p b, resolve source = Ok p ∧ resolve base = Ok b ∧ (p, b) ∈ seen'.

Lemma visit_extended_visits visit base files seen seen' :
  visits visit → visit_extended visit base files seen = Ok seen' →
  seen ⊆ seen' ∧ walked seen seen' ∧
  ∀ file t, file ∈ files → resolve (join base (path_of file)) = Ok t →
    ∃ b, resolve (parent t) = Ok b ∧ (t, b) ∈ seen'.
Proof.
  intros Hvisit. revert seen. induction files as [|file files IH]; intros seen; cbn.
  - intros [= <-]. split_and!; [done|apply walked_refl|]. by intros ?? ?%not_elem_of_nil.
  - destruct (resolve (join base (path_of file))) as [t|] eqn:Ht; cbn; [|done].
    destruct (visit t (parent t) seen) as [seen1|] eqn:Hs1; cbn; [|done]. intros Hs2.
    apply Hvisit in Hs1 as (Hsub1 & Hwalk1 & p & b & Hp & Hb & Hin).
    apply IH in Hs2 as (Hsub2 & Hwalk2 & Hfiles). split_and!.
    + set_solver.
    + by eapply walked_trans.
    + intros file' t' [->|?]%elem_of_cons Ht'; [|by eapply Hfiles].
      assert (t' = t) as -> by congruence. apply resolve_resolved in Ht. assert (p = t) as -> by congruence.
      exists b. auto.
Qed.

(** The context of a source that is loaded and whose directives are checked. *)
Lemma admissible_source p b base content result :
  load p = Ok content → validate_compose_file content (Some (base, workspace)) = Ok result →
  valid result = true → resolve base = Ok b → is_relative_to p workspace = true →
  ∃ data, content = DMap data ∧ admissible (p, b).
Proof.
  intros Hload Hval Hvalid Hb Hin.
  destruct content as [| | | | | |data]; try (injection Hval as <-; done).
  exists data. split; [done|]. split; [done|]. exists data. split; [done|].
  apply (source_confined_place base); [by apply resolved_place|].
  apply validate_compose_file_iff. by rewrite (validate_compose_file_valid _ _ _ Hval Hvalid) in Hval.
Qed.

(** What one call does with a source it has not seen. *)
Lemma validate_source_tree_fresh depth source base seen seen' p b :
  resolve source = Ok p → resolve base = Ok b → (p, b) ∉ seen →
  validate_source_tree workspace (S depth) source base seen = Ok seen' →
  admissible (p, b) ∧ ∃ data, load p = Ok (DMap data) ∧
    visit_extended (validate_source_tree workspace depth) base (extended_files data) ((p, b) :: seen) = Ok seen'.
Proof.
  intros Hp Hb Hnew. cbn [validate_source_tree]. rewrite Hp. cbn.
  destruct (is_relative_to p workspace) eqn:Hin; [|done]. rewrite Hb. cbn. rewrite decide_False by done.
  destruct (load p) as [content|] eqn:Hload; cbn; [|done].
  destruct (validate_compose_file content _) as [result|] eqn:Hval; cbn; [|done].
  destruct (valid result) eqn:Hvalid; [|done].
  destruct (admissible_source p b base content result) as (data & -> & Hadm); try done. cbn. eauto.
Qed.
Lemma validate_source_tree_resolves depth source base seen seen' :
  validate_source_tree workspace depth source base seen = Ok seen' →
  ∃ p b, resolve source = Ok p ∧ resolve base = Ok b.
Proof.
  destruct depth as [|depth]; [done|]. cbn. destruct (resolve source) as [p|]; cbn; [|done].
  destruct (is_relative_to p workspace); [|done]. destruct (resolve base) as [b|]; cbn; [|done]. eauto.
Qed.
Lemma validate_source_tree_seen depth source base seen p b :
  resolve source = Ok p → resolve base = Ok b → (p, b) ∈ seen → is_relative_to p workspace = true →
  validate_source_tree workspace (S depth) source base seen = Ok seen.
Proof. intros Hp Hb Hin Hw. cbn. rewrite Hp. cbn. rewrite Hw, Hb. cbn. by rewrite decide_True. Qed.

Lemma tree_visits depth : visits (validate_source_tree workspace depth).
Proof.
  induction depth as [|depth IH]; intros source base seen seen' Hrun; [done|].
  destruct (validate_source_tree_resolves _ _ _ _ _ Hrun) as (p & b & Hp & Hb).
  destruct (decide ((p, b) ∈ seen)) as [Hin|Hnew].
  - assert (seen' = seen) as ->.
    { revert Hrun. cbn [validate_source_tree]. rewrite Hp. cbn. destruct (is_relative_to _ _); [|done].
      rewrite Hb. cbn. rewrite decide_True by done. by intros [= <-]. }
    split_and!; [done|apply walked_refl|eauto].
  - destruct (validate_source_tree_fresh _ _ _ _ _ _ _ Hp Hb Hnew Hrun) as (Hadm & data & Hload & Hvisit).
    apply visit_extended_visits in Hvisit as (Hsub & Hwalk & Hfiles); [|done].
    split_and!; [set_solver| |exists p, b; set_solver].
    intros c Hc. destruct (Hwalk c Hc) as [[->|?]%elem_of_cons|?]; [|by left|by right].
    right. split; [done|]. inversion 1; subst.
    assert (data0 = data) as -> by congruence.
    edestruct Hfiles as (b'' & Hb'' & Hin); [done| |].
    { by rewrite (resolved_place base b Hb). }
    by assert (b'' = b') as -> by congruence.
Qed.

Lemma loaded_walked source base seen c :
  walked [] seen → (∀ p b, resolve source = Ok p → resolve base = Ok b → (p, b) ∈ seen) →
  loaded source base c → c ∈ seen ∧ admissible c.
Proof.
  intros Hwalk Hroot. assert (∀ c, c ∈ seen → admissible c ∧ ∀ c', extends_to c c' → c' ∈ seen) as Hall.
  { intros c' Hc'. by destruct (Hwalk c' Hc') as [?%not_elem_of_nil|]. }
  induction 1 as [p b Hp Hb|c c' _ [Hc _] Hcc']; [|apply Hall in Hc as [_ Hsucc]];
    (split; [|apply Hall]); eauto.
Qed.
End walk.

(** C5 (safety). A validated source tree is everything Compose loads.  When the walk over
    a project's sources accepts, then every file that Compose reaches from the source,
    by whatever chain of [extends], lies in the workspace, is a readable mapping, and
    names only literal paths of the workspace relative to the directory Compose
    resolves its paths from. *)
Theorem accepted_tree_is_confined `{PyRepr} `{HostLaws} workspace depth source base seen p b :
  validate_source_tree workspace depth source base [] = Ok seen →
  loaded source base (p, b) →
  is_relative_to p workspace = true ∧ ∃ data, load p = Ok (DMap data) ∧ source_confined b workspace data.
Proof.
  intros Hrun Hloaded. apply tree_visits in Hrun as (_ & Hwalk & p0 & b0 & Hp0 & Hb0 & Hin).
  apply (loaded_walked workspace source base seen (p, b)); [done| |done].
  intros p' b' Hp' Hb'. assert (p' = p0) as -> by congruence. by assert (b' = b0) as -> by congruence.
Qed.

(** ** The walk ends *)

(** No check runs into the depth of the interpreter's stack. *)
Definition returns {A} (r : res A) : Prop := r ≠ Exc RecursionError.

Lemma returns_ok {A} (a : A) : returns (Ok a).
Proof. done. Qed.
Lemma returns_deny b e : returns (deny b e).
Proof. done. Qed.
Lemma returns_bind {A B} (r : res A) (f : A → res B) : returns r → (∀ a, returns (f a)) → returns (r ≫= f).
Proof. unfold returns. destruct r; cbn; [auto|congruence]. Qed.
Lemma returns_all_of l : Forall returns l → returns (all_of l).
Proof.
  induction 1 as [|c l Hc _ IH]; [done|]. cbn. apply returns_bind; [done|]. intros es.
  by apply returns_bind.
Qed.
Lemma returns_for_each {A} (l : list A) f : (∀ x, returns (f x)) → returns (for_each l f).
Proof. intros Hf. apply returns_all_of, Forall_fmap, Forall_forall. intros x _. apply Hf. Qed.
Create HintDb returns.
#[export] Hint Resolve returns_ok returns_deny returns_bind returns_all_of returns_for_each Forall_nil_2 Forall_cons_2
  : returns.
Ltac returns := repeat (case_match; try done); eauto 20 with returns.

Section ends.
Context `{PyRepr} `{HostLaws} (workspace : path).

Lemma returns_under p w : returns (resolves_under p w).
Proof.
  unfold resolves_under, returns. pose proof (resolve_returns p). pose proof (resolve_returns w).
  destruct (resolve p); cbn; [destruct (resolve w); cbn; [done|]|]; destruct (os_or_value_error _); congruence.
Qed.
#[local] Hint Resolve returns_under : returns.
Lemma returns_source_path base v label : returns (source_path base workspace v label).
Proof. unfold source_path. returns. Qed.
#[local] Hint Resolve returns_source_path : returns.
Lemma returns_admit base directive v label multiple :
  returns (admit_source_directive base workspace directive v label multiple).
Proof. unfold admit_source_directive, source_path_values. returns. Qed.
#[local] Hint Resolve returns_admit : returns.
Lemma returns_declared base m key directive label multiple :
  returns (admit_if_declared base workspace m key directive label multiple).
Proof. unfold admit_if_declared. returns. Qed.
#[local] Hint Resolve returns_declared : returns.
Lemma returns_mount name v : returns (volume_check name None false v).
Proof. unfold volume_check. destruct (volume_parts v) as [[] ?]. returns. Qed.
#[local] Hint Resolve returns_mount : returns.
Lemma returns_service base name config : returns (source_service_check base workspace name config).
Proof.
  unfold source_service_check, validate_source_build, validate_build_keys. apply returns_all_of.
  repeat (apply Forall_cons; split); [..|by apply Forall_nil]; returns.
Qed.
Lemma returns_volumes name config : returns (validate_volumes name config None false).
Proof. unfold validate_volumes. returns. Qed.
Lemma returns_identities data : returns (validate_source_identities data).
Proof.
  unfold validate_source_identities, container_name_check, volume_name_check. apply returns_all_of.
  repeat (apply Forall_cons; split); [..|by apply Forall_nil]; repeat case_match; try done;
    apply returns_for_each; intros [? []]; done.
Qed.
Lemma returns_definitions base data kind : returns (source_definitions_check base workspace data kind).
Proof.
  unfold source_definitions_check. case_match; try done. apply returns_for_each. intros [name v].
  unfold source_definition_check. returns.
Qed.
#[local] Hint Resolve returns_service returns_volumes returns_identities returns_definitions : returns.
Lemma returns_compose_file content base : returns (validate_compose_file content (Some (base, workspace))).
Proof.
  unfold validate_compose_file. do 2 (case_match; try done). apply returns_bind; [|done].
  apply returns_all_of. repeat (apply Forall_cons; split); [auto with returns|..|by apply Forall_nil];
    [|auto 10 with returns].
  apply returns_for_each. intros [name v]. destruct v; auto 10 with returns.
Qed.

Context (files : list path) (Hfiles : ∀ p d, load p = Ok d → p ∈ files).

(** The sources left: those not yet seen from their own directory. *)
Definition own_context (p : path) : path * path :=
  (p, match resolve (parent p) with Ok b => b | Exc _ => p end).
Definition unseen (seen : list (path * path)) : list path := filter (λ p, own_context p ∉ seen) files.

Lemma unseen_mono seen seen' : seen ⊆ seen' → (length (unseen seen') ≤ length (unseen seen))%nat.
Proof.
  intros Hsub. unfold unseen. clear Hfiles. induction files as [|p l IH]; [done|]. rewrite !filter_cons.
  repeat case_decide; cbn; [lia| |lia|lia]. set_solver.
Qed.
Lemma unseen_fresh p seen :
  p ∈ files → own_context p ∉ seen → (length (unseen (own_context p :: seen)) < length (unseen seen))%nat.
Proof.
  intros Hp Hnew. unfold unseen. clear Hfiles. induction files as [|q l IH]; [by apply not_elem_of_nil in Hp|].
  assert (length (filter (λ p0, own_context p0 ∉ own_context p :: seen) l) ≤
          length (filter (λ p0, own_context p0 ∉ seen) l))%nat as Hle.
  { clear. induction l as [|r l IH]; [done|]. rewrite !filter_cons. repeat case_decide; cbn; [lia| |lia|lia].
    set_solver. }
  rewrite !filter_cons. apply elem_of_cons in Hp as [<-|Hp].
  - rewrite decide_False by set_solver. rewrite decide_True by done. cbn. lia.
  - specialize (IH Hp). repeat case_decide; cbn; [lia| |lia|lia]. set_solver.
Qed.

Lemma as_value_error_returns e : e ≠ RecursionError → as_value_error e ≠ RecursionError.
Proof. unfold as_value_error. by destruct (os_or_value_error e). Qed.

Lemma visit_extended_returns n visit base l seen :
  visits workspace visit →
  (∀ t seen', (length (unseen seen') < n)%nat → resolve t = Ok t → returns (visit t (parent t) seen')) →
  (length (unseen seen) < n)%nat → returns (visit_extended visit base l seen).
Proof.
  intros Hvisits Hvisit. revert seen. induction l as [|file l IH]; intros seen Hn; [done|]. cbn.
  destruct (resolve (join base (path_of file))) as [t|] eqn:Ht; cbn.
  - apply resolve_resolved in Ht. destruct (visit t (parent t) seen) as [seen1|e] eqn:Hs1; cbn.
    + apply IH. apply Hvisits in Hs1 as (Hsub & _). pose proof (unseen_mono _ _ Hsub). lia.
    + intros [= ->]. by eapply (Hvisit t seen).
  - intros [= ->]. by apply resolve_returns in Ht.
Qed.

(** One call, given that the calls it makes return. *)
Lemma validate_source_tree_returns n depth source base seen :
  (∀ t seen', (length (unseen seen') < n)%nat → resolve t = Ok t →
     returns (validate_source_tree workspace depth t (parent t) seen')) →
  (∀ p b, resolve source = Ok p → resolve base = Ok b → p ∈ files → (p, b) ∉ seen →
     (length (unseen ((p, b) :: seen)) < n)%nat) →
  returns (validate_source_tree workspace (S depth) source base seen).
Proof.
  intros Hcalls Hn. cbn [validate_source_tree].
  destruct (resolve source) as [p|e] eqn:Hp; cbn.
  2: { intros [= He]. apply as_value_error_returns in He; [done|]. intros ->. by apply resolve_returns in Hp. }
  destruct (is_relative_to p workspace); [|done].
  destruct (resolve base) as [b|e] eqn:Hb; cbn; [|intros [= ->]; by apply resolve_returns in Hb].
  destruct (decide ((p, b) ∈ seen)) as [|Hnew]; [done|].
  destruct (load p) as [content|e] eqn:Hload; cbn.
  2: { intros [= He]. apply as_value_error_returns in He; [done|]. intros ->. by apply load_returns in Hload. }
  pose proof (returns_compose_file content base) as Hfile.
  destruct (validate_compose_file content _) as [result|e]; cbn.
  2: { intros [= He]. apply as_value_error_returns in He; [done|]. intros ->. done. }
  destruct (valid result); [cbn|done]. destruct content; try done.
  eapply (visit_extended_returns n); [apply tree_visits|done|]. apply Hn; eauto.
Qed.
Lemma own_tree_returns depth t seen :
  resolve t = Ok t → (length (unseen seen) < depth)%nat → returns (validate_source_tree workspace depth t (parent t) seen).
Proof.
  revert t seen. induction depth as [|depth IH]; intros t seen Ht Hdepth; [lia|].
  apply (validate_source_tree_returns depth).
  - intros t' seen' Hlen Ht'. by apply IH.
  - intros p b Hp Hb Hin Hnew. assert (p = t) as -> by congruence.
    assert (own_context t = (t, b)) as Hown by (unfold own_context; by rewrite Hb).
    rewrite <-Hown in Hnew |- *. pose proof (unseen_fresh t seen Hin Hnew). lia.
Qed.
End ends.

(** The walk over the sources ends whatever they extend: on a file
    system with finitely many readable files, two more levels of recursion than there
    are files are enough, even where files extend each other in a cycle. *)
Theorem source_walk_terminates `{PyRepr} `{HostLaws} workspace files depth source base seen :
  (∀ p d, load p = Ok d → p ∈ files) →
  (length files + 2 ≤ depth)%nat →
  validate_source_tree workspace depth source base seen ≠ Exc RecursionError.
Proof.
  intros Hfiles Hdepth. destruct depth as [|depth]; [lia|].
  assert (∀ seen', length (unseen files seen') ≤ length files)%nat as Hle.
  { intros seen'. apply length_filter. }
  apply (validate_source_tree_returns workspace files Hfiles depth).
  - intros t seen' Hlen Ht. by eapply own_tree_returns.
  - intros p b _ _ _ _. specialize (Hle ((p, b) :: seen)). lia.
Qed.

(** ** What the runner starts *)



Section runs.
Context `{PyRepr} `{Host} `{Sha256} (base : path) (depth : nat) (worker_id : string)
  (workspace_dir : option string) (args : list string).

Abbreviation plan_path := (join (plan_directory base worker_id) (path_of "compose.resolved.yml")) (only parsing).


















End runs.


(** ** A host, for the witnesses

    A file system without links, on which a worker's two sources extend each other. *)

Lemma undot_app done a b : undot done (a ++ b) = undot (rev (undot done a)) b.
Proof.
  revert done. induction a as [|c a IH]; intros done; cbn; [by rewrite rev_involutive|].
  apply IH.
Qed.
Lemma undot_clean done l : Forall (.≠ "..") done → Forall (.≠ "..") (undot done l).
Proof.
  revert done. induction l as [|c l IH]; intros done Hdone; cbn; [by apply Forall_rev|].
  apply IH. case_decide; [by destruct Hdone|by constructor].
Qed.
Lemma undot_same done l : Forall (.≠ "..") l → undot done l = rev done ++ l.
Proof.
  intros Hl. revert done. induction Hl as [|c l Hc _ IH]; intros done; cbn; [by rewrite app_nil_r|].
  rewrite decide_False by done. rewrite IH. cbn. by rewrite <-app_assoc.
Qed.
Lemma undot_twice l : undot [] (undot [] l) = undot [] l.
Proof. rewrite undot_same; [done|]. by apply undot_clean. Qed.
Lemma lexical_join cwd p p' q :
  p_root cwd = "/" → lexical cwd p = Ok p' → lexical cwd (join p q) = lexical cwd (join p' q).
Proof.
  intros Hcwd [= <-]. unfold lexical, join. destruct p as [root parts], q as [root' parts']; cbn.
  repeat (case_bool_decide; cbn [p_root p_parts] in *; subst); try done; try congruence.
  all: f_equal; f_equal; by rewrite ?app_assoc, (undot_app _ _ parts'), (undot_app _ (undot _ _) parts'), undot_twice.
Qed.

Definition sample_workspace : path := path_of "/srv/w1/workspace".
Definition sample_source (other : string) : mapping :=
  [("services", DMap [("web", DMap [("extends", DMap [("file", DStr other); ("service", DStr "web")])])])].
Definition sample_resolved : doc :=
  DMap [("networks", DMap [("default", DMap [("name", DStr "dev_proj_w1"); ("external", DBool true)])]);
        ("services", DMap [("web", DMap [("image", DStr "nginx"); ("networks", DMap [("default", DNull)]);
                                         ("ports", DList [DStr "80:80"])])])].
Definition base_file : path := path_of "/srv/w1/workspace/infra/compose.base.yml".
Definition dev_file : path := path_of "/srv/w1/workspace/infra/compose.dev.yml".

#[local] Instance sample_repr : PyRepr := λ _, "".
#[local] Instance sample_digest : Sha256 := λ text, text.
#[local] Instance sample_host : Host := {
  host_files := lexical (path_of "/");
  is_dir _ := true;
  is_file _ := true;
  path_exists _ := false;
  load p := if decide (p = base_file) then Ok (DMap (sample_source "compose.dev.yml"))
            else if decide (p = dev_file) then Ok (DMap (sample_source "compose.base.yml")) else Exc OSError;
  environ _ := None;
  DOCKER_EXECUTABLE := "/usr/bin/docker";
  docker _ := Ok (mkCompleted 0 "" "");
  parse_output _ := Ok sample_resolved }.
#[local] Instance sample_laws : HostLaws.
Proof.
  split.
  - intros p p' q. by apply lexical_join.
  - done.
  - intros p. cbn. by repeat case_decide.
Qed.

Lemma accepted_commands_run_as_validated_witness :
  let args := ["-f"; "a.yml"; "up"; "-d"; "web"] in
  valid (validate_command args) = true ∧
  ∃ files sub rest,
    accepted_command args files sub rest ∧ subcommand args = Some sub ∧
    has_global_file_selection args = negb (bool_decide (files = [])) ∧
    (sub ∈ CONTAINER_CREATING_COMMANDS →
       without_file_flags args = sub :: rest ∧
       take_file_flags args = Ok (selection files, sub :: rest) ∧ seconds (selection files) = snd <$> files).
Proof. split; [by vm_compute|]. by apply accepted_commands_run_as_validated. Defined.

Lemma accepted_tree_is_confined_witness :
  let run := validate_source_tree sample_workspace 9 base_file (parent base_file) [] in
  (∃ seen, run = Ok seen ∧ length seen = 2%nat) ∧
  loaded base_file (parent base_file) (dev_file, parent dev_file) ∧
  is_relative_to dev_file sample_workspace = true ∧
  ∃ data, load dev_file = Ok (DMap data) ∧ source_confined (parent dev_file) sample_workspace data.
Proof.
  assert (loaded base_file (parent base_file) (dev_file, parent dev_file)) as Hloaded.
  { eapply loaded_extended; [by apply loaded_source|].
    by apply (extends_to_file _ _ (sample_source "compose.dev.yml") "compose.dev.yml"); [|left|..]. }
  split; [eexists; by vm_compute|]. split; [done|].
  by eapply (accepted_tree_is_confined sample_workspace 9 base_file (parent base_file)).
Defined.

Lemma source_walk_terminates_witness :
  validate_source_tree sample_workspace 4 base_file (parent base_file) [] ≠ Exc RecursionError.
Proof.
  apply (source_walk_terminates sample_workspace [base_file; dev_file]).
  - intros p d. cbn [load sample_host].
    destruct (decide (p = base_file)) as [->|_]; [intros _; left|].
    destruct (decide (p = dev_file)) as [->|_]; [intros _; right; left|]. discriminate.
  - cbn. lia.
Defined.

