(* ===== verification/Redis.v ===== *)
(** * Redis: what the program relies on of Redis

    The commands the stream client and the worker broker send, as an interface, with
    what Redis documents of them: hashes, texts, streams with consumer groups.  A
    command may fail, before or after Redis took it.  A small server in memory meets
    the interface. *)

From S2P Require Import Prelude.

Abbreviation fields := (list (string * string)) (only parsing).

(** The answer of XAUTOCLAIM: where to go on, what was claimed (an entry without a body
    is one the stream no longer holds), and what was dropped. *)
Record page := mkPage {
  pg_cursor : string; pg_claimed : list (string * option fields); pg_deleted : list string }.

(** What Redis keeps, as far as the program can tell.  The entries of a stream are not
    here, for trimming may take them at any time: [added] is what was ever accepted. *)
Record contents := mkContents {
  hashes : gmap string (gmap string string);
  texts : gmap string string;
  added : list (string * fields);                    (** oldest first *)
  handed : gmap (string * string) (list string);     (** what a group ever read of a stream *)
  pending : gmap (string * string) (list string)     (** its PEL *)
}.
#[export] Instance contents_rebuild : Rebuild contents := λ r,
  mkContents (hashes r) (texts r) (added r) (handed r) (pending r).

Definition pel (stream group : string) (c : contents) : list string := default [] (c.(pending) !! (stream, group)).
Definition handed_to (stream group : string) (c : contents) : list string :=
  default [] (c.(handed) !! (stream, group)).
Definition hash_of (key : string) (c : contents) : gmap string string := default ∅ (c.(hashes) !! key).

Class RedisServer (R : Type) := {
  view : R → contents;
  (** The stream no longer holds the entry. *)
  trimmed : R → string → string → Prop;
  (** Nobody was handed the pending entry for that long. *)
  stale : R → string → string → Z → string → Prop;
  monotonic : M R Z;
  sleep : Z → M R unit;
  hgetall : string → M R (gmap string string);
  hget : string → string → M R (option string);
  hset : string → gmap string string → M R unit;
  hincrby : string → string → M R Z;
  redis_get : string → M R (option string);
  redis_set : string → string → Z → M R unit;
  redis_expire : string → Z → M R unit;
  redis_delete : list string → M R unit;
  xadd : string → fields → M R string;
  xack : string → string → string → M R unit;
  xgroup_create : string → string → M R unit;
  xreadgroup : string → string → string → Z → M R (list (string * fields));
  xautoclaim : string → string → string → Z → string → Z → M R page }.

(** ** What Redis documents *)

Section laws.
Context `{RedisServer R}.

(** The command does [f] once it returns; one that fails did it or did not. *)
Definition does {A} (m : M R A) (f : contents → contents) : Prop :=
  ∀ r, view (m r).2 = f (view r) ∨ view (m r).2 = view r ∧ ∀ a, (m r).1 ≠ Ok a.
(** A command that only reads, and what it answers. *)
Definition reads {A} (m : M R A) (f : contents → A) : Prop :=
  ∀ r, view (m r).2 = view r ∧ ∀ a, (m r).1 = Ok a → a = f (view r).

Definition put_hash (key : string) (m : gmap string string) (c : contents) : contents :=
  c <| hashes ::= <[key := m ∪ hash_of key c]> |>.
Definition drop_keys (keys : list string) (c : contents) : contents :=
  (c <| hashes ::= filter (λ p, p.1 ∉ keys) |>) <| texts ::= filter (λ p, p.1 ∉ keys) |>.
Definition add_entry (stream : string) (f : fields) (c : contents) : contents :=
  c <| added ::= λ l, l ++ [(stream, f)] |>.
Definition put_pel (stream group : string) (l : list string) (c : contents) : contents :=
  c <| pending ::= <[(stream, group) := l]> |>.
Definition hand_out (stream group : string) (new : list string) (c : contents) : contents :=
  put_pel stream group (pel stream group c ++ new)
    (c <| handed ::= <[(stream, group) := handed_to stream group c ++ new]> |>).
Definition ack_entry (stream group id : string) (c : contents) : contents :=
  put_pel stream group (filter (.≠ id) (pel stream group c)) c.

(** A fact no command of the stream client undoes. *)
Class Stable (P : R → Prop) := {
  stable_monotonic r : P r → P (monotonic r).2;
  stable_sleep n r : P r → P (sleep n r).2;
  stable_hincrby k f r : P r → P (hincrby k f r).2;
  stable_xadd s f r : P r → P (xadd s f r).2;
  stable_xack s g id r : P r → P (xack s g id r).2;
  stable_xgroup_create s g r : P r → P (xgroup_create s g r).2;
  stable_xreadgroup s g c n r : P r → P (xreadgroup s g c n r).2;
  stable_xautoclaim s g c idle start n r : P r → P (xautoclaim s g c idle start n r).2 }.

Class RedisLaws := {
  monotonic_law r : view (monotonic r).2 = view r;
  sleep_law n : reads (sleep n) (λ _, tt);
  hgetall_law k : reads (hgetall k) (hash_of k);
  hget_law k f : reads (hget k f) (λ c, hash_of k c !! f);
  hset_law k m : does (hset k m) (put_hash k m);
  hincrby_law k f r : ∃ h, view (hincrby k f r).2 = (view r) <| hashes := h |>;
  redis_get_law k : reads (redis_get k) (λ c, c.(texts) !! k);
  redis_set_law k v ttl : does (redis_set k v ttl) (λ c, c <| texts ::= <[k := v]> |>);
  redis_expire_law k ttl : reads (redis_expire k ttl) (λ _, tt);
  redis_delete_law ks : does (redis_delete ks) (drop_keys ks);
  xadd_law s f : does (xadd s f) (add_entry s f);
  xack_law s g id : does (xack s g id) (ack_entry s g id);
  xgroup_create_law s g : reads (xgroup_create s g) (λ _, tt);
  (** What is read was not pending, and is. *)
  xreadgroup_law s g c n r : ∃ new,
    view (xreadgroup s g c n r).2 = hand_out s g new (view r) ∧
    ∀ l, (xreadgroup s g c n r).1 = Ok l → new = l.*1;
  (** Only entries the stream lost are dropped from the list. *)
  xautoclaim_law s g c idle start n r : ∃ dropped,
    view (xautoclaim s g c idle start n r).2 = put_pel s g (filter (.∉ dropped) (pel s g (view r))) (view r) ∧
    (∀ x, x ∈ dropped → trimmed (xautoclaim s g c idle start n r).2 s x) ∧
    ∀ p, (xautoclaim s g c idle start n r).1 = Ok p → dropped = pg_deleted p;
  (** Trimmed entries do not come back. *)
  trimmed_stable s x :: Stable (λ r, trimmed r s x) }.
End laws.
Arguments RedisLaws R {_}.
Arguments stable_monotonic {R _} P {_} r _.
Arguments stable_sleep {R _} P {_} n r _.
Arguments stable_hincrby {R _} P {_} k f r _.
Arguments stable_xadd {R _} P {_} s f r _.
Arguments stable_xack {R _} P {_} s g id r _.
Arguments stable_xgroup_create {R _} P {_} s g r _.
Arguments stable_xreadgroup {R _} P {_} s g c n r _.
Arguments stable_xautoclaim {R _} P {_} s g c idle start n r _.

(** ** A quiet server *)

(** The pending entries from the cursor on. *)
Fixpoint drop_until (x : string) (l : list string) : list string :=
  match l with [] => [] | y :: l' => if decide (y = x) then l else drop_until x l' end.
Definition from (cursor : string) (l : list string) : list string :=
  if decide (cursor = "0-0") then l else drop_until cursor l.

(** XAUTOCLAIM on a quiet server: it walks a part of the list, however fresh, claims
    what is stale there and says where it stopped. *)
Class SweepLaws (R : Type) `{RedisServer R} (stream group consumer : string) (idle count : Z) := {
  autoclaim_page start r :
    start = "0-0" ∨ start ∈ pel stream group (view r) →
    ∃ p seg rest,
      (xautoclaim stream group consumer idle start count r).1 = Ok p ∧
      from start (pel stream group (view r)) = seg ++ rest ∧ (seg = [] → rest = []) ∧
      pg_cursor p = default "0-0" (head rest) ∧
      (pg_claimed p).*1 ⊆ seg ∧ pg_deleted p ⊆ seg ∧
      (∀ x, x ∈ seg → stale r stream group idle x → x ∈ (pg_claimed p).*1 ∨ x ∈ pg_deleted p) ∧
      (∀ x, (x, None) ∈ pg_claimed p → trimmed (xautoclaim stream group consumer idle start count r).2 stream x) ∧
      (∀ x, x ∉ seg → stale r stream group idle x →
         stale (xautoclaim stream group consumer idle start count r).2 stream group idle x);
  hincrby_answers k f r : ∃ n, (hincrby k f r).1 = Ok n;
  hincrby_stale k f r x : stale r stream group idle x → stale (hincrby k f r).2 stream group idle x }.
