(* ===== verification/RedisMemory.v ===== *)
(** * RedisMemory: a server in memory

    One client, no faults, no trimming, no expiry: a server that keeps what Redis
    documents, for the witnesses of the theorems about any server. *)

From S2P Require Import Prelude Redis.

Record memory := mkMemory {
  m_contents : contents;
  m_streams : gmap string (list (string * fields));   (** the entries, with their ids *)
  m_delivered : gmap string Z;                        (** when an id was last handed out *)
  m_clock : Z }.
#[export] Instance memory_rebuild : Rebuild memory := λ r,
  mkMemory (m_contents r) (m_streams r) (m_delivered r) (m_clock r).
Definition empty_memory : memory := mkMemory (mkContents ∅ ∅ [] ∅ ∅) ∅ ∅ 1.

Definition on_contents (f : contents → contents) : M memory unit := modify (λ r, r <| m_contents ::= f |>).
Definition seen_contents {A} (f : contents → A) : M memory A := gets (λ r, f (m_contents r)).
Definition entries (stream : string) (r : memory) : list (string * fields) := default [] (m_streams r !! stream).
Definition deliver (ids : list string) (r : memory) : memory :=
  r <| m_delivered ::= λ m, foldr (λ x, <[x := m_clock r]>) m ids |>.
Definition is_stale (idle : Z) (r : memory) (x : string) : bool :=
  default 0 (m_delivered r !! x) + idle <=? m_clock r.
Definition page_size (count : Z) : nat := S (Z.to_nat (count - 1)).

#[export] Instance memory_server : RedisServer memory := {
  view := m_contents;
  trimmed _ _ _ := False;
  stale r _ _ idle x := is_stale idle r x = true;
  monotonic := gets m_clock;
  sleep n := modify (λ r, r <| m_clock ::= λ t, t + Z.max 0 n |>);
  hgetall k := seen_contents (hash_of k);
  hget k f := seen_contents (λ c, hash_of k c !! f);
  hset k m := on_contents (put_hash k m);
  hincrby k f := λ r,
    let t := default "" (hash_of k (m_contents r) !! f) +:+ "1" in   (* counted in strokes *)
    (Ok (Z.of_nat (String.length t)),
     r <| m_contents ::= λ c, c <| hashes ::= <[k := <[f := t]> (hash_of k c)]> |> |>);
  redis_get k := seen_contents (λ c, texts c !! k);
  redis_set k v _ := on_contents (λ c, c <| texts ::= <[k := v]> |>);
  redis_expire _ _ := mret tt;
  redis_delete ks := on_contents (drop_keys ks);
  xadd s f :=
    n ← gets (λ r, length (added (m_contents r)));
    let id := pretty (S n) +:+ "-0" in
    _ ← modify (λ r, (r <| m_streams ::= <[s := entries s r ++ [(id, f)]]> |>) <| m_contents ::= add_entry s f |>);
    mret id;
  xack s g id := on_contents (ack_entry s g id);
  xgroup_create _ _ := mret tt;
  xreadgroup s g _ n := λ r,
    let new := take (Z.to_nat n) (filter (λ e, e.1 ∉ handed_to s g (m_contents r)) (entries s r)) in
    (Ok new, deliver new.*1 (r <| m_contents ::= hand_out s g new.*1 |>));
  xautoclaim s g _ idle start n := λ r,
    let todo := from start (pel s g (m_contents r)) in
    let claimed := filter (λ x, is_stale idle r x = true) (take (page_size n) todo) in
    let body x := default [] (snd <$> (list_find (λ e, e.1 = x) (entries s r) ≫= λ p, Some p.2)) in
    (Ok (mkPage (default "0-0" (head (drop (page_size n) todo))) ((λ x, (x, Some (body x))) <$> claimed) []),
     deliver claimed (r <| m_contents ::= put_pel s g (pel s g (m_contents r)) |>)) }.

(** ** It keeps the laws *)

Lemma deliver_other ids x r : x ∉ ids → m_delivered (deliver ids r) !! x = m_delivered r !! x.
Proof.
  unfold deliver. cbn. induction ids as [|y ids IH]; cbn; [done|]. intros Hx.
  rewrite lookup_insert_ne by set_solver. apply IH. set_solver.
Qed.
#[export] Instance memory_laws : RedisLaws memory.
Proof.
  split; try (intros; unfold reads; intros r; cbn; split; [done|by intros ? [= <-]]);
    try by (intros; unfold does; intros; cbn; auto).
  - intros k f r. by eexists.
  - intros s g c n r. eexists. split; [done|]. by intros l [= <-].
  - intros s g c idle start n r. exists []. split_and!.
    + cbn. f_equal. symmetry. apply filter_true. set_solver.
    + by intros x ?%not_elem_of_nil.
    + by intros p [= <-].
Qed.

#[export] Instance memory_sweep stream group consumer idle count : SweepLaws memory stream group consumer idle count.
Proof.
  split.
  - intros start r _. cbn. set (todo := from start _). eexists _, (take (page_size count) todo), (drop (page_size count) todo).
    split; [done|]. split; [by rewrite take_drop|]. split_and!.
    + unfold page_size. clearbody todo. by destruct todo.
    + done.
    + cbn [pg_claimed]. rewrite <-list_fmap_compose. intros x Hx.
      apply list_elem_of_fmap in Hx as (y & -> & [_ Hy]%list_elem_of_filter). done.
    + set_solver.
    + intros x Hx Hs. left. cbn [pg_claimed]. rewrite <-list_fmap_compose. apply list_elem_of_fmap.
      exists x. split; [done|]. by apply list_elem_of_filter.
    + cbn [pg_claimed]. by intros x (y & [=] & _)%list_elem_of_fmap.
    + intros x Hx Hs. unfold is_stale in *. rewrite deliver_other; [done|].
      by intros [_ ?]%list_elem_of_filter.
  - by eexists.
  - done.
Qed.
