(* ===== verification/Streams.v ===== *)
(** * Streams: the Redis Streams client, consuming side

    [shared/redis/client.py]: reading a stream through a consumer group, sweeping the
    pending entries for what was left behind, validating what is read, and putting
    away what can never be processed.  The loop of the caller is a parameter: what it
    does with an entry, and whether it goes on. *)

From S2P Require Import Prelude Docs Redis.
From Stdlib Require Import Ascii.

Definition MIN_RECLAIM_INTERVAL_MS : Z := 1000.
Definition LOST_ENTRIES_KEY : string := "stream:diagnostics:lost_entries".
Definition DLQ_SUFFIX : string := ":dlq".
Definition DLQ_FAILURE_DECODE : string := "decode_error".
Definition DLQ_FAILURE_VALIDATION : string := "validation_error".
Definition dlq_stream (stream : string) : string := stream +:+ DLQ_SUFFIX.
Definition resolve_reclaim_interval_ms (pending_timeout_ms : Z) (override : option Z) : Z :=
  match override with Some o => o | None => Z.max pending_timeout_ms MIN_RECLAIM_INTERVAL_MS end.

(** [json.loads] and [json.dumps]: a text that is not JSON is a ValueError, one nested
    too deep a RecursionError. *)
Class Json := { json_loads : string → res doc; json_dumps : doc → string }.

(** ** Fields this consumer does not know yet *)

(** A step of a [loc]: a key, or a position in a list. *)
Inductive step := Key (k : string) | Index (i : nat).
#[export] Instance step_eq_dec : EqDecision step.
Proof. solve_decision. Defined.
Record verror := mkVError { ve_type : string; ve_loc : list step }.
#[export] Instance verror_eq_dec : EqDecision verror.
Proof. solve_decision. Defined.

(** [adapter.validate_python]: pydantic's value, or its errors. *)
Class Adapter (V : Type) := validate_python : doc → V + list verror.

(** One [loc]: a step that leads nowhere is stepped over. *)
Fixpoint delete_loc (container : doc) (loc : list step) : doc * bool :=
  match loc with
  | [] => (container, false)
  | [last] =>
      match container, last with
      | DMap m, Key k => if has_key k m then (DMap (drop_key k m), true) else (container, false)
      | _, _ => (container, false)
      end
  | s :: loc' =>
      match container, s with
      | DMap m, Key k =>
          match lookup_key k m with
          | Some v => let '(v', found) := delete_loc v loc' in (DMap (put_key k v' m), found)
          | None => delete_loc container loc'
          end
      | DList l, Index i =>
          match l !! i with
          | Some v => let '(v', found) := delete_loc v loc' in (DList (<[i := v']> l), found)
          | None => delete_loc container loc'
          end
      | _, _ => delete_loc container loc'
      end
  end.
Definition step_text (s : step) : string := match s with Key k => k | Index i => pretty i end.
Definition loc_text (loc : list step) : string := String.concat "." (step_text <$> loc).
(** [_delete_at]: the copy, and the names removed. *)
Fixpoint delete_at (data : doc) (locs : list (list step)) : doc * list string :=
  match locs with
  | [] => (data, [])
  | loc :: locs' =>
      let '(data, found) := delete_loc data loc in
      let '(pruned, dropped) := delete_at data locs' in
      (pruned, if found then loc_text loc :: dropped else dropped)
  end.

Definition candidate_of (loc : list step) (data : doc) : option step :=
  match loc, data with
  | Key k :: _, DMap m => if has_key k m then None else Some (Key k)
  | Index i :: _, DMap _ => Some (Index i)
  | _, _ => None
  end.

(** [by_candidate.setdefault(c, []).append(e)]. *)
Fixpoint append_at (c : option step) (e : verror) (l : list (option step * list verror))
    : list (option step * list verror) :=
  match l with
  | [] => [(c, [e])]
  | (c', es) :: l' => if decide (c' = c) then (c', es ++ [e]) :: l' else (c', es) :: append_at c e l'
  end.
Definition by_candidate (data : doc) (errors : list verror) : list (option step * list verror) :=
  foldl (λ l e, append_at (candidate_of (ve_loc e) data) e l) [] errors.

(** The payload without the fields one candidate complained of, if it complained of
    nothing else and they are there. *)
Definition pruning_of (data : doc) (reported : option step * list verror) : option (doc * list string) :=
  if existsb (λ e, negb (bool_decide (ve_type e = "extra_forbidden"))) reported.2 then None
  else let '(pruned, dropped) := delete_at data (ve_loc <$> reported.2) in
       match dropped with [] => None | _ => Some (pruned, dropped) end.
(** [isinstance(data, dict | list)] *)
Definition is_container (data : doc) : bool := match data with DMap _ | DList _ => true | _ => false end.
Definition unexpected_field_prunings (data : doc) (errors : list verror) : list (doc * list string) :=
  if bool_decide (errors = []) || negb (is_container data) then []
  else if existsb (λ e, bool_decide (ve_loc e = [])) errors then []
  else omap (pruning_of data) (by_candidate data errors).

(** The value and the fields dropped, or the errors of the payload as it came. *)
Fixpoint first_valid `{Adapter V} (candidates : list (doc * list string)) : option (V * list string) :=
  match candidates with
  | [] => None
  | (candidate, dropped) :: rest =>
      match validate_python candidate with inl v => Some (v, dropped) | inr _ => first_valid rest end
  end.
Definition validate_tolerating_additions `{Adapter V} (data : doc) : (V * list string) + list verror :=
  match validate_python data with
  | inl v => inl (v, [])
  | inr errors =>
      match first_valid (unexpected_field_prunings data errors) with
      | Some r => inl r
      | None => inr errors
      end
  end.

(** ** Entries *)

Definition field_map (f : fields) : mapping := (λ p, (p.1, DStr p.2)) <$> f.
Definition field (k : string) (f : fields) : option string := snd <$> (list_find (λ p, p.1 = k) f ≫= λ p, Some p.2).

Definition parse_fields `{Json} (f : fields) : res mapping :=
  match field "data" f with
  | Some text =>
      match json_loads text with
      | Ok (DMap m) => Ok m
      | Ok _ | Exc ValueError | Exc TypeError => Ok (field_map f)
      | Exc e => Exc e
      end
  | None => Ok (field_map f)
  end.
Definition decode_entry `{Json} (f : fields) : res doc :=
  match field "data" f with
  | Some text => json_loads text
  | None => Ok (DMap (field_map f))
  end.

Definition LEGACY_RECIPIENT_FIELD : string := "user_id".
Definition has_legacy_recipient_field (data : doc) : bool :=
  match data with DMap m => has_key LEGACY_RECIPIENT_FIELD m | _ => false end.

(** ** The client *)

(** What the caller's loop says after an entry: go on, or leave (by [break], or by an
    exception); [Unfinished] is the end of the model's fuel. *)
Inductive signal := Going | Left (r : res unit) | Unfinished.

Section client.
Context `{RedisServer R} `{Json}.

Definition ack (stream group id : string) : M R unit := xack stream group id.
Definition publish (stream : string) (data : doc) : M R string :=
  xadd stream [("data", json_dumps data)].
Definition publish_flat (stream : string) (f : fields) : M R string := xadd stream f.

(** An exception that says [text]. *)
Definition says (text : string) (e : exn) : bool :=
  match e with ResponseError t => bool_decide (is_Some (String.index 0 text t)) | _ => false end.
Definition ensure_consumer_group (stream group : string) : M R unit :=
  catch (xgroup_create stream group) (λ e, if says "BUSYGROUP" e then mret tt else raise e).

Definition lost_entry_field (stream group : string) : string := stream +:+ "|" +:+ group.
Definition record_lost_entry (stream group : string) : M R unit :=
  _ ← hincrby LOST_ENTRIES_KEY (lost_entry_field stream group); mret tt.

Section reading.
Context (stream group consumer : string) (count pending_timeout_ms reclaim_interval_ms : Z) (claim_pending : bool).
(** What follows a [yield]: an entry, or the [None] of an empty read. *)
Context (k : option (string * fields) → M R signal).

(** [yield] in a loop: the rest of the loop happens if the caller goes on. *)
Fixpoint each {A} (f : A → M R signal) (l : list A) : M R signal :=
  match l with
  | [] => mret Going
  | x :: l' => s ← f x; match s with Going => each f l' | _ => mret s end
  end.

(** Whoever leaves the loop closes the generator: what the caller raised is not caught
    in here, so the caller's part answers a signal. *)
Definition claimed_entry (p : string * option fields) : M R signal :=
  match p.2 with
  | None => _ ← record_lost_entry stream group; mret Going
  | Some f => k (Some (p.1, f))
  end.
Fixpoint reclaim_pending (fuel : nat) (cursor : string) : M R signal :=
  match fuel with
  | O => mret Unfinished
  | S fuel =>
      p ← xautoclaim stream group consumer pending_timeout_ms cursor count;
      s ← each claimed_entry (pg_claimed p);
      match s with
      | Going =>
          _ ← map_m (λ _, record_lost_entry stream group) (pg_deleted p);
          if bool_decide (pg_cursor p ∈ ["0-0"; cursor]) then mret Going
          else reclaim_pending fuel (pg_cursor p)
      | _ => mret s
      end
  end.

Definition read_new : M R signal :=
  messages ← xreadgroup stream group consumer count;
  match messages with
  | [] => _ ← sleep 0; k None
  | _ => each (λ m, k (Some m)) messages
  end.

(** One turn of [while True]: the signal, and when to sweep next. *)
Definition iter_turn (fuel : nat) (next_reclaim_at : Z) : M R (signal * Z) :=
  now ← monotonic;
  let due := claim_pending && (next_reclaim_at <=? now) in
  next ← (if due then now ← monotonic; mret (now + reclaim_interval_ms) else mret next_reclaim_at);
  r ← attempt (s ← (if due then reclaim_pending fuel "0-0" else mret Going);
               match s with Going => read_new | _ => mret s end);
  match r with
  | Ok s => mret (s, next)
  | Exc CancelledError => mret (Left (Ok tt), next)
  | Exc RedisTimeoutError => _ ← sleep 0; s ← k None; mret (s, next)
  | Exc e =>
      _ ← (if says "NOGROUP" e then ensure_consumer_group stream group else mret tt);
      _ ← sleep 1; mret (Going, next)
  end.
Fixpoint iter_turns (n fuel : nat) (next_reclaim_at : Z) : M R signal :=
  match n with
  | O => mret Unfinished
  | S n =>
      '(s, next) ← iter_turn fuel next_reclaim_at;
      match s with Going => iter_turns n fuel next | _ => mret s end
  end.
(** [_iter_entries]: as many turns as the model has fuel for. *)
Definition iter_entries (n fuel : nat) : M R signal :=
  _ ← ensure_consumer_group stream group; iter_turns n fuel 0.
End reading.

(** The caller's code in a generator: what it raises leaves every loop. *)
Definition in_caller (m : M R signal) : M R signal :=
  r ← attempt m; match r with Ok s => mret s | Exc e => mret (Left (Exc e)) end.

(** [consume]: acknowledged once the caller came back for more. *)
Definition consume_step (stream group : string) (auto_ack : bool) (body : option (string * mapping) → M R signal)
    (entry : option (string * fields)) : M R signal :=
  in_caller (match entry with
    | None => body None
    | Some (id, f) =>
        data ← of_res (parse_fields f);
        s ← body (Some (id, data));
        match s with
        | Going => _ ← (if auto_ack then xack stream group id else mret tt); mret Going
        | _ => mret s
        end
    end).
Definition consume (stream group consumer : string) (count pending_timeout_ms : Z) (reclaim : option Z)
    (auto_ack claim_pending : bool) (body : option (string * mapping) → M R signal) (n fuel : nat) : M R signal :=
  iter_entries stream group consumer count pending_timeout_ms
    (resolve_reclaim_interval_ms pending_timeout_ms reclaim) claim_pending
    (consume_step stream group auto_ack body) n fuel.

(** ** Validated messages *)

(** [notify_admins_best_effort] *)
Context (notify : M R unit) (isoformat : Z → string).

Definition terminal_ack (stream group id : string) : M R unit :=
  on_exception (xack stream group id) (λ _, mret tt).
(** The error shapes as JSON; their text is pydantic's. *)
Context (reason_text : list verror → string) (decode_reason : string).
Definition quarantine_entry (stream group id : string) (f : fields) (failure reason : string) : M R bool :=
  now ← monotonic;
  let entry := [("source_stream", stream); ("group", group); ("entry_id", id); ("failure", failure);
                ("reason", reason); ("quarantined_at", isoformat now);
                ("body", json_dumps (DMap (field_map f)))] in
  on_exception (_ ← xadd (dlq_stream stream) entry; mret true) (λ _, mret false).
Definition reject_entry (stream group id : string) (f : fields) (failure reason : string) : M R unit :=
  landed ← quarantine_entry stream group id f failure reason;
  if landed : bool then terminal_ack stream group id else mret tt.

Context `{Adapter V}.
Definition typed_step (stream group : string) (body : option (string * V) → M R signal)
    (entry : option (string * fields)) : M R signal :=
  in_caller (match entry with
    | None => body None
    | Some (id, f) =>
        match decode_entry f with
        | Exc ValueError => _ ← reject_entry stream group id f DLQ_FAILURE_DECODE decode_reason; mret Going
        | Exc e => raise e
        | Ok data =>
            match validate_tolerating_additions data with
            | inr errors =>
                _ ← (if has_legacy_recipient_field data then notify else mret tt);
                _ ← reject_entry stream group id f DLQ_FAILURE_VALIDATION (reason_text errors);
                mret Going
            | inl (value, _) => body (Some (id, value))
            end
        end
    end).
Definition consume_typed (stream group consumer : string) (count pending_timeout_ms : Z) (reclaim : option Z)
    (claim_pending : bool) (body : option (string * V) → M R signal) (n fuel : nat) : M R signal :=
  iter_entries stream group consumer count pending_timeout_ms
    (resolve_reclaim_interval_ms pending_timeout_ms reclaim) claim_pending (typed_step stream group body) n fuel.
End client.
