(* ===== verification/StreamsSafety.v ===== *)
(** * StreamsSafety: no entry of a stream is dropped, none is left behind

    The promises of the stream client's reading side: whatever fails, an entry handed to
    the group is pending until its consumer finished with it, its copy is in the
    dead-letter stream, or the stream itself lost it; a sweep ends and reaches every
    entry that was left behind. *)

From S2P Require Import Prelude Docs Redis RedisMemory Streams.

Section safety.
Context `{RedisLaws R} `{Json} (stream group : string).
Context (finished : string → R → Prop) `{!∀ x, Stable (finished x)}.

(** A copy of the entry in the dead-letter stream. *)
Definition quarantined (id : string) (c : contents) : Prop :=
  ∃ f, (dlq_stream stream, f) ∈ added c ∧
    field "source_stream" f = Some stream ∧ field "group" f = Some group ∧ field "entry_id" f = Some id.
Definition settled (id : string) (r : R) : Prop :=
  trimmed r stream id ∨ quarantined id (view r) ∨ finished id r.
Definition covered (id : string) (r : R) : Prop := id ∈ pel stream group (view r) ∨ settled id r.
(** Every entry ever handed to the group is accounted for. *)
Definition nothing_dropped (r : R) : Prop := ∀ id, id ∈ handed_to stream group (view r) → covered id r.

(** What a step of the client keeps. *)
Definition accounts (r r' : R) : Prop :=
  (∀ id, settled id r → settled id r') ∧ (∀ id, covered id r → covered id r') ∧
  (∀ id, id ∈ handed_to stream group (view r') → id ∈ handed_to stream group (view r) ∨ covered id r').
#[export] Instance accounts_preorder : PreOrder accounts.
Proof.
  split; [intros r; split_and!; auto|]. intros r1 r2 r3 (? & Hc & Hh) (? & Hc' & Hh'). split_and!; [auto|auto|].
  intros id Hid. destruct (Hh' id Hid) as [Hid2|]; [|by right]. destruct (Hh id Hid2); [by left|right; auto].
Qed.
Lemma accounts_nothing_dropped r r' : accounts r r' → nothing_dropped r → nothing_dropped r'.
Proof. intros (_ & Hc & Hh) Hr id Hid. destruct (Hh id Hid); [by apply Hc, Hr|done]. Qed.

(** [r'] comes after [r]: what no command undoes holds still. *)
Definition steady (r r' : R) : Prop := ∀ P, Stable P → P r → P r'.
Lemma accounts_intro r r' :
  steady r r' →
  (∀ e, e ∈ added (view r) → e ∈ added (view r')) →
  (∀ id, id ∈ pel stream group (view r) → covered id r') →
  (∀ id, id ∈ handed_to stream group (view r') → id ∈ handed_to stream group (view r) ∨ covered id r') →
  accounts r r'.
Proof.
  intros Hst Ha Hp Hh.
  assert (∀ id, trimmed r stream id → trimmed r' stream id) as Ht.
  { intros id. apply (Hst (λ r, trimmed r stream id)), _. }
  assert (∀ id, finished id r → finished id r') as Hf by (intros id; apply (Hst (finished id)), _).
  assert (∀ id, settled id r → settled id r') as Hs.
  { intros id [?|[(f & ? & ?)|?]]; [left; auto|right; left; exists f; auto|right; right; auto]. }
  split_and!; [done| |done]. intros id [?|?]; [by apply Hp|right; auto].
Qed.
Lemma accounts_same {A} (m : M R A) r :
  steady r (m r).2 → view (m r).2 = view r → accounts r (m r).2.
Proof.
  intros Hst Hv. apply accounts_intro; [done|by rewrite Hv| |rewrite Hv; by left].
  intros id Hid. left. by rewrite Hv.
Qed.

Lemma pel_put_other s g l c : (s, g) ≠ (stream, group) → pel stream group (put_pel s g l c) = pel stream group c.
Proof. intros Hne. unfold pel, put_pel. cbn. by rewrite lookup_insert_ne. Qed.
Lemma pel_put l c : pel stream group (put_pel stream group l c) = l.
Proof. unfold pel, put_pel. cbn. by rewrite lookup_insert_eq. Qed.
Lemma hand_out_pel s g new c id :
  id ∈ pel stream group c → id ∈ pel stream group (hand_out s g new c).
Proof.
  intros Hid. unfold hand_out. destruct (decide ((s, g) = (stream, group))) as [[= -> ->]|Hne].
  - rewrite pel_put. set_solver.
  - by rewrite pel_put_other.
Qed.
Lemma hand_out_handed s g new c id :
  id ∈ handed_to stream group (hand_out s g new c) →
  id ∈ handed_to stream group c ∨ id ∈ pel stream group (hand_out s g new c).
Proof.
  unfold hand_out. destruct (decide ((s, g) = (stream, group))) as [[= -> ->]|Hne].
  - rewrite pel_put. unfold handed_to, put_pel. cbn. rewrite lookup_insert_eq. cbn. set_solver.
  - unfold handed_to, put_pel. cbn. rewrite lookup_insert_ne by done. by left.
Qed.

Lemma monotonic_accounts : guar accounts monotonic.
Proof. intros r. apply accounts_same; [intros P ?; by apply (stable_monotonic P)|apply monotonic_law]. Qed.
Lemma sleep_accounts n : guar accounts (sleep n).
Proof. intros r. apply accounts_same; [intros P ?; by apply (stable_sleep P)|apply sleep_law]. Qed.
Lemma xgroup_create_accounts s g : guar accounts (xgroup_create s g).
Proof. intros r. apply accounts_same; [intros P ?; by apply (stable_xgroup_create P)|apply xgroup_create_law]. Qed.
Lemma hincrby_accounts k f : guar accounts (hincrby k f).
Proof.
  intros r. destruct (hincrby_law k f r) as [h Hv].
  apply accounts_intro; rewrite ?Hv; [intros P ?; by apply (stable_hincrby P)|done| |by left].
  intros id Hid. left. by rewrite Hv.
Qed.
Lemma xadd_accounts s f : guar accounts (xadd s f).
Proof.
  intros r. destruct (xadd_law s f r) as [Hv|[Hv _]]; [|apply accounts_same; [intros P ?; by apply (stable_xadd P)|done]].
  apply accounts_intro; rewrite ?Hv; [intros P ?; by apply (stable_xadd P)| | |by left].
  - intros e He. cbn. set_solver.
  - intros id Hid. left. by rewrite Hv.
Qed.
Lemma xreadgroup_accounts s g c n : guar accounts (xreadgroup s g c n).
Proof.
  intros r. destruct (xreadgroup_law s g c n r) as (new & Hv & _).
  apply accounts_intro; rewrite ?Hv; [intros P ?; by apply (stable_xreadgroup P)|done| |].
  - intros id Hid. left. rewrite Hv. by apply hand_out_pel.
  - intros id [?|?]%hand_out_handed; [by left|right; left]. by rewrite Hv.
Qed.
Lemma xautoclaim_accounts c idle start n : guar accounts (xautoclaim stream group c idle start n).
Proof.
  intros r. destruct (xautoclaim_law stream group c idle start n r) as (dropped & Hv & Htrimmed & _).
  apply accounts_intro; rewrite ?Hv; [intros P ?; by apply (stable_xautoclaim P)|done| |by left].
  intros id Hid. destruct (decide (id ∈ dropped)) as [?|?]; [right; left; auto|left].
  rewrite Hv, pel_put. apply list_elem_of_filter. auto.
Qed.
(** An acknowledgement of what is settled. *)
Lemma xack_accounts id r : settled id r → accounts r (xack stream group id r).2.
Proof.
  intros Hid. assert (settled id (xack stream group id r).2) as Hid'.
  { destruct Hid as [?|[(f & ? & ?)|?]]; [left|right; left|right; right]; [by apply (stable_xack (λ r, trimmed r stream id))| |by apply (stable_xack (finished id))].
    exists f. split; [|done]. destruct (xack_law stream group id r) as [->|[-> _]]; done. }
  destruct (xack_law stream group id r) as [Hv|[Hv _]];
    [|apply accounts_same; [intros P ?; by apply (stable_xack P)|done]].
  apply accounts_intro; rewrite ?Hv; [intros P ?; by apply (stable_xack P)|done| |by left].
  intros id' Hin. destruct (decide (id' = id)) as [->|?]; [by right|left].
  rewrite Hv. unfold ack_entry. rewrite pel_put. by apply list_elem_of_filter.
Qed.

#[local] Hint Resolve monotonic_accounts sleep_accounts xgroup_create_accounts hincrby_accounts xadd_accounts
  xreadgroup_accounts xautoclaim_accounts : guar.

Lemma ensure_accounts : guar accounts (ensure_consumer_group stream group).
Proof. unfold ensure_consumer_group. guar_auto. Qed.
Lemma lost_accounts : guar accounts (record_lost_entry stream group).
Proof. unfold record_lost_entry. guar_auto. Qed.
#[local] Hint Resolve ensure_accounts lost_accounts : guar.

(** The read loop, for a caller that accounts for what it is given. *)
Section loop.
Context (consumer : string) (count pending_timeout_ms reclaim_interval_ms : Z) (claim_pending : bool).
Context (k : option (string * fields) → M R signal) (Hk : ∀ e, guar accounts (k e)).
#[local] Hint Resolve Hk : guar.

Lemma each_accounts {A} (f : A → M R signal) l : (∀ x, guar accounts (f x)) → guar accounts (each f l).
Proof.
  intros Hf. induction l as [|x l IH]; cbn; [guar_auto|].
  apply guar_bind; [apply _|done|]. intros []; [done|guar_auto..].
Qed.
Lemma reclaim_accounts fuel cursor :
  guar accounts (reclaim_pending stream group consumer count pending_timeout_ms k fuel cursor).
Proof.
  revert cursor. induction fuel as [|fuel IH]; intros cursor; cbn; [guar_auto|].
  apply guar_bind; [apply _|guar_auto|intros p].
  apply guar_bind; [apply _| |intros []; guar_auto].
  apply each_accounts. intros [id [f|]]; cbn; guar_auto.
Qed.
Lemma read_new_accounts : guar accounts (read_new stream group consumer count k).
Proof.
  unfold read_new. apply guar_bind; [apply _|guar_auto|]. intros [|m l]; [guar_auto|].
  by apply each_accounts.
Qed.
#[local] Hint Resolve reclaim_accounts read_new_accounts : guar.
Lemma iter_turn_accounts fuel next :
  guar accounts (iter_turn stream group consumer count pending_timeout_ms reclaim_interval_ms claim_pending k fuel next).
Proof. unfold iter_turn. guar_auto. Qed.
#[local] Hint Resolve iter_turn_accounts : guar.
Lemma iter_turns_accounts n fuel next :
  guar accounts (iter_turns stream group consumer count pending_timeout_ms reclaim_interval_ms claim_pending k n fuel next).
Proof. revert next. induction n as [|n IH]; intros next; cbn; guar_auto. Qed.
#[local] Hint Resolve iter_turns_accounts : guar.
Lemma iter_entries_accounts n fuel :
  guar accounts (iter_entries stream group consumer count pending_timeout_ms reclaim_interval_ms claim_pending k n fuel).
Proof. unfold iter_entries. guar_auto. Qed.
End loop.

(** An entry is acknowledged after its copy landed, and not before. *)
Lemma reject_accounts isoformat id f failure reason :
  guar accounts (reject_entry isoformat stream group id f failure reason).
Proof.
  apply guar_wp. intros r. unfold reject_entry, quarantine_entry.
  apply wp_bind, wp_bind. pose proof (monotonic_accounts r) as Hnow. unfold wp.
  destruct (monotonic r) as [[now|e] r1]; cbn in *; [|done].
  set (entry := _ :: _). apply wp_on_exception, wp_bind. unfold wp.
  pose proof (xadd_accounts (dlq_stream stream) entry r1) as Hadd.
  pose proof (xadd_law (dlq_stream stream) entry r1) as Hlaw.
  destruct (xadd (dlq_stream stream) entry r1) as [[a|e] r2]; unfold on_ok, wp; cbn in *;
    [|destruct (is_exception e); cbn; by etrans].
  unfold terminal_ack. assert (quarantined id (view r2)) as Hq.
  { destruct Hlaw as [->|[_ []%(λ H, H a)]]; [|done]. exists entry. cbn. split; [set_solver|]. split_and!; reflexivity. }
  pose proof (xack_accounts id r2 (or_intror (or_introl Hq))) as Hack. unfold on_exception, catch.
  destruct (xack stream group id r2) as [[?|e] r3]; cbn in *; [|destruct (is_exception e); cbn]; (etrans; [|done]); by etrans.
Qed.

Lemma in_caller_accounts m : guar accounts m → guar accounts (in_caller m).
Proof. intros Hm. unfold in_caller. guar_auto. Qed.

Section typed.
Context (notify : M R unit) (isoformat : Z → string) (reason_text : list verror → string) (decode_reason : string).
Context `{Adapter V} (body : option (string * V) → M R signal).
Context (Hnotify : guar accounts notify) (Hbody : ∀ m, guar accounts (body m)).
#[local] Hint Resolve Hnotify Hbody reject_accounts : guar.

Lemma typed_step_accounts e :
  guar accounts (typed_step notify isoformat reason_text decode_reason stream group body e).
Proof. apply in_caller_accounts. guar_auto. Qed.
Lemma consume_typed_accounts consumer count pending_timeout_ms reclaim claim_pending n fuel :
  guar accounts (consume_typed notify isoformat reason_text decode_reason stream group consumer count
    pending_timeout_ms reclaim claim_pending body n fuel).
Proof. apply iter_entries_accounts, typed_step_accounts. Qed.
End typed.

Section untyped.
Context (auto_ack : bool) (body : option (string * mapping) → M R signal).
Context (Hbody : ∀ m, guar accounts (body m)).
Context (Hdone : auto_ack = true → ∀ id m r, (body (Some (id, m)) r).1 = Ok Going → finished id (body (Some (id, m)) r).2).

Lemma consume_step_accounts e : guar accounts (consume_step stream group auto_ack body e).
Proof.
  apply in_caller_accounts. destruct e as [[id f]|]; [|apply Hbody].
  apply guar_bind; [apply _|guar_auto|intros data].
  apply guar_wp. intros r. apply wp_bind. pose proof (Hbody (Some (id, data)) r) as Hb.
  unfold wp. specialize (λ Ha, Hdone Ha id data r) as Hfin.
  destruct (body (Some (id, data)) r) as [[s|e] r1]; cbn in *; [|done].
  destruct s; [|done|done]. destruct auto_ack; [|done]. unfold on_ok, wp.
  pose proof (xack_accounts id r1 (or_intror (or_intror (Hfin eq_refl eq_refl)))) as Hack.
  unfold mbind, M_bind. destruct (xack stream group id r1) as [[?|?] r2]; cbn in *; by etrans.
Qed.
Lemma consume_accounts consumer count pending_timeout_ms reclaim claim_pending n fuel :
  guar accounts (consume stream group consumer count pending_timeout_ms reclaim auto_ack claim_pending body n fuel).
Proof. apply iter_entries_accounts, consume_step_accounts. Qed.
End untyped.
End safety.

(** C12 (invariant). A validating consumer drops nothing.  Whatever fails on the way, if
    every entry ever handed to the group is pending, or its consumer finished with it,
    or a copy of it is in the dead-letter stream, or the stream itself trimmed it, then
    so is every entry after any number of turns of the loop, for a caller that
    acknowledges only what it finished with. *)
Theorem typed_consumer_drops_nothing `{RedisLaws R} `{Json} `{Adapter V} stream group finished
    `{!∀ id, Stable (finished id)} notify isoformat reason_text decode_reason consumer count
    pending_timeout_ms reclaim claim_pending (body : option (string * V) → M R signal) n fuel r :
  guar (accounts stream group finished) notify →
  (∀ m, guar (accounts stream group finished) (body m)) →
  nothing_dropped stream group finished r →
  nothing_dropped stream group finished
    (consume_typed notify isoformat reason_text decode_reason stream group consumer count
       pending_timeout_ms reclaim claim_pending body n fuel r).2.
Proof.
  intros Hnotify Hbody. apply accounts_nothing_dropped.
  by apply (consume_typed_accounts stream group finished).
Qed.

(** A consumer that acknowledges for its caller drops nothing either,
    for a caller that has finished with an entry when it comes back for more: one that
    leaves the loop, or raises, keeps its entry pending. *)
Theorem auto_ack_waits_for_the_caller `{RedisLaws R} `{Json} stream group finished
    `{!∀ id, Stable (finished id)} consumer count pending_timeout_ms reclaim auto_ack claim_pending
    (body : option (string * mapping) → M R signal) n fuel r :
  (∀ m, guar (accounts stream group finished) (body m)) →
  (auto_ack = true → ∀ id m r, (body (Some (id, m)) r).1 = Ok Going → finished id (body (Some (id, m)) r).2) →
  nothing_dropped stream group finished r →
  nothing_dropped stream group finished
    (consume stream group consumer count pending_timeout_ms reclaim auto_ack claim_pending body n fuel r).2.
Proof.
  intros Hbody Hdone. apply accounts_nothing_dropped. by apply (consume_accounts stream group finished).
Qed.

(** ** The sweep of the pending entries *)

Section sweep.
Context `{RedisLaws R} (stream group consumer : string) (idle count : Z) `{!SweepLaws R stream group consumer idle count}.
Context (given : string → R → Prop) `{!∀ id, Stable (given id)} (k : option (string * fields) → M R signal).
Abbreviation pel r := (pel stream group (view r)).

Definition reached (x : string) (r : R) : Prop := given x r ∨ trimmed r stream x.
(** Only entries of [S] leave the list or become fresh. *)
Definition spares (S : list string) (r r' : R) : Prop :=
  (∃ D, D ⊆ S ∧ pel r' = filter (.∉ D) (pel r)) ∧
  (∀ x, x ∉ S → stale r stream group idle x → stale r' stream group idle x) ∧
  (∀ x, given x r → given x r') ∧ (∀ x, trimmed r stream x → trimmed r' stream x).
Lemma spares_reached S r r' x : spares S r r' → reached x r → reached x r'.
Proof. intros (_ & _ & ? & ?) [?|?]; [left|right]; auto. Qed.
#[export] Instance spares_preorder S : PreOrder (spares S).
Proof.
  split.
  - intros r. split_and!; [|auto..]. exists []. split; [set_solver|]. symmetry. apply filter_true. set_solver.
  - intros r1 r2 r3 ((D1 & ? & He1) & Hs1 & ? & ?) ((D2 & ? & He2) & Hs2 & ? & ?). split_and!; [|auto..].
    exists (D1 ++ D2). split; [set_solver|]. rewrite He2, He1, list_filter_filter. apply list_filter_iff. set_solver.
Qed.

(** What the caller does with an entry: it goes on, and touches no other entry. *)
Context (k_goes_on : ∀ id f r, (k (Some (id, f)) r).1 = Ok Going)
        (k_given : ∀ id f r, given id (k (Some (id, f)) r).2)
        (k_spares : ∀ id f, guar (spares [id]) (k (Some (id, f)))).

Lemma spares_lost S : guar (spares S) (record_lost_entry stream group) ∧
  ∀ r, (record_lost_entry stream group r).1 = Ok tt.
Proof.
  assert (∀ r, (record_lost_entry stream group r) =
    (Ok tt, (hincrby LOST_ENTRIES_KEY (lost_entry_field stream group) r).2)) as Heq.
  { intros r. unfold record_lost_entry, mbind, M_bind.
    destruct (hincrby_answers LOST_ENTRIES_KEY (lost_entry_field stream group) r) as [n Hn].
    destruct (hincrby _ _ r) as [[?|?] ?]; cbn in *; [done|congruence]. }
  split; [|intros r; by rewrite Heq]. intros r. rewrite Heq. cbn.
  destruct (hincrby_law LOST_ENTRIES_KEY (lost_entry_field stream group) r) as [h Hv].
  split_and!.
  - exists []. split; [set_solver|]. rewrite Hv. symmetry. apply filter_true. set_solver.
  - intros x _. apply hincrby_stale.
  - intros x. apply (stable_hincrby (given x)).
  - intros x. apply (stable_hincrby (λ r, trimmed r stream x)).
Qed.
Lemma spares_subset S S' r r' : S ⊆ S' → spares S r r' → spares S' r r'.
Proof.
  intros Hsub ((D & ? & ?) & Hs & ? & ?). split_and!; [|set_solver|done|done]. exists D. split; [set_solver|done].
Qed.

Lemma each_claimed l S r :
  l.*1 ⊆ S → (∀ x, (x, None) ∈ l → trimmed r stream x) →
  let e := each (claimed_entry stream group k) l r in
  e.1 = Ok Going ∧ spares S r e.2 ∧ ∀ x, x ∈ l.*1 → reached x e.2.
Proof.
  revert r. induction l as [|[id body] l IH]; intros r HS Hnone; cbn.
  { split_and!; [done|reflexivity|by intros ? ?%not_elem_of_nil]. }
  assert (∃ r1, claimed_entry stream group k (id, body) r = (Ok Going, r1) ∧ spares S r r1 ∧ reached id r1)
    as (r1 & Hone & Hsp & Hid).
  { unfold claimed_entry. destruct body as [f|]; cbn.
    - pose proof (k_goes_on id f r) as Hgo. pose proof (k_spares id f r) as Hsp. pose proof (k_given id f r).
      destruct (k (Some (id, f)) r) as [s r1]; cbn in *. exists r1. rewrite Hgo.
      split_and!; [done|eapply spares_subset; [|done]; set_solver|by left].
    - destruct (spares_lost S) as [Hsp Hok]. specialize (Hsp r). specialize (Hok r).
      unfold mbind, M_bind. destruct (record_lost_entry stream group r) as [? r1]; cbn in *. subst. exists r1.
      split_and!; [done|done|]. right. apply Hsp, Hnone. left. }
  unfold mbind, M_bind. rewrite Hone.
  destruct (IH r1) as (Hgo & Hsp' & Hreached); [set_solver| |].
  { intros x Hx. apply Hsp, Hnone. by right. }
  split_and!; [done|by etrans|]. intros x [->|Hx]%elem_of_cons; [by eapply spares_reached|auto].
Qed.

Lemma map_lost S (l : list string) r :
  let m := map_m (λ _, record_lost_entry stream group) l r in (∃ y, m.1 = Ok y) ∧ spares S r m.2.
Proof.
  revert r. induction l as [|x l IH]; intros r; cbn; [split; [eauto|reflexivity]|].
  destruct (spares_lost S) as [Hsp Hok]. specialize (Hsp r). specialize (Hok r). unfold mbind, M_bind.
  destruct (record_lost_entry stream group r) as [? r1]; cbn in *. subst.
  destruct (IH r1) as [[ys Hys] Hsp']. destruct (map_m _ l r1) as [? r2]; cbn in *. subst. cbn.
  split; [eauto|by etrans].
Qed.

Lemma drop_until_at pre x l : x ∉ pre → drop_until x (pre ++ x :: l) = x :: l.
Proof.
  induction pre as [|y pre IH]; cbn; intros Hx; [by rewrite decide_True|].
  rewrite decide_False by set_solver. apply IH. set_solver.
Qed.

(** The page of one XAUTOCLAIM, all of it handled. *)
Lemma one_page fuel cursor pre todo r :
  pel r = pre ++ todo → NoDup (pre ++ todo) → "0-0" ∉ pre ++ todo →
  from cursor (pel r) = todo → (cursor = "0-0" ∨ head todo = Some cursor) →
  ∃ r' seg rest, todo = seg ++ rest ∧ (seg = [] → rest = []) ∧ spares seg r r' ∧
    (∀ x, x ∈ seg → stale r stream group idle x → reached x r') ∧
    reclaim_pending stream group consumer count idle k (S fuel) cursor r =
      match rest with
      | [] => (Ok Going, r')
      | x :: _ => reclaim_pending stream group consumer count idle k fuel x r'
      end.
Proof.
  intros Hpel Hdup Hzero Hfrom Hcursor.
  assert (cursor = "0-0" ∨ cursor ∈ pel r) as Hin.
  { destruct Hcursor as [?|Hhead]; [by left|right]. rewrite Hpel. apply elem_of_app. right.
    destruct todo; [done|]. injection Hhead as ->. left. }
  destruct (autoclaim_page cursor r Hin) as (p & seg & rest & Hp & Hseg & Hnonempty & Hnext & Hclaimed & Hdeleted &
    Hstale & Hnone & Hkept).
  rewrite Hfrom in Hseg. cbn [reclaim_pending]. unfold mbind, M_bind.
  pose proof (xautoclaim_law stream group consumer idle cursor count r) as (dropped & Hview & Htrimmed & Hdropped).
  specialize (Hdropped p Hp).
  assert (spares seg r (xautoclaim stream group consumer idle cursor count r).2) as Hsp0.
  { split_and!.
    - exists dropped. split; [by rewrite Hdropped|]. by rewrite Hview, pel_put.
    - auto.
    - intros x. apply (stable_xautoclaim (given x)).
    - intros x. apply (stable_xautoclaim (λ r, trimmed r stream x)). }
  destruct (xautoclaim stream group consumer idle cursor count r) as [a0 r0]; cbn [fst snd] in *. subst a0.
  destruct (each_claimed (pg_claimed p) seg r0 Hclaimed Hnone) as (Hgo & Hsp1 & Hreached).
  destruct (each _ (pg_claimed p) r0) as [a1 r1]; cbn [fst snd] in *. subst a1.
  destruct (map_lost seg (pg_deleted p) r1) as [[ys Hys] Hsp2].
  destruct (map_m _ (pg_deleted p) r1) as [a2 r2]; cbn [fst snd] in *. subst a2.
  exists r2, seg, rest. split_and!; [done|done|by do 2 etrans| |].
  - intros x Hx Hs. destruct (Hstale x Hx Hs) as [Hc|Hd]; [by eapply spares_reached, Hreached|].
    right. apply Hsp2, Hsp1, Htrimmed. by rewrite Hdropped.
  - rewrite Hnext. destruct rest as [|x rest]; cbn; [by rewrite bool_decide_true by set_solver|].
    rewrite Hseg in Hdup, Hzero, Hcursor. assert (x ∉ pre ++ seg) as Hfresh.
    { rewrite app_assoc in Hdup. apply NoDup_app in Hdup as (_ & Hdup & _). intros Hx. apply (Hdup x Hx). left. }
    rewrite bool_decide_false; [done|]. intros [Hx|Hx%list_elem_of_singleton]%elem_of_cons.
    + apply Hzero. rewrite <-Hx, !elem_of_app, elem_of_cons. auto.
    + destruct Hcursor as [Hc|Hhead].
      * apply Hzero. rewrite <-Hc, <-Hx, !elem_of_app, elem_of_cons. auto.
      * destruct seg as [|y seg]; [by specialize (Hnonempty eq_refl)|]. injection Hhead as Hy.
        apply Hfresh. rewrite Hx, <-Hy, elem_of_app, elem_of_cons. auto.
Qed.

Lemma filter_app_spared (D seg rest l : list string) :
  D ⊆ seg → (∀ x, x ∈ rest → x ∉ seg) → filter (.∉ D) (l ++ rest) = filter (.∉ D) l ++ rest.
Proof. intros HD Hrest. rewrite filter_app. f_equal. apply filter_true. set_solver. Qed.

Lemma sweep_from fuel cursor pre todo r :
  pel r = pre ++ todo → NoDup (pre ++ todo) → "0-0" ∉ pre ++ todo →
  from cursor (pel r) = todo → (cursor = "0-0" ∨ head todo = Some cursor) →
  (length todo < fuel)%nat →
  ∃ r', reclaim_pending stream group consumer count idle k fuel cursor r = (Ok Going, r') ∧
    (∀ x, reached x r → reached x r') ∧
    ∀ x, x ∈ todo → stale r stream group idle x → reached x r'.
Proof.
  revert cursor pre todo r. induction fuel as [|fuel IH]; intros cursor pre todo r Hpel Hdup Hzero Hfrom Hcursor Hlen; [lia|].
  destruct (one_page fuel cursor pre todo r) as (r1 & seg & rest & -> & Hnonempty & Hsp & Hreached & ->); try done.
  destruct rest as [|x rest].
  - exists r1. rewrite app_nil_r. split_and!; [done|by intros x; apply spares_reached with seg|done].
  - assert (seg ≠ []) as Hseg by (intros ->; by specialize (Hnonempty eq_refl)).
    rewrite app_assoc in Hdup. apply NoDup_app in Hdup as Hdup'. destruct Hdup' as (Hdup1 & Hdisj & Hdup2).
    assert (∀ y, y ∈ x :: rest → y ∉ seg) as Hspared by (intros y Hy Hys; apply (Hdisj y); set_solver).
    destruct Hsp as ((D & HD & Hpel1) & Hst & Hgiven) eqn:Hsp'. clear Hsp'.
    assert (∀ y, reached y r → reached y r1) as Hr1 by (intros y; by apply (spares_reached seg)).
    rewrite Hpel, app_assoc, (filter_app_spared D seg) in Hpel1 by done.
    destruct (IH x (filter (.∉ D) (pre ++ seg)) (x :: rest) r1) as (r2 & Hrun & Hmono & Hrest); [done|..].
    + apply NoDup_app. split_and!; [by apply NoDup_filter| |done]. intros y [_ ?]%list_elem_of_filter. by apply Hdisj.
    + intros [[_ ?]%list_elem_of_filter|?]%elem_of_app; apply Hzero; rewrite !elem_of_app in *; naive_solver.
    + rewrite Hpel1. unfold from. rewrite decide_False by (intros ->; apply Hzero; set_solver).
      apply drop_until_at. intros [_ ?]%list_elem_of_filter. by apply (Hdisj x); [|left].
    + by right.
    + rewrite length_app in Hlen. destruct seg; [done|]. cbn in *. lia.
    + exists r2. split_and!; [done| |].
      * intros y Hy. by apply Hmono, Hr1.
      * intros y [Hy|Hy]%elem_of_app Hs; [by apply Hmono, Hreached|]. apply Hrest; [done|]. apply Hst; [by apply Hspared|done].
Qed.
End sweep.

(** C21 (liveness). A sweep leaves no stale entry behind.  On a quiet server, a sweep over
    pending entries of which any number are fresh ends after at most one page more than
    there are entries, and every entry that was stale when it began was given to the
    caller, or is gone from the stream. *)
Theorem sweep_reaches_every_stale_entry `{RedisLaws R} stream group consumer idle count
    `{!SweepLaws R stream group consumer idle count} given `{!∀ id, Stable (given id)}
    (k : option (string * fields) → M R signal) fuel r :
  (∀ id f r, (k (Some (id, f)) r).1 = Ok Going) →
  (∀ id f r, given id (k (Some (id, f)) r).2) →
  (∀ id f, guar (spares stream group idle given [id]) (k (Some (id, f)))) →
  NoDup (pel stream group (view r)) → "0-0" ∉ pel stream group (view r) →
  (length (pel stream group (view r)) < fuel)%nat →
  ∃ r', reclaim_pending stream group consumer count idle k fuel "0-0" r = (Ok Going, r') ∧
    ∀ x, x ∈ pel stream group (view r) → stale r stream group idle x → given x r' ∨ trimmed r' stream x.
Proof.
  intros Hgo Hgiven Hspares Hdup Hzero Hfuel.
  destruct (sweep_from stream group consumer idle count given k Hgo Hgiven Hspares fuel "0-0" []
    (pel stream group (view r)) r) as (r' & Hrun & _ & Hall); try done; [by left|]. eauto.
Qed.

(** ** A consumer, for the witnesses

    It writes down what it has done, and acknowledges it then. *)

#[local] Instance sample_json : Json := {
  json_loads text := if decide (text = "{}") then Ok (DMap []) else Exc ValueError;
  json_dumps _ := "{}" }.
#[local] Instance sample_adapter : Adapter unit := λ d, match d with DMap [] => inl tt | _ => inr [] end.

Definition done_with (id : string) (r : memory) : Prop := is_Some (hash_of "done" (m_contents r) !! id).
Definition write_down (id : string) : M memory unit := hset "done" {[ id := "1" ]}.
Definition sample_body {V} (m : option (string * V)) : M memory signal :=
  match m with Some (id, _) => _ ← write_down id; _ ← xack "s" "g" id; mret Going | None => mret (Left (Ok tt)) end.
Definition noting_body {V} (m : option (string * V)) : M memory signal :=
  match m with Some (id, _) => _ ← write_down id; mret Going | None => mret (Left (Ok tt)) end.
(** Two entries, the first of them no JSON. *)
Definition two_entries : memory :=
  ((_ ← publish_flat "s" [("data", "{")]; publish (R := memory) "s" (DMap [])) empty_memory).2.

#[local] Instance done_with_stable id : Stable (done_with id).
Proof.
  split; intros; try done. unfold done_with, hash_of in *. cbn.
  destruct (decide (k = "done")) as [->|?].
  - rewrite lookup_insert_eq. cbn. destruct (decide (f = id)) as [->|?]; [by rewrite lookup_insert_eq|].
    by rewrite lookup_insert_ne.
  - by rewrite lookup_insert_ne.
Qed.
Lemma write_down_done id r : done_with id (write_down id r).2.
Proof.
  unfold done_with, hash_of. cbn. rewrite lookup_insert_eq. cbn. apply lookup_union_is_Some. left.
  by rewrite lookup_singleton_eq.
Qed.
Lemma write_down_keeps id id' r : done_with id' r → done_with id' (write_down id r).2.
Proof.
  unfold done_with, hash_of. cbn. rewrite lookup_insert_eq. cbn. intros ?. apply lookup_union_is_Some. by right.
Qed.
Lemma write_down_accounts id : guar (accounts "s" "g" done_with) (write_down id).
Proof.
  intros r. split_and!.
  - intros x [?|[?|?]]; [by left|by right; left|right; right; by apply write_down_keeps].
  - intros x [?|[?|[?|?]]]; [by left|right; by left|right; by right; left|].
    right. right. right. by apply write_down_keeps.
  - by left.
Qed.
#[local] Hint Resolve write_down_accounts : guar.
Lemma sample_body_accounts {V} (m : option (string * V)) : guar (accounts "s" "g" done_with) (sample_body m).
Proof.
  destruct m as [[id v]|]; cbn; [|guar_auto]. intros r.
  change (accounts "s" "g" done_with r (xack "s" "g" id (write_down id r).2).2).
  etrans; [apply (write_down_accounts id)|]. apply xack_accounts; [apply _|]. right. right. apply write_down_done.
Qed.
Lemma noting_body_accounts {V} (m : option (string * V)) : guar (accounts "s" "g" done_with) (noting_body m).
Proof. destruct m as [[id v]|]; [|guar_auto]. intros r. exact (write_down_accounts id r). Qed.

Lemma typed_consumer_drops_nothing_witness :
  let run := consume_typed (mret tt) (λ _, "") (λ _, "") "" "s" "g" "c" 10 60000 None true (V := unit) sample_body 2 9 in
  let r := (run two_entries).2 in
  nothing_dropped "s" "g" done_with r ∧
  pel "s" "g" (view r) = [] ∧ length (handed_to "s" "g" (view r)) = 2%nat ∧
  (λ e, e.1) <$> added (view r) = ["s"; "s"; "s:dlq"].
Proof.
  split.
  - apply (typed_consumer_drops_nothing "s" "g" done_with); [guar_auto|apply sample_body_accounts|].
    by intros id ?%not_elem_of_nil.
  - split_and!; by vm_compute.
Defined.

Lemma auto_ack_waits_for_the_caller_witness :
  let run := consume "s" "g" "c" 10 60000 None true false noting_body 2 9 in
  let r := (run two_entries).2 in
  nothing_dropped "s" "g" done_with r ∧ pel "s" "g" (view r) = [] ∧ length (handed_to "s" "g" (view r)) = 2%nat.
Proof.
  split.
  - apply (auto_ack_waits_for_the_caller "s" "g" done_with); [apply noting_body_accounts| |].
    + intros _ id m r _. apply write_down_done.
    + by intros id ?%not_elem_of_nil.
  - split_and!; by vm_compute.
Defined.

(** Both were read, by a consumer that died, and grew stale. *)
Definition left_behind : memory := ((_ ← xreadgroup "s" "g" "dead" 10; sleep 60000) two_entries).2.
Lemma noting_body_spares id (f : fields) : guar (spares "s" "g" 60000 done_with [id]) (noting_body (Some (id, f))).
Proof.
  intros r. split_and!; [|done|by intros x; apply write_down_keeps|done].
  exists []. split; [set_solver|]. symmetry. apply filter_true. set_solver.
Qed.
Lemma sweep_reaches_every_stale_entry_witness :
  pel "s" "g" (view left_behind) = ["1-0"; "2-0"] ∧ stale left_behind "s" "g" 60000 "2-0" ∧
  ∃ r', reclaim_pending "s" "g" "c" 1 60000 noting_body 3 "0-0" left_behind = (Ok Going, r') ∧
    ∀ x, x ∈ pel "s" "g" (view left_behind) → stale left_behind "s" "g" 60000 x → done_with x r' ∨ trimmed r' "s" x.
Proof.
  split; [by vm_compute|]. split; [by vm_compute|].
  apply (sweep_reaches_every_stale_entry "s" "g" "c" 60000 1 done_with).
  - done.
  - intros id f r. apply write_down_done.
  - apply noting_body_spares.
  - vm_compute. repeat constructor; set_solver.
  - vm_compute. set_solver.
  - vm_compute. lia.
Defined.
