(* ===== verification/StreamsTolerance.v ===== *)
(** * StreamsTolerance: what a newer publisher may send

    [validate_tolerating_additions]: a payload is accepted as it is, or without the
    fields that the schema reports as unexpected and complains of nothing else; what
    is validated then differs from the payload by those fields only. *)

From S2P Require Import Prelude Docs Redis Streams.

(** ** Fewer fields *)

(** The second document with some keys of its mappings taken away. *)
Inductive fewer_fields : doc → doc → Prop :=
| fewer_refl d : fewer_fields d d
| fewer_trans d1 d2 d3 : fewer_fields d1 d2 → fewer_fields d2 d3 → fewer_fields d1 d3
| fewer_drop k m : fewer_fields (DMap (drop_key k m)) (DMap m)
| fewer_value k v v' m : lookup_key k m = Some v → fewer_fields v' v → fewer_fields (DMap (put_key k v' m)) (DMap m)
| fewer_item i v v' l : l !! i = Some v → fewer_fields v' v → fewer_fields (DList (<[i := v']> l)) (DList l).
#[export] Instance fewer_fields_preorder : PreOrder fewer_fields.
Proof. split; [exact fewer_refl|exact fewer_trans]. Qed.

Lemma delete_loc_fewer loc d : fewer_fields (delete_loc d loc).1 d.
Proof.
  revert d. induction loc as [|s loc IH]; intros d; [reflexivity|].
  destruct loc as [|s' loc].
  - destruct d, s; cbn; try reflexivity. destruct (has_key _ _); [apply fewer_drop|reflexivity].
  - set (rest := s' :: loc) in *. destruct d as [| | | | |l|m], s as [k|i]; try apply IH.
    + cbn [delete_loc]. destruct (l !! i) as [v|] eqn:Hv; [|apply IH]. specialize (IH v).
      fold rest. destruct (delete_loc v rest) as [v' found]. by eapply fewer_item.
    + cbn [delete_loc]. destruct (lookup_key k m) as [v|] eqn:Hv; [|apply IH]. specialize (IH v).
      fold rest. destruct (delete_loc v rest) as [v' found]. by eapply fewer_value.
Qed.
Lemma delete_at_fewer locs d : fewer_fields (delete_at d locs).1 d.
Proof.
  revert d. induction locs as [|loc locs IH]; intros d; cbn; [reflexivity|].
  pose proof (delete_loc_fewer loc d) as Hd. destruct (delete_loc d loc) as [d' found].
  specialize (IH d'). destruct (delete_at d' locs) as [pruned dropped]. by etrans.
Qed.

(** ** The errors of one candidate *)

Definition errors_of (data : doc) (c : option step) (errors : list verror) : list verror :=
  filter (λ e, candidate_of (ve_loc e) data = c) errors.

Lemma append_at_keys c e l :
  (append_at c e l).*1 = if decide (c ∈ l.*1) then l.*1 else l.*1 ++ [c].
Proof.
  induction l as [|[c' es] l IH]; cbn; [done|]. destruct (decide (c' = c)) as [->|Hne]; cbn.
  - by rewrite decide_True by left.
  - rewrite IH. destruct (decide (c ∈ l.*1)).
    + by rewrite decide_True by (by right).
    + rewrite decide_False; [done|]. by intros [->|?]%elem_of_cons.
Qed.
Lemma append_at_elem c e l c' es :
  NoDup l.*1 → (c', es) ∈ append_at c e l →
  (c' ≠ c ∧ (c', es) ∈ l) ∨ (c' = c ∧ ∃ old, es = old ++ [e] ∧ ((c, old) ∈ l ∨ (old = [] ∧ c ∉ l.*1))).
Proof.
  induction l as [|[c2 es2] l IH]; cbn; intros Hdup.
  - intros [= -> ->]%list_elem_of_singleton. right. split; [done|]. exists []. split; [done|].
    right. split; [done|]. by intros ?%not_elem_of_nil.
  - apply NoDup_cons in Hdup as [Hnew Hdup]. destruct (decide (c2 = c)) as [->|Hne].
    + intros [[= -> ->]|Hin]%elem_of_cons.
      * right. split; [done|]. exists es2. split; [done|]. left. left.
      * left. split; [|by right]. intros ->. apply Hnew. apply list_elem_of_fmap. by exists (c, es).
    + intros [[= -> ->]|Hin]%elem_of_cons; [left; split; [done|left]|].
      destruct (IH Hdup Hin) as [[? ?]|(-> & old & -> & [?|[-> Hold]])].
      * left. split; [done|by right].
      * right. split; [done|]. exists old. split; [done|]. left. by right.
      * right. split; [done|]. exists []. split; [done|]. right. split; [done|].
        intros [->|?]%elem_of_cons; done.
Qed.

Lemma by_candidate_spec data errors :
  NoDup (by_candidate data errors).*1 ∧
  (∀ c es, (c, es) ∈ by_candidate data errors → es = errors_of data c errors) ∧
  (∀ c, c ∈ (by_candidate data errors).*1 ↔ errors_of data c errors ≠ []).
Proof.
  unfold by_candidate. induction errors as [|e errors (Hdup & Hes & Hkeys)] using rev_ind.
  { split_and!; [constructor|by intros ?? ?%not_elem_of_nil|]. intros c. cbn. rewrite elem_of_nil. done. }
  rewrite foldl_app. cbn [foldl]. set (l := foldl _ [] errors) in *. set (c0 := candidate_of (ve_loc e) data).
  assert (∀ c, errors_of data c (errors ++ [e]) = errors_of data c errors ++ (if decide (c0 = c) then [e] else [])) as Happ.
  { intros c. unfold errors_of. by rewrite filter_app. }
  split_and!.
  - rewrite append_at_keys. case_decide; [done|]. apply NoDup_app. split_and!; [done| |by apply NoDup_singleton].
    intros x Hx ->%list_elem_of_singleton. done.
  - intros c es Hin. rewrite Happ. apply append_at_elem in Hin as [[Hne Hin]|(-> & old & -> & Hold)]; [..|done].
    + rewrite decide_False by done. rewrite app_nil_r. by apply Hes.
    + rewrite decide_True by done. f_equal. destruct Hold as [?|[-> Hno]]; [by apply Hes|].
      rewrite Hkeys in Hno. by destruct (errors_of data c0 errors); [|destruct Hno].
  - intros c. rewrite append_at_keys, Happ. case_decide as Hin.
    + rewrite Hkeys. case_decide as Hc; [|by rewrite app_nil_r]. subst c. apply Hkeys in Hin.
      split; [|done]. intros _ ?%app_eq_nil. naive_solver.
    + rewrite elem_of_app, Hkeys, list_elem_of_singleton. case_decide as Hc; [|rewrite app_nil_r; naive_solver].
      subst c. split; [intros _ [_ [=]]%app_eq_nil|auto].
Qed.

(** ** What is forgiven *)

(** A candidate that complains of unexpected fields and of nothing else, and the payload
    without them. *)
Definition forgives (data : doc) (errors : list verror) (p : doc * list string) : Prop :=
  is_container data = true ∧ (∀ e, e ∈ errors → ve_loc e ≠ []) ∧
  ∃ c, errors_of data c errors ≠ [] ∧ (∀ e, e ∈ errors_of data c errors → ve_type e = "extra_forbidden") ∧
    delete_at data (ve_loc <$> errors_of data c errors) = p ∧ p.2 ≠ [].

Lemma pruning_of_Some data c es p :
  pruning_of data (c, es) = Some p ↔
  (∀ e, e ∈ es → ve_type e = "extra_forbidden") ∧ delete_at data (ve_loc <$> es) = p ∧ p.2 ≠ [].
Proof.
  unfold pruning_of. cbn [snd]. destruct (existsb _ es) eqn:Hex.
  - split; [done|]. intros [Hall _]. apply existsb_exists in Hex as (e & Hin%list_elem_of_In & He).
    by rewrite bool_decide_true in He by auto.
  - assert (∀ e, e ∈ es → ve_type e = "extra_forbidden") as Hall.
    { intros e Hin. apply dec_stable. intros Hne. apply not_true_iff_false in Hex. apply Hex, existsb_exists.
      exists e. rewrite <-list_elem_of_In. by rewrite bool_decide_false. }
    destruct (delete_at _ _) as [pruned [|name dropped]]; (split; [intros [= <-]|intros (_ & <- & ?)]); done.
Qed.
Lemma prunings_iff data errors p : p ∈ unexpected_field_prunings data errors ↔ forgives data errors p.
Proof.
  unfold unexpected_field_prunings, forgives. destruct (by_candidate_spec data errors) as (_ & Hes & Hkeys).
  case_bool_decide as He; cbn.
  { split; [by intros ?%not_elem_of_nil|]. subst. by intros (_ & _ & c & [] & _). }
  destruct (is_container data) eqn:Hdata; cbn; [|split; [by intros ?%not_elem_of_nil|by intros []]].
  destruct (existsb _ errors) eqn:Hex.
  { split; [by intros ?%not_elem_of_nil|]. intros (_ & Hloc & _).
    apply existsb_exists in Hex as (e & Hin%list_elem_of_In & Hnil%bool_decide_eq_true). by apply Hloc in Hin. }
  assert (∀ e, e ∈ errors → ve_loc e ≠ []) as Hloc.
  { intros e Hin Hnil. apply not_true_iff_false in Hex. apply Hex, existsb_exists. exists e.
    rewrite <-list_elem_of_In. by rewrite bool_decide_true. }
  rewrite list_elem_of_omap. split.
  - intros ([c es] & Hin & Hp%pruning_of_Some). rewrite (Hes c es Hin) in Hp. split_and!; [done|done|].
    exists c. split; [|done]. apply Hkeys, list_elem_of_fmap. by exists (c, es).
  - intros (_ & _ & c & Hne & Hp). apply Hkeys, list_elem_of_fmap in Hne as ([c' es] & -> & Hin).
    exists (c', es). split; [done|]. apply pruning_of_Some. by rewrite (Hes _ _ Hin).
Qed.

Lemma first_valid_Some `{Adapter V} l v dropped :
  first_valid l = Some (v, dropped) → ∃ pruned, (pruned, dropped) ∈ l ∧ validate_python pruned = inl v.
Proof.
  induction l as [|[d names] l IH]; [done|]. cbn. destruct (validate_python d) eqn:Hd.
  - intros [= -> ->]. exists d. split; [left|done].
  - intros (pruned & ? & ?)%IH. exists pruned. split; [by right|done].
Qed.
Lemma first_valid_None `{Adapter V} l pruned dropped v :
  first_valid l = None → (pruned, dropped) ∈ l → validate_python pruned ≠ inl v.
Proof.
  induction l as [|[d names] l IH]; [by intros _ ?%not_elem_of_nil|]. cbn.
  destruct (validate_python d) eqn:Hd; [done|]. intros Hl [[= -> ->]|?]%elem_of_cons; [congruence|auto].
Qed.

(** Only fields the schema does not know are forgiven.  A payload is
    accepted as it came, with nothing dropped; or, when the schema refuses it, without
    some keys, dropped because one member of the schema complained that they are
    unexpected and of nothing else, and what is left is valid.  It is refused, with the
    errors of the payload as it came, exactly when no such member makes it valid. *)
Theorem only_unexpected_fields_are_forgiven `{Adapter V} data :
  match validate_tolerating_additions data with
  | inl (v, []) => validate_python data = inl v
  | inl (v, dropped) => ∃ errors pruned, validate_python data = inr errors ∧
      forgives data errors (pruned, dropped) ∧ fewer_fields pruned data ∧ validate_python pruned = inl v
  | inr errors => validate_python data = inr errors ∧
      ∀ pruned dropped v, forgives data errors (pruned, dropped) → validate_python pruned ≠ inl v
  end.
Proof.
  unfold validate_tolerating_additions. destruct (validate_python data) as [v|errors] eqn:Hdata; [done|].
  destruct (first_valid _) as [[v dropped]|] eqn:Hfirst.
  - apply first_valid_Some in Hfirst as (pruned & Hin%prunings_iff & Hv).
    assert (fewer_fields pruned data) as Hfewer.
    { destruct Hin as (_ & _ & c & _ & _ & Hdel & _). pose proof (delete_at_fewer (ve_loc <$> errors_of data c errors) data).
      by rewrite Hdel in H0. }
    destruct dropped as [|name dropped]; [|by exists errors, pruned].
    by destruct Hin as (_ & _ & c & _ & _ & _ & []).
  - split; [done|]. intros pruned dropped v Hin%prunings_iff. by eapply first_valid_None.
Qed.
