(* ===== verification/BotAccess.v ===== *)
(** * BotAccess: who a deployed bot lets in

    [shared/contracts/bot_access.py]: the audience a project chose, the one test
    identity a QA run borrows, and the admission rule of the generated bot.  Text
    is ASCII here. *)

From Stdlib Require Import Ascii.
From S2P Require Import Prelude Vocabulary Contracts Docs Db.

Definition BOT_AUDIENCE_ENV_KEY : string := "TG_BOT_ALLOWED_TELEGRAM_IDS".
Definition TEST_IDENTITY_ENV_KEY : string := "TG_BOT_TEST_TELEGRAM_ID".
Definition QA_TEST_TELEGRAM_ID : Z := 8202532144.

(** ** [int(s)] on stripped text *)

Definition digit_value (c : ascii) : option Z :=
  let n := Z.of_N (N_of_ascii c) in if (48 <=? n) && (n <=? 57) then Some (n - 48) else None.

(** Digits, single underscores only between two of them. *)
Fixpoint digits (acc : Z) (l : list ascii) : option Z :=
  match l with
  | [] => Some acc
  | c :: l' =>
      match digit_value c with
      | Some d => digits (acc * 10 + d) l'
      | None =>
          if Ascii.eqb c "_" then
            match l' with
            | c' :: l'' =>
                match digit_value c' with Some d => digits (acc * 10 + d) l'' | None => None end
            | [] => None
            end
          else None
      end
  end.

Definition number (l : list ascii) : option Z :=
  match l with
  | c :: l' => match digit_value c with Some d => digits d l' | None => None end
  | [] => None
  end.

Definition int_of_chars (l : list ascii) : option Z :=
  match l with
  | c :: l' =>
      if Ascii.eqb c "-" then Z.opp <$> number l'
      else if Ascii.eqb c "+" then number l'
      else number l
  | [] => None
  end.

(** [int(chunk.strip())], [None] where it raises [ValueError]. *)
Definition int_of_chunk (chunk : list ascii) : option Z :=
  int_of_chars (rev (drop_space (rev (drop_space chunk)))).

(** [value.split(",")]. *)
Fixpoint split_comma (l : list ascii) : list (list ascii) :=
  match l with
  | [] => [[]]
  | c :: l' =>
      let rest := split_comma l' in
      if Ascii.eqb c "," then [] :: rest
      else match rest with chunk :: chunks => (c :: chunk) :: chunks | [] => [[c]] end
  end.

(** ** The rule *)

Definition parse_allowed_telegram_ids (value_ : string) : gset Z :=
  list_to_set (omap int_of_chunk (split_comma (String.list_ascii_of_string value_))).

Definition bot_admits (audience test_identity : string) (telegram_id : Z) : bool :=
  let allowed := parse_allowed_telegram_ids audience in
  if decide (allowed = ∅) then true
  else if decide (telegram_id ∈ allowed) then true
  else bool_decide (telegram_id ∈ parse_allowed_telegram_ids test_identity).

(** [project_bot_audience]. *)
Definition project_bot_audience (config : mapping) : string :=
  match get "bot_access" config with
  | DMap fields => match get "allowed_telegram_ids" fields with DStr s => s | _ => "" end
  | _ => ""
  end.

(** ** Written out and read back *)

(** [",".join(str(i) for i in ids)], as an audience is written. *)
Definition audience_of (ids : list Z) : string :=
  String.concat "," (pretty <$> ids).

Example junk_is_ignored : parse_allowed_telegram_ids " 42,abc,,-7, 1_000,1__0 " = {[ 42; -7; 1000 ]}.
Proof. by vm_compute. Qed.
Example no_ids_is_public : bot_admits "abc, ," "" 1 = true.
Proof. by vm_compute. Qed.

Abbreviation chars s := (String.list_ascii_of_string s).

Lemma digit_value_char d : (d < 10)%N → digit_value (pretty_N_char d) = Some (Z.of_N d).
Proof.
  intros Hd. assert (d = 0 ∨ d = 1 ∨ d = 2 ∨ d = 3 ∨ d = 4 ∨ d = 5 ∨ d = 6 ∨ d = 7 ∨ d = 8 ∨ d = 9)%N
    as Hd' by lia. by repeat destruct Hd' as [->|Hd']; [..|subst].
Qed.

Lemma number_pretty_go x s : (0 < x)%N → number (chars (pretty_N_go x s)) = digits (Z.of_N x) (chars s).
Proof.
  revert s. induction (N.lt_wf_0 x) as [x _ IH]. intros s Hx. rewrite pretty_N_go_step by done.
  assert (x `mod` 10 < 10)%N as Hm by (apply N.mod_lt; lia).
  pose proof (N.div_mod x 10 ltac:(lia)) as Hdm.
  destruct (decide (x `div` 10 = 0)%N) as [H0|H0].
  - rewrite H0, pretty_N_go_0. cbn. rewrite digit_value_char by done. f_equal. lia.
  - rewrite IH; [|by apply N.div_lt; lia|lia]. cbn. rewrite digit_value_char by done. f_equal. lia.
Qed.

(** What [str] of an integer is made of. *)
Definition plain (c : ascii) : Prop := is_space c = false ∧ c ≠ ","%char.

Lemma plain_digit d : (d < 10)%N → plain (pretty_N_char d) ∧ pretty_N_char d ≠ "-"%char ∧ pretty_N_char d ≠ "+"%char.
Proof.
  intros Hd. assert (d = 0 ∨ d = 1 ∨ d = 2 ∨ d = 3 ∨ d = 4 ∨ d = 5 ∨ d = 6 ∨ d = 7 ∨ d = 8 ∨ d = 9)%N
    as Hd' by lia. by repeat destruct Hd' as [->|Hd']; [..|subst].
Qed.

Lemma plain_pretty_go x s : Forall plain (chars s) → Forall plain (chars (pretty_N_go x s)).
Proof.
  revert s. induction (N.lt_wf_0 x) as [x _ IH]. intros s Hs.
  destruct (decide (x = 0)%N) as [->|Hx]; [by rewrite pretty_N_go_0|].
  rewrite pretty_N_go_step by lia. apply IH; [by apply N.div_lt; lia|]. cbn. constructor; [|done].
  apply plain_digit, N.mod_lt. lia.
Qed.
Lemma plain_pretty_N (x : N) : Forall plain (chars (pretty x)).
Proof. unfold pretty, pretty_N. case_decide; [by repeat constructor|by apply plain_pretty_go]. Qed.
Lemma plain_pretty (n : Z) : Forall plain (chars (pretty n)).
Proof.
  destruct n; [by repeat constructor|apply plain_pretty_N|]. cbn. constructor; [done|apply plain_pretty_N].
Qed.

Lemma number_pretty_N (x : N) : number (chars (pretty x)) = Some (Z.of_N x).
Proof.
  unfold pretty, pretty_N. case_decide; [by subst|]. by rewrite number_pretty_go by lia.
Qed.

Lemma int_of_pretty (n : Z) : int_of_chars (chars (pretty n)) = Some n.
Proof.
  assert (∀ x : N, int_of_chars (chars (pretty x)) = Some (Z.of_N x)) as HN.
  { intros x. rewrite <-number_pretty_N. pose proof (number_pretty_N x) as Hn.
    unfold int_of_chars. destruct (chars (pretty x)) as [|c l]; [done|].
    destruct (Ascii.eqb_spec c "-"%char) as [->|]; [done|].
    by destruct (Ascii.eqb_spec c "+"%char) as [->|]. }
  destruct n as [|p|p]; [done|exact (HN (N.pos p))|].
  change (Z.opp <$> number (chars (pretty (N.pos p))) = Some (Z.neg p)). by rewrite number_pretty_N.
Qed.

Lemma drop_space_plain l : Forall plain l → drop_space l = l.
Proof. intros Hl. destruct Hl as [|c l [Hc _] _]; [done|]. cbn. by rewrite Hc. Qed.

Lemma int_of_chunk_pretty (n : Z) : int_of_chunk (chars (pretty n)) = Some n.
Proof.
  unfold int_of_chunk. rewrite (drop_space_plain (chars (pretty n))) by apply plain_pretty.
  rewrite drop_space_plain by (apply Forall_rev, plain_pretty). rewrite rev_involutive. apply int_of_pretty.
Qed.

Lemma split_comma_app l rest : Forall plain l → split_comma (l ++ ","%char :: rest) = l :: split_comma rest.
Proof.
  induction 1 as [|c l [_ Hc] _ IH]; [done|]. cbn [app split_comma].
  rewrite IH. by destruct (Ascii.eqb_spec c ","%char).
Qed.
Lemma split_comma_plain l : Forall plain l → split_comma l = [l].
Proof.
  induction 1 as [|c l [_ Hc] _ IH]; [done|]. cbn. rewrite IH. by destruct (Ascii.eqb_spec c ","%char).
Qed.

Lemma chars_app s t : chars (s +:+ t) = chars s ++ chars t.
Proof. induction s as [|c s IH]; [done|]. change (c :: chars (s +:+ t) = c :: chars s ++ chars t). by rewrite IH. Qed.

Lemma split_audience i ids :
  split_comma (chars (audience_of (i :: ids))) = (λ n, chars (pretty n)) <$> (i :: ids).
Proof.
  revert i. induction ids as [|j ids IH]; intros i; [by apply split_comma_plain, plain_pretty|].
  change (audience_of (i :: j :: ids)) with (pretty i +:+ "," +:+ audience_of (j :: ids)).
  rewrite !chars_app. cbn [chars app]. rewrite split_comma_app by apply plain_pretty. by rewrite IH.
Qed.

Lemma parse_audience ids : parse_allowed_telegram_ids (audience_of ids) = list_to_set ids.
Proof.
  destruct ids as [|i ids]; [done|]. unfold parse_allowed_telegram_ids. rewrite split_audience.
  f_equal. induction (i :: ids) as [|j l IH]; [done|]. cbn. rewrite int_of_chunk_pretty. by f_equal.
Qed.

(**  An audience reads back as it was written: the ids of a
    comma-separated list, negative ones too, are exactly the ids it enables.  So a
    bot deployed with a written audience and one test identity lets in exactly the
    audience and that identity, or everybody where the audience is empty. *)
Theorem written_audience_is_what_the_bot_admits ids id x :
  parse_allowed_telegram_ids (audience_of ids) = list_to_set ids ∧
  (bot_admits (audience_of ids) (pretty id) x = true ↔ ids = [] ∨ x ∈ ids ∨ x = id) ∧
  (bot_admits (audience_of ids) "" x = true ↔ ids = [] ∨ x ∈ ids).
Proof.
  assert (parse_allowed_telegram_ids (pretty id) = {[id]}) as Hid.
  { rewrite <-(right_id_L ∅ (∪) {[id]}). exact (parse_audience [id]). }
  split; [apply parse_audience|]. unfold bot_admits. rewrite parse_audience, Hid.
  assert (list_to_set (C:=gset Z) ids = ∅ ↔ ids = []) as Hemp.
  { destruct ids; [done|]. split; [|done]. set_solver. }
  split; (case_decide as H1; [by rewrite Hemp in H1; intuition|]; rewrite Hemp in H1).
  all: case_decide; [by rewrite elem_of_list_to_set in *; intuition|]; rewrite bool_decide_eq_true.
  - rewrite elem_of_list_to_set in *. rewrite elem_of_singleton. intuition congruence.
  - rewrite elem_of_list_to_set in *. split; [|intuition congruence]. by intros ?%elem_of_empty.
Qed.
