(* ===== verification/Broker.v ===== *)
(** * Broker: what a worker's credential may ask of the control plane

    [shared/contracts/worker_control_plane.py], [services/worker-broker], and the
    endpoint of the worker manager behind it.  The broker keeps a record of each
    worker it was told of; every route of a worker authenticates the credential
    against that record and authorizes the operation by the type recorded in it. *)

From Stdlib Require Import Ascii.
From S2P Require Import Prelude Vocabulary Contracts Db Docs Redis Streams BotAccess.

(** ** Authorization *)

Module WorkerType.
Inductive t : Set := DEVELOPER | QA.
#[global] Instance eq_dec : EqDecision t.
Proof. solve_decision. Defined.
Definition value (a : t) : string := match a with DEVELOPER => "developer" | QA => "qa" end.
Definition members : list t := [DEVELOPER; QA].
#[global] Instance str_enum : StrEnum t.
Proof. enum_instance value members. Defined.
End WorkerType.

Module WorkerControlPlaneOperation.
Inductive t : Set :=
  | INPUT_LEASE | OUTPUT_SUBMIT | STATUS_UPDATE | SESSION_READ | SESSION_WRITE | SESSION_CLEAR | INFRA_COMPOSE.
#[global] Instance eq_dec : EqDecision t.
Proof. solve_decision. Defined.
Definition value (a : t) : string :=
  match a with
  | INPUT_LEASE => "input.lease"
  | OUTPUT_SUBMIT => "output.submit"
  | STATUS_UPDATE => "status.update"
  | SESSION_READ => "session.read"
  | SESSION_WRITE => "session.write"
  | SESSION_CLEAR => "session.clear"
  | INFRA_COMPOSE => "infra.compose"
  end.
Definition members : list t :=
  [INPUT_LEASE; OUTPUT_SUBMIT; STATUS_UPDATE; SESSION_READ; SESSION_WRITE; SESSION_CLEAR; INFRA_COMPOSE].
#[global] Instance str_enum : StrEnum t.
Proof. enum_instance value members. Defined.
End WorkerControlPlaneOperation.
Import WorkerControlPlaneOperation.

Definition TURN_PROTOCOL_OPERATIONS : list WorkerControlPlaneOperation.t :=
  [INPUT_LEASE; OUTPUT_SUBMIT; STATUS_UPDATE; SESSION_READ; SESSION_WRITE; SESSION_CLEAR].
Definition DOCKER_DAEMON_OPERATIONS : list WorkerControlPlaneOperation.t := [INFRA_COMPOSE].
Definition WORKER_TYPE_CONTROL_PLANE_ALLOWLIST (w : WorkerType.t) : list WorkerControlPlaneOperation.t :=
  match w with
  | WorkerType.DEVELOPER => WorkerControlPlaneOperation.members
  | WorkerType.QA => TURN_PROTOCOL_OPERATIONS
  end.

(** Why the operation is refused, or [None]. *)
Definition control_plane_denial (recorded_worker_type : option string) (op : WorkerControlPlaneOperation.t)
    : option string :=
  match recorded_worker_type ≫= member_of (A := WorkerType.t) with
  | None => Some "worker type is not recorded for this worker"
  | Some worker_type =>
      if bool_decide (op ∈ WORKER_TYPE_CONTROL_PLANE_ALLOWLIST worker_type) then None
      else Some ("a " +:+ WorkerType.value worker_type +:+ " worker may not call " +:+ WorkerControlPlaneOperation.value op)
  end.

(** ** Credentials *)

Definition credential_key (worker_id : string) : string := "worker:broker:" +:+ worker_id.
Definition active_turn_key (worker_id : string) : string := "worker:active-turn:" +:+ worker_id.
Definition session_key (worker_id : string) : string := "worker:session:" +:+ worker_id.
Definition status_key (worker_id : string) : string := "worker:status:" +:+ worker_id.
Definition meta_key (worker_id : string) : string := "worker:meta:" +:+ worker_id.

Definition token_digest `{Sha256} (token : string) : string := sha256_hexdigest token.
Definition verify_token `{Sha256} (token : string) (expected_digest : option string) : bool :=
  match nonempty_text expected_digest with Some d => bool_decide (token_digest token = d) | None => false end.

Record Registration := mkRegistration {
  reg_worker_id : string; reg_token : string; reg_worker_type : WorkerType.t;
  reg_input_stream : string; reg_output_stream : string; reg_consumer_group : string;
  reg_session_ttl_seconds : Z }.
Definition Registration_valid (r : Registration) : bool :=
  (32 <=? Z.of_nat (String.length (reg_token r))) && (0 <? reg_session_ttl_seconds r).

(** [WorkerActiveTurn]: the moments as texts of ISO 8601. *)
Record WorkerActiveTurn := mkTurn {
  wt_worker_id : string; wt_attempt_id : string; wt_request_id : string; wt_lease_id : string;
  wt_started_at : string; wt_deadline_at : string }.
Definition as_redis_fields (t : WorkerActiveTurn) : gmap string string :=
  {[ "worker_id" := wt_worker_id t; "attempt_id" := wt_attempt_id t; "request_id" := wt_request_id t;
     "lease_id" := wt_lease_id t; "started_at" := wt_started_at t; "deadline_at" := wt_deadline_at t ]}.
Definition turn_valid (t : WorkerActiveTurn) : bool :=
  forallb (λ s, negb (bool_decide (s = "")))
    [wt_worker_id t; wt_attempt_id t; wt_request_id t; wt_lease_id t].

Section broker.
Context `{RedisServer R} `{Json} `{Sha256} `{PyRepr}.
(** [datetime.isoformat] of an instant in seconds, and what reads it. *)
Context (isoformat : Z → string) (is_datetime : string → bool).
(** [parse_worker_result(...).model_dump]: pydantic's. *)
Context (parse_worker_result : doc → res doc).
Context (BROKER_INTERNAL_TOKEN : string).
(** The call to the worker manager: its status, and its body. *)
Context (forward : string → doc → string → M R (Z * doc)).

(** [from_redis_fields] *)
Definition turn_of_fields (h : gmap string string) : res (option WorkerActiveTurn) :=
  if decide (h = ∅) then Ok None
  else match h !! "worker_id", h !! "attempt_id", h !! "request_id", h !! "lease_id",
             h !! "started_at", h !! "deadline_at" with
       | Some w, Some a, Some q, Some l, Some s, Some d =>
           let t := mkTurn w a q l s d in
           if decide (size h = 6%nat) then
             if turn_valid t && is_datetime s && is_datetime d then Ok (Some t) else Exc ValidationError
           else Exc ValidationError
       | _, _, _, _, _, _ => Exc ValidationError
       end.

(** [int(x)] of a field of a payload. *)
Definition py_int (v : doc) : res Z :=
  match v with
  | DInt z => Ok z
  | DBool b => Ok (if b then 1 else 0)
  | DFloat f => trunc64 f
  | DStr s => match int_of_chunk (String.list_ascii_of_string s) with Some n => Ok n | None => Exc ValueError end
  | _ => Exc TypeError
  end.

(** A record for the payload of an engineering turn, and for no other. *)
Definition active_turn (worker_id lease_id : string) (data : doc) (now : Z) : res (option WorkerActiveTurn) :=
  match data with
  | DMap m =>
      if is_null (get "attempt_id" m) || is_null (get "turn_deadline_seconds" m) then Ok None
      else if is_null (get "request_id" m) then Ok None
      else match py_int (get "turn_deadline_seconds" m) with
           | Ok deadline_seconds =>
               if deadline_seconds <=? 0 then Exc (HTTPException 422)
               else
                 let t := mkTurn worker_id (py_str (get "attempt_id" m)) (py_str (get "request_id" m)) lease_id
                            (isoformat now) (isoformat (now + deadline_seconds)) in
                 if turn_valid t then Ok (Some t) else Exc ValidationError
           | Exc TypeError | Exc ValueError => Exc (HTTPException 422)
           | Exc e => Exc e
           end
  | _ => Exc AttributeError
  end.

(** [_worker]: the record of the worker, or a refusal. *)
Definition authenticate (worker_id : string) (token : option string) (op : WorkerControlPlaneOperation.t)
    : M R (gmap string string) :=
  match nonempty_text token with
  | None => raise (HTTPException 401)
  | Some token =>
      metadata ← hgetall (credential_key worker_id);
      _ ← guard_not (negb (verify_token token (metadata !! "token_digest"))) (HTTPException 403);
      match control_plane_denial (metadata !! "worker_type") op with
      | Some _ => raise (HTTPException 403)
      | None => mret metadata
      end
  end.
Definition internal (token : option string) : M R unit :=
  guard_not (match nonempty_text token with
             | Some t => negb (bool_decide (t = BROKER_INTERNAL_TOKEN))
             | None => true
             end) (HTTPException 403).
Definition subscript_field (h : gmap string string) (k : string) : M R string := some_or KeyError (h !! k).
Definition int_field (h : gmap string string) (k : string) : M R Z :=
  text ← subscript_field h k;
  some_or ValueError (int_of_chunk (String.list_ascii_of_string text)).

(** ** The routes *)

Inductive response :=
| NoContent
| Lease (lease_id : string) (data : doc)
| Done
| SessionId (session_id : option string)
| Forwarded (status : Z) (body : doc).

Definition register_worker (r : Registration) (token : option string) : M R response :=
  _ ← internal token;
  _ ← hset (credential_key (reg_worker_id r))
        {[ "token_digest" := token_digest (reg_token r); "worker_type" := WorkerType.value (reg_worker_type r);
           "input_stream" := reg_input_stream r; "output_stream" := reg_output_stream r;
           "consumer_group" := reg_consumer_group r; "session_ttl_seconds" := pretty (reg_session_ttl_seconds r) ]};
  _ ← ensure_consumer_group (reg_input_stream r) (reg_consumer_group r);
  mret Done.
Definition unregister_worker (worker_id : string) (token : option string) : M R response :=
  _ ← internal token;
  _ ← redis_delete [credential_key worker_id; session_key worker_id; active_turn_key worker_id];
  mret Done.

(** The fields of an entry, or the JSON of its only field [data]. *)
Definition decode_input (f : fields) : res doc :=
  match f with
  | [("data", text)] => match json_loads text with Ok d => Ok d | Exc ValueError => Exc (HTTPException 422) | Exc e => Exc e end
  | _ => Ok (DMap (field_map f))
  end.
Definition lease_input (worker_id : string) (token : option string) : M R response :=
  metadata ← authenticate worker_id token INPUT_LEASE;
  group ← subscript_field metadata "consumer_group";
  stream ← subscript_field metadata "input_stream";
  entries ← xreadgroup stream group worker_id 1;
  match entries with
  | [] => mret NoContent
  | (lease_id, f) :: _ =>
      decoded ← of_res (decode_input f);
      now ← monotonic;
      turn ← of_res (active_turn worker_id lease_id decoded now);
      _ ← (match turn with
           | Some t => hset (active_turn_key worker_id) (as_redis_fields t)
           | None => mret tt
           end);
      mret (Lease lease_id decoded)
  end.

Definition submit_output (worker_id lease_id : string) (result : doc) (token : option string) : M R response :=
  metadata ← authenticate worker_id token OUTPUT_SUBMIT;
  result ← of_res (parse_worker_result result);
  output_stream ← subscript_field metadata "output_stream";
  _ ← xadd output_stream [("data", json_dumps result)];
  input_stream ← subscript_field metadata "input_stream";
  group ← subscript_field metadata "consumer_group";
  _ ← xack input_stream group lease_id;
  recorded ← hgetall (active_turn_key worker_id);
  turn ← of_res (turn_of_fields recorded);
  _ ← (match turn with
       | Some t => if decide (wt_lease_id t = lease_id) then redis_delete [active_turn_key worker_id] else mret tt
       | None => mret tt
       end);
  mret Done.

Definition update_status (worker_id : string) (values : gmap string string) (token : option string) : M R response :=
  _ ← authenticate worker_id token STATUS_UPDATE;
  _ ← hset (status_key worker_id) values;
  mret Done.
Definition get_session (worker_id : string) (token : option string) : M R response :=
  metadata ← authenticate worker_id token SESSION_READ;
  value ← redis_get (session_key worker_id);
  _ ← (match nonempty_text value with
       | Some _ => ttl ← int_field metadata "session_ttl_seconds"; redis_expire (session_key worker_id) ttl
       | None => mret tt
       end);
  mret (SessionId value).
Definition set_session (worker_id session_id : string) (token : option string) : M R response :=
  metadata ← authenticate worker_id token SESSION_WRITE;
  ttl ← int_field metadata "session_ttl_seconds";
  _ ← redis_set (session_key worker_id) session_id ttl;
  mret Done.
Definition clear_session (worker_id : string) (token : option string) : M R response :=
  _ ← authenticate worker_id token SESSION_CLEAR;
  _ ← redis_delete [session_key worker_id];
  mret Done.
Definition compose (worker_id : string) (request : doc) (token : option string) : M R response :=
  _ ← authenticate worker_id token INFRA_COMPOSE;
  '(status, body) ← forward worker_id request (default "" token);
  mret (Forwarded status body).

(** ** The records of before the type was recorded *)

(** [backfill_pre_cutover_worker_type] over the keys that [scan_iter] yields. *)
Definition WORKER_TYPE_FIELD : string := "worker_type".
Definition PRE_CUTOVER_WORKER_TYPE : WorkerType.t := WorkerType.DEVELOPER.
Definition backfill_pre_cutover_worker_type (keys : list string) : M R Z :=
  fold_m (λ migrated name,
      recorded ← hget name WORKER_TYPE_FIELD;
      match recorded with
      | Some _ => mret migrated
      | None => _ ← hset name {[ WORKER_TYPE_FIELD := WorkerType.value PRE_CUTOVER_WORKER_TYPE ]}; mret (migrated + 1)
      end) 0 keys.

(** ** The endpoint of the worker manager *)

(** [run_compose]: authenticated against the broker's record, authorized by the
    manager's own; [runner] is [ComposeRunner.run] with the stored workspace. *)
Definition run_compose {A} (runner : option string → M R A) (worker_id : string) (token : option string) : M R A :=
  broker_metadata ← hgetall (credential_key worker_id);
  _ ← guard_not (negb (verify_token (default "" token) (broker_metadata !! "token_digest"))) (HTTPException 403);
  meta ← hgetall (meta_key worker_id);
  match control_plane_denial (meta !! "worker_type") INFRA_COMPOSE with
  | Some _ => raise (HTTPException 403)
  | None =>
      catch (runner (meta !! "workspace_path"))
        (λ e, raise (match e with ValueError => HTTPException 400 | e => e end))
  end.
End broker.
