(* ===== verification/BrokerSafety.v ===== *)
(** * BrokerSafety: the boundary of a worker's credential

    A request that its recorded type does not allow does nothing at all; no request of a
    worker changes its own record; a QA executor never reaches the Docker daemon; a
    lease is given back after its result landed, and not before. *)

From S2P Require Import Prelude Vocabulary Contracts Docs Redis RedisMemory Streams BotAccess Broker.
Import WorkerControlPlaneOperation.

(** ** The decision *)

Lemma denial_of_unrecorded op : is_Some (control_plane_denial None op).
Proof. by eexists. Qed.

(** The decision fails closed.  An operation is allowed to a worker if
    and only if the recorded type is that of a developer, or it is that of a QA executor
    and the operation is of the protocol of a turn; whatever else is recorded, nothing
    is allowed. *)
Theorem control_plane_allows_exactly recorded op :
  control_plane_denial recorded op = None ↔
  recorded = Some (WorkerType.value WorkerType.DEVELOPER) ∨
  recorded = Some (WorkerType.value WorkerType.QA) ∧ op ≠ INFRA_COMPOSE.
Proof.
  unfold control_plane_denial. destruct recorded as [text|]; cbn; [|naive_solver].
  destruct (member_of text) as [w|] eqn:Hw.
  - apply (member_of_Some (A := WorkerType.t)) in Hw as ->. destruct w, op; vm_compute; naive_solver.
  - split; [done|]. intros [[= ->]|[[= ->] _]]; vm_compute in Hw; discriminate.
Qed.

Section requests.
Context `{RedisLaws R} `{Json} `{Sha256} `{PyRepr} (isoformat : Z → string) (is_datetime : string → bool)
  (parse_worker_result : doc → res doc) (forward : string → doc → string → M R (Z * doc)).

(** A request of a worker: its route, and what it sends. *)
Inductive request :=
| Input | Output (lease_id : string) (result : doc) | Status (values : gmap string string)
| ReadSession | WriteSession (session_id : string) | ClearSession | Compose (body : doc).
Definition operation (q : request) : WorkerControlPlaneOperation.t :=
  match q with
  | Input => INPUT_LEASE | Output _ _ => OUTPUT_SUBMIT | Status _ => STATUS_UPDATE | ReadSession => SESSION_READ
  | WriteSession _ => SESSION_WRITE | ClearSession => SESSION_CLEAR | Compose _ => INFRA_COMPOSE
  end.
Definition serve (worker_id : string) (token : option string) (q : request) : M R response :=
  match q with
  | Input => lease_input isoformat worker_id token
  | Output lease_id result => submit_output is_datetime parse_worker_result worker_id lease_id result token
  | Status values => update_status worker_id values token
  | ReadSession => get_session worker_id token
  | WriteSession session_id => set_session worker_id session_id token
  | ClearSession => clear_session worker_id token
  | Compose body => compose forward worker_id body token
  end.

(** The credential is the worker's, and its recorded type allows the operation. *)
Definition authorized (token : option string) (op : WorkerControlPlaneOperation.t)
    (metadata : gmap string string) : Prop :=
  ∃ t, nonempty_text token = Some t ∧ verify_token t (metadata !! "token_digest") = true ∧
    control_plane_denial (metadata !! "worker_type") op = None.
Definition record_of (worker_id : string) (r : R) : gmap string string :=
  hash_of (credential_key worker_id) (view r).

Lemma authenticate_refuses worker_id token op r :
  ¬ authorized token op (record_of worker_id r) →
  ∃ e, (authenticate worker_id token op r).1 = Exc e ∧ view (authenticate worker_id token op r).2 = view r.
Proof.
  intros Hno. unfold authenticate. destruct (nonempty_text token) as [t|] eqn:Ht; [|by eexists].
  destruct (hgetall_law (credential_key worker_id) r) as [Hv Hm]. unfold mbind, M_bind.
  destruct (hgetall _ r) as [[metadata|e] r']; cbn in *; [|by eexists].
  rewrite (Hm metadata eq_refl). fold (record_of worker_id r). unfold guard_not, record_of in *.
  destruct (verify_token t _) eqn:Hverify; cbn; [|by eexists].
  destruct (control_plane_denial _ op) eqn:Hdenial; [by eexists|]. destruct Hno. by exists t.
Qed.
Lemma bind_refused {A B} (m : M R A) (f : A → M R B) r e :
  (m r).1 = Exc e → (m ≫= f) r = (Exc e, (m r).2).
Proof. unfold mbind, M_bind. destruct (m r) as [[?|?] ?]; cbn; congruence. Qed.
Lemma refused_request worker_id token q r e :
  (authenticate worker_id token (operation q) r).1 = Exc e →
  serve worker_id token q r = (Exc e, (authenticate worker_id token (operation q) r).2).
Proof. destruct q; cbn; intros; by apply bind_refused. Qed.

(** ** No request changes a worker's record *)

Definition keeps_records (r r' : R) : Prop := ∀ w, record_of w r' = record_of w r.
#[export] Instance keeps_records_preorder : PreOrder keeps_records.
Proof. split; [by intros ? ?|]. intros ??? H1' H2' w. by rewrite H2', H1'. Qed.
Lemma keeps_same r r' : hashes (view r') = hashes (view r) → keeps_records r r'.
Proof. intros Hh w. unfold record_of, hash_of. by rewrite Hh. Qed.

Lemma other_keys w w' :
  credential_key w ≠ active_turn_key w' ∧ credential_key w ≠ session_key w' ∧ credential_key w ≠ status_key w'.
Proof. split_and!; by intros [=]. Qed.
Lemma reads_keep {A} (m : M R A) f : reads m f → guar keeps_records m.
Proof. intros Hm r. apply keeps_same. by destruct (Hm r) as [-> _]. Qed.
Lemma does_keep {A} (m : M R A) f : (∀ c, hashes (f c) = hashes c) → does m f → guar keeps_records m.
Proof. intros Hf Hm r. apply keeps_same. destruct (Hm r) as [->|[-> _]]; auto. Qed.
Lemma hset_keeps k m : (∀ w, credential_key w ≠ k) → guar keeps_records (hset k m).
Proof.
  intros Hk r w. unfold record_of. destruct (hset_law k m r) as [->|[-> _]]; [|done].
  unfold put_hash, hash_of. cbn. by rewrite lookup_insert_ne by (symmetry; auto).
Qed.
Lemma delete_keeps ks : (∀ w, credential_key w ∉ ks) → guar keeps_records (redis_delete ks).
Proof.
  intros Hks r w. unfold record_of. destruct (redis_delete_law ks r) as [->|[-> _]]; [|done].
  unfold drop_keys, hash_of. cbn. f_equal.
  destruct (hashes (view r) !! credential_key w) as [h|] eqn:Hh.
  - apply map_lookup_filter_Some. split; [done|]. apply Hks.
  - apply map_lookup_filter_None. by left.
Qed.
Lemma hgetall_keeps k : guar keeps_records (hgetall k).
Proof. eapply reads_keep, hgetall_law. Qed.
Lemma get_keeps k : guar keeps_records (redis_get k).
Proof. eapply reads_keep, redis_get_law. Qed.
Lemma set_keeps k v ttl : guar keeps_records (redis_set k v ttl).
Proof. by eapply does_keep, redis_set_law. Qed.
Lemma expire_keeps k ttl : guar keeps_records (redis_expire k ttl).
Proof. eapply reads_keep, redis_expire_law. Qed.
Lemma xadd_keeps s f : guar keeps_records (xadd s f).
Proof. by eapply does_keep, xadd_law. Qed.
Lemma xack_keeps s g id : guar keeps_records (xack s g id).
Proof. by eapply does_keep, xack_law. Qed.
Lemma xreadgroup_keeps s g c n : guar keeps_records (xreadgroup s g c n).
Proof. intros r. apply keeps_same. by destruct (xreadgroup_law s g c n r) as (? & -> & _). Qed.
Lemma monotonic_keeps : guar keeps_records monotonic.
Proof. intros r. apply keeps_same. by rewrite monotonic_law. Qed.
Lemma turn_delete_keeps w : guar keeps_records (redis_delete [active_turn_key w]).
Proof. apply delete_keeps. intros w' Hw%list_elem_of_singleton. by destruct (other_keys w' w) as (? & _). Qed.
Lemma session_delete_keeps w : guar keeps_records (redis_delete [session_key w]).
Proof. apply delete_keeps. intros w' Hw%list_elem_of_singleton. by destruct (other_keys w' w) as (_ & ? & _). Qed.
Lemma turn_set_keeps w m : guar keeps_records (hset (active_turn_key w) m).
Proof. apply hset_keeps. intros w'. apply other_keys. Qed.
Lemma status_set_keeps w m : guar keeps_records (hset (status_key w) m).
Proof. apply hset_keeps. intros w'. apply other_keys. Qed.
#[local] Hint Resolve hgetall_keeps get_keeps set_keeps expire_keeps xadd_keeps xack_keeps xreadgroup_keeps
  monotonic_keeps turn_delete_keeps session_delete_keeps turn_set_keeps status_set_keeps : guar.

Lemma authenticate_keeps w token op : guar keeps_records (authenticate w token op).
Proof. unfold authenticate. guar_auto. Qed.
#[local] Hint Resolve authenticate_keeps : guar.
Lemma serve_keeps worker_id token q :
  (∀ w body t, guar keeps_records (forward w body t)) → guar keeps_records (serve worker_id token q).
Proof.
  intros Hforward. destruct q; cbn;
    unfold lease_input, submit_output, update_status, get_session, set_session, clear_session, compose,
      int_field, subscript_field; guar_auto.
Qed.
End requests.

(** Requests to one worker's routes, one after the other, with their answers. *)
Fixpoint serve_all `{RedisServer R} `{Json} `{Sha256} `{PyRepr} isoformat is_datetime parse_worker_result
    (forward : string → doc → string → M R (Z * doc)) (worker_id : string) (l : list (option string * request))
    : M R (list (res response)) :=
  match l with
  | [] => mret []
  | (token, q) :: l' =>
      a ← attempt (serve isoformat is_datetime parse_worker_result forward worker_id token q);
      rest ← serve_all isoformat is_datetime parse_worker_result forward worker_id l'; mret (a :: rest)
  end.

(** What is not authorized does nothing.  A request with no credential, with
    a credential that is not the worker's, or for an operation that the recorded type
    does not allow, ends in an error, before anything is written and before the worker
    manager is asked. *)
Theorem unauthorized_request_does_nothing `{RedisLaws R} `{Json} `{Sha256} `{PyRepr} isoformat is_datetime
    parse_worker_result forward worker_id token q (r : R) :
  ¬ authorized token (operation q) (record_of worker_id r) →
  ∃ e r', serve isoformat is_datetime parse_worker_result forward worker_id token q r = (Exc e, r') ∧ view r' = view r ∧
    ∀ forward', serve isoformat is_datetime parse_worker_result forward' worker_id token q r = (Exc e, r').
Proof.
  intros (e & He & Hv)%(authenticate_refuses worker_id). exists e. eexists.
  split; [by apply refused_request|]. split; [done|]. intros forward'. by apply refused_request.
Qed.

(** C19 (safety). A QA executor never reaches the Docker daemon.  Once a worker is on record
    as a QA executor, no sequence of requests to its routes, whoever sends them and with
    whatever credential, has the worker manager asked: what they answer and what they
    leave is the same whatever the manager would do. *)
Theorem qa_worker_never_reaches_docker `{RedisLaws R} `{Json} `{Sha256} `{PyRepr} isoformat is_datetime
    parse_worker_result forward forward' worker_id l (r : R) :
  record_of worker_id r !! "worker_type" = Some (WorkerType.value WorkerType.QA) →
  serve_all isoformat is_datetime parse_worker_result forward worker_id l r =
  serve_all isoformat is_datetime parse_worker_result forward' worker_id l r.
Proof.
  revert r. induction l as [|[token q] l IH]; intros r Hqa; [done|]. cbn. unfold mbind, M_bind, attempt.
  assert (serve isoformat is_datetime parse_worker_result forward worker_id token q r =
          serve isoformat is_datetime parse_worker_result forward' worker_id token q r ∧
          keeps_records r (serve isoformat is_datetime parse_worker_result forward' worker_id token q r).2) as [Heq Hkeep].
  { destruct (decide (operation q = INFRA_COMPOSE)) as [Hop|Hop].
    - assert (¬ authorized token (operation q) (record_of worker_id r)) as Hno.
      { intros (t & _ & _ & Hd). rewrite Hop, Hqa in Hd. by vm_compute in Hd. }
      apply (authenticate_refuses worker_id) in Hno as (e & He & Hv).
      rewrite !(refused_request _ _ _ _ worker_id token q r e He). split; [done|]. cbn.
      apply keeps_same. by rewrite Hv.
    - split; [by destruct q|].
      assert (∀ q', keeps_records r (serve isoformat is_datetime parse_worker_result
        (λ _ _ _, raise RuntimeError) worker_id token q' r).2) as Hk.
      { intros q'. apply serve_keeps. intros ???. by apply guar_raise, _. }
      destruct q; [apply (Hk Input)|apply (Hk (Output _ _))|apply (Hk (Status _))|apply (Hk ReadSession)|
                   apply (Hk (WriteSession _))|apply (Hk ClearSession)|done]. }
  rewrite Heq. cbn. rewrite (IH _); [done|]. by rewrite Hkeep.
Qed.

(** ** A lease and its result *)

Section lease.
Context `{RedisLaws R} `{Json} `{Sha256} (is_datetime : string → bool) (parse_worker_result : doc → res doc).

(** The command is a read: the state looks the same, and the answer is the one given. *)
Lemma wp_read_command {A} (m : M R A) f (Q : res A → R → Prop) r :
  reads m f → (∀ r', view r' = view r → Q (Ok (f (view r))) r') → (∀ e r', view r' = view r → Q (Exc e) r') → wp m Q r.
Proof.
  intros Hm Hok Hexc. unfold wp. destruct (Hm r) as [Hv Ha]. destruct (m r) as [[a|e] r']; cbn in *; [|by apply Hexc].
  rewrite (Ha a eq_refl). by apply Hok.
Qed.
Lemma wp_write_command {A} (m : M R A) f (Q : res A → R → Prop) r :
  does m f → (∀ a r', view r' = f (view r) → Q (Ok a) r') →
  (∀ e r', view r' = f (view r) ∨ view r' = view r → Q (Exc e) r') → wp m Q r.
Proof.
  intros Hm Hok Hexc. unfold wp. pose proof (Hm r) as Hv. destruct (m r) as [[a|e] r']; cbn in *.
  - apply Hok. destruct Hv as [|[_ []%(λ H, H a)]]; done.
  - apply Hexc. destruct Hv as [|[]]; auto.
Qed.
Lemma wp_authenticate worker_id token op (Q : res (gmap string string) → R → Prop) r :
  (∀ r', view r' = view r → Q (Ok (record_of worker_id r)) r') →
  (∀ e r', view r' = view r → Q (Exc e) r') → wp (authenticate worker_id token op) Q r.
Proof.
  intros Hok Hexc. unfold authenticate. wp_step; [|apply wp_raise; by apply Hexc].
  apply wp_bind, (wp_read_command _ _ _ _ (hgetall_law _)); [intros r1 H1'; unfold on_ok|intros e r1 H1'; by apply Hexc].
  apply wp_bind, wp_guard_not; intros _; [|by apply Hexc]. unfold on_ok.
  wp_step; [apply wp_raise; by apply Hexc|apply wp_ret; by apply Hok].
Qed.

(** What a submission may do to the pending entries and to the record of the turn. *)
Definition returned (result : doc) (metadata : gmap string string) (c : contents) : Prop :=
  ∃ result' output, parse_worker_result result = Ok result' ∧ metadata !! "output_stream" = Some output ∧
    (output, [("data", json_dumps result')]) ∈ added c.
Definition gives_back (worker_id lease_id : string) (result : doc) (metadata : gmap string string) (c c' : contents) : Prop :=
  (∀ s g id, id ∈ pel s g c → id ∈ pel s g c' ∨
     (id = lease_id ∧ metadata !! "input_stream" = Some s ∧ metadata !! "consumer_group" = Some g ∧
      returned result metadata c')) ∧
  (hash_of (active_turn_key worker_id) c' = hash_of (active_turn_key worker_id) c ∨
     hash_of (active_turn_key worker_id) c !! "lease_id" = Some lease_id ∧ returned result metadata c').

Lemma gives_back_same worker_id lease_id result metadata c c' :
  pending c' = pending c → hashes c' = hashes c → gives_back worker_id lease_id result metadata c c'.
Proof.
  intros Hp Hh. split; [|left; unfold hash_of; by rewrite Hh]. intros s g id Hid. left. unfold pel in *. by rewrite Hp.
Qed.
Lemma turn_of_fields_lease h t :
  turn_of_fields is_datetime h = Ok (Some t) → h !! "lease_id" = Some (wt_lease_id t).
Proof.
  unfold turn_of_fields. destruct (decide (h = ∅)); [done|].
  destruct (h !! "worker_id"), (h !! "attempt_id"), (h !! "request_id"), (h !! "lease_id"),
    (h !! "started_at"), (h !! "deadline_at"); try done.
  destruct (decide (size h = _)); [|done]. destruct (_ && _ && _); [|done]. by intros [= <-].
Qed.
Lemma pel_ack s g id s' g' c x :
  x ∈ pel s g c → x ∈ pel s g (ack_entry s' g' id c) ∨ (x = id ∧ s' = s ∧ g' = g).
Proof.
  intros Hx. unfold ack_entry, pel, put_pel. cbn. destruct (decide ((s', g') = (s, g))) as [[= -> ->]|Hne].
  - rewrite lookup_insert_eq. cbn. destruct (decide (x = id)); [by right|left]. by apply list_elem_of_filter.
  - rewrite lookup_insert_ne by done. by left.
Qed.

Lemma wp_submit_output worker_id lease_id result token r :
  wp (submit_output is_datetime parse_worker_result worker_id lease_id result token)
    (λ _ r', gives_back worker_id lease_id result (record_of worker_id r) (view r) (view r')) r.
Proof.
  set (metadata := record_of worker_id r).
  assert (∀ r', view r' = view r → gives_back worker_id lease_id result metadata (view r) (view r')) as Hsame.
  { intros r' ->. by apply gives_back_same. }
  unfold submit_output. apply wp_bind, wp_authenticate; [intros r1 Hv1|intros e r1 Hv1; by apply Hsame].
  fold metadata. unfold on_ok.
  apply wp_bind, wp_of_res; [intros result' Hresult|intros ? _; by apply Hsame]. unfold on_ok.
  apply wp_bind, wp_some_or; [intros output Houtput|intros _; by apply Hsame]. unfold on_ok.
  assert (∀ r', view r' = add_entry output [("data", json_dumps result')] (view r) →
    gives_back worker_id lease_id result metadata (view r) (view r') ∧ returned result metadata (view r')) as Hadded.
  { intros r' Hv. rewrite Hv. split; [by apply gives_back_same|]. exists result', output. split_and!; [done|done|].
    cbn. apply elem_of_app. right. left. }
  apply wp_bind. eapply wp_write_command; [apply xadd_law| |].
  2: { intros e r2 [Hv2|Hv2]; rewrite Hv1 in Hv2; [by apply Hadded|by apply Hsame]. }
  intros id r2 Hv2. rewrite Hv1 in Hv2. unfold on_ok. destruct (Hadded r2 Hv2) as [Hgives Hreturned].
  apply wp_bind, wp_some_or; [intros input Hinput|intros _; done]. unfold on_ok.
  apply wp_bind, wp_some_or; [intros group Hgroup|intros _; done]. unfold on_ok.
  assert (∀ r', view r' = ack_entry input group lease_id (view r2) →
    gives_back worker_id lease_id result metadata (view r) (view r') ∧ returned result metadata (view r')) as Hacked.
  { intros r' Hv. assert (returned result metadata (view r')) as Hr by (by rewrite Hv). split; [|done]. split.
    - intros s g x Hx. destruct (proj1 Hgives s g x Hx) as [Hx2|?]; [|right; naive_solver].
      rewrite Hv. destruct (pel_ack s g lease_id input group _ x Hx2) as [?|(-> & -> & ->)]; [by left|].
      right. rewrite <-Hv. done.
    - left. rewrite Hv, Hv2. done. }
  apply wp_bind. eapply wp_write_command; [apply xack_law| |].
  2: { intros e r3 [Hv3|Hv3]; [by apply Hacked|unfold on_ok; by rewrite Hv3]. }
  intros ? r3 Hv3. unfold on_ok. destruct (Hacked r3 Hv3) as [Hgives3 Hreturned3].
  apply wp_bind, (wp_read_command _ _ _ _ (hgetall_law _)); [intros r4 Hv4|intros e r4 Hv4; unfold on_ok; by rewrite Hv4]. unfold on_ok.
  apply wp_bind, wp_of_res; [intros turn Hturn|intros ? _; unfold on_ok; by rewrite Hv4]. unfold on_ok. apply wp_bind.
  destruct turn as [t|]; [|apply wp_ret, wp_ret; by rewrite Hv4].
  destruct (decide (wt_lease_id t = lease_id)) as [Hlease|_]; [|apply wp_ret, wp_ret; by rewrite Hv4].
  apply turn_of_fields_lease in Hturn. rewrite Hlease in Hturn.
  assert (∀ r', view r' = drop_keys [active_turn_key worker_id] (view r4) →
    gives_back worker_id lease_id result metadata (view r) (view r')) as Hdropped.
  { intros r' Hv. assert (returned result metadata (view r')) as Hr by (by rewrite Hv, Hv4). split.
    - intros s g x Hx. destruct (proj1 Hgives3 s g x Hx) as [Hx3|?]; [left|right; naive_solver].
      by rewrite Hv, Hv4.
    - right. split; [|done]. by rewrite Hv3, Hv2 in Hturn. }
  eapply wp_write_command; [apply redis_delete_law| |].
  - intros ? r5 Hv5. unfold on_ok. apply wp_ret. by apply Hdropped.
  - intros e r5 [Hv5|Hv5]; [by apply Hdropped|unfold on_ok; by rewrite Hv5, Hv4].
Qed.
End lease.

(** C20 (safety). A lease is given back after its result landed.  Whatever fails, a
    submission takes no entry from a pending list but the one it was leased for, and only
    once the validated result is in the worker's output stream; and it ends the record of
    the active turn only if that record names this lease, and only then. *)
Theorem result_lands_before_the_lease_ends `{RedisLaws R} `{Json} `{Sha256} is_datetime parse_worker_result
    worker_id lease_id result token (r : R) :
  gives_back parse_worker_result worker_id lease_id result (record_of worker_id r) (view r)
    (view (submit_output is_datetime parse_worker_result worker_id lease_id result token r).2).
Proof. apply wp_submit_output. Qed.

(** ** The records of before the type was recorded *)

Section backfill.
Context `{RedisLaws R}.

Definition type_of (k : string) (r : R) : option string := hash_of k (view r) !! WORKER_TYPE_FIELD.
(** A type is kept, or was missing and is a developer's now. *)
Definition completes (r r' : R) : Prop :=
  ∀ k, type_of k r' = type_of k r ∨
       type_of k r = None ∧ type_of k r' = Some (WorkerType.value WorkerType.DEVELOPER).
#[export] Instance completes_preorder : PreOrder completes.
Proof.
  split; [by left|]. intros r1 r2 r3 H12 H23 k.
  destruct (H12 k) as [He|[? He]], (H23 k) as [He'|[? He']]; rewrite He' , ?He in *; naive_solver.
Qed.
Lemma backfill_completes keys : guar completes (backfill_pre_cutover_worker_type keys).
Proof.
  unfold backfill_pre_cutover_worker_type. apply guar_fold_m; [apply _|]. intros n key r.
  unfold mbind, M_bind. destruct (hget_law key WORKER_TYPE_FIELD r) as [Hv Ha].
  destruct (hget _ _ r) as [[recorded|e] r1]; cbn in *; [|by left; unfold type_of; rewrite Hv].
  specialize (Ha recorded eq_refl). destruct recorded as [t|]; [by left; unfold type_of; cbn; rewrite Hv|].
  set (m := ({[ WORKER_TYPE_FIELD := WorkerType.value PRE_CUTOVER_WORKER_TYPE ]} : gmap string string)).
  assert (completes r (hset key m r1).2) as Hset.
  { intros k. unfold type_of. destruct (hset_law key m r1) as [->|[-> _]]; rewrite Hv; [|by left].
    unfold put_hash, hash_of. cbn. destruct (decide (key = k)) as [->|]; [right|left; by rewrite lookup_insert_ne].
    split; [by unfold hash_of in Ha|]. rewrite lookup_insert_eq. cbn.
    apply lookup_union_Some_l. apply lookup_insert_eq. }
  change (<[_ := _]> ∅) with m. destruct (hset key m r1) as [[?|?] r2]; exact Hset.
Qed.
End backfill.

(** The one-time migration overwrites nothing: over any list of records, and
    wherever it stops, a recorded type stays, and a record that had none has none or a
    developer's. *)
Theorem migration_overwrites_no_type `{RedisLaws R} keys k (r : R) :
  let r' := (backfill_pre_cutover_worker_type keys r).2 in
  type_of k r' = type_of k r ∨
  type_of k r = None ∧ type_of k r' = Some (WorkerType.value WorkerType.DEVELOPER).
Proof. apply backfill_completes. Qed.

(** The worker manager decides again.  Its endpoint runs a command only for a
    caller with the worker's credential and for a worker that the manager's own record
    calls a developer: otherwise it answers 403, or fails to read, and what it would have
    run does not matter. *)
Theorem manager_runs_for_developers_only `{RedisLaws R} `{Sha256} {A} (runner runner' : option string → M R A)
    worker_id token (r : R) :
  ¬ (verify_token (default "" token) (record_of worker_id r !! "token_digest") = true ∧
     hash_of (meta_key worker_id) (view r) !! "worker_type" = Some (WorkerType.value WorkerType.DEVELOPER)) →
  run_compose runner worker_id token r = run_compose runner' worker_id token r ∧
  ∀ a, (run_compose runner worker_id token r).1 ≠ Ok a.
Proof.
  intros Hno. unfold run_compose, mbind, M_bind.
  destruct (hgetall_law (credential_key worker_id) r) as [Hv Ha].
  destruct (hgetall (credential_key worker_id) r) as [[metadata|e] r1]; cbn in *; [|done].
  specialize (Ha metadata eq_refl). fold (record_of worker_id r) in Ha. subst metadata.
  destruct (verify_token _ _) eqn:Hverify; cbn; [|done].
  destruct (hgetall_law (meta_key worker_id) r1) as [Hv' Ha'].
  destruct (hgetall (meta_key worker_id) r1) as [[meta|e] r2]; cbn in *; [|done].
  specialize (Ha' meta eq_refl). rewrite Hv in Ha'. subst meta.
  destruct (control_plane_denial _ INFRA_COMPOSE) eqn:Hd; [done|].
  destruct Hno. split; [done|]. unfold control_plane_denial in Hd.
  destruct (_ ≫= member_of) as [w|] eqn:Hw; [|done]. destruct (hash_of _ _ !! _) as [text|]; [|done].
  cbn in Hw. apply (member_of_Some (A := WorkerType.t)) in Hw as ->. by destruct w; vm_compute in Hd.
Qed.

(** ** A broker, for the witnesses

    Two workers are on record, a developer ["d"] and a QA executor ["q"]; each has
    work waiting. *)

#[local] Instance sample_json : Json := {
  json_loads text := if decide (text = "{}") then Ok (DMap []) else Exc ValueError;
  json_dumps _ := "{}" }.
#[local] Instance sample_digest : Sha256 := λ s, "digest of " +:+ s.
#[local] Instance sample_repr : PyRepr := λ _, "".

Definition sample_token (worker_id : string) : string := "token of " +:+ worker_id.
Definition sample_registration (worker_id : string) (w : WorkerType.t) : Registration :=
  mkRegistration worker_id (sample_token worker_id) w ("in:" +:+ worker_id) ("out:" +:+ worker_id) "g" 60.
Definition put_on_record (worker_id : string) (w : WorkerType.t) : M memory unit :=
  _ ← register_worker "internal" (sample_registration worker_id w) (Some "internal");
  _ ← hset (meta_key worker_id) {[ "worker_type" := WorkerType.value w ]};
  _ ← publish_flat ("in:" +:+ worker_id) [("attempt_id", "run-1"); ("request_id", "req-1"); ("turn_deadline_seconds", "60")];
  mret tt.
Definition sample_broker : memory :=
  ((_ ← put_on_record "d" WorkerType.DEVELOPER; put_on_record "q" WorkerType.QA) empty_memory).2.
Definition sample_serve (forward : string → doc → string → M memory (Z * doc)) :=
  serve_all (λ _, "then") (λ _, true) (λ d, Ok d) forward.
Definition manager_answers : string → doc → string → M memory (Z * doc) := λ _ body _, mret (200, body).
Definition manager_fails : string → doc → string → M memory (Z * doc) := λ _ _ _, raise RuntimeError.
Definition qa_requests : list (option string * request) :=
  [(Some (sample_token "q"), Input); (Some (sample_token "q"), Compose (DMap []));
   (Some (sample_token "d"), Compose (DMap [])); (Some (sample_token "q"), Status {[ "worker_type" := "developer" ]});
   (Some (sample_token "q"), Compose (DMap []))].

(** The developer is answered, the QA executor is not. *)
Example developer_reaches_docker :
  (sample_serve manager_answers "d" [(Some (sample_token "d"), Compose (DMap []))] sample_broker).1 =
    Ok [Ok (Forwarded 200 (DMap []))].
Proof. by vm_compute. Qed.

Lemma unauthorized_request_does_nothing_witness :
  ∃ e r', serve (λ _, "then") (λ _, true) (λ d, Ok d) manager_answers "q" (Some (sample_token "q")) (Compose (DMap []))
    sample_broker = (Exc e, r') ∧ view r' = view sample_broker.
Proof.
  edestruct (unauthorized_request_does_nothing (λ _, "then") (λ _, true) (λ d, Ok d) manager_answers "q"
    (Some (sample_token "q")) (Compose (DMap [])) sample_broker) as (e & r' & Hserve & Hv & _).
  - intros (t & _ & _ & Hd). vm_compute in Hd. discriminate.
  - by exists e, r'.
Defined.

Lemma qa_worker_never_reaches_docker_witness :
  sample_serve manager_answers "q" qa_requests sample_broker = sample_serve manager_fails "q" qa_requests sample_broker ∧
  (λ a, match a with Ok _ => None | Exc e => Some e end) <$>
    match (sample_serve manager_answers "q" qa_requests sample_broker).1 with Ok l => l | _ => [] end =
    [None; Some (HTTPException 403); Some (HTTPException 403); None; Some (HTTPException 403)].
Proof.
  split; [|by vm_compute]. apply (qa_worker_never_reaches_docker (λ _, "then") (λ _, true) (λ d, Ok d)). by vm_compute.
Defined.

(** The result of a leased turn: it lands, the entry is given back, the record ends. *)
Definition leased : memory := (lease_input (λ _, "then") "d" (Some (sample_token "d")) sample_broker).2.
Lemma result_lands_before_the_lease_ends_witness :
  let submit := submit_output (λ _, true) (λ d, Ok d) "d" "1-0" (DMap []) (Some (sample_token "d")) in
  gives_back (λ d, Ok d) "d" "1-0" (DMap []) (record_of "d" leased) (view leased) (view (submit leased).2) ∧
  pel "in:d" "g" (view leased) = ["1-0"] ∧ hash_of (active_turn_key "d") (view leased) !! "lease_id" = Some "1-0" ∧
  pel "in:d" "g" (view (submit leased).2) = [] ∧ hash_of (active_turn_key "d") (view (submit leased).2) = ∅ ∧
  last (added (view (submit leased).2)) = Some ("out:d", [("data", "{}")]).
Proof.
  split; [apply (result_lands_before_the_lease_ends (λ _, true) (λ d, Ok d))|]. split_and!; by vm_compute.
Defined.

(** A record without a type, and one of a QA executor. *)
Lemma migration_overwrites_no_type_witness :
  let r := (hset (R := memory) (credential_key "old") {[ "token_digest" := "x" ]} sample_broker).2 in
  let keys := [credential_key "old"; credential_key "q"] in
  let r' := (backfill_pre_cutover_worker_type keys r).2 in
  (type_of (credential_key "q") r' = type_of (credential_key "q") r ∨
   type_of (credential_key "q") r = None ∧
   type_of (credential_key "q") r' = Some (WorkerType.value WorkerType.DEVELOPER)) ∧
  type_of (credential_key "q") r' = Some "qa" ∧ type_of (credential_key "old") r' = Some "developer".
Proof.
  split; [apply (migration_overwrites_no_type [credential_key "old"; credential_key "q"] (credential_key "q"))|].
  split_and!; by vm_compute.
Defined.

Lemma manager_runs_for_developers_only_witness :
  let run := run_compose (λ _, mret tt) "q" (Some (sample_token "q")) sample_broker in
  run = run_compose (λ _, raise RuntimeError) "q" (Some (sample_token "q")) sample_broker ∧ ∀ a, run.1 ≠ Ok a.
Proof.
  apply (manager_runs_for_developers_only (λ _, mret tt) (λ _, raise RuntimeError) "q" (Some (sample_token "q")) sample_broker).
  intros [_ Hd]. vm_compute in Hd. discriminate.
Defined.
