(* ===== verification/Crypto.v ===== *)
(** * Crypto: secrets at rest

    [shared/crypto.py]: the dictionaries of secrets as they are stored.  Fernet itself is a
    parameter: what it gives for a text may differ each time, and it gets the text back. *)

From S2P Require Import Prelude Contracts Docs.

Class Fernet := {
  key_is_set : bool;                      (** [SECRETS_ENCRYPTION_KEY] *)
  fernet_encrypt : string → string → string;   (** with a nonce of its own *)
  fernet_decrypt : string → option string }.
Class FernetLaws `{Fernet} := {
  decrypt_encrypt nonce s : fernet_decrypt (fernet_encrypt nonce s) = Some s;
  encrypt_nonempty nonce s : fernet_encrypt nonce s ≠ "" }.

Section crypto.
Context `{Fernet}.

(** [SecretsCipher.encrypt] and [.decrypt] of a value of the dictionary. *)
Definition encrypt (nonce : string) (v : doc) : res doc :=
  match v with DStr s => Ok (DStr (fernet_encrypt nonce s)) | _ => Exc AttributeError end.
Definition decrypt (v : doc) : res doc :=
  if negb (doc_truthy v) then Ok v
  else match v with
       | DStr s => match fernet_decrypt s with Some t => Ok (DStr t) | None => Exc InvalidToken end
       | _ => Exc AttributeError
       end.

Fixpoint map_values (f : string → doc → res doc) (m : mapping) : res mapping :=
  match m with
  | [] => Ok []
  | (k, v) :: m => w ← f k v; m' ← map_values f m; Ok ((k, w) :: m')
  end.
Definition encrypt_dict (nonce : string → string) (d : mapping) : res mapping :=
  match d with
  | [] => Ok []
  | _ => if key_is_set then map_values (λ k v, encrypt (nonce k) v) d else Exc RuntimeError
  end.
Definition decrypt_dict (d : mapping) : res mapping :=
  match d with
  | [] => Ok []
  | _ => if key_is_set then map_values (λ _ v, decrypt v) d else Exc RuntimeError
  end.
(** [existing = config.get("secrets") or {}; decrypt_dict(existing) if existing else {}] *)
Definition existing_secrets (config : mapping) : res mapping :=
  let stored := get "secrets" config in
  if negb (doc_truthy stored) then Ok []
  else match stored with
       | DMap m => decrypt_dict m
       | _ => Exc (if key_is_set then AttributeError else RuntimeError)
       end.
End crypto.

(** ** Facts *)

Section facts.
Context `{FernetLaws}.

Lemma map_values_length f m m' : map_values f m = Ok m' → m'.*1 = m.*1.
Proof.
  revert m'. induction m as [|[k v] m IH]; intros m'; cbn; [by intros [= <-]|].
  destruct (f k v) as [w|]; cbn; [|done]. destruct (map_values f m) as [m0|]; cbn; [|done].
  intros [= <-]. cbn. f_equal. by apply IH.
Qed.
Lemma map_values_lookup f m m' key : map_values f m = Ok m' →
  match lookup_key key m with
  | Some v => ∃ w, lookup_key key m' = Some w ∧ f key v = Ok w
  | None => lookup_key key m' = None
  end.
Proof.
  revert m'. induction m as [|[k v] m IH]; intros m'; cbn; [by intros [= <-]|].
  destruct (f k v) as [w|] eqn:Hf; cbn; [|done]. destruct (map_values f m) as [m0|]; cbn; [|done].
  intros [= <-]. cbn. specialize (IH m0 eq_refl). case_decide; [subst; eauto|done].
Qed.
Lemma decrypt_sealed nonce s : decrypt (DStr (fernet_encrypt nonce s)) = Ok (DStr s).
Proof. unfold decrypt. cbn. by rewrite bool_decide_eq_false_2, decrypt_encrypt by apply encrypt_nonempty. Qed.
(** What was encrypted decrypts to what it was. *)
Lemma decrypt_encrypted nonce d e : encrypt_dict nonce d = Ok e → decrypt_dict e = Ok d.
Proof.
  destruct d as [|p d]; [by intros [= <-]|]. unfold encrypt_dict, decrypt_dict.
  destruct key_is_set eqn:Hk; [|done]. revert e. generalize (p :: d) as l. clear p d.
  intros l e He. destruct e as [|q e].
  { destruct l as [|[k v] l]; [done|]. cbn in He. destruct (encrypt _ _); cbn in He; [|done].
    by destruct (map_values _ l). }
  revert He. generalize (q :: e) as l'. clear q e. intros l'. revert l'.
  induction l as [|[k v] l IH]; intros l'; cbn; [by intros [= <-]|].
  destruct (encrypt (nonce k) v) as [w|] eqn:Hw; cbn; [|done]. destruct (map_values _ l) as [m0|]; cbn; [|done].
  intros [= <-]. cbn. unfold encrypt in Hw. destruct v; try done. injection Hw as <-.
  by rewrite decrypt_sealed, (IH m0).
Qed.
End facts.
