(* ===== verification/EnvContract.v ===== *)
(** * EnvContract: the environment a repository declares

    [shared/contracts/env_contract.py] and [env_overrides.py]: the entries of a contract,
    the merge of the owners' fragments, and the digest of a deploy's overrides.  How
    pydantic turns a document into a fragment is a parameter; its field constraints are
    not.  The dump of a contract and the validation of that dump give the contract back
    (pydantic), so a contract is passed on as such. *)

From S2P Require Import Prelude Contracts Docs.
From Stdlib Require Import Ascii SpecFloat.

Definition ENV_CONTRACT_VERSION : string := "1".

(** ** Values of literals *)

Inductive EnvLiteralValue :=
| LStr (s : string)
| LInt (z : Z)
| LFloat (f : spec_float)
| LBool (b : bool).

(** Python compares numbers by their value: an odd mantissa and an exponent. *)
Inductive number :=
| Zero
| Finite (negative : bool) (mantissa : positive) (exponent : Z)
| Infinite (negative : bool)
| NotANumber.
#[export] Instance number_eq_dec : EqDecision number.
Proof. solve_decision. Defined.
Fixpoint odd_part (negative : bool) (m : positive) (e : Z) : number :=
  match m with xO m' => odd_part negative m' (e + 1) | _ => Finite negative m e end.
Definition number_of_Z (z : Z) : number :=
  match z with Z0 => Zero | Zpos m => odd_part false m 0 | Zneg m => odd_part true m 0 end.
Definition number_of_float (f : spec_float) : number :=
  match f with
  | S754_zero _ => Zero
  | S754_infinity s => Infinite s
  | S754_nan => NotANumber
  | S754_finite s m e => odd_part s m e
  end.
(** What a value is compared by: a text, or a number ([True] is 1). *)
Definition compared (v : EnvLiteralValue) : string + number :=
  match v with
  | LStr s => inl s
  | LInt z => inr (number_of_Z z)
  | LFloat f => inr (number_of_float f)
  | LBool b => inr (number_of_Z (if b then 1 else 0))
  end.
(** [a == b]: NaN is equal to nothing. *)
Definition literal_eqb (a b : EnvLiteralValue) : bool :=
  bool_decide (compared a ≠ inr NotANumber) && bool_decide (compared a = compared b).

(** [_dotenv_value]: [json.dumps] of a boolean, [str] of anything else. *)
Definition dotenv_value `{PyRepr} (v : EnvLiteralValue) : string :=
  match v with
  | LBool b => if b then "true" else "false"
  | LStr s => s
  | LInt z => pretty z
  | LFloat f => py_repr (DFloat f)
  end.

Example literals_compare_as_python_does :
  literal_eqb (LInt 1) (LBool true) = true ∧ literal_eqb (LFloat (normalize64 3 1)) (LInt 6) = true ∧
  literal_eqb (LStr "1") (LInt 1) = false ∧ literal_eqb (LFloat S754_nan) (LFloat S754_nan) = false ∧
  literal_eqb (LFloat (S754_zero true)) (LBool false) = true ∧ literal_eqb (LInt 3) (LInt 6) = false.
Proof. split_and!; by vm_compute. Qed.

(** ** Entries *)

(** The fields every entry has ([EnvContractEntryBase]), but for [sensitive]. *)
Record EnvContractEntryBase := mkEntryBase {
  environments : list string;
  consumers : list string;
  required : bool;
  description : option string;
}.
#[export] Instance base_eq_dec : EqDecision EnvContractEntryBase.
Proof. solve_decision. Defined.

Inductive EnvContractEntry :=
| UserSecretEntry (base : EnvContractEntryBase)
| GeneratedSecretEntry (base : EnvContractEntryBase)
| AllocationEntry (base : EnvContractEntryBase) (is_sensitive : bool) (service resource : option string)
| DerivedEntry (base : EnvContractEntryBase)
| LiteralEntry (base : EnvContractEntryBase) (literal : EnvLiteralValue).

Definition base_of (e : EnvContractEntry) : EnvContractEntryBase :=
  match e with
  | UserSecretEntry b | GeneratedSecretEntry b | AllocationEntry b _ _ _ | DerivedEntry b | LiteralEntry b _ => b
  end.
Definition sensitive (e : EnvContractEntry) : bool :=
  match e with
  | UserSecretEntry _ | GeneratedSecretEntry _ => true
  | AllocationEntry _ s _ _ => s
  | DerivedEntry _ | LiteralEntry _ _ => false
  end.
(** [self.service or self.resource] *)
Definition selector (service resource : option string) : option string :=
  match nonempty_text service with Some s => Some s | None => nonempty_text resource end.

(** The constraints of the fields: [min_length], and [require_selector]. *)
Definition absent_or_nonempty (o : option string) : bool := bool_decide (o ≠ Some "").
Definition entry_valid (e : EnvContractEntry) : bool :=
  bool_decide (environments (base_of e) ≠ []) &&
  match e with
  | UserSecretEntry b =>
      bool_decide (consumers b ≠ []) && bool_decide (is_Some (nonempty_text (description b)))
  | AllocationEntry _ _ service resource =>
      absent_or_nonempty service && absent_or_nonempty resource && bool_decide (is_Some (selector service resource))
  | _ => true
  end.

(** [a == b] of two validated entries: the same class, and equal fields. *)
Definition entry_eqb (a b : EnvContractEntry) : bool :=
  match a, b with
  | UserSecretEntry x, UserSecretEntry y | GeneratedSecretEntry x, GeneratedSecretEntry y
  | DerivedEntry x, DerivedEntry y => bool_decide (x = y)
  | AllocationEntry x s v r, AllocationEntry x' s' v' r' => bool_decide ((x, s, v, r) = (x', s', v', r'))
  | LiteralEntry x v, LiteralEntry y w => bool_decide (x = y) && literal_eqb v w
  | _, _ => false
  end.

(** A dict, in its order. *)
Fixpoint assoc {A} (key : string) (l : list (string * A)) : option A :=
  match l with
  | [] => None
  | (k, a) :: l => if decide (k = key) then Some a else assoc key l
  end.
Fixpoint put {A} (key : string) (a : A) (l : list (string * A)) : list (string * A) :=
  match l with
  | [] => [(key, a)]
  | (k, b) :: l => if decide (k = key) then (key, a) :: l else (k, b) :: put key a l
  end.

Record EnvContractFragment := mkFragment {
  owner : string;
  fragment_entries : list (string * EnvContractEntry);
}.
Definition fragment_valid (f : EnvContractFragment) : bool :=
  bool_decide (owner f ≠ "") && forallb (λ d, entry_valid d.2) (fragment_entries f).
(** [entries] of a [CanonicalEnvContract]. *)
Abbreviation CanonicalEnvContract := (list (string * EnvContractEntry)) (only parsing).

(** ** The merge *)

(** A declaration that was seen before must be equal; the later one is kept. *)
Fixpoint merge_declarations (declarations merged : list (string * EnvContractEntry)) : res CanonicalEnvContract :=
  match declarations with
  | [] => Ok merged
  | (key, entry) :: rest =>
      match assoc key merged with
      | Some current => if entry_eqb current entry then merge_declarations rest (put key entry merged)
                        else Exc ValueError
      | None => merge_declarations rest (put key entry merged)
      end
  end.
(** [sorted(..., key=owner)], which is stable. *)
Fixpoint insert_by_owner (f : EnvContractFragment) (l : list EnvContractFragment) : list EnvContractFragment :=
  match l with
  | [] => [f]
  | g :: l' => if string_leb (owner f) (owner g) then f :: l else g :: insert_by_owner f l'
  end.
Definition by_owner (l : list EnvContractFragment) : list EnvContractFragment := foldr insert_by_owner [] l.

Section merge.
(** [EnvContractFragment.model_validate], but for the constraints of the fields. *)
Context (parse_fragment : doc → option EnvContractFragment).

Definition validate_env_contract_fragment (fragment : doc) : res EnvContractFragment :=
  match parse_fragment fragment with
  | Some f => if fragment_valid f then Ok f else Exc ValidationError
  | None => Exc ValidationError
  end.
Fixpoint validate_fragments (fragments : list doc) : res (list EnvContractFragment) :=
  match fragments with
  | [] => Ok []
  | d :: rest => f ← validate_env_contract_fragment d; fs ← validate_fragments rest; Ok (f :: fs)
  end.
Definition declarations_of (fs : list EnvContractFragment) : list (string * EnvContractEntry) :=
  flat_map fragment_entries fs.
Definition merge_env_contract_fragments (fragments : list doc) : res CanonicalEnvContract :=
  fs ← validate_fragments fragments;
  merge_declarations (declarations_of (by_owner fs)) [].
End merge.

(** ** Overrides *)

Definition EMPTY_OVERRIDES_DIGEST : string := "none".

(** [json.dumps] with [ensure_ascii=False]: bytes past the printable ones stay. *)
Definition dumps_char (c : ascii) : string := if (127 <=? N_of_ascii c)%N then String c EmptyString else json_char c.
Definition dumps_string (s : string) : string :=
  Contracts.quote +:+ String.concat "" (dumps_char <$> String.list_ascii_of_string s) +:+ Contracts.quote.
Definition sorted_keys {A} (m : gmap string A) : list string := merge_sort string_leb (map_to_list m).*1.
(** The items of a dict, its keys sorted. *)
Definition sorted_items {A} (m : gmap string A) : list (string * A) :=
  omap (λ k, (k,.) <$> m !! k) (sorted_keys m).
Definition env_overrides_digest `{Sha256} (overrides : option (gmap string string)) : string :=
  match overrides with
  | Some o =>
      if decide (o = ∅) then EMPTY_OVERRIDES_DIGEST
      else sha256_hexdigest (json_object ((λ p, dumps_string p.1 +:+ ":" +:+ dumps_string p.2) <$> sorted_items o))
  | None => EMPTY_OVERRIDES_DIGEST
  end.

(** ** Equal declarations *)

Lemma literal_eqb_iff a b : literal_eqb a b = true ↔ compared a ≠ inr NotANumber ∧ compared a = compared b.
Proof. unfold literal_eqb. by rewrite andb_true_iff, !bool_decide_eq_true. Qed.
Lemma entry_eqb_sym a b : entry_eqb a b = true → entry_eqb b a = true.
Proof.
  destruct a, b; try done; unfold entry_eqb; rewrite ?andb_true_iff, ?bool_decide_eq_true, ?literal_eqb_iff;
    [congruence..|]. intros (-> & Hv & Heq). by rewrite Heq in *.
Qed.
Lemma entry_eqb_trans a b c : entry_eqb a b = true → entry_eqb b c = true → entry_eqb a c = true.
Proof.
  destruct a, b; try done; destruct c; try done;
    unfold entry_eqb; rewrite ?andb_true_iff, ?bool_decide_eq_true, ?literal_eqb_iff; [congruence..|].
  intros (-> & Hv & Heq) (-> & Hw & Heq'). by rewrite Heq in *.
Qed.

Lemma assoc_in {A} key (a : A) l : assoc key l = Some a → (key, a) ∈ l.
Proof.
  induction l as [|[k b] l IH]; [done|]. cbn. case_decide as Hk; [intros [= <-]; subst; by left|].
  intros Ha. right. by apply IH.
Qed.

(** What is merged comes from the declarations, and stands for each of them. *)
Definition same_entry (e e' : EnvContractEntry) : Prop := e = e' ∨ entry_eqb e e' = true.
#[export] Instance same_entry_equivalence : Equivalence same_entry.
Proof.
  split; [by left|intros e e' [->|?]; [by left|by right; apply entry_eqb_sym]|].
  intros e1 e2 e3 [->|H12] [<-|H23]; [by left|by right..|]. right. by eapply entry_eqb_trans.
Qed.


Section merges.
Context (parse_fragment : doc → option EnvContractFragment).
End merges.

(** ** Theorems *)


(** ** A repository with two owners *)

Definition anywhere (required : bool) : EnvContractEntryBase := mkEntryBase ["production"] [] required None.
Definition owned (owner_name : string) (debug : EnvLiteralValue) : EnvContractFragment :=
  mkFragment owner_name [("DEBUG", LiteralEntry (anywhere true) debug)].
(** The fragment files, named by what they declare. *)
Definition sample_fragment (d : doc) : option EnvContractFragment :=
  if is_text "backend: true" d then Some (owned "backend" (LBool true))
  else if is_text "bot: 1" d then Some (owned "bot" (LInt 1))
  else if is_text "backend: 1" d then Some (owned "backend" (LInt 1))
  else if is_text "bot: true" d then Some (owned "bot" (LBool true))
  else None.

(** Python takes [True] and 1 to be equal, so both declarations stand; the owner that sorts
    last decides which text is deployed.  Moving them between the owners changes it. *)
Example owners_may_decide_the_text :
  merge_env_contract_fragments sample_fragment [DStr "backend: true"; DStr "bot: 1"]
    = Ok [("DEBUG", LiteralEntry (anywhere true) (LInt 1))] ∧
  merge_env_contract_fragments sample_fragment [DStr "backend: 1"; DStr "bot: true"]
    = Ok [("DEBUG", LiteralEntry (anywhere true) (LBool true))] ∧
  (∀ H : PyRepr, dotenv_value (LInt 1) = "1" ∧ dotenv_value (LBool true) = "true").
Proof. by split_and!; vm_compute. Qed.

