(* ===== verification/Dotenv.v ===== *)
(** * Dotenv: the file a deploy delivers

    [subgraphs/devops/dotenv_builder.py]: how resolved variables are written as a .env file
    and encoded for a GitHub secret; a reader that undoes both.  Texts are their UTF-8
    bytes. *)

From S2P Require Import Prelude Contracts Docs BotAccess EnvContract.
From Stdlib Require Import Ascii.

Abbreviation text := String.string_of_list_ascii (only parsing).

(** ** Writing *)

Definition dquote : ascii := "034"%char.
Definition backslash : ascii := "\"%char.
Definition line_feed : ascii := "010"%char.
(** What makes [_needs_quoting] quote. *)
Definition special (c : ascii) : bool :=
  bool_decide (c ∈ [" "%char; "="%char; dquote; "'"%char; line_feed; "#"%char]).
Definition needs_quoting (value_ : string) : bool := existsb special (chars value_).

(** [value.replace(c, "\" + c)] *)
Definition replace_with_escape (c : ascii) (l : list ascii) : list ascii :=
  flat_map (λ d, if Ascii.eqb d c then [backslash; c] else [d]) l.
Definition escaped (value_ : string) : list ascii :=
  replace_with_escape dquote (replace_with_escape backslash (chars value_)).
Definition dotenv_line (key value_ : string) : list ascii :=
  chars key ++ "="%char ::
  (if needs_quoting value_ then dquote :: escaped value_ ++ [dquote] else chars value_).
Definition build_dotenv (secrets : gmap string string) : string :=
  String.concat newline ((λ p, text (dotenv_line p.1 p.2)) <$> sorted_items secrets).

(** ** [base64.b64encode] *)

Definition base64_alphabet : list ascii :=
  chars "ABCDEFGHIJKLMNOPQRSTUVWXYZabcdefghijklmnopqrstuvwxyz0123456789+/".
Definition base64_char (n : N) : ascii := default "="%char (base64_alphabet !! N.to_nat n).
Definition byte_at (c : ascii) : N := N_of_ascii c.
Fixpoint b64 (l : list ascii) : list ascii :=
  match l with
  | a :: b :: c :: l' =>
      let n := (byte_at a * 65536 + byte_at b * 256 + byte_at c)%N in
      base64_char (n / 262144) :: base64_char ((n / 4096) mod 64) ::
      base64_char ((n / 64) mod 64) :: base64_char (n mod 64) :: b64 l'
  | [a; b] =>
      let n := (byte_at a * 65536 + byte_at b * 256)%N in
      [base64_char (n / 262144); base64_char ((n / 4096) mod 64); base64_char ((n / 64) mod 64); "="%char]
  | [a] =>
      let n := (byte_at a * 65536)%N in
      [base64_char (n / 262144); base64_char ((n / 4096) mod 64); "="%char; "="%char]
  | [] => []
  end.
Definition b64encode (s : string) : string := text (b64 (chars s)).

(** ** Reading *)

(** A reader of such files, one character after the other. *)
Inductive reading :=
| InKey (key : list ascii)                 (** what was read is reversed *)
| AtValue (key : list ascii)
| Raw (key value_ : list ascii)
| Quoted (key value_ : list ascii)
| Escaped (key value_ : list ascii)
| Closed (key value_ : list ascii).
Definition pair_of (key value_ : list ascii) : string * string := (text (rev key), text (rev value_)).
Definition next (st : reading) (c : ascii) : option (option (string * string) * reading) :=
  match st with
  | InKey k => if Ascii.eqb c "=" then Some (None, AtValue k)
               else if Ascii.eqb c line_feed then None else Some (None, InKey (c :: k))
  | AtValue k => if Ascii.eqb c dquote then Some (None, Quoted k [])
                 else if Ascii.eqb c line_feed then Some (Some (pair_of k []), InKey [])
                 else Some (None, Raw k [c])
  | Raw k v => if Ascii.eqb c line_feed then Some (Some (pair_of k v), InKey []) else Some (None, Raw k (c :: v))
  | Quoted k v => if Ascii.eqb c dquote then Some (None, Closed k v)
                  else if Ascii.eqb c backslash then Some (None, Escaped k v) else Some (None, Quoted k (c :: v))
  | Escaped k v => Some (None, Quoted k (c :: v))
  | Closed k v => if Ascii.eqb c line_feed then Some (Some (pair_of k v), InKey []) else None
  end.
(** What an end of the file completes. *)
Definition finish (st : reading) : option (string * string) :=
  match st with
  | AtValue k => Some (pair_of k [])
  | Raw k v | Closed k v => Some (pair_of k v)
  | InKey _ | Quoted _ _ | Escaped _ _ => None
  end.
Fixpoint read (st : reading) (l : list ascii) : option (list (string * string)) :=
  match l with
  | [] => p ← finish st; Some [p]
  | c :: l' =>
      '(p, st') ← next st c;
      rest ← read st' l';
      Some (match p with Some p => p :: rest | None => rest end)
  end.
Definition read_dotenv (s : string) : option (list (string * string)) :=
  match chars s with [] => Some [] | l => read (InKey []) l end.

(** The inverse of [b64encode]. *)
Definition base64_index (c : ascii) : option N := (λ p, N.of_nat p.1) <$> list_find (c =.) base64_alphabet.
Definition bytes_of (n : N) : list ascii := ascii_of_N <$> [n / 65536; (n / 256) mod 256; n mod 256]%N.
Fixpoint unb64 (l : list ascii) : option (list ascii) :=
  match l with
  | [] => Some []
  | w :: x :: y :: z :: l' =>
      w ← base64_index w; x ← base64_index x;
      let n := (w * 262144 + x * 4096)%N in
      if Ascii.eqb y "=" then Some (take 1 (bytes_of n))
      else
        y ← base64_index y;
        let n := (n + y * 64)%N in
        if Ascii.eqb z "=" then Some (take 2 (bytes_of n))
        else z ← base64_index z; rest ← unb64 l'; Some (bytes_of (n + z) ++ rest)
  | _ => None
  end.
Definition b64decode (s : string) : option string := text <$> unb64 (chars s).

Example dotenv_lines :
  let quoted s := (Contracts.quote +:+ s +:+ Contracts.quote)%string in
  let secrets := {[ "B" := "x y"; "A" := "1"; "C" := "a\b" +:+ quoted "c"; "D" := "" ]} : gmap string string in
  build_dotenv secrets = String.concat newline ["A=1"; "B=" +:+ quoted "x y";
    "C=" +:+ quoted ("a\\b\" +:+ Contracts.quote +:+ "c\" +:+ Contracts.quote); "D="] ∧
  read_dotenv (build_dotenv secrets) = Some (sorted_items secrets) ∧
  b64encode "A=1" = "QT0x" ∧ b64encode "ab" = "YWI=" ∧ b64encode "a" = "YQ==" ∧ b64decode "YWI=" = Some "ab".
Proof. split_and!; by vm_compute. Qed.

(** ** Base 64 *)


(** ** Lines *)


(** ** The file *)


