(* ===== verification/Github.v ===== *)
(** * Github: requests to GitHub

    [shared/clients/github/_base.py]: how the GitHub App client sends a request, waits
    out a rate limit, tries again, and gets the token it signs requests with.  GitHub
    itself answers what it likes: an interface gives the answers, the clock and the
    fields of the client object, and keeps a record of what was exchanged. *)

From S2P Require Import Prelude Contracts Docs BotAccess.

(** ** HTTP *)

(** The path below [https://api.github.com], and the credential of the header. *)
Record http_request := mkHttp {
  verb : string; url : string; credential : string; params : mapping; payload : doc }.
Record http_response := mkResponse {
  status_code : Z; headers : gmap string string; body : option doc; content : string }.

Class Https (Net : Type) := {
  (** What was sent, and what came of it, oldest first. *)
  exchanges : Net → list (http_request * res http_response);
  clock_of : Net → Z;
  http_send : http_request → M Net http_response;
  http_now : M Net Z;
  http_sleep : Z → M Net unit;
  (** [_token_cache]: the token of an installation, and when it expires. *)
  cached_token : Z → M Net (option (string * Z));
  cache_token : Z → string * Z → M Net unit }.

(** What the transport itself may raise. *)
Definition network_error (e : exn) : bool :=
  match e with
  | HTTPException _ | OutOfFuel | WorkflowNotFoundError | WorkflowCancelledError
  | WorkflowCancellationUnprovenError | WorkflowRunListingIncompleteError => false
  | _ => true
  end.
(** What holds of any network: every attempt is on record, and time does not go back. *)
Class HttpsLaws (Net : Type) `{Https Net} := {
  send_law q (s : Net) : exchanges (http_send q s).2 = exchanges s ++ [(q, (http_send q s).1)];
  (** A status is no exception of the transport. *)
  send_raises q (s : Net) e : (http_send q s).1 = Exc e → network_error e = true;
  send_clock q (s : Net) : clock_of s ≤ clock_of (http_send q s).2;
  now_law (s : Net) : http_now s = (Ok (clock_of s), s);
  sleep_exchanges d (s : Net) : exchanges (http_sleep d s).2 = exchanges s;
  sleep_clock d (s : Net) : clock_of s ≤ clock_of (http_sleep d s).2 ∧
    ((http_sleep d s).1 = Ok tt → clock_of s + d ≤ clock_of (http_sleep d s).2);
  sleep_raises d (s : Net) e : (http_sleep d s).1 = Exc e → network_error e = true;
  cached_law i (s : Net) : (cached_token i s).2 = s ∧ ∃ t, (cached_token i s).1 = Ok t;
  cache_exchanges i t (s : Net) : exchanges (cache_token i t s).2 = exchanges s;
  cache_clock i t (s : Net) : clock_of s ≤ clock_of (cache_token i t s).2 ∧ (cache_token i t s).1 = Ok tt }.

(** [resp.json()]: a body that is no JSON is a ValueError. *)
Definition json (r : http_response) : res doc := match body r with Some d => Ok d | None => Exc ValueError end.
(** [resp.is_success]: anything else [raise_for_status] raises on. *)
Definition is_success (r : http_response) : bool := (200 <=? status_code r) && (status_code r <? 300).
Definition raise_for_status {Net} (r : http_response) : M Net http_response :=
  if is_success r then mret r else raise (HTTPException (status_code r)).

(** [value["key"]] and [value.get("key")] of what an answer holds. *)
Definition item (key : string) (v : doc) : res doc :=
  match v with
  | DMap m => match lookup_key key m with Some w => Ok w | None => Exc KeyError end
  | _ => Exc TypeError
  end.
Definition attr_get (key : string) (v : doc) : res doc :=
  match v with DMap m => Ok (get key m) | _ => Exc AttributeError end.

Definition FORBIDDEN : Z := 403.
Definition TOO_MANY_REQUESTS : Z := 429.
Definition INTERNAL_SERVER_ERROR : Z := 500.
Definition rate_limited (r : http_response) : bool :=
  bool_decide (status_code r ∈ [FORBIDDEN; TOO_MANY_REQUESTS]).

(** [int(resp.headers.get("x-ratelimit-reset", 0))] *)
Definition reset_time (r : http_response) : res Z :=
  match headers r !! "x-ratelimit-reset" with
  | None => Ok 0
  | Some text =>
      match int_of_chunk (String.list_ascii_of_string text) with Some n => Ok n | None => Exc ValueError end
  end.

Section client.
Context `{Https Net}.
(** [_generate_jwt]: the key of the App signs it, unless there is none. *)
Context (app_jwt : option string).
(** [datetime.strptime] of GitHub's format, in microseconds. *)
Context (parse_expiry : string → option Z).

(** ** [_make_request] *)

Definition MAX_RETRIES : nat := 3.
Definition MAX_WAIT : Z := 60 * SECOND.

(** How long a response asks to wait, if it says that the limit is used up. *)
Definition rate_limit_wait (r : http_response) : M Net (option Z) :=
  if rate_limited r && bool_decide (headers r !! "x-ratelimit-remaining" = Some "0") then
    reset ← of_res (reset_time r);
    now ← http_now;
    mret (Some (Z.max (reset * SECOND - now) 0 + SECOND))
  else mret None.

(** The attempts that are [left], the next wait between two being [backoff].  The last
    response is the answer: an [HTTPStatusError] still holds it. *)
Fixpoint attempts (left : nat) (backoff : Z) (q : http_request) : M Net http_response :=
  match left with
  | O => raise RuntimeError
  | S left' =>
      let again := _ ← http_sleep backoff; attempts left' (2 * backoff) q in
      r ← attempt (http_send q);
      match r with
      | Exc ConnectionLost => if decide (left' = 0%nat) then raise ConnectionLost else again
      | Exc e => raise e
      | Ok resp =>
          let status_error :=
            if decide (left' = 0%nat) then mret resp
            else if (status_code resp <? INTERNAL_SERVER_ERROR) && negb (rate_limited resp) then mret resp
            else again in
          wait ← rate_limit_wait resp;
          match wait with
          | Some w => if MAX_WAIT <? w then status_error
                      else _ ← http_sleep w; attempts left' (2 * backoff) q
          | None => if is_success resp then mret resp else status_error
          end
      end
  end.
Definition last_response (q : http_request) : M Net http_response := attempts MAX_RETRIES SECOND q.
Definition make_request (q : http_request) : M Net http_response := resp ← last_response q; raise_for_status resp.
(** [resp.json()] of a request that succeeded. *)
Definition request_json (q : http_request) : M Net doc := resp ← make_request q; of_res (json resp).

(** ** Tokens *)

Definition get_request (path token : string) : http_request := mkHttp "GET" path token [] DNull.
Definition installation_of (path : string) : M Net Z :=
  jwt ← some_or RuntimeError app_jwt;
  answer ← request_json (get_request path ("Bearer " +:+ jwt));
  id ← of_res (item "id" answer);
  match id with DInt i => mret i | _ => raise TypeError end.
Definition get_installation_id (owner repo : string) : M Net Z :=
  installation_of ("/repos/" +:+ owner +:+ "/" +:+ repo +:+ "/installation").
Definition get_org_installation_id (org : string) : M Net Z :=
  installation_of ("/orgs/" +:+ org +:+ "/installation").

(** [inst.get("account", {}).get("type")] *)
Definition account_of (inst : doc) : res doc :=
  match inst with DMap m => Ok (get_or (DMap []) "account" m) | _ => Exc AttributeError end.
(** The organisation of an installation, and its id. *)
Fixpoint first_organization (installations : list doc) : res (option (doc * doc)) :=
  match installations with
  | [] => Ok None
  | inst :: rest =>
      account ← account_of inst;
      kind ← attr_get "type" account;
      if is_text "Organization" kind then
        account ← item "account" inst; login ← item "login" account; id ← item "id" inst;
        Ok (Some (login, id))
      else first_organization rest
  end.
Definition get_first_org_installation : M Net (doc * doc) :=
  jwt ← some_or RuntimeError app_jwt;
  answer ← request_json (get_request "/app/installations" ("Bearer " +:+ jwt));
  installations ← of_res (match answer with DList l => Ok l | _ => Exc TypeError end);
  found ← of_res (first_organization installations);
  match found, installations with
  | Some o, _ => mret o
  | None, inst :: _ =>
      account ← of_res (account_of inst);
      login ← of_res (attr_get "login" account);
      id ← of_res (item "id" inst);
      mret (login, id)
  | None, [] => raise RuntimeError
  end.

Definition refresh_token (installation_id : Z) : M Net string :=
  jwt ← some_or RuntimeError app_jwt;
  data ← request_json (mkHttp "POST" ("/app/installations/" +:+ pretty installation_id +:+ "/access_tokens")
                         ("Bearer " +:+ jwt) [] DNull);
  token ← of_res (item "token" data);
  expires ← of_res (item "expires_at" data);
  match token, expires with
  | DStr token, DStr expires =>
      expires_at ← some_or ValueError (parse_expiry expires);
      _ ← cache_token installation_id (token, expires_at);
      mret token
  | _, _ => raise TypeError
  end.
Definition get_installation_token (installation_id : Z) : M Net string :=
  cached ← cached_token installation_id;
  now ← http_now;
  match cached with
  | Some (token, expires_at) => if now <? expires_at - MINUTE then mret token else refresh_token installation_id
  | None => refresh_token installation_id
  end.
Definition get_org_token (org : string) : M Net string :=
  i ← get_org_installation_id org; get_installation_token i.
Definition get_token (owner repo : string) : M Net string :=
  i ← get_installation_id owner repo; get_installation_token i.
End client.

(** ** What a program exchanges

    [trace m Φ]: whatever the network answers, [m] ends in a result and has exchanged
    something of which [Φ] holds. *)

Abbreviation exchange := (http_request * res http_response)%type (only parsing).
Definition trace `{Https Net} {A} (m : M Net A) (Φ : res A → list exchange → Prop) : Prop :=
  ∀ s, ∃ l, exchanges (m s).2 = exchanges s ++ l ∧ Φ (m s).1 l.

Section trace_rules.
Context `{HttpsLaws Net}.

Lemma trace_mono {A} (m : M Net A) (Φ Ψ : res A → list exchange → Prop) :
  trace m Φ → (∀ r l, Φ r l → Ψ r l) → trace m Ψ.
Proof. intros Hm HΦ s. destruct (Hm s) as (l & ? & ?). eauto. Qed.
Lemma trace_quiet {A} (m : M Net A) (Φ : res A → list exchange → Prop) :
  (∀ s, exchanges (m s).2 = exchanges s) → (∀ s, Φ (m s).1 []) → trace m Φ.
Proof. intros Hm HΦ s. exists []. by rewrite app_nil_r. Qed.
Lemma trace_ret {A} (a : A) (Φ : res A → list exchange → Prop) : Φ (Ok a) [] → trace (mret a) Φ.
Proof. intros. by apply trace_quiet. Qed.
Lemma trace_raise {A} e (Φ : res A → list exchange → Prop) : Φ (Exc e) [] → trace (raise e) Φ.
Proof. intros. by apply trace_quiet. Qed.
Lemma trace_of_res {A} (r : res A) (Φ : res A → list exchange → Prop) : Φ r [] → trace (of_res r) Φ.
Proof. intros. by apply trace_quiet. Qed.
Lemma trace_some_or {A} e (o : option A) (Φ : res A → list exchange → Prop) :
  (∀ a, o = Some a → Φ (Ok a) []) → Φ (Exc e) [] → trace (some_or e o) Φ.
Proof. destruct o as [a|]; intros Ha He; [apply trace_ret, Ha|apply trace_raise]; done. Qed.
Lemma trace_guard_not b e (Φ : res unit → list exchange → Prop) :
  (b = false → Φ (Ok tt) []) → (b = true → Φ (Exc e) []) → trace (guard_not b e) Φ.
Proof. destruct b; intros Hf Ht; [apply trace_raise, Ht|apply trace_ret, Hf]; done. Qed.
Lemma trace_now (Φ : res Z → list exchange → Prop) : (∀ z, Φ (Ok z) []) → trace http_now Φ.
Proof. intros HΦ. apply trace_quiet; intros s; rewrite now_law; [done|apply HΦ]. Qed.
(** The only exceptions are the transport's own. *)
Definition by_transport {A} (r : res A) : Prop := ∀ e, r = Exc e → network_error e = true.
Lemma trace_sleep d (Φ : res unit → list exchange → Prop) : (∀ r, by_transport r → Φ r []) → trace (http_sleep d) Φ.
Proof. intros HΦ. apply trace_quiet; [apply sleep_exchanges|]. intros s. apply HΦ. intros e. apply sleep_raises. Qed.
Lemma trace_cached i (Φ : res (option (string * Z)) → list exchange → Prop) : (∀ r, Φ r []) → trace (cached_token i) Φ.
Proof. intros HΦ. apply trace_quiet; [intros s; by destruct (cached_law i s) as [-> _]|done]. Qed.
Lemma trace_cache i t (Φ : res unit → list exchange → Prop) : (∀ r, Φ r []) → trace (cache_token i t) Φ.
Proof. intros HΦ. apply trace_quiet; [apply cache_exchanges|done]. Qed.
Lemma trace_send q (Φ : res http_response → list exchange → Prop) :
  (∀ r, by_transport r → Φ r [(q, r)]) → trace (http_send q) Φ.
Proof.
  intros HΦ s. exists [(q, (http_send q s).1)]. split; [by rewrite send_law|]. apply HΦ. intros e. apply send_raises.
Qed.
Lemma trace_bind {A B} (m : M Net A) (f : A → M Net B) (Φ : res B → list exchange → Prop) :
  trace m (λ r l, match r with
                  | Ok a => trace (f a) (λ r' l', Φ r' (l ++ l'))
                  | Exc e => Φ (Exc e) l
                  end) →
  trace (m ≫= f) Φ.
Proof.
  intros Hm s. destruct (Hm s) as (l & Hl & HΦ). unfold mbind, M_bind.
  destruct (m s) as [[a|e] s1]; cbn in *; [|by exists l].
  destruct (HΦ s1) as (l' & Hl' & HΦ'). exists (l ++ l'). by rewrite Hl', Hl, app_assoc.
Qed.
Lemma trace_catch {A} (m : M Net A) h (Φ : res A → list exchange → Prop) :
  trace m (λ r l, match r with
                  | Ok a => Φ (Ok a) l
                  | Exc e => trace (h e) (λ r' l', Φ r' (l ++ l'))
                  end) →
  trace (catch m h) Φ.
Proof.
  intros Hm s. destruct (Hm s) as (l & Hl & HΦ). unfold catch.
  destruct (m s) as [[a|e] s1]; cbn in *; [by exists l|].
  destruct (HΦ s1) as (l' & Hl' & HΦ'). exists (l ++ l'). by rewrite Hl', Hl, app_assoc.
Qed.
Lemma trace_on_exception {A} (m : M Net A) h (Φ : res A → list exchange → Prop) :
  trace m (λ r l, match r with
                  | Ok a => Φ (Ok a) l
                  | Exc e => if is_exception e then trace (h e) (λ r' l', Φ r' (l ++ l')) else Φ (Exc e) l
                  end) →
  trace (on_exception m h) Φ.
Proof.
  intros Hm. apply trace_catch. eapply trace_mono; [exact Hm|]. intros [a|e] l; [done|].
  destruct (is_exception e); [done|]. intros HΦ. apply trace_raise. by rewrite app_nil_r.
Qed.
Lemma trace_attempt {A} (m : M Net A) (Φ : res (res A) → list exchange → Prop) :
  trace m (λ r l, Φ (Ok r) l) → trace (attempt m) Φ.
Proof. intros Hm s. exact (Hm s). Qed.
End trace_rules.

(** Local steps and branches; the sends and the calls are left. *)
Ltac trace_step :=
  lazymatch goal with
  | |- trace (mbind _ _) _ => apply trace_bind
  | |- trace (mret _) _ => apply trace_ret
  | |- trace (raise _) _ => apply trace_raise
  | |- trace (of_res _) _ => apply trace_of_res
  | |- trace (some_or _ _) _ => apply trace_some_or; [intros ? ?|]
  | |- trace (guard_not _ _) _ => apply trace_guard_not; intros ?
  | |- trace (catch _ _) _ => apply trace_catch
  | |- trace (on_exception _ _) _ => apply trace_on_exception
  | |- trace (attempt _) _ => apply trace_attempt
  | |- trace http_now _ => apply trace_now; intros ?
  | |- trace (http_sleep _) _ => apply trace_sleep; intros [[]|?] ?
  | |- trace (cached_token _) _ => apply trace_cached; intros [?|?]
  | |- trace (cache_token _ _) _ => apply trace_cache; intros [[]|?]
  | |- trace (match ?x with _ => _ end) _ => let E := fresh "E" in destruct x eqn:E
  | |- match ?x with _ => _ end => let E := fresh "E" in destruct x eqn:E
  end.
Ltac trace_auto := repeat (trace_step; cbn beta iota).

(** ** A request is bounded *)

Section bounded.
Context `{HttpsLaws Net}.

Lemma rate_limit_trace r :
  trace (rate_limit_wait r) (λ w l, l = [] ∧ by_transport w ∧ ∀ d, w = Ok (Some d) → rate_limited r = true).
Proof.
  assert (by_transport (reset_time r)) as Hreset.
  { unfold reset_time, by_transport. destruct (_ !! _) as [t|]; [destruct (int_of_chunk _)|]; by intros ? [= <-]. }
  unfold rate_limit_wait. destruct (rate_limited r) eqn:Hr; cbn; [|by apply trace_ret; split_and!].
  destruct (bool_decide _); [|by apply trace_ret; split_and!]. apply trace_bind, trace_of_res.
  destruct (reset_time r) as [t|e]; [by trace_auto|]. split_and!; [done| |done]. intros e' [= <-]. by apply Hreset.
Qed.

(** What is tried again: the connection failed, or the server, or the limit is used up. *)
Definition retried (t : res http_response) : Prop :=
  match t with
  | Ok resp => INTERNAL_SERVER_ERROR ≤ status_code resp ∨ rate_limited resp = true
  | Exc e => e = ConnectionLost
  end.

(** The request was tried: so often at most, and the response is the last answer. *)
Definition tried (q : http_request) (n : nat) (r : res http_response) (l : list exchange) : Prop :=
  ∃ tries, l = (λ t, (q, t)) <$> tries ∧ (length tries ≤ n)%nat ∧
    (∀ resp, r = Ok resp → last tries = Some (Ok resp)) ∧ by_transport r ∧
    Forall retried (take (pred (length tries)) tries).
Lemma tried_exc q n t e : network_error e = true → tried q (S n) (Exc e) [(q, t)].
Proof. intros He. exists [t]. split_and!; [done|cbn; lia|done|by intros ? [= <-]|constructor]. Qed.
Lemma tried_ok q n resp : tried q (S n) (Ok resp) [(q, Ok resp)].
Proof. exists [Ok resp]. split_and!; [done|cbn; lia|by intros ? [= <-]|done|constructor]. Qed.

Lemma attempts_trace left backoff q : trace (attempts left backoff q) (tried q left).
Proof.
  revert backoff. induction left as [|left IH]; intros backoff; cbn [attempts].
  { apply trace_raise. exists []. split_and!; [done|cbn; lia|done|by intros ? [= <-]|constructor]. }
  apply trace_bind, trace_attempt, trace_send. intros t Htransport. cbn [app].
  assert (∀ d, retried t →
    trace (_ ← http_sleep d; attempts left (2 * backoff) q) (λ r l, tried q (S left) r ((q, t) :: l))) as Hagain.
  { intros d Ht. apply trace_bind, trace_sleep. intros [[]|e] He; [|by apply tried_exc, He].
    eapply trace_mono; [apply IH|]. intros r l (tries & -> & Hlen & Hlast & Hr & Hretried). exists (t :: tries).
    split_and!; [done|cbn; lia| |done|destruct tries; [constructor|by constructor]].
    intros resp Hresp. specialize (Hlast resp Hresp). by destruct tries. }
  destruct t as [resp|e].
  - apply trace_bind. eapply trace_mono; [apply rate_limit_trace|].
    intros [wait|e] l (-> & He & Hlimited); [|by apply tried_exc, He]. cbn [app]. pose proof (tried_ok q left resp) as Hresp.
    destruct wait as [w|]; [destruct (MAX_WAIT <? w); [|apply Hagain; right; by eapply Hlimited]
                           |destruct (is_success resp); [by apply trace_ret|]];
      (destruct (decide _); [by apply trace_ret|]; destruct (_ <? _) eqn:Hlt, (rate_limited resp) eqn:Hr; cbn;
       try (by apply trace_ret); apply Hagain; cbn; lia || auto).
  - pose proof (tried_exc q left (Exc e) e (Htransport e eq_refl)) as Hexc. destruct e; try (by apply trace_raise).
    destruct (decide _); [by apply trace_raise|by apply Hagain].
Qed.

(** The answer of a request that returns: GitHub gave it, last. *)
Definition answered (q : http_request) (d : doc) (l : list exchange) : Prop :=
  ∃ resp, last l = Some (q, Ok resp) ∧ is_success resp = true ∧ json resp = Ok d.
Definition only (q : http_request) (l : list exchange) : Prop :=
  (length l ≤ MAX_RETRIES)%nat ∧ Forall (λ e, e.1 = q) l.
Lemma tried_only q r l : tried q MAX_RETRIES r l → only q l.
Proof. intros (tries & -> & Hlen & _). split; [by rewrite length_fmap|]. apply Forall_fmap, Forall_forall. done. Qed.
Lemma make_request_trace q :
  trace (make_request q) (λ r l, only q l ∧
    (∀ resp, r = Ok resp → last l = Some (q, Ok resp) ∧ is_success resp = true) ∧
    (∀ code, r = Exc (HTTPException code) → ∃ resp, last l = Some (q, Ok resp) ∧ status_code resp = code) ∧
    (∀ e, r = Exc e → network_error e = true ∨ ∃ code, e = HTTPException code)).
Proof.
  apply trace_bind. eapply trace_mono; [apply attempts_trace|].
  intros [resp|e] l Htried; pose proof (tried_only _ _ _ Htried) as Honly;
    destruct Htried as (tries & -> & _ & Hlast & Hr & _); 
    [|split_and!; [done..|intros code [= ->]; by specialize (Hr _ eq_refl)|intros e' [= <-]; left; by apply Hr]].
  specialize (Hlast resp eq_refl).
  assert (last ((λ t, (q, t)) <$> tries) = Some (q, Ok resp)) as Hl by (by rewrite fmap_last, Hlast).
  unfold raise_for_status. destruct (is_success resp) eqn:Hs; [apply trace_ret|apply trace_raise]; rewrite app_nil_r.
  - split_and!; [done|by intros ? [= <-]|done|done].
  - split_and!; [done..|intros code [= <-]; by exists resp|intros e [= <-]; right; eauto].
Qed.
Lemma request_json_trace q :
  trace (request_json q) (λ r l, only q l ∧ ∀ d, r = Ok d → answered q d l).
Proof.
  apply trace_bind. eapply trace_mono; [apply make_request_trace|]. intros [resp|e] l (Ho & Hr & _); [|done].
  apply trace_of_res. rewrite app_nil_r. split; [done|]. intros d Hd. destruct (Hr resp eq_refl) as [Hl Hs]. by exists resp.
Qed.
End bounded.

(** ** A network

    What a process sees of the Internet: the answer to a request, once this much was
    exchanged, and how long it takes; no answer is a connection that failed.  The clock
    moves with the answers and the sleeps. *)

Definition answering := list exchange → http_request → Z * option http_response.
Record Internet := mkInternet {
  net_answers : answering; net_log : list exchange; net_clock : Z; net_tokens : gmap Z (string * Z) }.
#[export] Instance Internet_rebuild : Rebuild Internet := λ r,
  mkInternet (net_answers r) (net_log r) (net_clock r) (net_tokens r).
#[export] Instance internet_https : Https Internet := {
  exchanges := net_log;
  clock_of := net_clock;
  http_send q := λ s,
    let '(delay, answer) := net_answers s (net_log s) q in
    let r := match answer with Some resp => Ok resp | None => Exc ConnectionLost end in
    (r, (s <| net_log ::= λ l, l ++ [(q, r)] |>) <| net_clock ::= λ t, t + Z.max 0 delay |>);
  http_now := gets net_clock;
  http_sleep d := modify (λ s, s <| net_clock ::= λ t, t + Z.max 0 d |>);
  cached_token i := gets (λ s, net_tokens s !! i);
  cache_token i t := modify (λ s, s <| net_tokens ::= <[i := t]> |>) }.
#[export] Instance internet_laws : HttpsLaws Internet.
Proof.
  split.
  - intros q s. cbn. by destruct (net_answers _ _ _) as [d [resp|]].
  - intros q s e. cbn. destruct (net_answers _ _ _) as [d [resp|]]; by intros [= <-].
  - intros q s. cbn. destruct (net_answers _ _ _) as [d [resp|]]; cbn; lia.
  - done.
  - done.
  - intros d s. cbn. lia.
  - done.
  - intros i s. cbn. eauto.
  - done.
  - intros i t s. cbn. split; [lia|done].
Qed.
