(* ===== verification/GithubActions.v ===== *)
(** * GithubActions: workflow runs on GitHub

    [shared/clients/github/_actions.py]: finding the runs of a workflow, stopping them
    and proving that they stopped, waiting for one, and what failed in it.  The loops
    that poll take [polls], how often the model lets them; [GithubSafety] shows how
    often is enough. *)

From S2P Require Import Prelude Contracts Docs BotAccess Github.
From Stdlib Require Import Ascii.

Definition UNFINISHED_WORKFLOW_RUN_STATUSES : list string :=
  ["queued"; "in_progress"; "requested"; "waiting"; "pending"].
Definition RUNS_PAGE_SIZE : Z := 100.
Definition MAX_RUNS_PAGES : nat := 20.

(** ** Log excerpts *)

Definition is_word_char (c : ascii) : bool :=
  let n := Z.of_N (N_of_ascii c) in
  (48 <=? n) && (n <=? 57) || (65 <=? n) && (n <=? 90) || (97 <=? n) && (n <=? 122) || (n =? 95).
(** The maximal runs of word characters. *)
Definition flush (word : list ascii) : list string :=
  match word with [] => [] | _ => [String.string_of_list_ascii (rev word)] end.
Fixpoint words_of (word l : list ascii) : list string :=
  match l with
  | [] => flush word
  | c :: l' => if is_word_char c then words_of (c :: word) l' else flush word ++ words_of [] l'
  end.
Definition words (line : string) : list string := words_of [] (String.list_ascii_of_string (lower line)).
Definition has_text (part line : string) : bool := bool_decide (is_Some (String.index 0 part line)).
Definition ends_with (part s : string) : bool :=
  bool_decide (String.substring (String.length s - String.length part) (String.length part) s = part).

(** [_DIAGNOSTIC_LOG_LINE]: a word that ends so spans from a boundary to a boundary. *)
Definition diagnostic_line (line : string) : bool :=
  has_text "::error::" (lower line) || has_text "##[error]" (lower line) ||
  existsb (λ w, ends_with "error" w || ends_with "exception" w ||
                bool_decide (w ∈ ["traceback"; "fatal"; "panic"])) (words line).
(** [_PYTEST_SUMMARY_LINE]: its second form holds the word of its first. *)
Definition pytest_summary_line (line : string) : bool := existsb (λ w, bool_decide (w = "failed")) (words line).

Definition re_space (c : ascii) : bool :=
  let n := Z.of_N (N_of_ascii c) in (9 <=? n) && (n <=? 13) || (28 <=? n) && (n <=? 32).
(** [_RUNNER_WRAPPER_LOG_LINE], read from the end: blanks, a full stop, digits, and the
    phrase, with no word character before it. *)
Fixpoint drop_while (p : ascii → bool) (l : list ascii) : list ascii :=
  match l with c :: l' => if p c then drop_while p l' else l | [] => [] end.
Definition strip_prefix (p l : list ascii) : option (list ascii) :=
  if bool_decide (take (length p) l = p) then Some (drop (length p) l) else None.
Definition runner_wrapper_line (line : string) : bool :=
  let l := drop_while re_space (rev (String.list_ascii_of_string (lower line))) in
  let l := match l with "."%char :: l' => l' | _ => l end in
  let l' := drop_while (λ c, bool_decide (is_Some (digit_of c))) l in
  negb (bool_decide (l' = l)) &&
  match strip_prefix (rev (String.list_ascii_of_string "process completed with exit code ")) l' with
  | Some (c :: _) => negb (is_word_char c)
  | Some [] => true
  | None => false
  end.

(** [splitlines] *)
Definition is_line_end (c : ascii) : bool :=
  let n := Z.of_N (N_of_ascii c) in (10 <=? n) && (n <=? 13) || (28 <=? n) && (n <=? 30).
Fixpoint split_lines (line l : list ascii) : list string :=
  match l with
  | [] => flush line
  | c :: l' =>
      if is_line_end c then
        String.string_of_list_ascii (rev line) ::
        match l' with
        | d :: l'' => if bool_decide (c = "013"%char) && bool_decide (d = "010"%char) then split_lines [] l''
                      else split_lines [] l'
        | [] => []
        end
      else split_lines (c :: line) l'
  end.
Definition splitlines (s : string) : list string := split_lines [] (String.list_ascii_of_string s).

Definition is_match (line : string) : bool :=
  diagnostic_line line && negb (pytest_summary_line line) && negb (runner_wrapper_line line).
(** The index of the last match. *)
Fixpoint last_match (i : Z) (lines : list string) (found : option Z) : option Z :=
  match lines with
  | [] => found
  | line :: lines' => last_match (i + 1) lines' (if is_match line then Some i else found)
  end.
(** [lines[start:end]] within bounds. *)
Definition slice (start stop : Z) (lines : list string) : list string :=
  take (Z.to_nat (stop - start)) (drop (Z.to_nat start) lines).
Definition excerpt_lines (lines : list string) (line_limit : Z) : list string :=
  let n := Z.of_nat (length lines) in
  match last_match 0 lines None with
  | None => slice (Z.max (n - line_limit) 0) n lines
  | Some error_index =>
      let before := line_limit / 3 in
      let start := Z.max (error_index - before) 0 in
      let stop := Z.min (start + line_limit) n in
      let start := Z.max (stop - line_limit) 0 in
      slice start stop lines
  end.
Definition failure_log_excerpt (log : string) (line_limit : Z) : string :=
  String.concat newline (excerpt_lines (splitlines log) line_limit).

Example excerpts :
  is_match "E   ValueError: x" = true ∧ is_match "ErrorHandler ok" = false ∧ is_match "##[error]boom" = true ∧
  is_match "##[error]Process completed with exit code 1." = false ∧ is_match "1 failed, 3 errors, fatal" = false ∧
  failure_log_excerpt ("a" +:+ newline +:+ "fatal: b" +:+ newline +:+ "c" +:+ newline +:+ "d") 2 =
    "fatal: b" +:+ newline +:+ "c".
Proof. split_and!; by vm_compute. Qed.

(** ** Requests *)

Definition repo_url (owner repo : string) : string := "/repos/" +:+ owner +:+ "/" +:+ repo.
Definition workflow_runs_url (owner repo workflow_file : string) : string :=
  repo_url owner repo +:+ "/actions/workflows/" +:+ workflow_file +:+ "/runs".
Definition run_url (owner repo : string) (run_id : Z) : string :=
  repo_url owner repo +:+ "/actions/runs/" +:+ pretty run_id.
Definition bearer (token : string) : string := "token " +:+ token.
Definition get_run_request (owner repo token : string) (run_id : Z) : http_request :=
  get_request (run_url owner repo run_id) (bearer token).
Definition cancel_request (owner repo token : string) (run_id : Z) : http_request :=
  mkHttp "POST" (run_url owner repo run_id +:+ "/cancel") (bearer token) [] DNull.
Definition unfinished_request (owner repo workflow_file token status : string) (page : Z) : http_request :=
  mkHttp "GET" (workflow_runs_url owner repo workflow_file) (bearer token)
    [("status", DStr status); ("per_page", DInt RUNS_PAGE_SIZE); ("page", DInt page)] DNull.

(** GitHub documents the id of a run, or of a job, as an integer. *)
Definition id_of (run : doc) : res Z :=
  id ← item "id" run; match id with DInt z => Ok z | _ => Exc TypeError end.
Definition list_of (key : string) (answer : doc) : res (list doc) :=
  l ← (match answer with DMap m => Ok (get_or (DList []) key m) | _ => Exc AttributeError end);
  match l with DList l => Ok l | _ => Exc TypeError end.
Definition is_completed (run : doc) : res bool := status ← item "status" run; Ok (is_text "completed" status).

Record run_summary := mkRunSummary { rs_status : doc; rs_head_sha : doc }.
(** [by_id[run["id"]] = ...] keeps the place of a key it has. *)
Fixpoint put_summary (id : Z) (r : run_summary) (by_id : list (Z * run_summary)) : list (Z * run_summary) :=
  match by_id with
  | [] => [(id, r)]
  | (i, x) :: rest => if decide (i = id) then (id, r) :: rest else (i, x) :: put_summary id r rest
  end.
Fixpoint keep_unfinished (runs : list doc) (by_id : list (Z * run_summary)) : res (list (Z * run_summary)) :=
  match runs with
  | [] => Ok by_id
  | run :: rest =>
      done ← is_completed run;
      if done : bool then keep_unfinished rest by_id
      else
        id ← id_of run; status ← item "status" run; head_sha ← attr_get "head_sha" run;
        keep_unfinished rest (put_summary id (mkRunSummary status head_sha) by_id)
  end.

(** What [get_latest_workflow_run] gives of a run. *)
Record workflow_run := mkWorkflowRun {
  wr_id : Z; wr_status : doc; wr_conclusion : doc; wr_html_url : doc; wr_created_at : doc; wr_head_sha : doc }.
Definition workflow_run_of (run : doc) : res workflow_run :=
  id ← id_of run; status ← item "status" run; conclusion ← attr_get "conclusion" run;
  html_url ← item "html_url" run; created_at ← item "created_at" run; head_sha ← attr_get "head_sha" run;
  Ok (mkWorkflowRun id status conclusion html_url created_at head_sha).
Definition run_completed (r : workflow_run) : bool := is_text "completed" (wr_status r).

Section actions.
Context `{Https Net} `{PyRepr} (app_jwt : option string) (parse_expiry : string → option Z).
(** [type(exc).__name__], and [strftime] of a moment. *)
Context (type_name : exn → string) (strftime : Z → string).
(** How often a loop that polls may go round. *)
Context (polls : nat).
Abbreviation get_token := (get_token app_jwt parse_expiry).

(** ** The settings of a repository *)

Definition update_branch_protection (owner repo branch : string) (required_checks : list string)
    (require_pr enforce_admins : bool) : M Net unit :=
  token ← get_org_token app_jwt parse_expiry owner;
  _ ← make_request (mkHttp "PUT" (repo_url owner repo +:+ "/branches/" +:+ branch +:+ "/protection") (bearer token) []
    (DMap [("required_status_checks",
              DMap [("strict", DBool true); ("contexts", DList (DStr <$> required_checks))]);
           ("enforce_admins", DBool enforce_admins); ("restrictions", DNull);
           ("required_pull_request_reviews",
              if require_pr then DMap [("required_approving_review_count", DInt 0)] else DNull)]));
  mret tt.
Definition enable_repo_auto_merge (owner repo : string) : M Net unit :=
  token ← get_org_token app_jwt parse_expiry owner;
  _ ← make_request (mkHttp "PATCH" (repo_url owner repo) (bearer token) [] (DMap [("allow_auto_merge", DBool true)]));
  mret tt.

(** [except HTTPStatusError as e: if e is a 404 raise WorkflowNotFoundError; raise] *)
Definition or_workflow_missing {A} (m : M Net A) : M Net A :=
  catch m (λ e, if decide (e = HTTPException 404) then raise WorkflowNotFoundError else raise e).

Definition get_latest_workflow_run (owner repo workflow_file branch : string) (created_after : option Z)
    (head_sha : option string) : M Net (option workflow_run) :=
  token ← get_token owner repo;
  let params := [("branch", DStr branch); ("per_page", DInt 1)] ++
    match created_after with Some t => [("created", DStr (">=" +:+ strftime t))] | None => [] end ++
    match nonempty_text head_sha with Some s => [("head_sha", DStr s)] | None => [] end in
  resp ← or_workflow_missing
    (make_request (mkHttp "GET" (workflow_runs_url owner repo workflow_file) (bearer token) params DNull));
  answer ← of_res (json resp);
  runs ← of_res (list_of "workflow_runs" answer);
  match runs with
  | [] => mret None
  | run :: _ => r ← of_res (workflow_run_of run); mret (Some r)
  end.

Definition cancel_workflow_run (owner repo : string) (run_id : Z) : M Net unit :=
  token ← get_token owner repo;
  catch (_ ← make_request (cancel_request owner repo token run_id); mret tt)
    (λ e, if decide (e = HTTPException 409) then mret tt else raise e).

(** ** The fence *)

(** The pages from [page] on, as far as the bound allows. *)
Fixpoint unfinished_pages (pages : nat) (owner repo workflow_file token status : string) (page : Z)
    (by_id : list (Z * run_summary)) : M Net (list (Z * run_summary)) :=
  match pages with
  | O => raise WorkflowRunListingIncompleteError
  | S pages =>
      resp ← or_workflow_missing (make_request (unfinished_request owner repo workflow_file token status page));
      answer ← of_res (json resp);
      runs ← of_res (list_of "workflow_runs" answer);
      by_id ← of_res (keep_unfinished runs by_id);
      if Z.of_nat (length runs) <? RUNS_PAGE_SIZE then mret by_id
      else unfinished_pages pages owner repo workflow_file token status (page + 1) by_id
  end.
Definition list_unfinished_workflow_runs (owner repo workflow_file : string) : M Net (list (Z * run_summary)) :=
  token ← get_token owner repo;
  fold_m (λ by_id status, unfinished_pages MAX_RUNS_PAGES owner repo workflow_file token status 1 by_id) []
    UNFINISHED_WORKFLOW_RUN_STATUSES.

(** Poll a run until [ended] says what came of it, or the time is over. *)
Fixpoint wait_for_terminal (n : nat) (q : http_request) (start timeout_seconds poll_interval : Z) : M Net doc :=
  match n with
  | O => raise OutOfFuel
  | S n =>
      run ← request_json q;
      done ← of_res (is_completed run);
      if done : bool then
        conclusion ← of_res (attr_get "conclusion" run);
        mret (if doc_truthy conclusion then conclusion else DStr "unknown")
      else
        now ← http_now;
        _ ← guard_not (timeout_seconds * SECOND <? now - start) TimeoutError;
        _ ← http_sleep (poll_interval * SECOND);
        wait_for_terminal n q start timeout_seconds poll_interval
  end.
Definition wait_for_terminal_workflow_run (owner repo : string) (run_id timeout_seconds poll_interval : Z) : M Net doc :=
  token ← get_token owner repo;
  start ← http_now;
  wait_for_terminal polls (get_run_request owner repo token run_id) start timeout_seconds poll_interval.

Definition unproven {A} (m : M Net A) : M Net A :=
  on_exception m (λ _, raise WorkflowCancellationUnprovenError).
Definition fence_run (owner repo : string) (timeout_seconds poll_interval run_id : Z) : M Net unit :=
  unproven (_ ← cancel_workflow_run owner repo run_id;
            _ ← wait_for_terminal_workflow_run owner repo run_id timeout_seconds poll_interval; mret tt).
Definition fence_workflow (owner repo workflow_file : string) (timeout_seconds poll_interval : Z) : M Net (list Z) :=
  active ← unproven (list_unfinished_workflow_runs owner repo workflow_file);
  fold_m (λ fenced run_id, _ ← fence_run owner repo timeout_seconds poll_interval run_id; mret (fenced ++ [run_id]))
    [] (fst <$> active).

(** ** A teardown's cancellation *)

(** It ends in an exception: the run was cancelled, it ended otherwise, or too late. *)
Fixpoint wait_for_cancelled (n : nat) (q : http_request) (start timeout_seconds poll_interval : Z) : M Net unit :=
  match n with
  | O => raise OutOfFuel
  | S n =>
      now ← http_now;
      _ ← guard_not (timeout_seconds * SECOND <? now - start) TimeoutError;
      run ← request_json q;
      done ← of_res (is_completed run);
      if done : bool then
        conclusion ← of_res (attr_get "conclusion" run);
        raise (if is_text "cancelled" conclusion then WorkflowCancelledError else RuntimeError)
      else
        _ ← http_sleep (poll_interval * SECOND);
        wait_for_cancelled n q start timeout_seconds poll_interval
  end.
Definition wait_for_cancelled_workflow_run (owner repo : string) (run_id timeout_seconds poll_interval : Z) : M Net unit :=
  token ← get_token owner repo;
  start ← http_now;
  wait_for_cancelled polls (get_run_request owner repo token run_id) start timeout_seconds poll_interval.

Definition cancel_and_confirm_workflow_run (owner repo : string) (run_id timeout_seconds poll_interval : Z) : M Net unit :=
  catch (_ ← cancel_workflow_run owner repo run_id;
         wait_for_cancelled_workflow_run owner repo run_id timeout_seconds poll_interval)
    (λ e, if decide (e = WorkflowCancelledError) then raise e
          else if is_exception e then raise WorkflowCancellationUnprovenError else raise e).

(** The stop of a wait that was interrupted.  [asyncio.shield] lets the request go on. *)
Definition cancelled_is_enough (m : M Net unit) : M Net unit :=
  catch m (λ e, if decide (e = WorkflowCancelledError) then mret tt
                else if is_exception e then raise WorkflowCancellationUnprovenError else raise e).
Definition cancel_interrupted_workflow_wait (owner repo workflow_file branch : string) (created_after : option Z)
    (head_sha : option string) (run : option workflow_run) (timeout_seconds poll_interval : Z) : M Net unit :=
  cancelled_is_enough (
    found ← (match run with
             | Some r => mret (Some r)
             | None => get_latest_workflow_run owner repo workflow_file branch created_after head_sha
             end);
    match found with
    | None => raise WorkflowCancellationUnprovenError
    | Some r => if run_completed r then mret tt
                else cancel_and_confirm_workflow_run owner repo (wr_id r) timeout_seconds poll_interval
    end).
Definition cancel_interrupted_run_wait (owner repo : string) (run_id : Z) (last_status : option doc)
    (timeout_seconds poll_interval : Z) : M Net unit :=
  if match last_status with Some s => is_text "completed" s | None => false end then mret tt
  else cancelled_is_enough (cancel_and_confirm_workflow_run owner repo run_id timeout_seconds poll_interval).

(** ** What failed in a run *)

Definition short_text (dflt : string) (v : doc) : string :=
  String.substring 0 200 (if doc_truthy v then py_str v else dflt).
Definition failed (v : doc) : res bool := conclusion ← attr_get "conclusion" v; Ok (is_text "failure" conclusion).
Fixpoint failed_steps (steps : list doc) : res (list string) :=
  match steps with
  | [] => Ok []
  | step :: rest =>
      f ← failed step; name ← attr_get "name" step; names ← failed_steps rest;
      Ok (if f : bool then short_text "unnamed step" name :: names else names)
  end.
(** The excerpt of a job's log, or why there is none. *)
Definition job_log (owner repo token : string) (job_id : doc) (line_limit : Z) : M Net (option string * option string) :=
  match job_id with
  | DNull => mret (None, Some "GitHub job ID unavailable")
  | _ =>
      on_exception
        (resp ← make_request (get_request (repo_url owner repo +:+ "/actions/jobs/" +:+ py_str job_id +:+ "/logs")
                                (bearer token));
         let excerpt := failure_log_excerpt (content resp) line_limit in
         mret (if existsb (λ c, negb (re_space c)) (String.list_ascii_of_string excerpt)
               then (Some excerpt, None) else (None, Some "GitHub job log was empty")))
        (λ e, mret (None, Some (type_name e)))
  end.
Definition failed_job (owner repo token : string) (log_excerpt_lines : option Z) (job : doc) : M Net FailedJob :=
  job_id ← of_res (attr_get "id" job);
  log ← (match log_excerpt_lines with
         | None => mret None
         | Some n => l ← job_log owner repo token job_id n; mret (Some l)
         end);
  name ← of_res (attr_get "name" job);
  steps ← of_res (list_of "steps" job);
  names ← of_res (failed_steps steps);
  mret (mkFailedJob (short_text "unnamed job" name) names log).
Definition get_workflow_failure_details (owner repo : string) (run_id : Z) (log_excerpt_lines : option Z)
    : M Net (list FailedJob) :=
  _ ← guard_not (match log_excerpt_lines with Some n => n <? 1 | None => false end) ValueError;
  token ← get_token owner repo;
  answer ← request_json (get_request (run_url owner repo run_id +:+ "/jobs") (bearer token));
  jobs ← of_res (list_of "jobs" answer);
  fold_m (λ failed_jobs job,
      f ← of_res (failed job);
      if f : bool then j ← failed_job owner repo token log_excerpt_lines job; mret (failed_jobs ++ [j])
      else mret failed_jobs) [] jobs.
Definition get_workflow_failure_logs (owner repo : string) (run_id : Z) : M Net string :=
  failed_jobs ← get_workflow_failure_details owner repo run_id None;
  let lines := flat_map (λ j, ("Job '" +:+ fj_name j +:+ "' failed:") ::
                              ((λ step, "  Step '" +:+ step +:+ "' failed") <$> fj_failed_steps j)) failed_jobs in
  mret (match lines with
        | [] => "Workflow run " +:+ pretty run_id +:+ " failed (no job details available)"
        | _ => String.concat newline lines
        end).

(** ** Waiting for a run *)

Section waiting.
Context (owner repo : string) (timeout_seconds poll_interval : Z) (cancel_check : option (M Net bool)).

(** [try: ... except asyncio.CancelledError: await interrupted; raise], around one step. *)
Definition interruptible {A} (interrupted : M Net unit) (m : M Net A) : M Net A :=
  catch m (λ e, if decide (e = CancelledError) then _ ← interrupted; raise e else raise e).
(** Whether the caller asks for the stop; a check that fails stops nothing it can prove. *)
Definition stop_requested : M Net bool :=
  match cancel_check with None => mret false | Some check => unproven check end.

Fixpoint workflow_completion (n : nat) (workflow_file branch : string) (created_after : option Z)
    (head_sha : option string) (start : Z) (run : option workflow_run) : M Net workflow_run :=
  match n with
  | O => raise OutOfFuel
  | S n =>
      let await (current : option workflow_run) {A} (m : M Net A) := interruptible
        (cancel_interrupted_workflow_wait owner repo workflow_file branch created_after head_sha current
           timeout_seconds poll_interval) m in
      now ← http_now;
      _ ← guard_not (timeout_seconds * SECOND <? now - start) TimeoutError;
      found ← await run (get_latest_workflow_run owner repo workflow_file branch created_after head_sha);
      match found with
      | None =>
          _ ← await None (http_sleep (poll_interval * SECOND));
          workflow_completion n workflow_file branch created_after head_sha start None
      | Some r =>
          requested ← await found stop_requested;
          _ ← (if requested : bool
               then await found (cancel_and_confirm_workflow_run owner repo (wr_id r) timeout_seconds poll_interval)
               else mret tt);
          if run_completed r then
            if is_text "success" (wr_conclusion r) then mret r
            else if is_text "cancelled" (wr_conclusion r) then raise WorkflowCancelledError
            else _ ← await found (on_exception (get_workflow_failure_logs owner repo (wr_id r)) (λ _, mret ""));
                 raise RuntimeError
          else
            _ ← await found (http_sleep (poll_interval * SECOND));
            workflow_completion n workflow_file branch created_after head_sha start found
      end
  end.
Definition wait_for_workflow_completion (workflow_file branch : string) (created_after : option Z)
    (head_sha : option string) : M Net workflow_run :=
  start ← http_now;
  workflow_completion polls workflow_file branch created_after head_sha start None.

(** The answer about a run that succeeded. *)
Record wait_result := mkRunResult {
  rr_id : doc; rr_status : doc; rr_conclusion : doc; rr_html_url : doc; rr_head_sha : doc }.
Definition run_result_of (run : doc) : res wait_result :=
  id ← item "id" run; status ← item "status" run; conclusion ← attr_get "conclusion" run;
  html_url ← item "html_url" run; head_sha ← attr_get "head_sha" run;
  Ok (mkRunResult id status conclusion html_url head_sha).
Fixpoint run_completion (n : nat) (run_id : Z) (q : http_request) (start : Z) (last_status : option doc)
    : M Net wait_result :=
  match n with
  | O => raise OutOfFuel
  | S n =>
      let await (last : option doc) {A} (m : M Net A) := interruptible
        (cancel_interrupted_run_wait owner repo run_id last timeout_seconds poll_interval) m in
      now ← http_now;
      _ ← guard_not (timeout_seconds * SECOND <? now - start) TimeoutError;
      run ← await last_status (request_json q);
      status ← of_res (item "status" run);
      requested ← await (Some status) stop_requested;
      _ ← (if requested && negb (is_text "completed" status)
           then await (Some status) (cancel_and_confirm_workflow_run owner repo run_id timeout_seconds poll_interval)
           else mret tt);
      if is_text "completed" status then
        result ← of_res (run_result_of run);
        if is_text "success" (rr_conclusion result) then mret result
        else _ ← await (Some status) (on_exception (get_workflow_failure_logs owner repo run_id) (λ _, mret ""));
             raise RuntimeError
      else
        _ ← await (Some status) (http_sleep (poll_interval * SECOND));
        run_completion n run_id q start (Some status)
  end.
Definition wait_for_run_completion (run_id : Z) : M Net wait_result :=
  token ← get_token owner repo;
  start ← http_now;
  run_completion polls run_id (get_run_request owner repo token run_id) start None.
End waiting.

(** ** Starting a run *)

Definition trigger_workflow_dispatch (owner repo workflow_file ref : string) (inputs : mapping) : M Net bool :=
  token ← get_token owner repo;
  _ ← make_request (mkHttp "POST" (repo_url owner repo +:+ "/actions/workflows/" +:+ workflow_file +:+ "/dispatches")
         (bearer token) []
         (DMap (("ref", DStr ref) :: match inputs with [] => [] | _ => [("inputs", DMap inputs)] end)));
  mret true.
Definition rerun_failed_jobs (owner repo : string) (run_id : Z) : M Net bool :=
  token ← get_token owner repo;
  _ ← make_request (mkHttp "POST" (run_url owner repo run_id +:+ "/rerun-failed-jobs") (bearer token) [] DNull);
  mret true.
End actions.
