(* ===== verification/GithubSafety.v ===== *)
(** * GithubSafety: what the client may say of a workflow run

    A request is tried three times at most.  The fence returns only once every run it
    could list is proven terminal, and its listing is the whole; a wait reports success,
    or a cancellation, only if GitHub did; every wait ends. *)

From S2P Require Import Prelude Contracts Docs BotAccess Github GithubActions.
From Stdlib Require Import Ascii.

Abbreviation exchange := (http_request * res http_response)%type (only parsing).

(** A request to GitHub is sent three times at most, unchanged, and what was
    sent again had met a failed connection, a failing server or the rate limit; the
    answer is the last response. *)
Theorem github_requests_are_bounded `{HttpsLaws Net} q (s : Net) :
  ∃ tries, exchanges (last_response q s).2 = exchanges s ++ ((λ t, (q, t)) <$> tries) ∧
    (length tries ≤ 3)%nat ∧ Forall retried (take (pred (length tries)) tries) ∧
    ∀ resp, (last_response q s).1 = Ok resp → last tries = Some (Ok resp).
Proof.
  destruct (attempts_trace MAX_RETRIES SECOND q s) as (l & Hl & tries & -> & Hlen & Hlast & _ & Hretried).
  by exists tries.
Qed.

Definition terminal (run : doc) : Prop := is_completed run = Ok true.
(** The run ended, or its id is among these. *)
Definition accounted (ids : list Z) (run : doc) : Prop := terminal run ∨ ∃ id, id_of run = Ok id ∧ id ∈ ids.
Lemma accounted_mono ids ids' run : ids ⊆ ids' → accounted ids run → accounted ids' run.
Proof. intros Hsub [?|(id & ? & ?)]; [by left|right; exists id; auto]. Qed.
Lemma put_summary_ids id r by_id x : x ∈ (put_summary id r by_id).*1 ↔ x = id ∨ x ∈ by_id.*1.
Proof.
  induction by_id as [|[i y] rest IH]; cbn; [set_solver|]. destruct (decide (i = id)) as [->|]; set_solver.
Qed.
Lemma keep_unfinished_ids runs by_id by_id' :
  keep_unfinished runs by_id = Ok by_id' → by_id.*1 ⊆ by_id'.*1 ∧ Forall (accounted by_id'.*1) runs.
Proof.
  revert by_id. induction runs as [|run runs IH]; cbn; intros by_id; [by intros [= ->]|].
  destruct (is_completed run) as [[]|e] eqn:Hdone; cbn; [| |done].
  - intros [? ?]%IH. split; [done|]. by constructor; [left|].
  - destruct (id_of run) as [id|] eqn:Hid; cbn; [|done].
    destruct (item "status" run) as [status|]; cbn; [|done].
    destruct (attr_get "head_sha" run) as [sha|]; cbn; [|done]. intros [Hsub ?]%IH.
    pose proof (put_summary_ids id (mkRunSummary status sha) by_id) as Hput.
    split; [set_solver|]. constructor; [|done]. right. exists id. split; [done|]. apply Hsub, Hput. by left.
Qed.

Create HintDb plain.
Create HintDb timely.

Section safety.
Context `{HttpsLaws Net} `{PyRepr} (app_jwt : option string) (parse_expiry : string → option Z)
  (type_name : exn → string) (strftime : Z → string) (polls : nat).

(** ** Anything may be exchanged *)

Definition whatever {A} (m : M Net A) : Prop := trace m (λ _ _, True).
Lemma whatever_bind {A B} (m : M Net A) (f : A → M Net B) :
  whatever m → (∀ a, whatever (f a)) → whatever (m ≫= f).
Proof. intros Hm Hf. apply trace_bind. eapply trace_mono; [exact Hm|]. intros [a|e] l _; [apply Hf|done]. Qed.
Lemma whatever_on_exception {A} (m : M Net A) h : whatever m → (∀ e, whatever (h e)) → whatever (on_exception m h).
Proof.
  intros Hm Hh. apply trace_on_exception. eapply trace_mono; [exact Hm|]. intros [a|e] l _; [done|].
  destruct (is_exception e); [apply Hh|done].
Qed.
Lemma whatever_fold_m {A B} (f : B → A → M Net B) b l : (∀ b x, whatever (f b x)) → whatever (fold_m f b l).
Proof. intros Hf. revert b. induction l as [|x l IH]; intros b; cbn; [by apply trace_ret|by apply whatever_bind]. Qed.
Lemma whatever_of_res {A} (r : res A) : whatever (of_res r).
Proof. by apply trace_of_res. Qed.
Lemma whatever_ret {A} (a : A) : whatever (mret a).
Proof. by apply trace_ret. Qed.
Lemma whatever_request q : whatever (make_request q).
Proof. eapply trace_mono; [apply make_request_trace|done]. Qed.
Lemma whatever_json q : whatever (request_json q).
Proof. eapply trace_mono; [apply request_json_trace|done]. Qed.
Lemma whatever_token owner repo : whatever (get_token app_jwt parse_expiry owner repo).
Proof.
  assert (∀ path, whatever (installation_of app_jwt path)) as Hid.
  { intros path. unfold installation_of. apply whatever_bind; [by apply trace_some_or|intros jwt].
    apply whatever_bind; [apply whatever_json|intros answer]. unfold whatever. by trace_auto. }
  assert (∀ i, whatever (refresh_token app_jwt parse_expiry i)) as Hrefresh.
  { intros i. unfold refresh_token. apply whatever_bind; [by apply trace_some_or|intros jwt].
    apply whatever_bind; [apply whatever_json|intros answer]. unfold whatever. by trace_auto. }
  unfold get_token, get_installation_token. apply whatever_bind; [apply Hid|intros i].
  apply whatever_bind; [by apply trace_cached|intros cached]. apply whatever_bind; [by apply trace_now|intros now].
  destruct cached as [[token expires_at]|]; [|apply Hrefresh]. destruct (_ <? _); [by apply trace_ret|apply Hrefresh].
Qed.

Lemma whatever_details owner repo run_id lines :
  whatever (get_workflow_failure_details app_jwt parse_expiry type_name owner repo run_id lines).
Proof.
  unfold get_workflow_failure_details.
  apply whatever_bind; [by apply trace_guard_not|intros _]. apply whatever_bind; [apply whatever_token|intros token].
  apply whatever_bind; [apply whatever_json|intros answer]. apply whatever_bind; [apply whatever_of_res|intros jobs].
  apply whatever_fold_m. intros failed_jobs job. apply whatever_bind; [apply whatever_of_res|intros []]; [|apply whatever_ret].
  apply whatever_bind; [|intros; apply whatever_ret]. unfold failed_job.
  apply whatever_bind; [apply whatever_of_res|intros job_id]. apply whatever_bind; [|intros log].
  - destruct lines as [n|]; [|apply whatever_ret]. apply whatever_bind; [|intros; apply whatever_ret].
    unfold job_log. destruct job_id; try (by apply whatever_ret);
      (apply whatever_on_exception; [|intros; apply whatever_ret]; apply whatever_bind; [apply whatever_request|intros;
       apply whatever_ret]).
  - do 3 (apply whatever_bind; [apply whatever_of_res|intros ?]). apply whatever_ret.
Qed.
Lemma whatever_logs owner repo run_id :
  whatever (get_workflow_failure_logs app_jwt parse_expiry type_name owner repo run_id).
Proof. apply whatever_bind; [apply whatever_details|intros; apply whatever_ret]. Qed.

(** ** What GitHub said *)

(** GitHub answered the request with something that [P] holds of. *)
Definition told (q : http_request) (P : doc → Prop) (l : list exchange) : Prop :=
  ∃ resp d, (q, Ok resp) ∈ l ∧ is_success resp = true ∧ json resp = Ok d ∧ P d.
Lemma told_app_l q P l l' : told q P l → told q P (l ++ l').
Proof. intros (resp & d & Hin & ?). exists resp, d. split; [apply elem_of_app; by left|done]. Qed.
Lemma told_app_r q P l l' : told q P l' → told q P (l ++ l').
Proof. intros (resp & d & Hin & ?). exists resp, d. split; [apply elem_of_app; by right|done]. Qed.
Lemma told_mono q (P Q : doc → Prop) l : (∀ d, P d → Q d) → told q P l → told q Q l.
Proof. intros HPQ (resp & d & ? & ? & ? & ?). exists resp, d. auto. Qed.
Lemma last_in {A} (l : list A) x : last l = Some x → x ∈ l.
Proof. intros (l' & ->)%last_Some. apply elem_of_app. right. left. Qed.
Lemma request_told q : trace (request_json q) (λ r l, ∀ d, r = Ok d → told q (λ d', d' = d) l).
Proof.
  eapply trace_mono; [apply request_json_trace|]. intros r l [_ Hr] d Hd.
  destruct (Hr d Hd) as (resp & Hl%last_in & ? & ?). by exists resp, d.
Qed.

(** The request to cancel was accepted, or the run was past it. *)
Definition cancel_accepted (owner repo : string) (run_id : Z) (l : list exchange) : Prop :=
  ∃ token resp, (cancel_request owner repo token run_id, Ok resp) ∈ l ∧ (is_success resp = true ∨ status_code resp = 409).
Definition run_terminal (owner repo : string) (run_id : Z) (l : list exchange) : Prop :=
  ∃ token, told (get_run_request owner repo token run_id) terminal l.
(** First the one, then the other. *)
Definition stopped (owner repo : string) (run_id : Z) (l : list exchange) : Prop :=
  ∃ l1 l2, l = l1 ++ l2 ∧ cancel_accepted owner repo run_id l1 ∧ run_terminal owner repo run_id l2.
Lemma stopped_app owner repo run_id l0 l l' :
  stopped owner repo run_id l → stopped owner repo run_id (l0 ++ l ++ l').
Proof.
  intros (l1 & l2 & -> & (token & resp & Hin & ?) & token' & Ht). exists (l0 ++ l1), (l2 ++ l'). split_and!.
  - by rewrite !app_assoc.
  - exists token, resp. split; [|done]. apply elem_of_app. by right.
  - exists token'. by apply told_app_l.
Qed.

Lemma cancel_trace owner repo run_id :
  trace (cancel_workflow_run app_jwt parse_expiry owner repo run_id) (λ r l, r = Ok tt → cancel_accepted owner repo run_id l).
Proof.
  apply trace_bind. eapply trace_mono; [apply whatever_token|]. intros [token|e] l _; [|done].
  apply trace_catch, trace_bind. eapply trace_mono; [apply make_request_trace|].
  intros [resp|e] l' (_ & Hok & Hexc & _).
  - apply trace_ret. intros _. destruct (Hok resp eq_refl) as [Hin%last_in Hs]. exists token, resp.
    split; [|by left]. rewrite !elem_of_app. auto.
  - destruct (decide _) as [->|]; [|by apply trace_raise]. apply trace_ret. intros _.
    destruct (Hexc 409 eq_refl) as (resp & Hin%last_in & Hs). exists token, resp.
    split; [|by right]. rewrite !elem_of_app. auto.
Qed.

Lemma wait_for_terminal_trace n q start timeout poll :
  trace (wait_for_terminal n q start timeout poll) (λ r l, ∀ c, r = Ok c → told q terminal l).
Proof.
  induction n as [|n IH]; cbn [wait_for_terminal]; [by apply trace_raise|]. apply trace_bind.
  eapply trace_mono; [apply request_told|]. intros [run|e] l Htold; [|done]. specialize (Htold run eq_refl).
  apply trace_bind, trace_of_res. destruct (is_completed run) as [[]|e] eqn:Hdone; [| |done].
  - assert (told q terminal l) as Ht by (by eapply told_mono; [|done]; cbn; intros ? ->).
    apply trace_bind, trace_of_res. destruct (attr_get _ _); [|done]. apply trace_ret. intros _ _. by repeat apply told_app_l.
  - apply trace_bind, trace_now. intros now. apply trace_bind, trace_guard_not; [intros _|done].
    apply trace_bind, trace_sleep. intros [[]|e] _; [|done].
    eapply trace_mono; [apply IH|]. intros r l' Hr c Hc. repeat apply told_app_r. by eapply Hr.
Qed.
Lemma fence_run_trace owner repo timeout poll run_id :
  trace (fence_run app_jwt parse_expiry polls owner repo timeout poll run_id)
    (λ r l, r = Ok tt → stopped owner repo run_id l).
Proof.
  apply trace_on_exception, trace_bind. eapply trace_mono; [apply cancel_trace|].
  intros [[]|e] l Hcancel; [|destruct (is_exception e); [by apply trace_raise|done]]. specialize (Hcancel eq_refl).
  apply trace_bind, trace_bind. eapply trace_mono; [apply whatever_token|].
  intros [token|e] l1 _; [|destruct (is_exception e); [by apply trace_raise|done]].
  apply trace_bind, trace_now. intros start. eapply trace_mono; [apply wait_for_terminal_trace|].
  intros [c|e] l2 Hwait; [|destruct (is_exception e); [by apply trace_raise|done]].
  apply trace_ret. intros _. rewrite app_nil_r. cbn [app].
  exists l, (l1 ++ l2). split_and!; [done|done|]. exists token. apply told_app_r. by eapply Hwait.
Qed.

(** ** The listing is the whole *)

Definition page_told (owner repo workflow_file status : string) (page : Z) (runs : list doc) (l : list exchange) : Prop :=
  ∃ token, told (unfinished_request owner repo workflow_file token status page)
    (λ d, list_of "workflow_runs" d = Ok runs) l.
(** From [first] on, every page was answered, and the last is not full. *)
Definition pages_told (owner repo workflow_file status : string) (first : Z) (ids : list Z) (l : list exchange) : Prop :=
  ∃ last_page, first ≤ last_page ∧ ∀ page, first ≤ page ≤ last_page → ∃ runs,
    page_told owner repo workflow_file status page runs l ∧ Forall (accounted ids) runs ∧
    (page = last_page → Z.of_nat (length runs) < RUNS_PAGE_SIZE).
Lemma pages_told_mono owner repo workflow_file status first ids ids' l0 l l' :
  ids ⊆ ids' → pages_told owner repo workflow_file status first ids l →
  pages_told owner repo workflow_file status first ids' (l0 ++ l ++ l').
Proof.
  intros Hsub (n & Hn & Hpages). exists n. split; [done|]. intros page Hpage.
  destruct (Hpages page Hpage) as (runs & (token & Htold) & Hruns & Hlen). exists runs. split_and!; [|..|done].
  - exists token. by apply told_app_r, told_app_l.
  - eapply Forall_impl; [exact Hruns|]. intros run. by apply accounted_mono.
Qed.

Lemma workflow_missing_trace {A} (m : M Net A) (Φ : A → list exchange → Prop) :
  trace m (λ r l, ∀ a, r = Ok a → Φ a l) → trace (or_workflow_missing m) (λ r l, ∀ a, r = Ok a → Φ a l).
Proof.
  intros Hm. apply trace_catch. eapply trace_mono; [exact Hm|]. intros [a|e] l Ha; [done|].
  by destruct (decide _); apply trace_raise.
Qed.

Lemma pages_trace pages owner repo workflow_file token status page by_id :
  trace (unfinished_pages pages owner repo workflow_file token status page by_id) (λ r l, ∀ by_id', r = Ok by_id' →
    by_id.*1 ⊆ by_id'.*1 ∧ pages_told owner repo workflow_file status page by_id'.*1 l).
Proof.
  revert page by_id.
  induction pages as [|pages IH]; intros page by_id; cbn [unfinished_pages]; [by apply trace_raise|].
  apply trace_bind. eapply trace_mono.
  { apply (workflow_missing_trace _ (λ resp l, last l = Some (unfinished_request owner repo workflow_file token status page, Ok resp) ∧
      is_success resp = true)). eapply trace_mono; [apply make_request_trace|]. intros r l (_ & Hok & _) resp. apply Hok. }
  intros [resp|e] l Hresp; [|done]. destruct (Hresp resp eq_refl) as [Hin%last_in Hs].
  apply trace_bind, trace_of_res. destruct (json resp) as [answer|] eqn:Hjson; [|done].
  apply trace_bind, trace_of_res. destruct (list_of "workflow_runs" answer) as [runs|] eqn:Hruns; [|done].
  apply trace_bind, trace_of_res. destruct (keep_unfinished runs by_id) as [by_id1|] eqn:Hkeep; [|done].
  apply keep_unfinished_ids in Hkeep as [Hsub Hacc].
  assert (∀ l', page_told owner repo workflow_file status page runs (l ++ l')) as Htold.
  { intros l'. exists token, resp, answer. split_and!; [apply elem_of_app; by left|done..]. }
  destruct (_ <? _) eqn:Hlen.
  - apply trace_ret. intros ? [= <-]. split; [done|]. exists page. split; [lia|]. intros p Hp.
    assert (p = page) as -> by lia. exists runs. cbn [app]. split_and!; [apply Htold|done|lia].
  - eapply trace_mono; [apply IH|]. intros r l' Hrest by_id' Hr. destruct (Hrest by_id' Hr) as [Hsub' Hpages].
    split; [by etrans|]. cbn [app].
    apply (pages_told_mono owner repo workflow_file status (page + 1) _ by_id'.*1 l l' []) in Hpages; [|done].
    destruct Hpages as (n & Hn & Hpages). exists n. split; [lia|]. intros p Hp. destruct (decide (p = page)) as [->|Hne].
    + exists runs. split_and!; [apply Htold| |lia]. eapply Forall_impl; [exact Hacc|]. intros run. by apply accounted_mono.
    + rewrite app_nil_r in Hpages. apply Hpages. lia.
Qed.

Lemma listing_trace owner repo workflow_file :
  trace (list_unfinished_workflow_runs app_jwt parse_expiry owner repo workflow_file) (λ r l, ∀ active, r = Ok active →
    ∀ status, status ∈ UNFINISHED_WORKFLOW_RUN_STATUSES → pages_told owner repo workflow_file status 1 active.*1 l).
Proof.
  apply trace_bind. eapply trace_mono; [apply whatever_token|]. intros [token|e] l0 _; [|done].
  cut (∀ statuses by_id, trace (fold_m (λ by_id status,
         unfinished_pages MAX_RUNS_PAGES owner repo workflow_file token status 1 by_id) by_id statuses)
       (λ r l, ∀ active, r = Ok active → by_id.*1 ⊆ active.*1 ∧
          ∀ status, status ∈ statuses → pages_told owner repo workflow_file status 1 active.*1 l)).
  { intros Hall. eapply trace_mono; [apply Hall|]. intros r l Hr active Ha status Hin.
    destruct (Hr active Ha) as [_ Hpages]. specialize (Hpages status Hin).
    apply (pages_told_mono owner repo workflow_file status 1 _ active.*1 l0 l []) in Hpages; [|done].
    by rewrite app_nil_r in Hpages. }
  induction statuses as [|status statuses IH]; intros by_id; cbn [fold_m].
  { apply trace_ret. intros ? [= <-]. split; [done|]. by intros ? ?%not_elem_of_nil. }
  apply trace_bind. eapply trace_mono; [apply pages_trace|]. intros [by_id1|e] l Hr; [|done].
  destruct (Hr by_id1 eq_refl) as [Hsub Hpages]. eapply trace_mono; [apply IH|]. intros r l' Hr' active Ha.
  destruct (Hr' active Ha) as [Hsub' Hrest]. split; [by etrans|]. intros st [->|Hin]%elem_of_cons.
  - by apply (pages_told_mono _ _ _ _ _ _ active.*1 [] l l') in Hpages.
  - apply Hrest in Hin. apply (pages_told_mono _ _ _ _ _ _ active.*1 l l' []) in Hin; [|done]. by rewrite app_nil_r in Hin.
Qed.

(** A failure is told as one that proves nothing, or passes on a cancellation. *)
Definition fails_closed {A} (r : res A) : Prop :=
  ∀ e, r = Exc e → e = WorkflowCancellationUnprovenError ∨ is_exception e = false.
Lemma unproven_trace {A} (m : M Net A) (Φ : A → list exchange → Prop) :
  trace m (λ r l, ∀ a, r = Ok a → Φ a l) → trace (unproven m) (λ r l, fails_closed r ∧ ∀ a, r = Ok a → Φ a l).
Proof.
  intros Hm. apply trace_on_exception. eapply trace_mono; [exact Hm|]. intros [a|e] l Ha; [done|].
  destruct (is_exception e) eqn:He; [apply trace_raise|]; (split; [|done]); intros ? [= <-]; auto.
Qed.

Definition fenced_whole (owner repo workflow_file : string) (fenced : list Z) (l : list exchange) : Prop :=
  ∃ listing stops, l = listing ++ stops ∧
    (∀ status, status ∈ UNFINISHED_WORKFLOW_RUN_STATUSES → pages_told owner repo workflow_file status 1 fenced listing) ∧
    ∀ run_id, run_id ∈ fenced → stopped owner repo run_id stops.
Lemma fence_trace owner repo workflow_file timeout poll :
  trace (fence_workflow app_jwt parse_expiry polls owner repo workflow_file timeout poll) (λ r l,
    fails_closed r ∧ ∀ fenced, r = Ok fenced → fenced_whole owner repo workflow_file fenced l).
Proof.
  apply trace_bind. eapply trace_mono; [apply unproven_trace, listing_trace|]. cbv beta.
  intros [active|e] l [Hfail Hlisting]; [|split; [|done]; intros e' [= <-]; by apply Hfail].
  specialize (Hlisting active eq_refl).
  cut (∀ ids fenced, trace (fold_m (λ fenced run_id,
         _ ← fence_run app_jwt parse_expiry polls owner repo timeout poll run_id; mret (fenced ++ [run_id])) fenced ids)
       (λ r l, fails_closed r ∧ ∀ fenced', r = Ok fenced' → fenced' = fenced ++ ids ∧
          ∀ run_id, run_id ∈ ids → stopped owner repo run_id l)).
  { intros Hall. eapply trace_mono; [apply Hall|]. intros r stops [Hf Hr]. split; [done|]. intros fenced Hfenced.
    destruct (Hr fenced Hfenced) as [-> Hstops]. exists l, stops. by split_and!. }
  clear l active Hfail Hlisting. induction ids as [|id ids IH]; intros fenced; cbn [fold_m].
  { apply trace_ret. split; [done|]. intros ? [= <-]. rewrite app_nil_r. split; [done|]. by intros ? ?%not_elem_of_nil. }
  apply trace_bind, trace_bind.
  assert (trace (fence_run app_jwt parse_expiry polls owner repo timeout poll id)
    (λ r l, fails_closed r ∧ (r = Ok tt → stopped owner repo id l))) as Hone.
  { intros s. destruct (fence_run_trace owner repo timeout poll id s) as (l & Hl & Hstop). exists l. split; [done|].
    split; [|done]. unfold fence_run, unproven, on_exception, catch.
    destruct ((_ ← cancel_workflow_run _ _ _ _ _; _) s) as [[a|e] s']; [done|].
    destruct (is_exception e) eqn:He; intros ? [= <-]; auto. }
  eapply trace_mono; [exact Hone|]. intros [[]|e] l [Hfail Hstop]; [|split; [|done]; intros e' [= <-]; by apply Hfail].
  specialize (Hstop eq_refl). apply trace_ret. eapply trace_mono; [apply IH|]. intros r l' [Hf Hr]. split; [done|].
  intros fenced' Hfenced. destruct (Hr fenced' Hfenced) as [-> Hrest]. rewrite <-app_assoc. split; [done|].
  intros x [->|Hx]%elem_of_cons; rewrite app_nil_r.
  - by apply (stopped_app owner repo id []).
  - apply Hrest in Hx. apply (stopped_app owner repo x l l' []) in Hx. by rewrite app_nil_r in Hx.
Qed.

(** ** Exceptions and time *)

(** Neither the model's fuel nor a cancellation by teardown. *)
Definition plain (e : exn) : bool := match e with WorkflowCancelledError | OutOfFuel => false | _ => true end.
Definition plainly {A} (r : res A) : Prop := ∀ e, r = Exc e → plain e = true.
(** Time goes on, and what is raised is plain. *)
Definition timely {A} (m : M Net A) : Prop := ∀ s, clock_of s ≤ clock_of (m s).2 ∧ plainly (m s).1.

Lemma plainly_bind {A B} (r : res A) (f : A → res B) : plainly r → (∀ a, plainly (f a)) → plainly (r ≫= f).
Proof. intros Hr Hf. destruct r as [a|e]; cbn; [apply Hf|]. intros ? [= <-]. by apply Hr. Qed.
Lemma plainly_ok {A} (a : A) : plainly (Ok a).
Proof. done. Qed.
Lemma plainly_item k v : plainly (item k v).
Proof. unfold item, plainly. destruct v; try (by intros ? [= <-]). destruct (lookup_key k m); by intros ? [= <-]. Qed.
Lemma plainly_attr_get k v : plainly (attr_get k v).
Proof. unfold attr_get, plainly. by destruct v; intros ? [= <-]. Qed.
Lemma plainly_list_of k v : plainly (list_of k v).
Proof.
  unfold list_of. apply plainly_bind; [destruct v; try done; by intros ? [= <-]|]. intros []; try done; by intros ? [= <-].
Qed.
Lemma plainly_json resp : plainly (json resp).
Proof. unfold json, plainly. destruct (body resp); by intros ? [= <-]. Qed.
Lemma plainly_id_of v : plainly (id_of v).
Proof. apply plainly_bind; [apply plainly_item|]. intros []; try done; by intros ? [= <-]. Qed.
Lemma plainly_completed v : plainly (is_completed v).
Proof. apply plainly_bind; [apply plainly_item|done]. Qed.
#[local] Hint Resolve plainly_ok plainly_item plainly_attr_get plainly_list_of plainly_json plainly_id_of plainly_completed : plain.
Ltac plain_auto := repeat (apply plainly_bind; [auto with plain|intros ?]); auto with plain.
Lemma plainly_keep runs by_id : plainly (keep_unfinished runs by_id).
Proof.
  revert by_id. induction runs as [|run runs IH]; intros by_id; cbn; [done|].
  apply plainly_bind; [auto with plain|]. intros []; [apply IH|]. plain_auto.
Qed.
Lemma plainly_run_of run : plainly (workflow_run_of run).
Proof. unfold workflow_run_of. plain_auto. Qed.
Lemma plainly_result_of run : plainly (run_result_of run).
Proof. unfold run_result_of. plain_auto. Qed.
Lemma plainly_failed v : plainly (failed v).
Proof. unfold failed. plain_auto. Qed.
Lemma plainly_failed_steps steps : plainly (failed_steps steps).
Proof.
  induction steps as [|step steps IH]; cbn; [done|]. apply plainly_bind; [apply plainly_failed|intros f]. plain_auto.
Qed.
#[local] Hint Resolve plainly_keep plainly_run_of plainly_result_of plainly_failed plainly_failed_steps : plain.

Lemma timely_ret {A} (a : A) : timely (mret a).
Proof. intros s. split; [apply Z.le_refl|done]. Qed.
Lemma timely_raise {A} e : plain e = true → timely (raise e : M Net A).
Proof. intros He s. split; [apply Z.le_refl|]. by intros ? [= <-]. Qed.
Lemma timely_of_res {A} (r : res A) : plainly r → timely (of_res r).
Proof. intros Hr s. split; [apply Z.le_refl|done]. Qed.
Lemma timely_some_or {A} e (o : option A) : plain e = true → timely (some_or e o).
Proof. destruct o; intros ?; [apply timely_ret|by apply timely_raise]. Qed.
Lemma timely_guard_not b e : plain e = true → timely (guard_not b e).
Proof. destruct b; intros ?; [by apply timely_raise|apply timely_ret]. Qed.
Lemma timely_bind {A B} (m : M Net A) (f : A → M Net B) : timely m → (∀ a, timely (f a)) → timely (m ≫= f).
Proof.
  intros Hm Hf s. destruct (Hm s) as [Hc He]. unfold mbind, M_bind. destruct (m s) as [[a|e] s1]; cbn in *.
  - destruct (Hf a s1). by split; [lia|].
  - split; [done|]. intros ? [= <-]. by apply He.
Qed.
Lemma timely_catch {A} (m : M Net A) h : timely m → (∀ e, plain e = true → timely (h e)) → timely (catch m h).
Proof.
  intros Hm Hh s. destruct (Hm s) as [Hc He]. unfold catch. destruct (m s) as [[a|e] s1]; cbn in *; [done|].
  destruct (Hh e (He e eq_refl) s1). by split; [lia|].
Qed.
Lemma timely_on_exception {A} (m : M Net A) h : timely m → (∀ e, timely (h e)) → timely (on_exception m h).
Proof. intros Hm Hh. apply timely_catch; [done|]. intros e He. destruct (is_exception e); [apply Hh|by apply timely_raise]. Qed.
Lemma timely_attempt {A B} (m : M Net A) (f : res A → M Net B) :
  timely m → (∀ r, plainly r → timely (f r)) → timely (attempt m ≫= f).
Proof.
  intros Hm Hf s. destruct (Hm s) as [Hc He]. destruct (Hf (m s).1 He (m s).2) as [Hc' He'].
  split; [etrans; [exact Hc|exact Hc']|exact He'].
Qed.
Lemma timely_fold_m {A B} (f : B → A → M Net B) b l : (∀ b x, timely (f b x)) → timely (fold_m f b l).
Proof. intros Hf. revert b. induction l as [|x l IH]; intros b; cbn; [apply timely_ret|by apply timely_bind]. Qed.
Lemma timely_now : timely http_now.
Proof. intros s. rewrite now_law. by split; [apply Z.le_refl|]. Qed.
Lemma network_plain e : network_error e = true → plain e = true.
Proof. by destruct e. Qed.
Lemma timely_send q : timely (http_send q).
Proof. intros s. split; [apply send_clock|]. intros e He. by eapply network_plain, send_raises. Qed.
Lemma timely_sleep d : timely (http_sleep d).
Proof. intros s. split; [apply sleep_clock|]. intros e He. by eapply network_plain, sleep_raises. Qed.
Lemma timely_cached i : timely (cached_token i).
Proof. intros s. destruct (cached_law i s) as [-> [t ->]]. by split; [apply Z.le_refl|]. Qed.
Lemma timely_cache i t : timely (cache_token i t).
Proof. intros s. destruct (cache_clock i t s) as [? ->]. by split. Qed.
#[local] Hint Resolve timely_ret timely_now timely_send timely_sleep timely_cached timely_cache plainly_json : timely.
Ltac timely_step :=
  lazymatch goal with
  | |- timely (mbind _ _) => apply timely_bind; [|intros ?]
  | |- timely (raise _) => apply timely_raise; done
  | |- timely (some_or _ _) => apply timely_some_or; done
  | |- timely (guard_not _ _) => apply timely_guard_not; done
  | |- timely (of_res _) => apply timely_of_res; auto with plain
  | |- timely (on_exception _ _) => apply timely_on_exception; [|intros ?]
  | |- timely (catch _ _) => apply timely_catch; [|intros ? ?]
  | |- timely (fold_m _ _ _) => apply timely_fold_m; intros ? ?
  | |- timely (match ?x with _ => _ end) => destruct x
  | |- timely _ => solve [eauto 2 with timely]
  end.
Ltac timely_auto := repeat timely_step.

Lemma timely_attempts left backoff q : timely (attempts left backoff q).
Proof.
  revert backoff. induction left as [|left IH]; intros backoff; cbn [attempts]; [by apply timely_raise|].
  apply timely_attempt; [apply timely_send|]. intros [resp|e] Ht.
  - unfold rate_limit_wait. assert (plainly (reset_time resp)) as Hreset.
    { unfold reset_time, plainly. destruct (_ !! _); [destruct (int_of_chunk _)|]; by intros ? [= <-]. }
    timely_auto; try apply IH; done.
  - specialize (Ht e eq_refl). destruct e; try (by apply timely_raise). timely_auto; apply IH.
Qed.
#[local] Hint Resolve timely_attempts : timely.
Lemma timely_request q : timely (make_request q).
Proof. unfold make_request, last_response, raise_for_status. timely_auto. Qed.
#[local] Hint Resolve timely_request : timely.
Lemma timely_json q : timely (request_json q).
Proof. unfold request_json. timely_auto. Qed.
#[local] Hint Resolve timely_json : timely.
Lemma timely_token owner repo : timely (get_token app_jwt parse_expiry owner repo).
Proof.
  unfold get_token, get_installation_id, installation_of, get_installation_token, refresh_token. timely_auto.
Qed.
#[local] Hint Resolve timely_token : timely.
Lemma timely_latest owner repo workflow_file branch created_after head_sha :
  timely (get_latest_workflow_run app_jwt parse_expiry strftime owner repo workflow_file branch created_after head_sha).
Proof. unfold get_latest_workflow_run, or_workflow_missing. timely_auto. Qed.
Lemma timely_cancel owner repo run_id : timely (cancel_workflow_run app_jwt parse_expiry owner repo run_id).
Proof. unfold cancel_workflow_run. timely_auto. Qed.
Lemma timely_pages pages owner repo workflow_file token status page by_id :
  timely (unfinished_pages pages owner repo workflow_file token status page by_id).
Proof.
  revert page by_id. induction pages as [|pages IH]; intros page by_id; cbn [unfinished_pages]; [by apply timely_raise|].
  unfold or_workflow_missing. timely_auto.
Qed.
#[local] Hint Resolve timely_latest timely_cancel timely_pages : timely.
Lemma timely_listing owner repo workflow_file :
  timely (list_unfinished_workflow_runs app_jwt parse_expiry owner repo workflow_file).
Proof. unfold list_unfinished_workflow_runs. timely_auto. Qed.
Lemma timely_details owner repo run_id n :
  timely (get_workflow_failure_details app_jwt parse_expiry type_name owner repo run_id n).
Proof. unfold get_workflow_failure_details, failed_job, job_log. timely_auto. Qed.
#[local] Hint Resolve timely_listing timely_details : timely.
Lemma timely_logs owner repo run_id : timely (get_workflow_failure_logs app_jwt parse_expiry type_name owner repo run_id).
Proof. unfold get_workflow_failure_logs. timely_auto. Qed.

(** ** What a wait reports *)

Lemma trace_timely {A} (m : M Net A) (Φ : res A → list exchange → Prop) :
  timely m → trace m Φ → trace m (λ r l, plainly r ∧ Φ r l).
Proof. intros Ht Hm s. destruct (Hm s) as (l & Hl & HΦ). exists l. split; [done|]. split; [apply Ht|done]. Qed.

Definition concluded (conclusion : string) (run : doc) : Prop :=
  ∃ v, attr_get "conclusion" run = Ok v ∧ is_text conclusion v = true.
(** GitHub reported the run ended, and so. *)
Definition run_concluded (owner repo : string) (run_id : Z) (conclusion : string) (l : list exchange) : Prop :=
  ∃ token, told (get_run_request owner repo token run_id) (λ run, terminal run ∧ concluded conclusion run) l.
(** GitHub reported this as the latest run of the workflow. *)
Definition latest_told (owner repo workflow_file : string) (r : workflow_run) (l : list exchange) : Prop :=
  ∃ q, url q = workflow_runs_url owner repo workflow_file ∧
    told q (λ d, ∃ run rest, list_of "workflow_runs" d = Ok (run :: rest) ∧ workflow_run_of run = Ok r) l.
Lemma run_concluded_app owner repo run_id c l0 l l' :
  run_concluded owner repo run_id c l → run_concluded owner repo run_id c (l0 ++ l ++ l').
Proof. intros [token Ht]. exists token. by apply told_app_r, told_app_l. Qed.
Lemma latest_told_app owner repo workflow_file r l0 l l' :
  latest_told owner repo workflow_file r l → latest_told owner repo workflow_file r (l0 ++ l ++ l').
Proof. intros (q & Hq & Ht). exists q. split; [done|]. by apply told_app_r, told_app_l. Qed.

Lemma wait_for_cancelled_trace n q start timeout poll :
  trace (wait_for_cancelled n q start timeout poll) (λ r l, (∀ a, r ≠ Ok a) ∧
    (r = Exc WorkflowCancelledError → told q (λ run, terminal run ∧ concluded "cancelled" run) l)).
Proof.
  induction n as [|n IH]; cbn [wait_for_cancelled]; [by apply trace_raise|].
  apply trace_bind, trace_now. intros now. apply trace_bind, trace_guard_not; intros _; [|done].
  apply trace_bind. eapply trace_mono; [apply trace_timely; [apply timely_json|apply request_told]|].
  intros [run|e] l [He Htold]; [|split; [done|]; intros [= ->]; by specialize (He _ eq_refl)]. specialize (Htold run eq_refl).
  apply trace_bind, trace_of_res. pose proof (plainly_completed run) as Hplain.
  destruct (is_completed run) as [[]|e] eqn:Hdone; [| |split; [done|]; intros [= ->]; by specialize (Hplain _ eq_refl)].
  - apply trace_bind, trace_of_res. pose proof (plainly_attr_get "conclusion" run) as Hplain'.
    destruct (attr_get "conclusion" run) as [c|e] eqn:Hc; [|split; [done|]; intros [= ->]; by specialize (Hplain' _ eq_refl)].
    apply trace_raise. split; [done|]. destruct (is_text "cancelled" c) eqn:Ht; [|done]. intros _. cbn [app].
    apply told_app_l. eapply told_mono; [|done]. cbn. intros ? ->. split; [done|]. by exists c.
  - apply trace_bind, trace_sleep. intros [[]|e] He'; [|split; [done|]; intros [= ->]; by specialize (He' _ eq_refl)].
    eapply trace_mono; [apply IH|]. intros r l' [Hr Hr']. split; [done|]. intros Hcancelled. cbn [app].
    by apply told_app_r, Hr'.
Qed.
Lemma confirm_trace owner repo run_id timeout poll :
  trace (cancel_and_confirm_workflow_run app_jwt parse_expiry polls owner repo run_id timeout poll)
    (λ r l, (∀ a, r ≠ Ok a) ∧ (r = Exc WorkflowCancelledError → run_concluded owner repo run_id "cancelled" l)).
Proof.
  apply trace_catch. cut (trace (_ ← cancel_workflow_run app_jwt parse_expiry owner repo run_id;
    wait_for_cancelled_workflow_run app_jwt parse_expiry polls owner repo run_id timeout poll)
    (λ r l, (∀ a, r ≠ Ok a) ∧ (r = Exc WorkflowCancelledError → run_concluded owner repo run_id "cancelled" l))).
  { intros Hm. eapply trace_mono; [exact Hm|]. intros [[]|e] l [Hok Hr]; [by destruct (Hok tt)|].
    destruct (decide _) as [->|]; [apply trace_raise; split; [done|]; rewrite app_nil_r; intros _; by apply Hr|].
    destruct (is_exception e); apply trace_raise; (split; [done|]); [done|intros [= ->]; done]. }
  apply trace_bind. eapply trace_mono; [apply trace_timely; [apply timely_cancel|apply cancel_trace]|].
  intros [[]|e] l [He _]; [|split; [done|]; intros [= ->]; by specialize (He _ eq_refl)].
  apply trace_bind. eapply trace_mono; [apply trace_timely; [apply timely_token|apply whatever_token]|].
  intros [token|e] l1 [He' _]; [|split; [done|]; intros [= ->]; by specialize (He' _ eq_refl)].
  apply trace_bind, trace_now. intros start. eapply trace_mono; [apply wait_for_cancelled_trace|].
  intros r l2 [Hok Hr]. split; [done|]. intros Hc. exists token. cbn [app]. by do 2 apply told_app_r; apply Hr.
Qed.
Lemma latest_trace owner repo workflow_file branch created_after head_sha :
  trace (get_latest_workflow_run app_jwt parse_expiry strftime owner repo workflow_file branch created_after head_sha)
    (λ r l, plainly r ∧ ∀ run, r = Ok (Some run) → latest_told owner repo workflow_file run l).
Proof.
  apply trace_timely; [apply timely_latest|]. apply trace_bind. eapply trace_mono; [apply whatever_token|].
  intros [token|e] l _; [|done]. cbn zeta.
  set (q := mkHttp _ _ _ _ _). apply trace_bind. eapply trace_mono.
  { apply (workflow_missing_trace _ (λ resp l, last l = Some (q, Ok resp) ∧ is_success resp = true)).
    eapply trace_mono; [apply make_request_trace|]. intros r l' (_ & Hok & _) resp. apply Hok. }
  intros [resp|e] l' Hresp; [|done]. destruct (Hresp resp eq_refl) as [Hin%last_in Hs].
  apply trace_bind, trace_of_res. destruct (json resp) as [answer|] eqn:Hjson; [|done].
  apply trace_bind, trace_of_res. destruct (list_of "workflow_runs" answer) as [runs|] eqn:Hruns; [|done].
  destruct runs as [|run rest]; [by apply trace_ret|].
  apply trace_bind, trace_of_res. destruct (workflow_run_of run) as [r|] eqn:Hr; [|done].
  apply trace_ret. intros ? [= <-]. exists q. split; [done|]. cbn [app]. apply told_app_r, told_app_l.
  exists resp, answer. split_and!; [done..|]. by exists run, rest.
Qed.

(** What a stop of an interrupted wait raises is never the cancellation by teardown. *)
Definition never_cancelled {A} (m : M Net A) : Prop := trace m (λ r _, r ≠ Exc WorkflowCancelledError).
Lemma cancelled_is_enough_trace m : whatever m → never_cancelled (cancelled_is_enough m).
Proof.
  intros Hm. apply trace_catch. eapply trace_mono; [exact Hm|]. intros [[]|e] l _; [done|].
  destruct (decide _) as [->|]; [by apply trace_ret|]. destruct (is_exception e); apply trace_raise; congruence.
Qed.
Lemma whatever_confirm owner repo run_id timeout poll :
  whatever (cancel_and_confirm_workflow_run app_jwt parse_expiry polls owner repo run_id timeout poll).
Proof. eapply trace_mono; [apply confirm_trace|done]. Qed.
Lemma interrupted_workflow owner repo workflow_file branch created_after head_sha run timeout poll :
  never_cancelled (cancel_interrupted_workflow_wait app_jwt parse_expiry strftime polls owner repo workflow_file branch
    created_after head_sha run timeout poll).
Proof.
  apply cancelled_is_enough_trace, whatever_bind.
  - destruct run; [by apply trace_ret|]. eapply trace_mono; [apply latest_trace|done].
  - intros [r|]; [|by apply trace_raise]. destruct (run_completed r); [by apply trace_ret|apply whatever_confirm].
Qed.
Lemma interrupted_run owner repo run_id last_status timeout poll :
  never_cancelled (cancel_interrupted_run_wait app_jwt parse_expiry polls owner repo run_id last_status timeout poll).
Proof.
  unfold cancel_interrupted_run_wait. destruct (match last_status with Some _ => _ | None => _ end); [by apply trace_ret|].
  apply cancelled_is_enough_trace, whatever_confirm.
Qed.

(** One step of a wait, where only a result and a cancellation by teardown matter. *)
Definition matters {A} (Φ : res A → list exchange → Prop) (r : res A) (l : list exchange) : Prop :=
  match r with Ok _ => Φ r l | Exc e => e = WorkflowCancelledError → Φ r l end.
Lemma interruptible_trace {A} stop (m : M Net A) (Φ : res A → list exchange → Prop) :
  never_cancelled stop → trace m (matters Φ) → trace (interruptible stop m) (matters Φ).
Proof.
  intros Hstop Hm. apply trace_catch. eapply trace_mono; [exact Hm|]. intros [a|e] l Hr; [done|].
  destruct (decide _) as [->|]; [|apply trace_raise; by rewrite app_nil_r].
  apply trace_bind. eapply trace_mono; [exact Hstop|]. intros [[]|e] l' He; [by apply trace_raise|].
  intros ->. by destruct He.
Qed.
Lemma timely_matters {A} (m : M Net A) : whatever m → timely m → trace m (matters (λ r l, ∃ a, r = Ok a)).
Proof.
  intros Hm Ht. eapply trace_mono; [by apply trace_timely|]. intros [a|e] l [He _]; [by exists a|].
  cbn. intros ->. by specialize (He _ eq_refl).
Qed.

Section waits.
Context (owner repo : string) (timeout poll : Z) (cancel_check : option (M Net bool))
        (Hcheck : ∀ check, cancel_check = Some check → whatever check).

Lemma stop_requested_trace : trace (stop_requested cancel_check) (matters (λ r l, ∃ b, r = Ok b)).
Proof.
  unfold stop_requested. destruct cancel_check as [check|]; [|apply trace_ret; by eexists].
  apply trace_on_exception. eapply trace_mono; [by apply Hcheck|]. intros [b|e] l _; [by exists b|].
  destruct (is_exception e) eqn:He; [by apply trace_raise|]. cbn. by intros ->.
Qed.
Lemma sleep_trace d : trace (http_sleep d) (matters (λ r l, ∃ b, r = Ok b)).
Proof. apply timely_matters; [by apply trace_sleep|apply timely_sleep]. Qed.
Lemma logs_trace run_id :
  trace (on_exception (get_workflow_failure_logs app_jwt parse_expiry type_name owner repo run_id) (λ _, mret ""))
    (matters (λ r l, ∃ b, r = Ok b)).
Proof.
  apply timely_matters; [apply whatever_on_exception; [apply whatever_logs|by intros; apply trace_ret]|].
  apply timely_on_exception; [apply timely_logs|intros; apply timely_ret].
Qed.

(** Success is what GitHub called success; a cancellation by teardown is one that GitHub
    reported, of this run or of the one that was stopped. *)
Definition ended_workflow (workflow_file : string) (r : res workflow_run) (l : list exchange) : Prop :=
  match r with
  | Ok run => run_completed run = true ∧ is_text "success" (wr_conclusion run) = true ∧
              latest_told owner repo workflow_file run l
  | Exc _ => (∃ run, run_completed run = true ∧ is_text "cancelled" (wr_conclusion run) = true ∧
                latest_told owner repo workflow_file run l) ∨
             ∃ run_id, run_concluded owner repo run_id "cancelled" l
  end.
Lemma ended_workflow_app workflow_file r l0 l :
  ended_workflow workflow_file r l → ended_workflow workflow_file r (l0 ++ l).
Proof.
  assert (∀ l', l0 ++ l' = l0 ++ l' ++ []) as Hnil by (intros; by rewrite app_nil_r).
  rewrite (Hnil l). destruct r as [run|e]; cbn; [intros (? & ? & ?); split_and!; [done..|by apply latest_told_app]|].
  intros [(run & ? & ? & ?)|(run_id & ?)]; [left; exists run; split_and!; [done..|by apply latest_told_app]|].
  right. exists run_id. by apply run_concluded_app.
Qed.
Lemma matters_app workflow_file r l0 l :
  matters (ended_workflow workflow_file) r l → matters (ended_workflow workflow_file) r (l0 ++ l).
Proof. destruct r; [apply ended_workflow_app|]. intros Hr He. by apply ended_workflow_app, Hr. Qed.

(** A step of the wait from which only its result is wanted. *)
Lemma wait_step {A B} (m : M Net A) (f : A → M Net B) (Φ : res B → list exchange → Prop) :
  trace m (matters (λ r l, ∃ a, r = Ok a)) →
  (∀ a, trace (f a) (matters Φ)) → (∀ r l0 l, matters Φ r l → matters Φ r (l0 ++ l)) →
  trace (m ≫= f) (matters Φ).
Proof.
  intros Hm Hf Happ. apply trace_bind. eapply trace_mono; [exact Hm|]. intros [a|e] l Hr.
  - eapply trace_mono; [apply Hf|]. intros r l'. apply Happ.
  - intros ->. by destruct (Hr eq_refl) as [? [=]].
Qed.

Lemma workflow_completion_trace n workflow_file branch created_after head_sha start run :
  trace (workflow_completion app_jwt parse_expiry type_name strftime polls owner repo timeout poll cancel_check n
    workflow_file branch created_after head_sha start run) (matters (ended_workflow workflow_file)).
Proof.
  revert run. induction n as [|n IH]; intros run; cbn [workflow_completion]; [by apply trace_raise|].
  pose proof (matters_app workflow_file) as Happ.
  assert (∀ current, never_cancelled (cancel_interrupted_workflow_wait app_jwt parse_expiry strftime polls owner repo
    workflow_file branch created_after head_sha current timeout poll)) as Hstop by (intros; apply interrupted_workflow).
  apply trace_bind, trace_now. intros now. apply trace_bind, trace_guard_not; intros _; [|done]. cbn [app].
  apply trace_bind. eapply trace_mono.
  { apply interruptible_trace; [apply Hstop|].
    apply (trace_mono _ (λ r l, plainly r ∧ ∀ found, r = Ok (Some found) → latest_told owner repo workflow_file found l) (matters (λ r l, match r with Ok found => ∀ run, found = Some run → latest_told owner repo workflow_file run l | Exc _ => False end)));
      [apply latest_trace|]. intros [found|e] l [He Hr]; [by intros ? ->; apply Hr|]. intros ->. by specialize (He _ eq_refl). }
  intros [found|e] l Hfound; [|intros ->; by specialize (Hfound eq_refl)]. cbn in Hfound.
  destruct found as [r|].
  2: { eapply trace_mono; [|intros r l'; apply Happ].
       apply wait_step; [apply interruptible_trace; [apply Hstop|apply sleep_trace]|intros _; apply IH|done]. }
  specialize (Hfound r eq_refl). set (current := Some r).
  apply trace_bind. eapply trace_mono; [apply interruptible_trace; [apply Hstop|apply stop_requested_trace]|].
  intros [requested|e] l1 Hrequested; [clear Hrequested|intros ->; by destruct (Hrequested eq_refl) as [? [=]]].
  apply trace_bind. eapply (trace_mono _ (matters (λ r l, match r with Exc _ => ∃ id, run_concluded owner repo id "cancelled" l | _ => True end))).
  { destruct requested; [|by apply trace_ret]. apply interruptible_trace; [apply Hstop|].
    eapply trace_mono; [apply confirm_trace|]. intros [[]|e] l2 [Hok Hr]; [done|]. intros ->. eauto. }
  intros [[]|e] l2 Hconfirmed.
  2: { intros ->. destruct (Hconfirmed eq_refl) as [id Hid]. right. exists id.
       apply (run_concluded_app owner repo id "cancelled" (l ++ l1) l2 []) in Hid. by rewrite app_nil_r, <-app_assoc in Hid. }
  assert (∀ l', latest_told owner repo workflow_file r (l ++ l1 ++ l2 ++ l')) as Htold.
  { intros l'. by apply (latest_told_app owner repo workflow_file r [] l). }
  destruct (run_completed r) eqn:Hdone.
  - destruct (is_text "success" _) eqn:Hsuccess; [by apply trace_ret; split_and!|].
    destruct (is_text "cancelled" _) eqn:Hcancelled; [apply trace_raise; intros _; left; by exists r|].
    eapply trace_mono; [|intros r' l' Hr'; rewrite !app_assoc; apply Happ, Hr'].
    apply wait_step; [apply interruptible_trace; [apply Hstop|apply logs_trace]|intros _; by apply trace_raise|done].
  - eapply trace_mono; [|intros r' l' Hr'; rewrite !app_assoc; apply Happ, Hr'].
    apply wait_step; [apply interruptible_trace; [apply Hstop|apply sleep_trace]|intros _; apply IH|done].
Qed.

(** The same for a run the caller knows. *)
Definition ended_run (run_id : Z) (r : res wait_result) (l : list exchange) : Prop :=
  match r with
  | Ok result => is_text "success" (rr_conclusion result) = true ∧ run_concluded owner repo run_id "success" l
  | Exc _ => run_concluded owner repo run_id "cancelled" l
  end.
Lemma ended_run_app run_id r l0 l : matters (ended_run run_id) r l → matters (ended_run run_id) r (l0 ++ l).
Proof.
  assert (∀ c, run_concluded owner repo run_id c l → run_concluded owner repo run_id c (l0 ++ l)) as Happ.
  { intros c Hc. apply (run_concluded_app owner repo run_id c l0 l []) in Hc. by rewrite app_nil_r in Hc. }
  destruct r as [result|e]; cbn; [intros [? ?]; split; auto|intros Hr He; auto].
Qed.
Lemma run_completion_trace n run_id token start last_status :
  trace (run_completion app_jwt parse_expiry type_name polls owner repo timeout poll cancel_check n run_id
    (get_run_request owner repo token run_id) start last_status) (matters (ended_run run_id)).
Proof.
  revert last_status. induction n as [|n IH]; intros last_status; cbn [run_completion]; [by apply trace_raise|].
  pose proof (ended_run_app run_id) as Happ.
  assert (∀ current, never_cancelled (cancel_interrupted_run_wait app_jwt parse_expiry polls owner repo
    run_id current timeout poll)) as Hstop by (intros; apply interrupted_run).
  apply trace_bind, trace_now. intros now. apply trace_bind, trace_guard_not; intros _; [|done]. cbn [app].
  apply trace_bind. eapply trace_mono.
  { apply interruptible_trace; [apply Hstop|].
    apply (trace_mono _ (λ r l, plainly r ∧ ∀ d, r = Ok d → told (get_run_request owner repo token run_id) (λ d', d' = d) l)
      (matters (λ r l, match r with Ok d => told (get_run_request owner repo token run_id) (λ d', d' = d) l | Exc _ => False end)));
      [apply trace_timely; [apply timely_json|apply request_told]|].
    intros [d|e] l [He Hr]; [by apply Hr|]. intros ->. by specialize (He _ eq_refl). }
  intros [run|e] l Htold; [|intros ->; by specialize (Htold eq_refl)]. cbn in Htold.
  apply trace_bind, trace_of_res. destruct (item "status" run) as [status|e] eqn:Hstatus.
  2: { intros ->. by pose proof (plainly_item "status" run _ Hstatus). }
  apply trace_bind. eapply trace_mono; [apply interruptible_trace; [apply Hstop|apply stop_requested_trace]|].
  intros [requested|e] l1 Hrequested; [clear Hrequested|intros ->; by destruct (Hrequested eq_refl) as [? [=]]].
  apply trace_bind. eapply (trace_mono _ (matters (λ r l, match r with Exc _ => run_concluded owner repo run_id "cancelled" l | _ => True end))).
  { destruct (_ && _); [|by apply trace_ret]. apply interruptible_trace; [apply Hstop|].
    eapply trace_mono; [apply confirm_trace|]. intros [[]|e] l2 [Hok Hr]; [done|]. intros ->. auto. }
  intros [[]|e] l2 Hconfirmed.
  2: { intros ->. specialize (Hconfirmed eq_refl). cbn [app].
       apply (run_concluded_app owner repo run_id "cancelled" (l ++ l1) l2 []) in Hconfirmed.
       by rewrite app_nil_r, <-app_assoc in Hconfirmed. }
  cbn [app]. destruct (is_text "completed" status) eqn:Hdone.
  - apply trace_bind, trace_of_res. destruct (run_result_of run) as [result|e] eqn:Hresult.
    2: { intros ->. by pose proof (plainly_result_of run _ Hresult). }
    destruct (is_text "success" _) eqn:Hsuccess.
    + apply trace_ret. split; [done|]. exists token. apply told_app_l. eapply told_mono; [|done]. cbn. intros ? ->.
      split; [unfold terminal, is_completed; rewrite Hstatus; cbn; by rewrite Hdone|].
      unfold run_result_of in Hresult. destruct (item "id" run); cbn in Hresult; [|done]. rewrite Hstatus in Hresult. cbn in Hresult.
      destruct (attr_get "conclusion" run) as [c|] eqn:Hc; cbn in Hresult; [|done]. exists c. split; [done|].
      destruct (item "html_url" run); cbn in Hresult; [|done]. destruct (attr_get "head_sha" run); cbn in Hresult; [|done].
      by injection Hresult as <-.
    + cbn [app]. eapply trace_mono; [|intros r' l' Hr'; rewrite !app_assoc; apply Happ, Hr'].
      apply wait_step; [apply interruptible_trace; [apply Hstop|apply logs_trace]|intros _; by apply trace_raise|done].
  - eapply trace_mono; [|intros r' l' Hr'; rewrite !app_assoc; apply Happ, Hr'].
    apply wait_step; [apply interruptible_trace; [apply Hstop|apply sleep_trace]|intros _; apply IH|done].
Qed.
End waits.

(** ** Every wait ends *)

(** From here, time goes on and the fuel is not spent. *)
Definition lasts {A} (m : M Net A) (s : Net) : Prop := clock_of s ≤ clock_of (m s).2 ∧ (m s).1 ≠ Exc OutOfFuel.
Definition lasting {A} (m : M Net A) : Prop := ∀ s, lasts m s.
Lemma timely_lasting {A} (m : M Net A) : timely m → lasting m.
Proof. intros Hm s. destruct (Hm s) as [Hc He]. split; [done|]. intros Hr. by specialize (He _ Hr). Qed.
Lemma lasts_bind {A B} (m : M Net A) (f : A → M Net B) s :
  lasting m → (∀ a s', clock_of s ≤ clock_of s' → lasts (f a) s') → lasts (m ≫= f) s.
Proof.
  intros Hm Hf. destruct (Hm s) as [Hc He]. unfold lasts, mbind, M_bind in *.
  destruct (m s) as [[a|e] s1]; cbn in *; [|by split; [|congruence]].
  destruct (Hf a s1 Hc). by split; [etrans|].
Qed.
Lemma lasting_bind {A B} (m : M Net A) (f : A → M Net B) : lasting m → (∀ a, lasting (f a)) → lasting (m ≫= f).
Proof. intros Hm Hf s. apply lasts_bind; [done|]. intros a s' _. apply Hf. Qed.
Lemma lasting_catch {A} (m : M Net A) h : lasting m → (∀ e, e ≠ OutOfFuel → lasting (h e)) → lasting (catch m h).
Proof.
  intros Hm Hh s. destruct (Hm s) as [Hc He]. unfold lasts, catch in *.
  destruct (m s) as [[a|e] s1]; cbn in *; [done|]. destruct (Hh e (λ Heq, He (f_equal Exc Heq)) s1) as [Hc' He'].
  by split; [etrans|].
Qed.
Lemma lasting_raise {A} e : e ≠ OutOfFuel → lasting (raise e : M Net A).
Proof. intros He s. split; [apply Z.le_refl|]. cbn. congruence. Qed.
Lemma lasting_on_exception {A} (m : M Net A) h : lasting m → (∀ e, lasting (h e)) → lasting (on_exception m h).
Proof. intros Hm Hh. apply lasting_catch; [done|]. intros e He. destruct (is_exception e); [apply Hh|by apply lasting_raise]. Qed.
Lemma lasting_ret {A} (a : A) : lasting (mret a : M Net A).
Proof. apply timely_lasting, timely_ret. Qed.
Lemma lasting_fold_m {A B} (f : B → A → M Net B) b l : (∀ b x, lasting (f b x)) → lasting (fold_m f b l).
Proof. intros Hf. revert b. induction l as [|x l IH]; intros b; cbn; [apply lasting_ret|by apply lasting_bind]. Qed.
Lemma lasting_interruptible {A} stop (m : M Net A) : lasting stop → lasting m → lasting (interruptible stop m).
Proof.
  intros Hs Hm. apply lasting_catch; [done|]. intros e He. destruct (decide _); [|by apply lasting_raise].
  apply lasting_bind; [done|]. intros _. by apply lasting_raise.
Qed.

Section ends.
Context (timeout poll : Z) (Hpoll : 0 < poll) (Htimeout : 0 ≤ timeout) (Hpolls : timeout < (Z.of_nat polls - 1) * poll).
(** With so much left, the deadline comes first. *)
Definition enough (n : nat) (start : Z) (s : Net) : Prop :=
  (1 ≤ n)%nat ∧ start + timeout * SECOND < clock_of s + (Z.of_nat n - 1) * (poll * SECOND).
Lemma enough_later n start s s' : clock_of s ≤ clock_of s' → enough n start s → enough n start s'.
Proof. intros Hc [? ?]. split; [done|lia]. Qed.
Lemma enough_polls s : enough polls (clock_of s) s.
Proof. unfold enough, SECOND. split; [nia|]. nia. Qed.
(** Past the deadline's check, a sleep uses one. *)
Lemma lasts_deadline {A} n start (rest : M Net A) s :
  enough (S n) start s → (∀ s', clock_of s ≤ clock_of s' → enough (S n) start s' → (1 ≤ n)%nat → lasts rest s') →
  lasts (now ← http_now; _ ← guard_not (timeout * SECOND <? now - start) TimeoutError; rest) s.
Proof.
  intros Hs Hrest. unfold lasts, mbind, M_bind. rewrite now_law. destruct (_ <? _) eqn:Hlt; cbn; [done|].
  apply Hrest; [apply Z.le_refl|done|]. destruct Hs as [_ Hs]. unfold SECOND in *. nia.
Qed.
(** The rest of a turn, after a sleep. *)
Lemma lasts_pause {A} n start (m : M Net unit) (f : unit → M Net A) s :
  lasting m → (∀ s', m s = (Ok tt, s') → clock_of s + poll * SECOND ≤ clock_of s') →
  enough (S n) start s → (1 ≤ n)%nat → (∀ s', enough n start s' → lasts (f tt) s') →
  lasts (m ≫= f) s.
Proof.
  intros Hm Hok [_ Hs] Hn Hf. destruct (Hm s) as [Hc He]. unfold lasts, mbind, M_bind in *.
  destruct (m s) as [[[]|e] s1]; cbn in *; [|by split; [|congruence]].
  destruct (Hf s1) as [Hc' He'].
  - specialize (Hok s1 eq_refl). unfold enough, SECOND in *. split; [done|nia].
  - by split; [etrans|].
Qed.
Lemma sleep_takes s s' : http_sleep (poll * SECOND) s = (Ok tt, s') → clock_of s + poll * SECOND ≤ clock_of s'.
Proof. intros Hs. destruct (sleep_clock (poll * SECOND) s) as [_ Hsleep]. rewrite Hs in Hsleep. by apply Hsleep. Qed.
Lemma interruptible_takes stop s s' :
  interruptible stop (http_sleep (poll * SECOND)) s = (Ok tt, s') → clock_of s + poll * SECOND ≤ clock_of s'.
Proof.
  unfold interruptible, catch. destruct (http_sleep _ s) as [[[]|e] s1] eqn:Hs; [intros [= <-]; by apply sleep_takes|].
  destruct (decide _); [|done]. unfold mbind, M_bind. by destruct (stop s1) as [[?|?] ?].
Qed.
Lemma lasting_sleep : lasting (http_sleep (poll * SECOND)).
Proof. apply timely_lasting, timely_sleep. Qed.
#[local] Hint Resolve lasting_sleep lasting_ret : timely.

Lemma wait_for_terminal_lasts n q start s :
  enough n start s → lasts (wait_for_terminal n q start timeout poll) s.
Proof.
  revert s. induction n as [|n IH]; intros s Hs; [by destruct Hs; lia|]. cbn [wait_for_terminal].
  apply lasts_bind; [apply timely_lasting, timely_json|intros run s1 Hs1].
  apply lasts_bind; [apply timely_lasting, timely_of_res, plainly_completed|intros [] s2 Hs2].
  - apply timely_lasting, timely_bind; [apply timely_of_res; auto with plain|intros; apply timely_ret].
  - apply (lasts_deadline n); [eapply enough_later; [|exact Hs]; lia|]. intros s3 _ Hs3 Hn.
    eapply lasts_pause; [apply lasting_sleep|apply sleep_takes|done|done|exact IH].
Qed.
Lemma wait_for_cancelled_lasts n q start s :
  enough n start s → lasts (wait_for_cancelled n q start timeout poll) s.
Proof.
  revert s. induction n as [|n IH]; intros s Hs; [by destruct Hs; lia|]. cbn [wait_for_cancelled].
  apply (lasts_deadline n); [done|]. intros s1 _ Hs1 Hn.
  apply lasts_bind; [apply timely_lasting, timely_json|intros run s2 Hs2].
  apply lasts_bind; [apply timely_lasting, timely_of_res, plainly_completed|intros [] s3 Hs3].
  - apply lasting_bind; [apply timely_lasting, timely_of_res; auto with plain|]. intros c. apply lasting_raise.
    by destruct (is_text _ _).
  - eapply lasts_pause; [apply lasting_sleep|apply sleep_takes| |done|exact IH].
    eapply enough_later; [|exact Hs1]. lia.
Qed.
Lemma confirm_lasting owner repo run_id :
  lasting (cancel_and_confirm_workflow_run app_jwt parse_expiry polls owner repo run_id timeout poll).
Proof.
  apply lasting_catch; [|intros e He; destruct (decide _); [|destruct (is_exception e)]; by apply lasting_raise].
  apply lasting_bind; [apply timely_lasting, timely_cancel|intros _].
  apply lasting_bind; [apply timely_lasting, timely_token|intros token]. intros s.
  unfold lasts, mbind, M_bind. rewrite now_law. apply wait_for_cancelled_lasts, enough_polls.
Qed.
Lemma fence_run_lasting owner repo run_id :
  lasting (fence_run app_jwt parse_expiry polls owner repo timeout poll run_id).
Proof.
  apply lasting_on_exception; [|intros; by apply lasting_raise].
  apply lasting_bind; [apply timely_lasting, timely_cancel|intros _].
  apply lasting_bind; [|intros; apply lasting_ret].
  apply lasting_bind; [apply timely_lasting, timely_token|intros token]. intros s.
  unfold lasts, mbind, M_bind. rewrite now_law. apply wait_for_terminal_lasts, enough_polls.
Qed.
Lemma fence_lasting owner repo workflow_file :
  lasting (fence_workflow app_jwt parse_expiry polls owner repo workflow_file timeout poll).
Proof.
  apply lasting_bind.
  - apply lasting_on_exception; [apply timely_lasting, timely_listing|intros; by apply lasting_raise].
  - intros active. apply lasting_fold_m. intros fenced id.
    apply lasting_bind; [apply fence_run_lasting|intros; apply lasting_ret].
Qed.
Lemma cancelled_is_enough_lasting m : lasting m → lasting (cancelled_is_enough m).
Proof.
  intros Hm. apply lasting_catch; [done|]. intros e He.
  destruct (decide _); [apply lasting_ret|]. destruct (is_exception e); by apply lasting_raise.
Qed.
Lemma interrupted_workflow_lasting owner repo workflow_file branch created_after head_sha run :
  lasting (cancel_interrupted_workflow_wait app_jwt parse_expiry strftime polls owner repo workflow_file branch
    created_after head_sha run timeout poll).
Proof.
  apply cancelled_is_enough_lasting, lasting_bind.
  - destruct run; [apply lasting_ret|apply timely_lasting, timely_latest].
  - intros [r|]; [|by apply lasting_raise]. destruct (run_completed r); [apply lasting_ret|apply confirm_lasting].
Qed.
Lemma interrupted_run_lasting owner repo run_id last_status :
  lasting (cancel_interrupted_run_wait app_jwt parse_expiry polls owner repo run_id last_status timeout poll).
Proof.
  unfold cancel_interrupted_run_wait. destruct (match last_status with Some _ => _ | None => _ end); [apply lasting_ret|].
  apply cancelled_is_enough_lasting, confirm_lasting.
Qed.
Lemma logs_lasting owner repo run_id :
  lasting (on_exception (get_workflow_failure_logs app_jwt parse_expiry type_name owner repo run_id) (λ _, mret "")).
Proof. apply lasting_on_exception; [apply timely_lasting, timely_logs|intros; apply lasting_ret]. Qed.
#[local] Hint Resolve interrupted_workflow_lasting interrupted_run_lasting logs_lasting confirm_lasting : timely.

Section check.
Context (owner repo : string) (cancel_check : option (M Net bool))
        (Hcheck : ∀ check, cancel_check = Some check → lasting check).
Lemma stop_requested_lasting : lasting (stop_requested cancel_check).
Proof.
  unfold stop_requested. destruct cancel_check as [check|]; [|apply lasting_ret].
  apply lasting_on_exception; [by apply Hcheck|intros; by apply lasting_raise].
Qed.
#[local] Hint Resolve stop_requested_lasting lasting_interruptible : timely.

Lemma workflow_completion_lasts n workflow_file branch created_after head_sha start run s :
  enough n start s →
  lasts (workflow_completion app_jwt parse_expiry type_name strftime polls owner repo timeout poll cancel_check n
    workflow_file branch created_after head_sha start run) s.
Proof.
  revert run s. induction n as [|n IH]; intros run s Hs; [by destruct Hs; lia|]. cbn [workflow_completion].
  apply (lasts_deadline n); [done|]. intros s1 _ Hs1 Hn.
  assert (∀ s', clock_of s1 ≤ clock_of s' → enough (S n) start s') as Hlater by (intros; by eapply enough_later).
  apply lasts_bind; [apply lasting_interruptible; [auto with timely|apply timely_lasting, timely_latest]|].
  intros found s2 Hs2. destruct found as [r|].
  2: { eapply lasts_pause; [apply lasting_interruptible; auto with timely|apply interruptible_takes|by apply Hlater|done|].
       intros s'. apply IH. }
  apply lasts_bind; [auto with timely|intros requested s3 Hs3].
  apply lasts_bind; [destruct requested; auto with timely|intros _ s4 Hs4].
  destruct (run_completed r).
  - destruct (is_text "success" _); [apply lasting_ret|]. destruct (is_text "cancelled" _); [by apply lasting_raise|].
    apply lasting_bind; [auto with timely|intros; by apply lasting_raise].
  - eapply lasts_pause; [apply lasting_interruptible; auto with timely|apply interruptible_takes|apply Hlater; lia|done|].
    intros s'. apply IH.
Qed.
Lemma run_completion_lasts n run_id q start last_status s :
  enough n start s →
  lasts (run_completion app_jwt parse_expiry type_name polls owner repo timeout poll cancel_check n run_id q start last_status) s.
Proof.
  revert last_status s. induction n as [|n IH]; intros last_status s Hs; [by destruct Hs; lia|]. cbn [run_completion].
  apply (lasts_deadline n); [done|]. intros s1 _ Hs1 Hn.
  assert (∀ s', clock_of s1 ≤ clock_of s' → enough (S n) start s') as Hlater by (intros; by eapply enough_later).
  apply lasts_bind; [apply lasting_interruptible; [auto with timely|apply timely_lasting, timely_json]|].
  intros answer s2 Hs2. apply lasts_bind; [apply timely_lasting, timely_of_res; auto with plain|intros status s3 Hs3].
  apply lasts_bind; [auto with timely|intros requested s4 Hs4].
  apply lasts_bind; [destruct (_ && _); auto with timely|intros _ s5 Hs5].
  destruct (is_text "completed" status).
  - apply lasting_bind; [apply timely_lasting, timely_of_res; auto with plain|intros result].
    destruct (is_text "success" _); [apply lasting_ret|].
    apply lasting_bind; [auto with timely|intros; by apply lasting_raise].
  - eapply lasts_pause; [apply lasting_interruptible; auto with timely|apply interruptible_takes|apply Hlater; lia|done|].
    intros s'. apply IH.
Qed.
End check.
End ends.
End safety.

(** The fence is whole or it fails closed.  Whatever GitHub answers, a fence that
    returns had every page of every unfinished status answered, down to one that was not
    full; every run on those pages had ended or is among the ones it fenced; and for each
    of these GitHub accepted the cancellation and then reported the run ended.  Any failure
    is told as a cancellation that is unproven. *)
Theorem fence_stops_every_run_it_could_list `{HttpsLaws Net} app_jwt parse_expiry polls
    owner repo workflow_file timeout poll (s : Net) :
  let '(r, s') := fence_workflow app_jwt parse_expiry polls owner repo workflow_file timeout poll s in
  ∃ l, exchanges s' = exchanges s ++ l ∧
    match r with
    | Ok fenced => fenced_whole owner repo workflow_file fenced l
    | Exc e => e = WorkflowCancellationUnprovenError ∨ e = CancelledError ∨ e = OutOfFuel
    end.
Proof.
  assert (trace (fence_workflow app_jwt parse_expiry polls owner repo workflow_file timeout poll) (λ r l,
    fails_closed r ∧ ∀ fenced, r = Ok fenced → fenced_whole owner repo workflow_file fenced l)) as Ht by apply fence_trace.
  destruct (Ht s) as (l & Hl & Hfail & Hok).
  destruct (fence_workflow _ _ _ _ _ _ _ _ s) as [[fenced|e] s']; exists l; cbn in *; (split; [done|]); [by apply Hok|].
  destruct (Hfail e eq_refl) as [->|He]; [by left|right]. destruct e; try done; auto.
Qed.

(** A wait reports what GitHub reported.  A wait for a workflow, or for a known run,
    returns only a run that GitHub called completed with success; and it says that teardown
    cancelled it only if GitHub reported a run ended as cancelled, be it the awaited run or
    the one whose cancellation was asked for. *)
Theorem waits_report_what_github_reported `{HttpsLaws Net} `{PyRepr} app_jwt parse_expiry type_name strftime polls
    owner repo timeout poll cancel_check workflow_file branch created_after head_sha run_id (s : Net) :
  (∀ check, cancel_check = Some check → whatever check) →
  (let '(r, s') := wait_for_workflow_completion app_jwt parse_expiry type_name strftime polls owner repo timeout poll
     cancel_check workflow_file branch created_after head_sha s in
   ∃ l, exchanges s' = exchanges s ++ l ∧ matters (ended_workflow owner repo workflow_file) r l) ∧
  (let '(r, s') := wait_for_run_completion app_jwt parse_expiry type_name polls owner repo timeout poll cancel_check run_id s in
   ∃ l, exchanges s' = exchanges s ++ l ∧ matters (ended_run owner repo run_id) r l).
Proof.
  intros Hcheck. split.
  - assert (trace (wait_for_workflow_completion app_jwt parse_expiry type_name strftime polls owner repo timeout poll
      cancel_check workflow_file branch created_after head_sha) (matters (ended_workflow owner repo workflow_file))) as Ht.
    { apply trace_bind, trace_now. intros start. by apply workflow_completion_trace. }
    destruct (Ht s) as (l & ? & ?). destruct (wait_for_workflow_completion _ _ _ _ _ _ _ _ _ _ _ _ _ _ s). by exists l.
  - assert (trace (wait_for_run_completion app_jwt parse_expiry type_name polls owner repo timeout poll cancel_check run_id)
      (matters (ended_run owner repo run_id))) as Ht.
    { apply trace_bind. eapply trace_mono; [apply trace_timely; [apply timely_token|apply whatever_token]|].
      intros [token|e] l [He _]; [|intros ->; by specialize (He _ eq_refl)].
      apply trace_bind, trace_now. intros start. eapply trace_mono; [by apply run_completion_trace|].
      intros r l'. apply ended_run_app. }
    destruct (Ht s) as (l & ? & ?). destruct (wait_for_run_completion _ _ _ _ _ _ _ _ _ _ s). by exists l.
Qed.

(** Every wait ends.  A fence and a wait with a timeout of [timeout] seconds
    that polls every [poll] go round at most once more than the timeout has polls, whatever
    GitHub answers and however long each answer takes. *)
Theorem github_waits_end `{HttpsLaws Net} `{PyRepr} app_jwt parse_expiry type_name strftime polls
    owner repo timeout poll cancel_check workflow_file branch created_after head_sha run_id (s : Net) :
  0 < poll → 0 ≤ timeout → timeout < (Z.of_nat polls - 1) * poll →
  (∀ check, cancel_check = Some check → lasting check) →
  (fence_workflow app_jwt parse_expiry polls owner repo workflow_file timeout poll s).1 ≠ Exc OutOfFuel ∧
  (wait_for_workflow_completion app_jwt parse_expiry type_name strftime polls owner repo timeout poll
     cancel_check workflow_file branch created_after head_sha s).1 ≠ Exc OutOfFuel ∧
  (wait_for_run_completion app_jwt parse_expiry type_name polls owner repo timeout poll cancel_check run_id s).1
    ≠ Exc OutOfFuel.
Proof.
  intros Hpoll Htimeout Hpolls Hcheck. split; [by apply fence_lasting|].
  assert (∀ {A} (f : Z → M Net A), (∀ s, lasts (f (clock_of s)) s) → lasting (start ← http_now; f start)) as Hstart.
  { intros A f Hf s'. unfold lasts, mbind, M_bind. rewrite now_law. apply Hf. }
  split.
  - apply Hstart. intros s'. by apply workflow_completion_lasts, enough_polls.
  - apply (lasting_bind (get_token app_jwt parse_expiry owner repo)); [apply timely_lasting, timely_token|].
    intros token. apply Hstart. intros s'. by apply run_completion_lasts, enough_polls.
Qed.

(** ** A network, for the witnesses

    The answers to come, one second each; afterwards the connection fails. *)

Definition script (answers : list http_response) : Internet :=
  mkInternet (λ l _, (SECOND, answers !! length l)) [] 0 ∅.
#[local] Instance sample_repr : PyRepr := λ _, "".

Definition says_json (status : Z) (d : doc) : http_response := mkResponse status ∅ (Some d) "".
Definition installed : http_response := says_json 200 (DMap [("id", DInt 7)]).
Definition run_is (status conclusion : string) : doc :=
  DMap [("id", DInt 5); ("status", DStr status); ("conclusion", DStr conclusion); ("html_url", DStr "u");
        ("created_at", DStr "t")].
Definition runs_are (runs : list doc) : http_response := says_json 200 (DMap [("workflow_runs", DList runs)]).
(** One run is queued; its cancellation is accepted, and it ends at the second look. *)
Definition fencing_answers : list http_response :=
  [installed; says_json 201 (DMap [("token", DStr "tok"); ("expires_at", DStr "later")]);
            runs_are [run_is "queued" ""]; runs_are []; runs_are []; runs_are []; runs_are [];
            installed; says_json 202 DNull; installed; says_json 200 (run_is "in_progress" "");
            says_json 200 (run_is "completed" "cancelled")].
Definition fencing : Internet := script fencing_answers.
Definition sample_expiry : string → option Z := λ _, Some (3600 * SECOND).

Example the_fence_stops_the_run :
  (fence_workflow (Some "jwt") sample_expiry 9 "o" "r" "deploy.yml" 10 5 fencing).1 = Ok [5].
Proof. by vm_compute. Qed.
(** A run that will not end, a rate limit, a page too many: unproven. *)
Example the_fence_fails_closed :
  (fence_workflow (Some "jwt") sample_expiry 9 "o" "r" "deploy.yml" 10 5
     (script (take 10 fencing_answers))).1 = Exc WorkflowCancellationUnprovenError.
Proof. by vm_compute. Qed.

Lemma github_requests_are_bounded_witness :
  let q := get_request "/x" "t" in
  let s := script [says_json 502 DNull; says_json 503 DNull; says_json 404 DNull; installed] in
  (∃ tries, exchanges (last_response q s).2 = exchanges s ++ ((λ t, (q, t)) <$> tries) ∧
    (length tries ≤ 3)%nat ∧ Forall retried (take (pred (length tries)) tries) ∧
    ∀ resp, (last_response q s).1 = Ok resp → last tries = Some (Ok resp)) ∧
  status_code <$> (last_response q s).1 = Ok 404.
Proof. split; [apply github_requests_are_bounded|by vm_compute]. Defined.

Lemma fence_stops_every_run_it_could_list_witness :
  ∃ l, exchanges (fence_workflow (Some "jwt") sample_expiry 9 "o" "r" "deploy.yml" 10 5 fencing).2 = [] ++ l ∧
    fenced_whole "o" "r" "deploy.yml" [5] l.
Proof.
  pose proof (fence_stops_every_run_it_could_list (Some "jwt") sample_expiry 9 "o" "r" "deploy.yml" 10 5 fencing) as Hfence.
  destruct (fence_workflow _ _ _ _ _ _ _ _ _) as [r s'] eqn:Hrun. destruct Hfence as (l & Hl & Hr). exists l.
  assert (r = Ok [5]) as -> by (change r with (r, s').1; rewrite <-Hrun; by vm_compute). by split.
Defined.

(** The same run awaited: it succeeds. *)
Definition awaiting : Internet :=
  script [installed; says_json 201 (DMap [("token", DStr "tok"); ("expires_at", DStr "later")]);
            runs_are [run_is "in_progress" ""]; installed; runs_are [run_is "completed" "success"]].
Lemma waits_report_what_github_reported_witness :
  (∃ l, exchanges (wait_for_workflow_completion (Some "jwt") sample_expiry (λ _, "") (λ _, "") 9 "o" "r" 60 15
      (Some (mret false)) "ci.yml" "main" None None awaiting).2 = [] ++ l ∧
    ended_workflow "o" "r" "ci.yml"
      (Ok (mkWorkflowRun 5 (DStr "completed") (DStr "success") (DStr "u") (DStr "t") DNull)) l).
Proof.
  pose proof (waits_report_what_github_reported (Some "jwt") sample_expiry (λ _, "") (λ _, "") 9 "o" "r" 60 15
      (Some (mret false)) "ci.yml" "main" None None 5 awaiting) as [Hwait _].
  { intros check [= <-]. by apply trace_ret. }
  destruct (wait_for_workflow_completion _ _ _ _ _ _ _ _ _ _ _ _ _ _ _) as [r s'] eqn:Hrun.
  destruct Hwait as (l & Hl & Hr). exists l. split; [done|].
  assert (r = Ok (mkWorkflowRun 5 (DStr "completed") (DStr "success") (DStr "u") (DStr "t") DNull)) as ->
    by (change r with (r, s').1; rewrite <-Hrun; by vm_compute). exact Hr.
Defined.

Lemma github_waits_end_witness :
  (fence_workflow (Some "jwt") sample_expiry 4 "o" "r" "deploy.yml" 10 5 fencing).1 ≠ Exc OutOfFuel ∧
  (wait_for_workflow_completion (Some "jwt") sample_expiry (λ _, "") (λ _, "") 4 "o" "r" 10 5
     None "deploy.yml" "main" None None fencing).1 ≠ Exc OutOfFuel ∧
  (wait_for_run_completion (Some "jwt") sample_expiry (λ _, "") 4 "o" "r" 10 5 None 5 fencing).1 ≠ Exc OutOfFuel.
Proof. apply (github_waits_end (Some "jwt") sample_expiry (λ _, "") (λ _, "") 4); [lia..|done]. Defined.
