(* ===== verification/GithubPulls.v ===== *)
(** * GithubPulls: pull requests on GitHub

    [shared/clients/github/_pull_requests.py]: opening a pull request or finding the
    one there is, and what is asked of one afterwards.  A request GitHub refuses is its
    last response ([last_response]): the handlers read its status and its body. *)

From S2P Require Import Prelude Contracts Docs BotAccess Github GithubActions.

Definition UNPROCESSABLE_ENTITY : Z := 422.

(** [value.get(key, default)] of what an answer holds. *)
Definition attr_get_or (dflt : doc) (key : string) (v : doc) : res doc :=
  match v with DMap m => Ok (get_or dflt key m) | _ => Exc AttributeError end.

Definition pulls_url (owner repo : string) : string := repo_url owner repo +:+ "/pulls".
Definition pull_url (owner repo : string) (pr_number : doc) `{PyRepr} : string :=
  pulls_url owner repo +:+ "/" +:+ py_str pr_number.
Definition create_pull_request_of (owner repo token head base title body : string) : http_request :=
  mkHttp "POST" (pulls_url owner repo) (bearer token) []
    (DMap [("head", DStr head); ("base", DStr base); ("title", DStr title); ("body", DStr body)]).
Definition pulls_request (owner repo token head base state : string) : http_request :=
  mkHttp "GET" (pulls_url owner repo) (bearer token)
    [("head", DStr (owner +:+ ":" +:+ head)); ("base", DStr base); ("state", DStr state)] DNull.
Definition pull_request_of (owner repo token : string) (pr_number : doc) `{PyRepr} : http_request :=
  get_request (pull_url owner repo pr_number) (bearer token).

(** [_validation_detail] *)
Definition error_message `{PyRepr} (err : doc) : option string :=
  match err with
  | DMap m => let s := py_str (get_or (DStr "") "message" m) in if decide (s = "") then None else Some s
  | _ => None
  end.
Definition validation_detail `{PyRepr} (response : http_response) : res string :=
  match body response with
  | None => Ok ""
  | Some (DMap b) =>
      match get_or (DList []) "errors" b with
      | DList errors =>
          Ok (match omap error_message errors with
              | [] => py_str (get_or (DStr "") "message" b)
              | messages => String.concat "; " messages
              end)
      | DStr _ | DMap _ => Ok (py_str (get_or (DStr "") "message" b))
      | _ => Exc TypeError
      end
  | Some _ => Exc AttributeError
  end.

(** [prs[0]] of an answer that is not empty. *)
Definition first_of (v : doc) : res doc :=
  match v with
  | DList (pr :: _) => Ok pr
  | DMap _ => Exc KeyError
  | DStr s => Ok (DStr (String.substring 0 1 s))
  | _ => Exc TypeError
  end.

(** [key in value], and [value[key]] after it, which only a mapping has. *)
Definition reports (key : string) (v : doc) : res bool :=
  match v with
  | DMap m => Ok (has_key key m)
  | DList l => if existsb (is_text key) l then Exc TypeError else Ok false
  | DStr s => if has_text key s then Exc TypeError else Ok false
  | _ => Exc TypeError
  end.

Definition ENABLE_AUTO_MERGE : string := "
        mutation EnableAutoMerge($pullRequestId: ID!, $mergeMethod: PullRequestMergeMethod!) {
            enablePullRequestAutoMerge(input: {
                pullRequestId: $pullRequestId,
                mergeMethod: $mergeMethod
            }) {
                pullRequest {
                    number
                    autoMergeRequest { mergeMethod }
                }
            }
        }
        ".

Section pulls.
Context `{Https Net} `{PyRepr} (app_jwt : option string) (parse_expiry : string → option Z).
Abbreviation get_token := (get_token app_jwt parse_expiry).

(** The pull request there is: an open one first, then a closed one. *)
Fixpoint find_pull_request (states : list string) (owner repo token head base : string) : M Net doc :=
  match states with
  | [] => raise RuntimeError
  | state :: states =>
      prs ← request_json (pulls_request owner repo token head base state);
      if doc_truthy prs then of_res (first_of prs)
      else find_pull_request states owner repo token head base
  end.
Definition create_pull_request (owner repo head base title body : string) : M Net doc :=
  token ← get_token owner repo;
  resp ← last_response (create_pull_request_of owner repo token head base title body);
  if is_success resp then
    pr ← of_res (json resp);
    _ ← of_res (item "number" pr);
    mret pr
  else if negb (status_code resp =? UNPROCESSABLE_ENTITY) then raise (HTTPException (status_code resp))
  else
    detail ← of_res (validation_detail resp);
    if has_text "no commits between" (lower detail) then raise RuntimeError
    else find_pull_request ["open"; "closed"] owner repo token head base.

Definition get_pull_request (owner repo : string) (pr_number : doc) : M Net doc :=
  token ← get_token owner repo;
  request_json (pull_request_of owner repo token pr_number).

Definition enable_auto_merge (owner repo pr_node_id merge_method : string) : M Net bool :=
  token ← get_token owner repo;
  data ← request_json (mkHttp "POST" "/graphql" ("bearer " +:+ token) []
    (DMap [("query", DStr ENABLE_AUTO_MERGE);
           ("variables", DMap [("pullRequestId", DStr pr_node_id); ("mergeMethod", DStr merge_method)])]));
  errors ← of_res (reports "errors" data);
  mret (negb errors).

Definition merge_pull_request (owner repo : string) (pr_number : doc) (merge_method : string) : M Net doc :=
  token ← get_token owner repo;
  result ← request_json (mkHttp "PUT" (pull_url owner repo pr_number +:+ "/merge") (bearer token) []
    (DMap [("merge_method", DStr merge_method)]));
  _ ← of_res (attr_get "sha" result);
  mret result.

Definition list_pull_requests (owner repo : string) (head base : option string) (state : string) : M Net doc :=
  token ← get_token owner repo;
  let head_param := match nonempty_text head with
    | Some head => [("head", DStr (if has_text ":" head then head else owner +:+ ":" +:+ head))]
    | None => []
    end in
  let base_param := match nonempty_text base with Some base => [("base", DStr base)] | None => [] end in
  request_json (mkHttp "GET" (pulls_url owner repo) (bearer token)
    ([("state", DStr state)] ++ head_param ++ base_param) DNull).

Definition close_pull_request (owner repo : string) (pr_number : doc) : M Net doc :=
  token ← get_token owner repo;
  request_json (mkHttp "PATCH" (pull_url owner repo pr_number) (bearer token) []
    (DMap [("state", DStr "closed")])).
End pulls.
