(* ===== verification/World.v ===== *)
(** * World: what a scheduler tick acts on

    A scheduler process reaches everything through remote calls: the API over
    HTTP ([shared/clients/internal_api.py]), Redis ([shared/redis/client.py]) and GitHub
    ([shared/clients/github]).
    Between two of its calls other processes act and time passes; a call may be
    lost before it arrives, its answer may be lost after it was served, and the
    process may be killed.  A [World] is the state all processes share together
    with the schedule of what will happen around the coming calls, so a theorem
    about every schedule is a theorem about every interleaving and every fault
    at call boundaries. *)

From S2P Require Import Prelude Vocabulary Contracts Db Api Placement Github.

(** ** Redis contents the scheduler reads *)

(** [worker_turn.py], [WorkerActiveTurn]. *)
Record WorkerActiveTurn := mkWorkerActiveTurn {
  at_worker_id : string;
  at_attempt_id : string;
  at_request_id : string;
  at_lease_id : string;
  at_started_at : Z;
  at_deadline_at : Z;
}.

(** [worker_evidence.py], [RemovedWorkerEvidence]: the fields identity is read
    from ([ownership.attempt_id], [ownership.run_id]). *)
Record RemovedWorkerEvidence := mkRemovedWorkerEvidence {
  re_worker_id : string;
  re_run_id : string;
  re_attempt_id : string;
}.

(** A stored document, or text no contract accepts. *)
Inductive stored (A : Type) := Parsed (a : A) | Unreadable.
Arguments Parsed {A} a.
Arguments Unreadable {A}.

Record Redis := mkRedis {
  streams : list (string * message);                     (** XADD log, oldest first *)
  counters : gmap string Z;                              (** the integer keys *)
  worker_status : gmap string string;                    (** [worker:status:{id}], field [status] *)
  active_turn : gmap string (stored WorkerActiveTurn);   (** [worker:active-turn:{id}] *)
  removed_workers : gmap string (gmap string (stored RemovedWorkerEvidence));
                                                         (** [worker:evidence:removed:{run}] *)
  observations : gmap string (stored EnvObservationResult);  (** [env-observation:result:{id}] *)
  markers : gset string;                                 (** the keys only set with [nx=True] *)
  story_workers : gmap string string;                    (** [story:workers]: the worker of a story *)
}.
#[export] Instance Redis_rebuild : Rebuild Redis := λ r,
  mkRedis (streams r) (counters r) (worker_status r) (active_turn r) (removed_workers r)
    (observations r) (markers r) (story_workers r).
Definition empty_redis : Redis := mkRedis [] ∅ ∅ ∅ ∅ ∅ ∅ ∅.

(** ** Shared state *)

Record Shared := mkShared {
  db : Database;
  redis : Redis;
  fleet : Fleet;        (** servers, incidents and the applications on them *)
  clock : Z;
  exchanged : list exchange;  (** what was exchanged with GitHub, oldest first *)
}.
#[export] Instance Shared_rebuild : Rebuild Shared := λ r,
  mkShared (db r) (redis r) (fleet r) (clock r) (exchanged r).

(** ** The schedule *)

Inductive fault :=
| NoFault
| Lost          (** the call never arrived *)
| LostReply     (** it was served, the answer never arrived *)
| Killed.       (** the process died before the call *)

(** What happens around one call: the moves of other processes before it (and
    the time they take), and the fate of the call. *)
Record turn := mkTurn { others : Shared → Shared; fate : fault }.
Definition undisturbed (f : fault) : turn := mkTurn id f.

Record World := mkWorld {
  shared : Shared;
  schedule : list turn;          (** of the coming calls; afterwards nothing disturbs *)
  down : bool;                   (** the process is dead *)
  uuids : nat → string;          (** what [uuid4().hex] will draw *)
  drawn : nat;
  alerts : list string;          (** [notify_admins_best_effort], oldest first *)
  github_answers : answering;    (** what GitHub will answer *)
  github_tokens : gmap Z (string * Z);  (** [_token_cache] of the client in use *)
  sent : list exchange;          (** the requests of operations that meet the others on the way *)
}.
#[export] Instance World_rebuild : Rebuild World := λ r,
  mkWorld (shared r) (schedule r) (down r) (uuids r) (drawn r) (alerts r)
    (github_answers r) (github_tokens r) (sent r).

(** ** Calls *)

(** Take the next turn off the schedule, others moving first. *)
Definition next_turn (w : World) : fault * World :=
  match w.(schedule) with
  | [] => (NoFault, w)
  | t :: rest => (t.(fate), (w <| schedule := rest |>) <| shared ::= t.(others) |>)
  end.

(** One remote call.  A dead process does nothing any more: what the code does
    after [Killed] has no effect. *)
Definition remote {A} (serve : M World A) : M World A := λ w,
  if w.(down) then (Exc ConnectionLost, w)
  else
    let '(f, w) := next_turn w in
    match f with
    | NoFault => serve w
    | Lost => (Exc ConnectionLost, w)
    | LostReply => (Exc ConnectionLost, (serve w).2)
    | Killed => (Exc ConnectionLost, w <| down := true |>)
    end.

Definition set_db (d : Database) (w : World) : World := w <| shared ::= λ s, s <| db := d |> |>.
Definition set_redis (r : Redis) (w : World) : World :=
  w <| shared ::= λ s, s <| redis := r |> |>.

(** An endpoint, served from the database at the current instant. *)
Definition on_db {A} (endpoint : Z → M Database A) : M World A := λ w,
  let '(r, d) := endpoint w.(shared).(clock) w.(shared).(db) in (r, set_db d w).

Definition on_redis {A} (f : Redis → A * Redis) : M World A := λ w,
  let '(a, r) := f w.(shared).(redis) in
  (Ok a, set_redis r w).

(** [resp.raise_for_status()]: a client only sees a status; what the handler did
    not turn into one itself is a 500. *)
Definition over_http {A} (r : res A) : res A :=
  match r with
  | Exc (HTTPException code) => Exc (HTTPException code)
  | Exc _ => Exc (HTTPException 500)
  | Ok a => Ok a
  end.

(** [InternalAPIClient.request]. *)
Definition request {A} (endpoint : Z → M Database A) : M World A :=
  remote (λ w, let '(r, w') := on_db endpoint w in (over_http r, w')).

(** [RedisStreamClient.publish], [publish_message] and [publish_flat]: one XADD. *)
Definition publish (stream : string) (m : message) : M World unit :=
  remote (on_redis (λ r, (tt, r <| streams ::= λ l, l ++ [(stream, m)] |>))).

(** [GET], [SET], [INCR], [EXPIRE] and [DEL] of an integer key.  A key that
    expires is deleted by Redis: a move of the others. *)
Definition redis_get (key : string) : M World (option Z) :=
  remote (gets (λ w, w.(shared).(redis).(counters) !! key)).
Definition redis_set (key : string) (v ttl : Z) : M World unit :=
  remote (on_redis (λ r, (tt, r <| counters ::= <[key := v]> |>))).
Definition redis_incr (key : string) : M World Z :=
  remote (on_redis (λ r, let n := default 0 (r.(counters) !! key) + 1 in
                         (n, r <| counters ::= <[key := n]> |>))).
Definition redis_expire (key : string) (ttl : Z) : M World unit := remote (mret tt).
Definition redis_delete (key : string) : M World unit :=
  remote (on_redis (λ r, (tt, r <| counters ::= delete key |>))).

(** [SET key v NX EX ttl]: whether the key was free. *)
Definition redis_mark (key : string) : M World bool :=
  remote (on_redis (λ r, (negb (bool_decide (key ∈ r.(markers))), r <| markers ::= λ m, {[ key ]} ∪ m |>))).

(** GitHub does not answer. *)
Definition silent : answering := λ _ _, (0, None).
(** [HGET] and [HDEL] of the registry of story workers. *)
Definition get_story_worker (story_id : string) : M World (option string) :=
  remote (gets (λ w, w.(shared).(redis).(story_workers) !! story_id)).
Definition drop_story_worker (story_id : string) : M World unit :=
  remote (on_redis (λ r, (tt, r <| story_workers ::= delete story_id |>))).

(** [GitHubAppClient()]: a client with no token yet. *)
Definition github_client : M World unit := modify (λ w, w <| github_tokens := ∅ |>).

(** An operation of the GitHub client, on the network as this process sees it.  Its single
    requests may fail each ([github_answers]); the time it takes is a move of the others. *)
Definition on_github {A} (m : M Internet A) : M World A := λ w,
  let '(r, n) := m (mkInternet w.(github_answers) w.(shared).(exchanged) w.(shared).(clock) w.(github_tokens)) in
  (r, (w <| shared ::= λ s, s <| exchanged := net_log n |> |>) <| github_tokens := net_tokens n |>).
Definition github {A} (m : M Internet A) : M World A := remote (on_github m).

(** An operation that asks the API on its way ([cancel_check]) meets the others between its
    requests: there each request is a call of its own, and time does not go back. *)
Definition next_turn_in_time (w : World) : fault * World :=
  let '(f, w') := next_turn w in (f, w' <| shared ::= λ s, s <| clock ::= Z.max w.(shared).(clock) |> |>).
(** What the process saw of a request. *)
Definition noted (q : http_request) (r : res http_response) (w : World) : res http_response * World :=
  (r, w <| sent ::= λ l, l ++ [(q, r)] |>).
(** GitHub's answer to a request that reached it. *)
Definition served (q : http_request) (w : World) : res http_response * World :=
  let '(delay, answer) := w.(github_answers) w.(shared).(exchanged) q in
  let r := match answer with Some resp => Ok resp | None => Exc ConnectionLost end in
  (r, w <| shared ::= λ s, (s <| exchanged ::= λ l, l ++ [(q, r)] |>) <| clock ::= λ t, t + Z.max 0 delay |> |>).
#[export] Instance world_https : Https World := {
  exchanges := sent;
  clock_of w := w.(shared).(clock);
  http_send q := λ w,
    if w.(down) then noted q (Exc ConnectionLost) w
    else
      let '(f, w) := next_turn_in_time w in
      match f with
      | NoFault => let '(r, w) := served q w in noted q r w
      | LostReply => noted q (Exc ConnectionLost) (served q w).2
      | Lost => noted q (Exc ConnectionLost) w
      | Killed => noted q (Exc ConnectionLost) (w <| down := true |>)
      end;
  http_now := gets (λ w, w.(shared).(clock));
  http_sleep d := λ w,
    if w.(down) then (Exc ConnectionLost, w)
    else
      let '(f, w) := next_turn_in_time w in
      match f with
      | Killed => (Exc ConnectionLost, w <| down := true |>)
      | _ => (Ok tt, w <| shared ::= λ s, s <| clock ::= λ t, t + Z.max 0 d |> |>)
      end;
  cached_token i := gets (λ w, w.(github_tokens) !! i);
  cache_token i t := modify (λ w, w <| github_tokens ::= <[i := t]> |>) }.
Lemma in_time w : w.(shared).(clock) ≤ (next_turn_in_time w).2.(shared).(clock) ∧
  (next_turn_in_time w).2.(sent) = w.(sent).
Proof. unfold next_turn_in_time, next_turn. destruct (schedule w); cbn; split; first [done|lia]. Qed.
#[export] Instance world_https_laws : HttpsLaws World.
Proof.
  split.
  - intros q w. cbn. destruct (down w); [done|]. pose proof (in_time w) as [_ Hs].
    destruct (next_turn_in_time w) as [[] w'] eqn:Et; cbn in *; unfold served;
      try destruct (github_answers _ _ _) as [d a]; cbn; by rewrite Hs.
  - intros q w e. cbn. destruct (down w); [by intros [= <-]|].
    destruct (next_turn_in_time w) as [[] w'] eqn:Et; cbn; unfold served;
      try destruct (github_answers _ _ _) as [d [a|]]; cbn; by intros [= <-].
  - intros q w. cbn. destruct (down w); [done|]. pose proof (in_time w) as [Ht _].
    destruct (next_turn_in_time w) as [[] w'] eqn:Et; cbn in *; unfold served;
      try destruct (github_answers _ _ _) as [d a]; cbn; lia.
  - done.
  - intros d w. cbn. destruct (down w); [done|]. pose proof (in_time w) as [_ Hs].
    by destruct (next_turn_in_time w) as [[] w'] eqn:Et.
  - intros d w. cbn. destruct (down w); [done|]. pose proof (in_time w) as [Ht _].
    destruct (next_turn_in_time w) as [[] w'] eqn:Et; cbn in *; (split; [lia|intros; first [done|lia]]).
  - intros d w e. cbn. destruct (down w); [by intros [= <-]|].
    destruct (next_turn_in_time w) as [[] w'] eqn:Et; cbn; by intros [= <-].
  - intros i w. cbn. eauto.
  - done.
  - intros i t w. cbn. split; [lia|done].
Qed.

(** ** Local steps *)

(** [datetime.now(UTC)]. *)
Definition now : M World Z := gets (λ w, w.(shared).(clock)).

(** [uuid.uuid4().hex]. *)
Definition uuid4_hex : M World string := λ w,
  (Ok (w.(uuids) w.(drawn)), w <| drawn ::= S |>).

(** [notify_admins_best_effort]: never raises.  What it sends is outside the
    shared state; whether Telegram delivers it is not modelled. *)
Definition notify_admins_best_effort (text : string) : M World unit := λ w,
  (Ok tt, if w.(down) then w else w <| alerts ::= λ l, l ++ [text] |>).

(** A tick of a process that was started again, under a new schedule. *)
Definition restarted (turns : list turn) (w : World) : World :=
  (w <| schedule := turns |>) <| down := false |>.

(** ** Environments

    A theorem fixes what the other processes may do between two calls, as a
    relation on the shared state, and whether calls may fail. *)

Record env := mkEnv { moves : relation Shared; may_fail : bool }.

(** Every move of the others is allowed, and faults only where the environment
    has them. *)
Definition in_env (E : env) (w : World) : Prop :=
  Forall (λ t, (∀ s, moves E s (t.(others) s)) ∧ (may_fail E = false → t.(fate) = NoFault))
    w.(schedule) ∧
  (may_fail E = false → w.(down) = false).

(** Nobody else moves: with faults anywhere, or without any. *)
Definition faulty : env := mkEnv (λ s s', s' = s) true.
Definition calm : env := mkEnv (λ s s', s' = s) false.

#[export] Instance faulty_refl : Reflexive (moves faulty).
Proof. done. Qed.
#[export] Instance calm_refl : Reflexive (moves calm).
Proof. done. Qed.

Lemma calm_world w : w.(schedule) = [] → w.(down) = false → in_env calm w.
Proof. intros Hs Hd. split; [by rewrite Hs|done]. Qed.

Lemma in_env_calm_faulty w : in_env calm w → in_env faulty w.
Proof. intros [Ht _]. split; [|done]. eapply Forall_impl; [exact Ht|]. by intros t [? _]. Qed.

(** [exec E m s Q]: started from the shared state [s] in the environment [E], [m]
    ends in a result and a shared state that satisfy [Q].  It forgets what no
    other process sees: the schedule, the draws and the alerts. *)
Definition exec {A} (E : env) (m : M World A) (s : Shared) (Q : res A → Shared → Prop) : Prop :=
  ∀ w, w.(shared) = s → in_env E w → wp m (λ r w', in_env E w' ∧ Q r w'.(shared)) w.

Section exec_rules.
Context (E : env) {HE : Reflexive (moves E)}.

Lemma exec_ret {A} (a : A) s (Q : res A → Shared → Prop) : Q (Ok a) s → exec E (mret a) s Q.
Proof. intros HQ w <- Ho. by split. Qed.
Lemma exec_raise {A} e s (Q : res A → Shared → Prop) : Q (Exc e) s → exec E (raise e) s Q.
Proof. intros HQ w <- Ho. by split. Qed.
Lemma exec_now s (Q : res Z → Shared → Prop) : Q (Ok s.(clock)) s → exec E now s Q.
Proof. intros HQ w <- Ho. by split. Qed.
Lemma exec_uuid s (Q : res string → Shared → Prop) :
  (∀ x, Q (Ok x) s) → exec E uuid4_hex s Q.
Proof. intros HQ w <- Ho. split; [done|apply HQ]. Qed.
Lemma exec_notify text s (Q : res unit → Shared → Prop) :
  Q (Ok tt) s → exec E (notify_admins_best_effort text) s Q.
Proof.
  intros HQ w <- Ho. unfold wp, notify_admins_best_effort. cbn.
  destruct (down w) eqn:Ed; [done|]. split; [|done]. destruct Ho as [? Hd]. split; [done|].
  intros Hf. specialize (Hd Hf). done.
Qed.
Lemma exec_of_res {A} (r : res A) s (Q : res A → Shared → Prop) : Q r s → exec E (of_res r) s Q.
Proof. intros HQ w <- Ho. by split. Qed.
Lemma exec_some_or {A} e (o : option A) s (Q : res A → Shared → Prop) :
  (∀ a, o = Some a → Q (Ok a) s) → (o = None → Q (Exc e) s) → exec E (some_or e o) s Q.
Proof. destruct o; intros H1 H2; [by apply exec_ret, H1|by apply exec_raise, H2]. Qed.
Lemma exec_guard_not b e s (Q : res unit → Shared → Prop) :
  (b = false → Q (Ok tt) s) → (b = true → Q (Exc e) s) → exec E (guard_not b e) s Q.
Proof. destruct b; intros H1 H2; [by apply exec_raise, H2|by apply exec_ret, H1]. Qed.

Lemma exec_mono {A} (m : M World A) s (Q Q' : res A → Shared → Prop) :
  exec E m s Q → (∀ r s', Q r s' → Q' r s') → exec E m s Q'.
Proof.
  intros Hm HQ w Hs Ho. eapply wp_mono; [by apply Hm|]. intros r w' [? ?]. auto.
Qed.

Lemma exec_bind {A B} (m : M World A) (f : A → M World B) s Q :
  exec E m s (λ r s', match r with Ok a => exec E (f a) s' Q | Exc e => Q (Exc e) s' end) →
  exec E (m ≫= f) s Q.
Proof.
  intros Hm w Hs Ho. apply wp_bind. eapply wp_mono; [by apply Hm|].
  intros [a|e] w' [Ho' HQ]; cbn; [by apply HQ|done].
Qed.

Lemma exec_catch {A} (m : M World A) h s Q :
  exec E m s (λ r s', match r with Ok a => Q (Ok a) s' | Exc e => exec E (h e) s' Q end) →
  exec E (catch m h) s Q.
Proof.
  intros Hm w Hs Ho. apply wp_catch. eapply wp_mono; [by apply Hm|].
  intros [a|e] w' [Ho' HQ]; [done|by apply HQ].
Qed.

Lemma exec_attempt {A} (m : M World A) s (Q : res (res A) → Shared → Prop) :
  exec E m s (λ r s', Q (Ok r) s') → exec E (attempt m) s Q.
Proof. intros Hm w Hs Ho. exact (Hm w Hs Ho). Qed.

(** The rule of a loop. *)
Lemma exec_fold_m {A B} (I : B → Shared → Prop) (f : B → A → M World B) (l : list A) :
  ∀ b s Q, I b s →
  (∀ x b s, x ∈ l → I b s →
     exec E (f b x) s (λ r s', match r with Ok b' => I b' s' | Exc e => Q (Exc e) s' end)) →
  (∀ b s, I b s → Q (Ok b) s) →
  exec E (fold_m f b l) s Q.
Proof.
  induction l as [|x l IH]; intros b s Q Hb Hf HQ; cbn; [by apply exec_ret, HQ|].
  apply exec_bind. eapply exec_mono; [apply Hf; [by left|done]|].
  intros [b'|e] s' Hs'; cbn; [|done].
  apply IH; [done| |done]. intros; apply Hf; [by right|done].
Qed.

(** The same, the invariant told what is left to visit. *)
Lemma exec_fold_rest {A B} (I : list A → B → Shared → Prop) (f : B → A → M World B) (l : list A) :
  ∀ b s Q, I l b s →
  (∀ x rest b s, I (x :: rest) b s →
     exec E (f b x) s (λ r s', match r with Ok b' => I rest b' s' | Exc e => Q (Exc e) s' end)) →
  (∀ b s, I [] b s → Q (Ok b) s) →
  exec E (fold_m f b l) s Q.
Proof.
  induction l as [|x l IH]; intros b s Q Hb Hf HQ; cbn; [by apply exec_ret, HQ|].
  apply exec_bind. eapply exec_mono; [by apply Hf|].
  intros [b'|e] s' Hs'; cbn; [|done]. by apply IH.
Qed.

(** The rule of a call: the others move, then it is served; where calls fail, it
    may also fail before or after that. *)
Lemma exec_remote {A} (serve : M World A) s Q :
  (∀ s', moves E s s' →
     exec E serve s' (λ r s'', Q r s'' ∧ (may_fail E = true → Q (Exc ConnectionLost) s'')) ∧
     (may_fail E = true → Q (Exc ConnectionLost) s')) →
  exec E (remote serve) s Q.
Proof.
  intros HQ w <- Ho. unfold wp, remote. destruct (down w) eqn:Ed.
  { destruct (may_fail E) eqn:Hf; [|destruct Ho as [_ Hd]; by rewrite Hd in Ed].
    split; [exact Ho|]. by apply (HQ (shared w)). }
  unfold next_turn. destruct (schedule w) as [|t rest] eqn:Es.
  - destruct (HQ (shared w)) as [Hs _]; [reflexivity|].
    destruct (Hs w eq_refl Ho) as (? & ? & _). by split.
  - destruct Ho as [Ht Hd]. rewrite Es in Ht. apply Forall_cons in Ht as [[Hm Hf] Hrest].
    set (w' := (w <| schedule := rest |>) <| shared ::= others t |>).
    destruct (HQ (shared w') (Hm _)) as [Hs Hl].
    assert (in_env E w') as Ho' by (split; [exact Hrest|exact Hd]).
    destruct (Hs w' eq_refl Ho') as (Ho'' & HQ1 & HQ2).
    destruct (fate t) eqn:Ef; cbn [fst snd].
    + by split.
    + destruct (may_fail E) eqn:Hfail; [|by specialize (Hf eq_refl)]. split; [done|by apply Hl].
    + destruct (may_fail E) eqn:Hfail; [|by specialize (Hf eq_refl)]. split; [done|by apply HQ2].
    + destruct (may_fail E) eqn:Hfail; [|by specialize (Hf eq_refl)].
      split; [split; [by rewrite Hfail|intros; congruence]|by apply Hl].
Qed.

(** A request: the endpoint runs on whatever database the others left. *)
Lemma exec_request {A} (endpoint : Z → M Database A) s Q :
  (∀ s', moves E s s' →
     wp (endpoint s'.(clock))
       (λ r d, Q (over_http r) (s' <| db := d |>) ∧
               (may_fail E = true → Q (Exc ConnectionLost) (s' <| db := d |>))) s'.(db) ∧
     (may_fail E = true → Q (Exc ConnectionLost) s')) →
  exec E (request endpoint) s Q.
Proof.
  intros HQ. apply exec_remote. intros s' Hm. destruct (HQ s' Hm) as [Hs Hl]. split; [|done].
  intros w <- Ho. revert Hs. unfold wp, on_db. by destruct (endpoint _ _).
Qed.

Lemma exec_publish stream m s (Q : res unit → Shared → Prop) :
  (∀ s', moves E s s' →
     let s'' := s' <| redis ::= λ r, r <| streams ::= λ l, l ++ [(stream, m)] |> |> in
     Q (Ok tt) s'' ∧ (may_fail E = true → Q (Exc ConnectionLost) s'' ∧ Q (Exc ConnectionLost) s')) →
  exec E (publish stream m) s Q.
Proof.
  intros HQ. apply exec_remote. intros s' Hm. destruct (HQ s' Hm) as [Hs Hl].
  split; [|intros Hf; by apply Hl].
  intros w <- Ho. split; [done|]. split; [done|]. intros Hf. by apply Hl.
Qed.

(** A call to Redis: reads and writes its part of the shared state. *)
Lemma exec_on_redis {A} (f : Redis → A * Redis) s (Q : res A → Shared → Prop) :
  (∀ s', moves E s s' →
     let s'' := s' <| redis := (f s'.(redis)).2 |> in
     Q (Ok (f s'.(redis)).1) s'' ∧
     (may_fail E = true → Q (Exc ConnectionLost) s'' ∧ Q (Exc ConnectionLost) s')) →
  exec E (remote (on_redis f)) s Q.
Proof.
  intros HQ. apply exec_remote. intros s' Hm. destruct (HQ s' Hm) as [Hs Hl].
  split; [|intros Hf; by apply Hl]. intros w <- Ho. unfold wp, on_redis.
  destruct (f _) as [a r]. cbn in *. split; [done|]. split; [done|]. intros Hf. by apply Hl.
Qed.

Lemma exec_client s (Q : res unit → Shared → Prop) : Q (Ok tt) s → exec E github_client s Q.
Proof. intros HQ w <- Ho. by split. Qed.

(** GitHub answers what it likes. *)
Lemma exec_github {A} (m : M Internet A) (Φ : res A → list exchange → Prop) s Q :
  trace m Φ →
  (∀ s', moves E s s' →
     (∀ r l, Φ r l → let s'' := s' <| exchanged ::= λ x, x ++ l |> in
        Q r s'' ∧ (may_fail E = true → Q (Exc ConnectionLost) s'')) ∧
     (may_fail E = true → Q (Exc ConnectionLost) s')) →
  exec E (github m) s Q.
Proof.
  intros Hm HQ. apply exec_remote. intros s' Hmoves. destruct (HQ s' Hmoves) as [Hs Hl]. split; [|done].
  intros w <- Ho. unfold wp, on_github.
  destruct (Hm (mkInternet w.(github_answers) w.(shared).(exchanged) w.(shared).(clock) w.(github_tokens)))
    as (l & Hlog & HΦ).
  destruct (m _) as [r n]. cbn in *. split; [done|]. rewrite Hlog. exact (Hs r l HΦ).
Qed.

Lemma exec_remote_gets {A} (f : World → A) (g : Shared → A) s (Q : res A → Shared → Prop) :
  (∀ w, f w = g w.(shared)) →
  (∀ s', moves E s s' → Q (Ok (g s')) s' ∧ (may_fail E = true → Q (Exc ConnectionLost) s')) →
  exec E (remote (gets f)) s Q.
Proof.
  intros Hg HQ. apply exec_remote. intros s' Hm. destruct (HQ s' Hm) as [Hs Hl]. split; [|done].
  intros w <- Ho. unfold wp, gets. cbn. rewrite Hg. by split.
Qed.
End exec_rules.

(** Walk through a program: local steps and branches, leaving the calls. *)
Ltac exec_step :=
  lazymatch goal with
  | |- exec _ (mbind _ _) _ _ => apply exec_bind
  | |- exec _ (mret _) _ _ => apply exec_ret
  | |- exec _ (raise _) _ _ => apply exec_raise
  | |- exec _ (catch _ _) _ _ => apply exec_catch
  | |- exec _ (attempt _) _ _ => apply exec_attempt
  | |- exec _ now _ _ => apply exec_now
  | |- exec _ github_client _ _ => apply exec_client
  | |- exec _ uuid4_hex _ _ => apply exec_uuid; intros ?
  | |- exec _ (notify_admins_best_effort _) _ _ => apply exec_notify
  | |- exec _ (of_res _) _ _ => apply exec_of_res
  | |- exec _ (some_or _ _) _ _ => apply exec_some_or; [intros ? ?|intros ?]
  | |- exec _ (guard_not _ _) _ _ => apply exec_guard_not; intros ?
  | |- exec _ (match ?x with _ => _ end) _ _ => let E := fresh "E" in destruct x eqn:E
  end.
Ltac exec_auto := repeat (exec_step; cbn beta iota).

(** ** Environments where nobody else moves *)

Class Alone (E : env) := alone : ∀ s s', moves E s s' ↔ s' = s.
#[export] Instance faulty_alone : Alone faulty.
Proof. done. Qed.
#[export] Instance calm_alone : Alone calm.
Proof. done. Qed.
Lemma alone_refl E `{!Alone E} : Reflexive (moves E).
Proof. intros s. by apply alone. Qed.
#[export] Hint Extern 1 (Reflexive (moves _)) => apply alone_refl : typeclass_instances.

Lemma same_db s : s <| db := s.(db) |> = s.
Proof. by destruct s. Qed.

(** ** Rely and guarantee

    A program that itself only does what the others may do: [within E]. *)

Definition within (E : env) : relation World := λ w w',
  in_env E w → in_env E w' ∧ moves E w.(shared) w'.(shared).

#[export] Instance within_preorder E : PreOrder (moves E) → PreOrder (within E).
Proof.
  intros [Hr Ht]. split.
  - intros w Hw. split; [done|reflexivity].
  - intros w1 w2 w3 H12 H23 Hw. destruct (H12 Hw) as [Hw2 Hm]. destruct (H23 Hw2) as [Hw3 Hm'].
    split; [done|by etransitivity].
Qed.

Lemma exec_within {A} E (m : M World A) s :
  guar (within E) m → exec E m s (λ _ s', moves E s s').
Proof. intros Hm w <- Hw. by apply Hm. Qed.

Section within_rules.
Context (E : env) `{!PreOrder (moves E)}.

(** A local step keeps the environment and the shared state. *)
Lemma within_local {A} (m : M World A) :
  (∀ w, (m w).2.(shared) = w.(shared) ∧ (m w).2.(schedule) = w.(schedule) ∧
        (m w).2.(down) = w.(down)) →
  guar (within E) m.
Proof.
  intros H w Hw. destruct (H w) as (Hs & Hsch & Hd). split; [|rewrite Hs; reflexivity].
  unfold in_env in *. by rewrite Hsch, Hd.
Qed.

Lemma within_now : guar (within E) now.
Proof. by apply within_local. Qed.
Lemma within_uuid : guar (within E) uuid4_hex.
Proof. by apply within_local. Qed.
Lemma within_notify text : guar (within E) (notify_admins_best_effort text).
Proof. apply within_local. intros w. unfold notify_admins_best_effort. by destruct (down w) eqn:Ed. Qed.

Lemma within_remote {A} (serve : M World A) :
  guar (within E) serve → guar (within E) (remote serve).
Proof.
  intros Hs w Hw.
  assert (exec E (remote serve) w.(shared) (λ _ s', moves E w.(shared) s')) as Hex.
  { apply exec_remote; [apply _|]. intros s' Hm. split; [|done].
    eapply exec_mono; [by apply exec_within|]. intros r s'' Hm'. cbv beta in Hm'.
    split; [|intros _]; by etransitivity. }
  by destruct (Hex w eq_refl Hw).
Qed.

Lemma within_request {A} (endpoint : Z → M Database A) :
  (∀ s, moves E s (s <| db := (endpoint s.(clock) s.(db)).2 |>)) →
  guar (within E) (request endpoint).
Proof.
  intros H. apply within_remote. intros w Hw. specialize (H w.(shared)).
  unfold on_db, set_db in *. by destruct (endpoint _ _).
Qed.

Lemma within_publish stream m :
  (∀ s, moves E s (s <| redis ::= λ r, r <| streams ::= λ l, l ++ [(stream, m)] |> |>)) →
  guar (within E) (publish stream m).
Proof. intros H. apply within_remote. intros w Hw. by split; [|apply H]. Qed.

Lemma within_on_redis {A} (f : Redis → A * Redis) :
  (∀ s, moves E s (s <| redis := (f s.(redis)).2 |>)) →
  guar (within E) (remote (on_redis f)).
Proof.
  intros H. apply within_remote. intros w Hw. specialize (H w.(shared)).
  unfold on_redis, set_redis in *. by destruct (f _).
Qed.

Lemma within_client : guar (within E) github_client.
Proof. by apply within_local. Qed.
Lemma within_github {A} (m : M Internet A) :
  (∀ s l, moves E s (s <| exchanged := l |>)) → guar (within E) (github m).
Proof.
  intros H. apply within_remote. intros w Hw. unfold on_github. destruct (m _) as [r n]. cbn. by split; [|apply H].
Qed.

Lemma within_remote_gets {A} (f : World → A) : guar (within E) (remote (gets f)).
Proof. by apply within_remote, within_local. Qed.
Lemma within_remote_ret {A} (a : A) : guar (within E) (remote (mret a)).
Proof. by apply within_remote, within_local. Qed.
End within_rules.
#[export] Hint Resolve within_now within_uuid within_notify within_client within_remote_gets within_remote_ret : guar.
