(* ===== verification/SchedulerClient.v ===== *)
(** * SchedulerClient: the scheduler's view of the API

    [services/scheduler/src/clients/api.py]: one definition per method of
    [SchedulerAPIClient] the modelled loops call.  A method is a [request] to the
    endpoint and the validation of what came back; [raise_for_status] and
    [model_validate] raise, and only the methods that say so turn an exception
    into an answer. *)

From S2P Require Import Prelude Vocabulary Contracts Docs Db Api ApiTasks ApiStories ApiRuns ApiGrants.
From S2P Require Import Placement World.

(** ** Response models *)

(** [TaskDTO], [TaskEventDTO], [StoryDTO]: the closed vocabularies of the columns. *)
Definition TaskDTO_valid (t : Task) : bool :=
  bool_decide (is_Some (member_of (A:=TaskStatus.t) t.(t_status))) &&
  bool_decide (is_Some (member_of (A:=TaskType.t) t.(t_type))).

Definition in_vocabulary (s : option string) : bool :=
  match s with
  | Some s => bool_decide (is_Some (member_of (A:=TaskStatus.t) s))
  | None => true
  end.

Definition TaskEventDTO_valid (e : TaskEvent) : bool :=
  bool_decide (is_Some (member_of (A:=TaskEventType.t) e.(te_event_type))) &&
  in_vocabulary e.(te_from_status) && in_vocabulary e.(te_to_status).

Definition StoryDTO_valid (s : Story) : bool :=
  bool_decide (is_Some (member_of (A:=StoryStatus.t) s.(s_status))) &&
  bool_decide (is_Some (member_of (A:=StoryType.t) s.(s_type))).

Definition ProjectDTO_valid (p : Project) : bool :=
  bool_decide (is_Some (member_of (A:=ProjectStatus.t) p.(p_status))).

(** [_RESULT_MODEL_BY_TYPE] and the validators of the result models. *)
Definition result_matches_type (ty : RunType.t) (r : run_result) : bool :=
  match r, ty with
  | EngineeringResult _, RunType.ENGINEERING => true
  | DeployResult d, RunType.DEPLOY => infrastructure_wait_carries_its_classification d
  | QAResult q, RunType.QA => outcome_matches_state_traces q
  | _, _ => false
  end.

(** [RunDTO], with [_check_result]. *)
Definition RunDTO_valid (r : Run) : bool :=
  bool_decide (is_Some r.(r_project_id)) &&
  match member_of (A:=RunType.t) r.(r_type), member_of (A:=RunStatus.t) r.(r_status) with
  | Some ty, Some st =>
      match r.(r_result) with
      | None => negb (bool_decide (st = RunStatus.COMPLETED) || bool_decide (st = RunStatus.FAILED))
      | Some res => result_matches_type ty res
      end
  | _, _ => false
  end.

(** [Model.model_validate(resp.json())]. *)
Definition model_validate {A} (valid : A → bool) (a : A) : M World A :=
  guard_not (negb (valid a)) ValidationError;; mret a.

Definition get_validated {A} (valid : A → bool) (endpoint : Z → M Database A) : M World A :=
  a ← request endpoint; model_validate valid a.
Definition list_validated {A} (valid : A → bool) (endpoint : Z → M Database (list A))
    : M World (list A) :=
  l ← request endpoint; model_validate (forallb valid) l.

(** [except HTTPStatusError: if 404 return None; raise]. *)
Definition none_if_missing {A} (m : M World A) : M World (option A) :=
  catch (a ← m; mret (Some a)) (λ e, if decide (e = NOT_FOUND) then mret None else raise e).

(** ** Projects and users *)

(** [routers/projects.py], [get_project], and [routers/users.py], [get_user], as an
    internal service calls them. *)
Definition get_project (project_id : string) : M Database Project :=
  row ← gets (λ db, db.(projects) !! project_id); some_or NOT_FOUND row.
Definition get_user (user_id : Z) : M Database User :=
  row ← gets (λ db, db.(users) !! user_id); some_or NOT_FOUND row.

(** [list_projects], as an internal service calls it; the query has no order. *)
Definition list_projects : M Database (list Project) := gets (λ db, (map_to_list db.(projects)).*2).
Definition api_get_projects : M World (list Project) := list_validated ProjectDTO_valid (λ _, list_projects).
Definition api_get_project (project_id : string) : M World (option Project) :=
  none_if_missing (get_validated ProjectDTO_valid (λ _, get_project project_id)).
Definition api_get_user (user_id : Z) : M World (option User) :=
  none_if_missing (request (λ _, get_user user_id)).

(** ** Tasks *)

Definition api_get_tasks_by_status (status : TaskStatus.t) : M World (list Task) :=
  list_validated TaskDTO_valid (λ _, list_tasks (no_filter <| tf_status := Some (value status) |>)).
Definition api_get_tasks_by_story (story_id : string) : M World (list Task) :=
  list_validated TaskDTO_valid (λ _, list_tasks (no_filter <| tf_story_id := Some story_id |>)).
Definition api_get_tasks_by_project_and_status (project_id : string) (status : TaskStatus.t) : M World (list Task) :=
  list_validated TaskDTO_valid (λ _, list_tasks
    ((no_filter <| tf_project_id := Some project_id |>) <| tf_status := Some (value status) |>)).
Definition api_get_task (task_id : string) : M World Task :=
  get_validated TaskDTO_valid (λ _, ApiTasks.get_task task_id).
Definition api_create_task (body : TaskCreate) : M World Task :=
  fresh_id ← uuid4_hex;
  get_validated TaskDTO_valid (λ now, create_task now fresh_id body).
Definition api_update_task (task_id : string) (data : list TaskUpdate) : M World Task :=
  get_validated TaskDTO_valid (λ now, update_task now task_id data).
Definition api_transition_task (task_id : string) (to_status : TaskStatus.t) (actor : string)
    : M World Task :=
  get_validated TaskDTO_valid
    (λ now, transition_task now task_id (value to_status) (mkTaskTransition None actor ∅)).
Definition api_create_task_event (task_id : string) (event : TaskEventCreate) : M World TaskEvent :=
  get_validated TaskEventDTO_valid (λ _, create_task_event task_id event).
Definition api_get_task_events (task_id : string) : M World (list TaskEvent) :=
  list_validated TaskEventDTO_valid (λ _, list_task_events task_id None).

(** ** Runs *)

Definition api_create_run (run_data : RunCreate) : M World Run :=
  get_validated RunDTO_valid (λ now, create_run now run_data).
Definition api_get_run_if_missing_returns_none (run_id : string) : M World (option Run) :=
  run ← none_if_missing (request (λ _, get_run service run_id));
  match run with
  | Some r => r ← model_validate RunDTO_valid r; mret (Some r)
  | None => mret None
  end.
Definition api_create_run_if_absent (run_data : RunCreate) : M World Run :=
  existing ← api_get_run_if_missing_returns_none run_data.(rc_id);
  match existing with Some r => mret r | None => api_create_run run_data end.
Definition api_list_runs (task_id : string) (run_type : RunType.t) : M World (list Run) :=
  list_validated RunDTO_valid (λ _, list_runs service
    ((no_run_filter <| rf_task_id := Some task_id |>) <| rf_run_type := Some (value run_type) |>)).
Definition api_list_runs_owing_owner_notification (page : Z) : M World (list Run) :=
  list_validated RunDTO_valid (λ _, list_runs_owing_owner_notification service page).
(** The answer is not validated: [None] is returned. *)
Definition api_update_run (run_id : string) (data : RunUpdate) : M World unit :=
  request (λ now, update_run now service run_id data);; mret tt.
(** Only the newest run is validated. *)
Definition api_get_latest_run_by_story (story_id : string) (run_type : RunType.t)
    : M World (option Run) :=
  rows ← request (λ _, list_runs service
    ((no_run_filter <| rf_story_id := Some story_id |>) <| rf_run_type := Some (value run_type) |>));
  match rows with
  | [] => mret None
  | r :: _ => r ← model_validate RunDTO_valid r; mret (Some r)
  end.

(** ** Stories *)

Definition api_get_story (story_id : string) : M World Story :=
  get_validated StoryDTO_valid (λ _, get_story story_id).
Definition api_get_stories_by_status (status : StoryStatus.t) : M World (list Story) :=
  list_validated StoryDTO_valid
    (λ _, list_stories (no_story_filter <| sf_status := Some (value status) |>)).
Definition api_get_stories_by_project (project_id : string) : M World (list Story) :=
  list_validated StoryDTO_valid
    (λ _, list_stories (no_story_filter <| sf_project_id := Some project_id |>)).
Definition api_fail_story (story_id : string) : M World Story :=
  get_validated StoryDTO_valid (λ _, post_story_action "fail" story_id).
Definition api_wait_user_secret_story (story_id : string) : M World Story :=
  get_validated StoryDTO_valid (λ _, post_story_action "wait-user-secret" story_id).
Definition api_transition_story (story_id action : string) : M World Story :=
  get_validated StoryDTO_valid (λ _, post_story_action action story_id).
Definition api_update_story (story_id : string) (data : list StoryUpdate) : M World Story :=
  get_validated StoryDTO_valid (λ _, update_story story_id data).

(** ** Projects' secrets, repositories and grants *)

(** [routers/projects.py], [list_secret_keys]: the names, sorted.  The names are not
    encrypted. *)
Definition list_secret_keys (project_id : string) : M Database (list string) :=
  project ← get_project project_id;
  let stored := get "secrets" project.(p_config) in
  if negb (doc_truthy stored) then mret []
  else match stored with DMap m => mret (merge_sort string_leb m.*1) | _ => raise AttributeError end.
Definition api_list_project_secret_keys (project_id : string) : M World (list string) :=
  request (λ _, list_secret_keys project_id).

(** [routers/repositories.py], [list_repositories], with the default limit. *)
Definition list_repositories (project_id : string) : M Database (list Repository) :=
  gets (λ db, limit (Some 50) (select (map_to_list db.(repositories)).*2
    (λ r, where_eq (Some project_id) (Some r.(rp_project_id)))
    (λ a b, b.(rp_created_at) <=? a.(rp_created_at)))).
Definition api_get_repositories (project_id : string) : M World (list Repository) :=
  request (λ _, list_repositories project_id).
Definition api_get_primary_repository (project_id : string) : M World (option Repository) :=
  repos ← api_get_repositories project_id;
  mret (match list_find (λ r, r.(rp_role) = "primary") repos with
        | Some (_, r) => Some r
        | None => head repos
        end).

Definition GrantDTO_valid (g : Grant) : bool :=
  bool_decide (is_Some (member_of (A:=TemporaryAccessStatus.t) g.(g_status))) &&
  match g.(g_revoke_reason) with
  | Some r => bool_decide (is_Some (member_of (A:=TemporaryAccessRevokeReason.t) r))
  | None => true
  end && revoked_grant_carries_its_evidence g && QAMessage_valid g.(g_qa_message).

Definition no_grant_filter : GrantFilters := mkGrantFilters None None [] false None None.

Definition api_create_temporary_access_grant (grant : GrantCreate) : M World Grant :=
  get_validated GrantDTO_valid (λ now, create_grant now service grant).
Definition api_temporary_access_grant_exists_for_run (qa_run_id : string) : M World bool :=
  rows ← request (λ _, list_grants service
    (mkGrantFilters None (Some qa_run_id) [] false None None));
  mret (match rows with [] => false | _ => true end).

(** [list_temporary_access_grants_under_watch]. *)
Definition api_list_temporary_access_grants_under_watch (revoked_after slot_audit_before : Z)
    : M World (list Grant) :=
  list_validated GrantDTO_valid (λ _, list_grants service
    (mkGrantFilters None None [] true (Some revoked_after) (Some slot_audit_before))).
Definition api_update_temporary_access_grant (grant_id : string) (u : GrantUpdate) : M World Grant :=
  get_validated GrantDTO_valid (λ now, update_grant now service grant_id u).
Definition api_escalate_temporary_access_grant (grant_id : string) (e : Escalation) : M World Grant :=
  get_validated GrantDTO_valid (λ now, escalate_grant now service grant_id e).
Definition api_record_temporary_access_observation (grant_id : string) (o : Observation)
    : M World Grant :=
  get_validated GrantDTO_valid (λ now, record_observation now service
    (o.(ob_env_key) +:+ " is set on application " +:+ pretty o.(ob_application_id) +:+
     " after the grant was confirmed revoked") grant_id o).

(** ** The dispatch boundary *)

Definition api_withdraw_deploy_dispatch (run_id reason : string) : M World DeployDispatchWithdrawal :=
  request (λ now, withdraw_run_dispatch now service run_id reason).
Definition api_supersede_deploy_dispatch (run_id reason : string) : M World DeployDispatchSupersede :=
  request (λ now, supersede_run_dispatch now service run_id reason).

(** [record_run_outcome_unless_settled]. *)
Definition api_record_run_outcome_unless_settled (run_id : string) (data : RunUpdate) : M World bool :=
  catch (request (λ now, update_run now service run_id data);; mret true)
        (λ e, if decide (e = CONFLICT) then mret false else raise e).

(** ** Applications *)

(** [routers/applications.py], [get_application]. *)
Definition get_application (application_id : Z) : M Database Application :=
  row ← gets (λ db, db.(applications) !! application_id); some_or NOT_FOUND row.
Definition ApplicationDTO_valid (a : Application) : bool :=
  bool_decide (is_Some (member_of (A:=ApplicationStatus.t) a.(a_status))).
Definition api_get_application_if_missing_returns_none (application_id : Z)
    : M World (option Application) :=
  app ← none_if_missing (request (λ _, get_application application_id));
  match app with
  | Some a => a ← model_validate ApplicationDTO_valid a; mret (Some a)
  | None => mret None
  end.

(** ** Servers *)

Definition on_fleet {A} (f : Fleet → A) : M World A := remote (gets (λ w, f w.(shared).(fleet))).
Definition api_get_servers : M World (list Server) := on_fleet fl_servers.
Definition api_list_active_incidents : M World (list Incident) := on_fleet fl_active_incidents.
Definition api_get_applications (server_handle : string) : M World (list HostedApp) :=
  on_fleet (λ f, f.(fl_applications) server_handle).

(** ** Rules of the calls *)

Section client_rules.
Context (E : env) {HE : Reflexive (moves E)}.

Lemma exec_model_validate {A} (valid : A → bool) a s (Q : res A → Shared → Prop) :
  (valid a = true → Q (Ok a) s) → (valid a = false → Q (Exc ValidationError) s) →
  exec E (model_validate valid a) s Q.
Proof.
  intros H1 H2. apply exec_bind, exec_guard_not; [|intros Hv; by apply H2, negb_true_iff].
  intros Hv. by apply exec_ret, H1, negb_false_iff.
Qed.

(** A call that only reads: the answer is what the endpoint says of the database
    the others left. *)
Lemma exec_read {A} (endpoint : Z → M Database A) s (Q : res A → Shared → Prop) :
  (∀ now, reads_only (endpoint now)) →
  (∀ s', moves E s s' →
     Q (over_http (endpoint s'.(clock) s'.(db)).1) s' ∧
     (may_fail E = true → Q (Exc ConnectionLost) s')) →
  exec E (request endpoint) s Q.
Proof.
  intros Hro HQ. apply exec_request; [done|]. intros s' Hm. destruct (HQ s' Hm) as [Hs Hl].
  split; [|done]. unfold wp. rewrite <-(Hro s'.(clock) s'.(db)), same_db. done.
Qed.

Lemma exec_get_validated {A} (valid : A → bool) (endpoint : Z → M Database A) s (Q : res A → Shared → Prop) :
  (∀ now, reads_only (endpoint now)) →
  (∀ s', moves E s s' →
     (∀ a, (endpoint s'.(clock) s'.(db)).1 = Ok a →
        Q (if valid a then Ok a else Exc ValidationError) s') ∧
     (∀ e, (endpoint s'.(clock) s'.(db)).1 = Exc e → Q (over_http (Exc e)) s') ∧
     (may_fail E = true → Q (Exc ConnectionLost) s')) →
  exec E (get_validated valid endpoint) s Q.
Proof.
  intros Hro HQ. apply exec_bind, exec_read; [done|]. intros s' Hm.
  destruct (HQ s' Hm) as (H1 & H2 & H3). split; [|exact H3].
  destruct (endpoint _ _) as [[a|e] ?]; cbn [fst] in *.
  - specialize (H1 a eq_refl). apply exec_model_validate; intros Hv; by rewrite Hv in H1.
  - specialize (H2 e eq_refl). by destruct e.
Qed.

(** [except HTTPStatusError: if 404 return None; raise]. *)
Lemma exec_none_if_missing {A} (m : M World A) s (Q : res (option A) → Shared → Prop) :
  exec E m s (λ r s', match r with
                      | Ok a => Q (Ok (Some a)) s'
                      | Exc e => if decide (e = NOT_FOUND) then Q (Ok None) s' else Q (Exc e) s'
                      end) →
  exec E (none_if_missing m) s Q.
Proof.
  intros Hm. unfold none_if_missing. apply exec_catch, exec_bind. eapply exec_mono; [exact Hm|].
  intros [a|e] s'; cbn; [intros; by apply exec_ret|].
  destruct (decide (e = NOT_FOUND)); intros; [by apply exec_ret|by apply exec_raise].
Qed.
End client_rules.

(** ** What the reading methods answer when nobody else moves *)

Lemma get_project_reads id : reads_only (get_project id).
Proof. unfold reads_only, get_project. guar_auto. Qed.
Lemma list_projects_reads : reads_only list_projects.
Proof. unfold reads_only, list_projects. guar_auto. Qed.
#[export] Hint Resolve list_projects_reads : reads.
Lemma get_user_reads id : reads_only (get_user id).
Proof. unfold reads_only, get_user. guar_auto. Qed.
Lemma get_story_reads id : reads_only (get_story id).
Proof. unfold reads_only, get_story. guar_auto. Qed.
Lemma get_task_reads id : reads_only (ApiTasks.get_task id).
Proof. unfold reads_only, ApiTasks.get_task. guar_auto. Qed.
Lemma list_tasks_reads f : reads_only (list_tasks f).
Proof. unfold reads_only, list_tasks. guar_auto. Qed.
Lemma list_stories_reads f : reads_only (list_stories f).
Proof. unfold reads_only, list_stories. guar_auto. Qed.
Lemma list_runs_reads c f : reads_only (list_runs c f).
Proof. unfold reads_only, list_runs. guar_auto. all: apply resolve_actor_reads. Qed.
Lemma list_runs_owing_reads c n : reads_only (list_runs_owing_owner_notification c n).
Proof. unfold reads_only, list_runs_owing_owner_notification. guar_auto. all: apply require_internal_or_admin_reads. Qed.
Lemma list_task_events_reads t e : reads_only (list_task_events t e).
Proof. unfold reads_only, list_task_events, ApiTasks.get_task. guar_auto. Qed.
Lemma list_secret_keys_reads id : reads_only (list_secret_keys id).
Proof. unfold reads_only, list_secret_keys, get_project. guar_auto. Qed.
Lemma list_repositories_reads id : reads_only (list_repositories id).
Proof. unfold reads_only, list_repositories. guar_auto. Qed.
Lemma list_grants_reads c f : reads_only (list_grants c f).
Proof. unfold reads_only, list_grants. guar_auto. all: apply require_internal_or_admin_reads. Qed.
Lemma get_application_reads id : reads_only (get_application id).
Proof. unfold reads_only, get_application. guar_auto. Qed.
Lemma get_run_reads c id : reads_only (get_run c id).
Proof. unfold reads_only, get_run, lock_run, check_run_access. guar_auto. all: apply resolve_actor_reads. Qed.
#[export] Hint Resolve get_application_reads list_secret_keys_reads list_repositories_reads list_grants_reads
  get_run_reads : reads.
#[export] Hint Resolve get_project_reads get_user_reads get_story_reads get_task_reads
  list_tasks_reads list_stories_reads list_runs_reads list_runs_owing_reads
  list_task_events_reads : reads.

(** A lookup by key. *)
Definition found {A} (row : option A) : res A :=
  match row with Some a => Ok a | None => Exc NOT_FOUND end.
Lemma get_story_eq id d : get_story id d = (found (d.(stories) !! id), d).
Proof. unfold get_story, mbind, M_bind, gets. by destruct (stories d !! id). Qed.
Lemma get_project_eq id d : get_project id d = (found (d.(projects) !! id), d).
Proof. unfold get_project, mbind, M_bind, gets. by destruct (projects d !! id). Qed.
Lemma get_user_eq id d : get_user id d = (found (d.(users) !! id), d).
Proof. unfold get_user, mbind, M_bind, gets. by destruct (users d !! id). Qed.
Lemma get_task_eq id d : ApiTasks.get_task id d = (found (d.(tasks) !! id), d).
Proof. unfold ApiTasks.get_task, mbind, M_bind, gets. by destruct (tasks d !! id). Qed.

Section alone_rules.
Context (E : env) `{!Alone E}.

(** A read by key, validated: the row, or an exception that says why not. *)
Lemma exec_api_get_story id s (Q : res Story → Shared → Prop) :
  (∀ st, s.(db).(stories) !! id = Some st → StoryDTO_valid st = true → Q (Ok st) s) →
  (∀ e, Q (Exc e) s) →
  exec E (api_get_story id) s Q.
Proof.
  intros H1 H2. apply exec_get_validated; [apply _|auto with reads|].
  intros s' ->%alone. rewrite get_story_eq.
  destruct (stories (db s) !! id) as [st|] eqn:Es; cbn.
  - split_and!; [|done|auto]. intros a [= <-]. destruct (StoryDTO_valid st) eqn:Ev; auto.
  - split_and!; [done| |auto]. intros e [= <-]. apply H2.
Qed.

Lemma exec_api_get_project id s (Q : res (option Project) → Shared → Prop) :
  (∀ p, s.(db).(projects) !! id = Some p → Q (Ok (Some p)) s) →
  (s.(db).(projects) !! id = None → Q (Ok None) s) →
  (∀ e, Q (Exc e) s) →
  exec E (api_get_project id) s Q.
Proof.
  intros H1 H2 H3. apply exec_none_if_missing, exec_get_validated; [apply _|auto with reads|].
  intros s' ->%alone. rewrite get_project_eq.
  destruct (projects (db s) !! id) as [p|] eqn:Es; cbn; split_and!; try done.
  - intros a [= <-]. destruct (ProjectDTO_valid p); [auto|]. case_decide; [done|auto].
  - intros _. case_decide; [done|auto].
  - intros e [= <-]. case_decide; [auto|done].
  - intros _. case_decide; [done|auto].
Qed.

Lemma exec_api_get_user id s (Q : res (option User) → Shared → Prop) :
  (∀ u, s.(db).(users) !! id = Some u → Q (Ok (Some u)) s) →
  (s.(db).(users) !! id = None → Q (Ok None) s) →
  (∀ e, Q (Exc e) s) →
  exec E (api_get_user id) s Q.
Proof.
  intros H1 H2 H3. apply exec_none_if_missing, exec_read; [apply _|auto with reads|].
  intros s' ->%alone. rewrite get_user_eq.
  destruct (users (db s) !! id) as [u|] eqn:Es; cbn; split; auto.
  - intros _. case_decide; [done|auto].
  - case_decide; [auto|done].
  - intros _. case_decide; [done|auto].
Qed.
End alone_rules.
