(* ===== verification/Recipients.v ===== *)
(** * Recipients: which chat a notification reaches

    [services/scheduler/src/tasks/_recipients.py]: from a project to the chat of
    its owner, with an alert to the administrators where there is none. *)

From S2P Require Import Prelude Vocabulary Contracts Db Api World SchedulerClient.

(** [Recipient]. *)
Record Recipient := mkRecipient {
  rcp_telegram_chat_id : string;
  rcp_owner_user_id : string;
  rcp_unaddressed_reason : string;
}.

(** [Recipient.is_addressable]. *)
Definition is_addressable (r : Recipient) : bool := bool_decide (r.(rcp_telegram_chat_id) ≠ "").

(** [_unresolved_reason]. *)
Definition unresolved_reason (reason : string) : string := "recipient unresolved: " +:+ reason.

(** [x or '-']. *)
Definition or_dash (s : string) : string := if decide (s = "") then "-" else s.

(** [_alert_unresolved]. *)
Definition alert_unresolved (reason event project_id story_id owner_user_id : string) : M World unit :=
  notify_admins_best_effort (
    "Notification recipient unresolved (" +:+ reason +:+ "): event=" +:+ or_dash event +:+
    " story=" +:+ or_dash story_id +:+ " project=" +:+ or_dash project_id +:+
    " owner_user_id=" +:+ or_dash owner_user_id).

Definition resolve_owner_recipient (owner_id : Z) (event project_id story_id : string)
    : M World Recipient :=
  if decide (owner_id = 0) then
    alert_unresolved "project has no owner" event project_id story_id "";;
    mret (mkRecipient "" "" (unresolved_reason "project has no owner"))
  else
    user ← api_get_user owner_id;
    let refuse reason :=
      alert_unresolved reason event project_id story_id (pretty owner_id);;
      mret (mkRecipient "" (pretty owner_id) (unresolved_reason reason)) in
    match user with
    | None => refuse "owner user not found"
    | Some u =>
        if decide (u.(u_telegram_id) = 0) then refuse "owner has no telegram id"
        else mret (mkRecipient (pretty u.(u_telegram_id)) (pretty owner_id) "")
    end.

Definition resolve_project_recipient (project_id event story_id : string) : M World Recipient :=
  project ← api_get_project project_id;
  match project with
  | None =>
      alert_unresolved "project not found" event project_id story_id "";;
      mret (mkRecipient "" "" (unresolved_reason "project not found"))
  | Some p => resolve_owner_recipient p.(p_owner_id) event project_id story_id
  end.

(** ** What a lookup answers *)

(** The chat a project's events go to, as the database has it. *)
Definition project_chat (d : Database) (project_id : string) : option string :=
  p ← d.(projects) !! project_id;
  u ← d.(users) !! p.(p_owner_id);
  if decide (p.(p_owner_id) = 0 ∨ u.(u_telegram_id) = 0) then None
  else Some (pretty u.(u_telegram_id)).

(** A lookup changes nothing another process sees, and a recipient it finds is
    the owner's chat. *)
Lemma exec_resolve_project_recipient E `{!Alone E} project_id event story_id s
    (Q : res Recipient → Shared → Prop) :
  (∀ r, (is_addressable r = true →
         project_chat s.(db) project_id = Some r.(rcp_telegram_chat_id)) → Q (Ok r) s) →
  (∀ e, Q (Exc e) s) →
  exec E (resolve_project_recipient project_id event story_id) s Q.
Proof.
  intros H1 H2. apply exec_bind, (exec_api_get_project E).
  - intros p Hp. cbn. unfold resolve_owner_recipient. case_decide as H0.
    { unfold alert_unresolved. exec_auto. by apply H1. }
    apply exec_bind, (exec_api_get_user E).
    + intros u Hu. cbn. case_decide as Ht.
      { unfold alert_unresolved. exec_auto. by apply H1. }
      apply exec_ret, H1. intros _. unfold project_chat. rewrite Hp. cbn. rewrite Hu. cbn.
      case_decide; naive_solver.
    + intros _. cbn. unfold alert_unresolved. exec_auto. by apply H1.
    + done.
  - intros _. cbn. unfold alert_unresolved. exec_auto. by apply H1.
  - done.
Qed.
