(* ===== verification/ApiActions.v ===== *)
(** * ApiActions: endpoints that also publish

    The admin actions of [services/api/src/routers/applications.py] (stop and
    undeploy), [stories.py] (send-to-architect) and [_task_actions.py]
    (spawn-worker).  Each commits its rows first and then publishes the message
    that names them; the XADD is a call of the API's own, which may fail after the
    commit. *)

From S2P Require Import Prelude Vocabulary Contracts Db Api ApiTasks ApiStories ApiRuns.
From S2P Require Import Placement World SchedulerClient.

(** ** A handler with calls of its own *)

(** A request whose handler goes on to call others: what it raises is a status. *)
Definition serving {A} (handler : M World A) : M World A :=
  remote (λ w, let '(r, w') := handler w in (over_http r, w')).

(** A call the API makes while it serves one: that the API process dies is, for
    its client, a lost answer. *)
Definition within_handler {A} (serve : M World A) : M World A := λ w,
  let '(f, w) := next_turn w in
  match f with
  | NoFault => serve w
  | LostReply => (Exc ConnectionLost, (serve w).2)
  | Lost | Killed => (Exc ConnectionLost, w)
  end.

Definition handler_publish (stream : string) (m : message) : M World unit :=
  within_handler (on_redis (λ r, (tt, r <| streams ::= λ l, l ++ [(stream, m)] |>))).

(** ** Recipients ([routers/_recipients.py]) *)

Definition resolve_project_chat_id (project_id event story_id : string) : M World string :=
  chat ← on_db (λ _, gets (λ db, p ← db.(projects) !! project_id; u ← db.(users) !! p.(p_owner_id);
                                 Some u.(u_telegram_id)));
  match chat with
  | Some telegram_id =>
      if decide (telegram_id = 0) then
        notify_admins_best_effort (
          "Notification recipient unresolved (project owner has no telegram id): event=" +:+
          event +:+ " story=" +:+ (if decide (story_id = "") then "-" else story_id) +:+
          " project=" +:+ project_id);;
        mret ""
      else mret (pretty telegram_id)
  | None =>
      notify_admins_best_effort (
        "Notification recipient unresolved (project owner has no telegram id): event=" +:+
        event +:+ " story=" +:+ (if decide (story_id = "") then "-" else story_id) +:+
        " project=" +:+ project_id);;
      mret ""
  end.

(** ** Applications ([routers/applications.py]) *)

Definition put_application (a : Application) : Database → Database :=
  λ db, db <| applications ::= <[a.(a_id) := a]> |>.

(** [_get_app_with_repo]. *)
Definition get_app_with_repo (application_id : Z) : M Database (Application * Repository) :=
  row ← gets (λ db, db.(applications) !! application_id);
  app ← some_or NOT_FOUND row;
  row ← gets (λ db, db.(repositories) !! app.(a_repo_id));
  repo ← some_or UNPROCESSABLE row;
  mret (app, repo).

(** [_make_deploy_run_id], from the draw. *)
Definition make_deploy_run_id (hex : string) : string := "deploy-" +:+ String.substring 0 12 hex.

Definition ADMIN_ACTION_UNADDRESSED_REASON : string :=
  "admin-initiated application action, reported to the operator that requested it".

Definition UNDEPLOYABLE_STATUSES : list ApplicationStatus.t :=
  [ApplicationStatus.RUNNING; ApplicationStatus.STOPPED; ApplicationStatus.DOWN;
   ApplicationStatus.DEGRADED].

(** [db.add(Run(...)); await db.commit()]. *)
Definition add_run (run : Run) : M Database unit :=
  ok ← gets (λ db, bool_decide (db.(runs) !! run.(r_id) = None) && run_references_exist db run);
  guard_not (negb ok) IntegrityError;;
  modify (put_run run).

(** A queued run with its metadata. *)
Definition queued_run (now : Z) (run_id run_type project_id : string)
    (story_id task_id : option string) (m : metadata) : Run :=
  mkRun run_id run_type (value RunStatus.QUEUED) (Some project_id) None m None None None story_id
    task_id now.

(** The lifecycle message of an application. *)
Definition lifecycle_message (run_id project_id chat reason : string) (by_ : DeployTrigger.t)
    (action : DeployAction.t) (application_id : Z) : DeployMessage :=
  mkDeployMessage run_id project_id chat reason "" by_ action 0 "" (Some application_id) [] false.

(** What the handler commits: [None] where there is nothing to ask for. *)
Definition stop_application_rows (now : Z) (hex : string) (application_id : Z)
    : M Database (option DeployMessage) :=
  transaction (
    '(app, repo) ← get_app_with_repo application_id;
    if bool_decide (app.(a_status) = value ApplicationStatus.STOPPING) ||
       bool_decide (app.(a_status) = value ApplicationStatus.STOPPED) then mret None
    else
      guard_not (negb (bool_decide (app.(a_status) = value ApplicationStatus.RUNNING))) UNPROCESSABLE;;
      let run_id := make_deploy_run_id hex in
      modify (put_application (app <| a_status := value ApplicationStatus.STOPPING |>));;
      add_run (queued_run now run_id "deploy" repo.(rp_project_id) None None
                 {[ "application_id" := MInt app.(a_id) ]});;
      mret (Some (lifecycle_message run_id repo.(rp_project_id) "" ADMIN_ACTION_UNADDRESSED_REASON
                    DeployTrigger.ADMIN DeployAction.STOP app.(a_id)))).

Definition stop_application (application_id : Z) : M World unit :=
  hex ← uuid4_hex;
  msg ← on_db (λ now, stop_application_rows now hex application_id);
  match msg with
  | Some m => m ← of_res (DeployMessage_validated m); handler_publish DEPLOY_QUEUE (DeployMsg m)
  | None => mret tt
  end.

(** [stage_undeploy]: inside the caller's transaction. *)
Definition stage_undeploy (now : Z) (hex : string) (app : Application) (project_id : string)
    (by_ : DeployTrigger.t) (chat reason : string) : M Database DeployMessage :=
  let run_id := make_deploy_run_id hex in
  modify (put_application (app <| a_status := value ApplicationStatus.UNDEPLOYING |>));;
  add_run (queued_run now run_id "deploy" project_id None None
             {[ "application_id" := MInt app.(a_id) ]});;
  of_res (DeployMessage_validated
    (lifecycle_message run_id project_id chat reason by_ DeployAction.UNDEPLOY app.(a_id))).

Definition undeploy_application_rows (now : Z) (hex : string) (application_id : Z)
    : M Database DeployMessage :=
  transaction (
    '(app, repo) ← get_app_with_repo application_id;
    status ← some_or ValueError (member_of (A:=ApplicationStatus.t) app.(a_status));
    guard_not (negb (bool_decide (status ∈ UNDEPLOYABLE_STATUSES))) UNPROCESSABLE;;
    stage_undeploy now hex app repo.(rp_project_id) DeployTrigger.ADMIN ""
      ADMIN_ACTION_UNADDRESSED_REASON).

Definition undeploy_application (application_id : Z) : M World unit :=
  hex ← uuid4_hex;
  m ← on_db (λ now, undeploy_application_rows now hex application_id);
  handler_publish DEPLOY_QUEUE (DeployMsg m).

(** ** Stories ([routers/stories.py]) *)

(** The story as it was, and as it was committed. *)
Definition send_to_architect_rows (story_id : string) : M Database (Story * Story) :=
  transaction (
    story ← get_story story_id;
    guard_not (negb (bool_decide (story.(s_status) = value StoryStatus.CREATED) ||
                     bool_decide (story.(s_status) = value StoryStatus.REOPENED))) UNPROCESSABLE;;
    story' ← do_transition story StoryStatus.IN_PROGRESS;
    modify (put_story story');;
    mret (story, story')).

Definition send_to_architect (story_id : string) : M World unit :=
  '(before, story) ← on_db (λ _, send_to_architect_rows story_id);
  let is_reopen := bool_decide (before.(s_status) = value StoryStatus.REOPENED) in
  chat ← resolve_project_chat_id story.(s_project_id) "story_sent_to_architect" story.(s_id);
  handler_publish ARCHITECT_QUEUE (ArchitectMsg (mkArchitectMessage story.(s_id)
    story.(s_project_id) chat is_reopen (if is_reopen then story.(s_user_report) else None))).

(** ** Tasks ([routers/_task_actions.py]) *)

(** The row that was moved and the run that was created for it. *)
Definition spawn_worker_rows (now : Z) (hex task_id actor : string)
    : M Database (Task * string * string) :=
  transaction (
    task ← get_task task_id;
    row ← gets (λ db, db.(projects) !! task.(t_project_id));
    project ← some_or NOT_FOUND row;
    initiating_run_id ← initiating_run_or_conflict project;
    status ← some_or ValueError (member_of (A:=TaskStatus.t) task.(t_status));
    task ← (if decide (status = TaskStatus.BACKLOG ∨ status = TaskStatus.TODO) then
              task ← (if decide (status = TaskStatus.BACKLOG)
                      then set_status now task (value TaskStatus.TODO) actor ∅ else mret task);
              validate_transition task.(t_status) (value TaskStatus.IN_DEV);;
              set_status now task (value TaskStatus.IN_DEV) actor ∅
            else
              guard_not (negb (bool_decide (status = TaskStatus.IN_DEV))) UNPROCESSABLE;;
              mret task);
    let run_id := "eng-" +:+ String.substring 0 12 hex in
    add_run (queued_run now run_id "engineering" task.(t_project_id) task.(t_story_id)
               (Some task.(t_id))
               (<["triggered_by" := MStr "admin"]> {[ "task_id" := MStr task.(t_id) ]}));;
    mret (task, run_id, initiating_run_id)).

(** [action=task.type or "feature"], which the message then validates. *)
Definition spawned_action (task_type : string) : res ActionType.t :=
  match member_of (if decide (task_type = "") then "feature" else task_type) with
  | Some a => Ok a
  | None => Exc ValidationError
  end.

Definition spawn_worker (task_id actor : string) (description : option string) : M World unit :=
  hex ← uuid4_hex;
  '(task, run_id, initiating_run_id) ← on_db (λ now, spawn_worker_rows now hex task_id actor);
  chat ← resolve_project_chat_id task.(t_project_id) "worker_spawned" (default "" task.(t_story_id));
  action ← of_res (spawned_action task.(t_type));
  handler_publish ENGINEERING_QUEUE (EngineeringMsg (mkEngineeringMessage run_id
    task.(t_project_id) initiating_run_id chat action
    (if truthy description then description else task.(t_description)) false (Some task.(t_id))
    (if truthy task.(t_story_id) then task.(t_story_id) else None) 0 None)).

(** ** The scheduler's call *)

Definition api_stop_application (application_id : Z) : M World unit :=
  serving (stop_application application_id).

(** ** Rules *)

Section action_rules.
Context (E : env) {HE : Reflexive (moves E)}.

Lemma exec_serving {A} (handler : M World A) s (Q : res A → Shared → Prop) :
  (∀ s', moves E s s' →
     exec E handler s' (λ r s'', Q (over_http r) s'' ∧ (may_fail E = true → Q (Exc ConnectionLost) s'')) ∧
     (may_fail E = true → Q (Exc ConnectionLost) s')) →
  exec E (serving handler) s Q.
Proof.
  intros HQ. apply exec_remote; [done|]. intros s' Hm. destruct (HQ s' Hm) as [Hh Hl]. split; [|done].
  intros w <- Ho. specialize (Hh w eq_refl Ho). unfold wp in *. by destruct (handler w).
Qed.

Lemma exec_on_db {A} (endpoint : Z → M Database A) s (Q : res A → Shared → Prop) :
  wp (endpoint s.(clock)) (λ r d, Q r (s <| db := d |>)) s.(db) → exec E (on_db endpoint) s Q.
Proof. intros HQ w <- Ho. revert HQ. unfold wp, on_db. by destruct (endpoint _ _). Qed.

Lemma exec_within_handler {A} (serve : M World A) s (Q : res A → Shared → Prop) :
  (∀ s', moves E s s' →
     exec E serve s' (λ r s'', Q r s'' ∧ (may_fail E = true → Q (Exc ConnectionLost) s'')) ∧
     (may_fail E = true → Q (Exc ConnectionLost) s')) →
  exec E (within_handler serve) s Q.
Proof.
  intros HQ w <- Ho. unfold wp, within_handler, next_turn. destruct (schedule w) as [|t rest] eqn:Es.
  - destruct (HQ (shared w)) as [Hs _]; [reflexivity|].
    destruct (Hs w eq_refl Ho) as (? & ? & _). by split.
  - destruct Ho as [Ht Hd]. rewrite Es in Ht. apply Forall_cons in Ht as [[Hm Hf] Hrest].
    set (w' := (w <| schedule := rest |>) <| shared ::= others t |>).
    destruct (HQ (shared w') (Hm _)) as [Hs Hl].
    assert (in_env E w') as Ho' by (split; [exact Hrest|exact Hd]).
    destruct (Hs w' eq_refl Ho') as (Ho'' & HQ1 & HQ2).
    destruct (fate t) eqn:Ef; cbn [fst snd]; [by split| | |];
      (destruct (may_fail E) eqn:Hfail; [|by specialize (Hf eq_refl)]);
      (split; [done|by auto]).
Qed.

Lemma exec_handler_publish stream m s (Q : res unit → Shared → Prop) :
  (∀ s', moves E s s' →
     let s'' := s' <| redis ::= λ r, r <| streams ::= λ l, l ++ [(stream, m)] |> |> in
     Q (Ok tt) s'' ∧ (may_fail E = true → Q (Exc ConnectionLost) s'' ∧ Q (Exc ConnectionLost) s')) →
  exec E (handler_publish stream m) s Q.
Proof.
  intros HQ. apply exec_within_handler. intros s' Hm. destruct (HQ s' Hm) as [Hs Hl].
  split; [|intros Hf; by apply Hl].
  intros w <- Ho. split; [done|]. split; [done|]. intros Hf. by apply Hl.
Qed.

Lemma exec_resolve_chat_id p e st s (Q : res string → Shared → Prop) :
  (∀ chat, Q (Ok chat) s) → exec E (resolve_project_chat_id p e st) s Q.
Proof.
  intros HQ. apply exec_bind, exec_on_db, wp_gets. rewrite same_db.
  destruct (mbind _ _) as [t|]; [case_decide|]; exec_auto; auto.
Qed.
End action_rules.

(** ** What an action commits *)

Inductive admin_action :=
| Stop (application_id : Z)
| Undeploy (application_id : Z)
| SendToArchitect (story_id : string)
| SpawnWorker (task_id actor : string) (description : option string).

Definition serve_action (a : admin_action) : M World unit :=
  serving match a with
          | Stop id => stop_application id
          | Undeploy id => undeploy_application id
          | SendToArchitect id => send_to_architect id
          | SpawnWorker id actor description => spawn_worker id actor description
          end.

(** The rows behind a message: the queued run it names, and the row the action
    moved. *)
Definition queued_as (d : Database) (run_id run_type project_id : string) : Prop :=
  ∃ run, d.(runs) !! run_id = Some run ∧ run.(r_status) = value RunStatus.QUEUED ∧
    run.(r_type) = run_type ∧ run.(r_project_id) = Some project_id ∧ run.(r_result) = None.

Definition backed (d : Database) (x : string * message) : Prop :=
  match x.2 with
  | DeployMsg m => x.1 = DEPLOY_QUEUE ∧ queued_as d m.(dm_task_id) "deploy" m.(dm_project_id) ∧
      ∃ id app, m.(dm_application_id) = Some id ∧ d.(applications) !! id = Some app ∧
        (m.(dm_action) = DeployAction.STOP ∧ app.(a_status) = value ApplicationStatus.STOPPING ∨
         m.(dm_action) = DeployAction.UNDEPLOY ∧ app.(a_status) = value ApplicationStatus.UNDEPLOYING)
  | ArchitectMsg m => x.1 = ARCHITECT_QUEUE ∧ ∃ st, d.(stories) !! m.(am_story_id) = Some st ∧
      st.(s_status) = value StoryStatus.IN_PROGRESS ∧ st.(s_project_id) = m.(am_project_id)
  | EngineeringMsg m => x.1 = ENGINEERING_QUEUE ∧
      queued_as d m.(em_task_id) "engineering" m.(em_project_id) ∧
      ∃ id t, m.(em_planning_task_id) = Some id ∧ d.(tasks) !! id = Some t ∧
        t.(t_status) = value TaskStatus.IN_DEV
  | _ => False
  end.

Lemma validated_fields m m' : DeployMessage_validated m = Ok m' →
  m'.(dm_task_id) = m.(dm_task_id) ∧ m'.(dm_project_id) = m.(dm_project_id) ∧
  m'.(dm_application_id) = m.(dm_application_id) ∧ m'.(dm_action) = m.(dm_action).
Proof.
  unfold DeployMessage_validated. destruct (OptionalCommitSha _); [|done].
  destruct (_ && _); [|done]. by intros [= <-].
Qed.

Lemma wp_get_app_with_repo id d (Q : res (Application * Repository) → Database → Prop) :
  (∀ e, Q (Exc e) d) → (∀ app repo, d.(applications) !! id = Some app → Q (Ok (app, repo)) d) →
  wp (get_app_with_repo id) Q d.
Proof. intros H1 H2. unfold get_app_with_repo. wp_auto; auto. Qed.

Lemma wp_add_run run d (Q : res unit → Database → Prop) :
  Q (Exc IntegrityError) d → Q (Ok tt) (put_run run d) → wp (add_run run) Q d.
Proof. intros H1 H2. unfold add_run. wp_auto; auto. Qed.

(** Raised or not, an action that commits nothing leaves the rows alone. *)
Lemma stop_rows_backed now hex id d : wp (stop_application_rows now hex id) (λ r d',
  match r with
  | Ok (Some m) => ∀ m', DeployMessage_validated m = Ok m' → backed d' (DEPLOY_QUEUE, DeployMsg m')
  | _ => d' = d
  end) d.
Proof.
  unfold stop_application_rows. apply wp_transaction, wp_bind, wp_get_app_with_repo; [done|].
  intros app repo Happ. wp_auto; [done| |done].
  apply wp_add_run; [done|]. cbn beta iota. wp_auto. cbn.
  intros m' (-> & -> & -> & ->)%validated_fields. cbn. split_and!; [done| |].
  - eexists. split; [apply lookup_insert_eq|]. done.
  - eexists _, _. split; [done|]. split; [apply lookup_insert_eq|]. by left.
Qed.

Lemma undeploy_rows_backed now hex id d : wp (undeploy_application_rows now hex id) (λ r d',
  match r with Ok m => backed d' (DEPLOY_QUEUE, DeployMsg m) | Exc _ => d' = d end) d.
Proof.
  unfold undeploy_application_rows. apply wp_transaction, wp_bind, wp_get_app_with_repo; [done|].
  intros app repo Happ. wp_auto; try done. unfold stage_undeploy. wp_auto.
  apply wp_add_run; [done|]. cbn beta iota. wp_auto; [|done].
  match goal with H : DeployMessage_validated _ = Ok _ |- _ => apply validated_fields in H end.
  destruct_and!. cbn in *. repeat match goal with H : _ = _ |- _ => rewrite H; clear H end.
  split_and!; [done| |].
  - eexists. split; [apply lookup_insert_eq|]. done.
  - eexists _, _. split; [done|]. split; [apply lookup_insert_eq|]. by right.
Qed.

Lemma architect_rows_backed id d : well_keyed d → wp (send_to_architect_rows id) (λ r d',
  match r with
  | Ok (before, st) => ∀ chat report, backed d' (ARCHITECT_QUEUE, ArchitectMsg
      (mkArchitectMessage st.(s_id) st.(s_project_id) chat
         (bool_decide (before.(s_status) = value StoryStatus.REOPENED)) report))
  | Exc _ => d' = d
  end) d.
Proof.
  intros (_ & Hk & _). unfold send_to_architect_rows, get_story, do_transition, story_validate_transition.
  wp_auto; try done. intros chat report. split; [done|]. eexists. split; [apply lookup_insert_eq|]. done.
Qed.

Lemma spawn_rows_backed now hex id actor d : well_keyed d → wp (spawn_worker_rows now hex id actor) (λ r d',
  match r with
  | Ok (task, run_id, initiating) => ∀ chat action description story_id,
      backed d' (ENGINEERING_QUEUE, EngineeringMsg (mkEngineeringMessage run_id task.(t_project_id)
        initiating chat action description false (Some task.(t_id)) story_id 0 None))
  | Exc _ => d' = d
  end) d.
Proof.
  intros (Hk & _). unfold spawn_worker_rows, get_task, initiating_run_or_conflict, set_status,
    create_status_event, validate_transition.
  wp_auto; try done; apply wp_add_run; try done; cbn beta iota; wp_auto.
  all: intros; split_and!; [done|eexists; split; [apply lookup_insert_eq|]; done|].
  all: eexists _, _; split; [done|].
  - split; [apply lookup_insert_eq|done].
  - split; [apply lookup_insert_eq|done].
  - cbn. rewrite (Hk _ _ H). split; [done|]. apply negb_false_iff, bool_decide_eq_true in H2 as ->.
    by apply member_of_Some in H1.
Qed.

(** What one action may do to the shared state: nothing goes out, or one message
    whose rows are committed. *)
Definition acted (s s' : Shared) : Prop :=
  s'.(redis).(streams) = s.(redis).(streams) ∨
  ∃ x, s'.(redis).(streams) = s.(redis).(streams) ++ [x] ∧ backed s'.(db) x.

Section acting.
Context (E : env) `{!Alone E}.

Lemma exec_publish_backed q m s0 s :
  s.(redis).(streams) = s0.(redis).(streams) → backed s.(db) (q, m) →
  exec E (handler_publish q m) s (λ _ s', acted s0 s').
Proof.
  intros Hs Hb. apply exec_handler_publish; [apply _|]. intros s' ->%alone. cbn.
  assert (acted s0 s) by by left. unfold acted in *. cbn. rewrite Hs. naive_solver.
Qed.

Lemma exec_serving_acts {A} (handler : M World A) s :
  exec E handler s (λ _ s', acted s s') → exec E (serving handler) s (λ _ s', acted s s').
Proof.
  intros Hh. apply exec_serving; [apply _|]. intros s' ->%alone. split; [|by left].
  eapply exec_mono; [exact Hh|]. auto.
Qed.

Lemma exec_rows {A} (endpoint : Z → M Database A) (f : A → M World unit) P s :
  wp (endpoint s.(clock)) (λ r d, match r with Ok a => P a d | Exc _ => d = s.(db) end) s.(db) →
  (∀ a d, P a d → exec E (f a) (s <| db := d |>) (λ _ s', acted s s')) →
  exec E (on_db endpoint ≫= f) s (λ _ s', acted s s').
Proof.
  intros Hrows Hf. apply exec_bind, exec_on_db. eapply wp_mono; [exact Hrows|].
  intros [a|e] d Hd; cbn; [by apply Hf|]. by left.
Qed.
End acting.

(** C38 (safety).  An admin action publishes only what it committed.  Whatever
    calls fail, wherever a process dies and whatever the state of the
    application, story or task: a stop, an undeploy, a send-to-architect or a
    spawn-worker puts at most one message on a stream, and then the queued run the
    message names, of the right type and project, and the row it acts on in its
    new status are in the database. *)
Theorem admin_actions_publish_committed_work a w :
  in_env faulty w → well_keyed w.(shared).(db) →
  acted w.(shared) (serve_action a w).2.(shared).
Proof.
  intros Hw Hk.
  assert (exec faulty (serve_action a) w.(shared) (λ _ s', acted w.(shared) s')) as Hex.
  { apply exec_serving_acts; [apply _|].
    destruct a as [id|id|id|id actor description].
    - apply exec_bind, exec_uuid. intros hex. eapply exec_rows; [apply stop_rows_backed|].
      intros [m|] d Hb; [|subst; exec_auto; by left]. exec_auto.
      destruct (DeployMessage_validated m) as [m'|]; [|by left].
      apply exec_publish_backed; [done..|]. by apply Hb.
    - apply exec_bind, exec_uuid. intros hex. eapply exec_rows; [apply undeploy_rows_backed|].
      intros m d Hb. by apply exec_publish_backed.
    - eapply exec_rows; [by apply architect_rows_backed|]. intros [before st] d Hb.
      apply exec_bind, exec_resolve_chat_id. intros chat. by apply exec_publish_backed.
    - apply exec_bind, exec_uuid. intros hex. eapply exec_rows; [by apply spawn_rows_backed|].
      intros [[task run_id] initiating] d Hb. apply exec_bind, exec_resolve_chat_id. intros chat.
      exec_auto. destruct (spawned_action _); [|by left]. by apply exec_publish_backed. }
  by destruct (Hex w eq_refl Hw).
Qed.

(** ** A lost message *)

(** A stop whose message was lost is never sent.  The handler
    commits STOPPING before it publishes; from then on it answers every stop with
    success and does nothing, whatever became of the message: no later call
    publishes it, moves the application or touches the run that waits for it. *)
Theorem lost_stop_is_never_resent id app w :
  in_env faulty w → w.(shared).(db).(applications) !! id = Some app →
  app.(a_status) = value ApplicationStatus.STOPPING →
  (api_stop_application id w).2.(shared) = w.(shared).
Proof.
  intros Hw Happ Hst.
  assert (exec faulty (api_stop_application id) w.(shared) (λ _ s', s' = w.(shared))) as Hex.
  { apply exec_serving; [apply _|]. intros s' ->%alone. split; [|done].
    apply exec_bind, exec_uuid. intros hex. apply exec_bind, exec_on_db.
    unfold stop_application_rows. apply wp_transaction, wp_bind. unfold get_app_with_repo. wp_auto.
    all: rewrite ?same_db; auto.
    all: match goal with H : applications _ !! _ = Some _ |- _ => rewrite Happ in H; injection H as <- end.
    - by apply exec_ret.
    - by rewrite Hst in *. }
  by destruct (Hex w eq_refl Hw).
Qed.

(** ** Concrete worlds *)

Definition bot_db (status : ApplicationStatus.t) (task_type : TaskType.t) : Database :=
  let repo := mkRepository "repo1" "p1" "bot" "git@github.com:o/bot.git" "primary" (Some "it echoes")
                (Some "echo_bot") 0 in
  let task := mkTask "t1" "p1" (value task_type) "Echo" None None (value TaskStatus.BACKLOG) 0 None 0 3
                false "po" None None None None None 0 0 in
  empty_database <| projects := {[ "p1" := mkProject "p1" "Bot" "bot" "active" (Some "run-1") [] 7 ]} |>
    <| users := {[ 7 := mkUser 7 42 false ]} |> <| repositories := {[ "repo1" := repo ]} |>
    <| applications := {[ 3 := mkApplication 3 "repo1" "srv" "bot" 512 (value status) ]} |>
    <| tasks := {[ "t1" := task ]} |>.
Definition bot_world (status : ApplicationStatus.t) (task_type : TaskType.t) (faults : list fault) : World :=
  mkWorld (mkShared (bot_db status task_type) empty_redis (mkFleet [] [] (λ _, []) ∅) 0 [])
    (undisturbed <$> faults) false (λ n, "hex" +:+ pretty n) 0 [] silent ∅ [].
Definition application_status (w : World) (id : Z) : option string :=
  a_status <$> w.(shared).(db).(applications) !! id.

(** A stop in an undisturbed world is asked for once, also when it is repeated. *)
Example a_running_bot_is_stopped :
  let '(r, w) := api_stop_application 3 (bot_world ApplicationStatus.RUNNING TaskType.FIX []) in
  let '(r', w') := api_stop_application 3 w in
  r = Ok tt ∧ r' = Ok tt ∧ application_status w 3 = Some "stopping" ∧
  length w'.(shared).(redis).(streams) = 1%nat.
Proof. by vm_compute. Qed.
Example an_undeployed_bot_is_not_stopped :
  (api_stop_application 3 (bot_world ApplicationStatus.NOT_DEPLOYED TaskType.FIX [])).1 = Exc UNPROCESSABLE.
Proof. by vm_compute. Qed.

(** The stop whose message was lost: committed, unpublished, and repeated in vain. *)
Definition lost_stop : World :=
  restarted [] (api_stop_application 3
    (bot_world ApplicationStatus.RUNNING TaskType.FIX [NoFault; Lost])).2.
Lemma lost_stop_is_never_resent_witness :
  application_status lost_stop 3 = Some "stopping" ∧ lost_stop.(shared).(redis).(streams) = [] ∧
  (api_stop_application 3 lost_stop).1 = Ok tt ∧
  (api_stop_application 3 lost_stop).2.(shared) = lost_stop.(shared).
Proof.
  split_and!; [by vm_compute..|].
  apply (lost_stop_is_never_resent 3 (mkApplication 3 "repo1" "srv" "bot" 512 "stopping") lost_stop).
  - split; [by vm_compute|done].
  - by vm_compute.
  - done.
Defined.

Lemma admin_actions_publish_committed_work_witness :
  acted (bot_world ApplicationStatus.RUNNING TaskType.FIX [NoFault; LostReply]).(shared)
    (serve_action (SpawnWorker "t1" "admin" None)
       (bot_world ApplicationStatus.RUNNING TaskType.FIX [NoFault; LostReply])).2.(shared).
Proof.
  apply (admin_actions_publish_committed_work (SpawnWorker "t1" "admin" None)).
  - split; [|done]. vm_compute. repeat constructor; done.
  - apply well_keyed_true. by vm_compute.
Defined.

(** A refactoring task cannot be spawned: the message refuses its type after the
    task was moved and its run created, so the answer is a 500 and the run stays
    queued with no message. *)
Example a_refactoring_task_is_stranded :
  let '(r, w) := serve_action (SpawnWorker "t1" "admin" None)
                   (bot_world ApplicationStatus.RUNNING TaskType.REFACTOR []) in
  r = Exc (HTTPException 500) ∧ t_status <$> w.(shared).(db).(tasks) !! "t1" = Some "in_dev" ∧
  r_status <$> w.(shared).(db).(runs) !! "eng-hex0" = Some "queued" ∧
  w.(shared).(redis).(streams) = [].
Proof. by vm_compute. Qed.
