(* ===== verification/ProjectConfig.v ===== *)
(** * ProjectConfig: what may be written into a project

    The rules of [services/api/src/routers/projects.py] over the [config] of a project:
    what a write of the whole configuration may change, the secrets with their hints, the
    audience of the bot, the bot token; and its slug ([shared/project_slug.py]). *)

From S2P Require Import Prelude Vocabulary Contracts Docs Db Api BotAccess Crypto EnvContract Github GithubActions.
From Stdlib Require Import Ascii SpecFloat.

Definition BOT_ALLOWED_IDS_KEY : string := "TG_BOT_ALLOWED_TELEGRAM_IDS".
Definition LEGACY_BOT_AUDIENCE_KEY : string := "ADMIN_TELEGRAM_ID".
Definition TELEGRAM_TOKEN_KEY : string := "TELEGRAM_BOT_TOKEN".
Definition TELEGRAM_USERNAME_KEY : string := "TELEGRAM_BOT_USERNAME".

(** ** [a == b] of two documents *)

Definition number_of (v : doc) : option number :=
  match v with
  | DBool b => Some (number_of_Z (if b then 1 else 0))
  | DInt z => Some (number_of_Z z)
  | DFloat f => Some (number_of_float f)
  | _ => None
  end.
Fixpoint doc_eqb (a b : doc) {struct a} : bool :=
  match a, b with
  | DNull, DNull => true
  | DStr s, DStr t => bool_decide (s = t)
  | DList l, DList l' =>
      (fix all2 (l l' : list doc) : bool :=
         match l, l' with
         | [], [] => true
         | x :: l, y :: l' => doc_eqb x y && all2 l l'
         | _, _ => false
         end) l l'
  | DMap m, DMap m' =>
      bool_decide (length m = length m') &&
      (fix all (m : list (string * doc)) : bool :=
         match m with
         | [] => true
         | (k, v) :: m => match lookup_key k m' with Some w => doc_eqb v w | None => false end && all m
         end) m
  | _, _ =>
      match number_of a, number_of b with
      | Some x, Some y => bool_decide (x ≠ NotANumber) && bool_decide (x = y)
      | _, _ => false
      end
  end.

(** ** Bot tokens *)

Definition token_char (c : ascii) : bool := is_word_char c || Ascii.eqb c "-".
(** [BOT_TOKEN_RE]: five digits or more, a colon, thirty more characters or more. *)
Fixpoint until_colon (l : list ascii) : option (list ascii * list ascii) :=
  match l with
  | [] => None
  | c :: l => if Ascii.eqb c ":" then Some ([], l) else '(before, after) ← until_colon l; Some (c :: before, after)
  end.
Definition looks_like_bot_token (value_ : string) : bool :=
  match until_colon (String.list_ascii_of_string (strip value_)) with
  | Some (id, secret) =>
      (5 <=? Z.of_nat (length id)) && forallb (λ c, bool_decide (is_Some (digit_of c))) id &&
      (30 <=? Z.of_nat (length secret)) && forallb token_char secret
  | None => false
  end.

(** The place of a key, or of a text, that is a bot token. *)
Fixpoint find_bot_token_material (node : doc) (path : string) {struct node} : option string :=
  match node with
  | DMap m =>
      (fix scan (m : list (string * doc)) : option string :=
         match m with
         | [] => None
         | (key, v) :: m =>
             let here := path +:+ "." +:+ key in
             if decide (key = TELEGRAM_TOKEN_KEY) then Some here
             else match find_bot_token_material v here with
                  | Some found => if decide (found = "") then scan m else Some found
                  | None => scan m
                  end
         end) m
  | DList l =>
      (fix scan (i : Z) (l : list doc) : option string :=
         match l with
         | [] => None
         | v :: l =>
             match find_bot_token_material v (path +:+ "[" +:+ pretty i +:+ "]") with
             | Some found => if decide (found = "") then scan (i + 1) l else Some found
             | None => scan (i + 1) l
             end
         end) 0 l
  | DStr s => if looks_like_bot_token s then Some path else None
  | _ => None
  end.

(** ** The secrets a caller may set *)

Definition reject_bot_token_writes (secrets : list (string * string)) : res unit :=
  if existsb (λ p, bool_decide (p.1 = TELEGRAM_TOKEN_KEY) || looks_like_bot_token p.2) secrets
  then Exc UNPROCESSABLE else Ok tt.
Definition reject_legacy_bot_access_writes (secrets : list (string * string)) : res unit :=
  if existsb (λ p, bool_decide (p.1 = LEGACY_BOT_AUDIENCE_KEY)) secrets then Exc UNPROCESSABLE else Ok tt.

(** ** A write of the whole configuration *)

Definition or_empty (v : doc) : doc := if doc_truthy v then v else DMap [].
Definition stored_secrets_blob (stored_config : mapping) : doc := or_empty (get "secrets" stored_config).
Definition refuse_if (b : bool) : res unit := if b then Exc UNPROCESSABLE else Ok tt.

(** Token material anywhere but in the secrets, and in the values of the hints. *)
Definition smuggled_token (config : mapping) : option string :=
  match find_bot_token_material (DMap (drop_key "env_hints" (drop_key "secrets" config))) "config" with
  | Some found => Some found
  | None =>
      match get "env_hints" config with
      | DMap hints => find_bot_token_material (DList hints.*2) "config.env_hints"
      | _ => None
      end
  end.
(** The audience that is stored, [None] where there is none. *)
Definition audience_in (overrides : doc) : doc :=
  match overrides with DMap o => get BOT_ALLOWED_IDS_KEY o | _ => DNull end.
(** The part about the bot's audience, which has an endpoint of its own. *)
Definition vet_bot_access (stored config vetted : mapping) : res mapping :=
  let stored_access := get "bot_access" stored in
  let incoming_access := get "bot_access" config in
  if negb (is_null stored_access) then
    _ ← refuse_if (negb (is_null incoming_access) && negb (doc_eqb incoming_access stored_access));
    Ok (put_key "bot_access" stored_access vetted)
  else _ ← refuse_if (negb (is_null incoming_access)); Ok vetted.
Definition vet_overrides (stored config vetted : mapping) : res mapping :=
  let stored_audience := audience_in (get_or (DMap []) "env_overrides" stored) in
  let incoming_overrides := get_or (DMap []) "env_overrides" config in
  if negb (is_null stored_audience) then
    match incoming_overrides with
    | DMap o =>
        let incoming_audience := get BOT_ALLOWED_IDS_KEY o in
        _ ← refuse_if (negb (is_null incoming_audience) && negb (doc_eqb incoming_audience stored_audience));
        Ok (put_key "env_overrides" (DMap (put_key BOT_ALLOWED_IDS_KEY stored_audience o)) vetted)
    | _ => Exc UNPROCESSABLE
    end
  else
    _ ← refuse_if (match incoming_overrides with DMap o => has_key BOT_ALLOWED_IDS_KEY o | _ => false end);
    Ok vetted.
Definition vet_config_write (config : mapping) (project : option Project) : res mapping :=
  let stored_config := match project with Some p => p.(p_config) | None => [] end in
  let stored := stored_secrets_blob stored_config in
  let incoming := get "secrets" config in
  _ ← refuse_if (negb (is_null incoming) && negb (doc_eqb incoming stored));
  _ ← refuse_if (bool_decide (is_Some (smuggled_token config)));
  let vetted := drop_key "secrets" config in
  let vetted := if doc_truthy stored then put_key "secrets" stored vetted else vetted in
  let stored_agent_type := get "agent_type" stored_config in
  let vetted := if negb (is_null stored_agent_type) && is_null (get "agent_type" vetted)
                then put_key "agent_type" stored_agent_type vetted else vetted in
  vetted ← vet_bot_access stored_config config vetted;
  vet_overrides stored_config config vetted.

(** [_initial_project_config] *)
Definition initial_project_config (default_agent_type : AgentType.t) (config : mapping) : res mapping :=
  match get "agent_type" config with
  | DNull => Ok (put_key "agent_type" (DStr (value default_agent_type)) config)
  | DStr s =>
      match member_of (A:=AgentType.t) s with
      | Some a => Ok (put_key "agent_type" (DStr (value a)) config)
      | None => Exc UNPROCESSABLE
      end
  | _ => Exc UNPROCESSABLE
  end.

(** ** Writes of a part *)

(** [d.update(texts)] *)
Definition update_texts (d : mapping) (texts : list (string * string)) : mapping :=
  foldl (λ d p, put_key p.1 (DStr p.2) d) d texts.

Section secrets.
Context `{Fernet} (nonce : string → string).

(** [_merge_secrets_into_project], with the keys it returns. *)
Definition merge_secrets_into (config : mapping) (secrets hints : list (string * string)) : res (mapping * list string) :=
  existing ← existing_secrets config;
  let existing := update_texts existing secrets in
  encrypted ← encrypt_dict nonce existing;
  let config := put_key "secrets" (DMap encrypted) config in
  config ← (match hints with
            | [] => Ok config
            | _ => match or_empty (get "env_hints" config) with
                   | DMap merged_hints => Ok (put_key "env_hints" (DMap (update_texts merged_hints hints)) config)
                   | _ => Exc AttributeError
                   end
            end);
  Ok (config, merge_sort string_leb existing.*1).

(** [config["secrets"] = encrypt_dict(secrets) if secrets else {}] *)
Definition put_secrets (secrets config : mapping) : res mapping :=
  encrypted ← encrypt_dict nonce secrets; Ok (put_key "secrets" (DMap encrypted) config).

(** [iter(value)] *)
Definition items_of (v : doc) : res (list doc) :=
  match v with
  | DList l => Ok l
  | DStr s => Ok ((λ c, DStr (String c EmptyString)) <$> String.list_ascii_of_string s)
  | DMap m => Ok (DStr <$> m.*1)
  | _ => Exc TypeError
  end.
(** [dict(value)]: of a dictionary, or of pairs. *)
Fixpoint dict_of_pairs (pairs : list doc) (d : mapping) : res mapping :=
  match pairs with
  | [] => Ok d
  | p :: pairs =>
      items ← items_of p;
      match items with
      | [DStr k; v] => dict_of_pairs pairs (put_key k v d)
      | [_; _] => Exc TypeError
      | _ => Exc ValueError
      end
  end.
Definition dict_of (v : doc) : res mapping :=
  match v with
  | DMap m => Ok m
  | _ => pairs ← items_of v; dict_of_pairs pairs []
  end.

(** What [set_bot_access] stores. *)
Definition bot_access_record (mode allowed_telegram_ids : string) : doc :=
  DMap [("mode", DStr mode); ("allowed_telegram_ids", DStr allowed_telegram_ids)].
Definition set_bot_access_config (mode allowed_telegram_ids : string) (config : mapping) : res mapping :=
  overrides ← dict_of (or_empty (get "env_overrides" config));
  let overrides := put_key BOT_ALLOWED_IDS_KEY (DStr allowed_telegram_ids) overrides in
  let config := put_key "env_overrides" (DMap overrides) config in
  let config := put_key "bot_access" (bot_access_record mode allowed_telegram_ids) config in
  existing ← existing_secrets config;
  if has_key LEGACY_BOT_AUDIENCE_KEY existing then put_secrets (drop_key LEGACY_BOT_AUDIENCE_KEY existing) config
  else Ok config.

(** What [delete_secret] stores. *)
Definition delete_secret_config (key : string) (config : mapping) : res (mapping * list string) :=
  existing ← existing_secrets config;
  if negb (has_key key existing) then Exc NOT_FOUND
  else if decide (key = LEGACY_BOT_AUDIENCE_KEY) then Exc UNPROCESSABLE
  else
    let rest := drop_key key existing in
    config ← put_secrets rest config;
    Ok (config, merge_sort string_leb rest.*1).

(** The part of [release_bot_binding] about the configuration: what it leaves of it, if
    there was anything to drop. *)
Definition drop_bot_secrets (config : mapping) : res (option mapping) :=
  secrets ← existing_secrets config;
  if has_key TELEGRAM_TOKEN_KEY secrets || has_key TELEGRAM_USERNAME_KEY secrets then
    config ← put_secrets (drop_key TELEGRAM_USERNAME_KEY (drop_key TELEGRAM_TOKEN_KEY secrets)) config;
    Ok (Some config)
  else Ok None.
End secrets.

(** [BotAccessRequest], as it validates. *)
Definition bot_access_valid (mode allowed_telegram_ids : string) : bool :=
  bool_decide (mode ∈ ["only_me"; "public"; "custom"]) &&
  (if decide (mode = "public") then bool_decide (allowed_telegram_ids = "")
   else negb (bool_decide (parse_allowed_telegram_ids allowed_telegram_ids = ∅))).

(** ** Slugs *)

Definition PROJECT_SLUG_MAX_LENGTH : Z := 40.
Definition is_slug_char (c : ascii) : bool :=
  let n := Z.of_N (N_of_ascii c) in (48 <=? n) && (n <=? 57) || (97 <=? n) && (n <=? 122).
Definition is_lower_letter (c : ascii) : bool :=
  let n := Z.of_N (N_of_ascii c) in (97 <=? n) && (n <=? 122).
(** [re.sub(r"[^a-z0-9]+", "-", ...)]: [dash] when the run it is in already has its dash. *)
Fixpoint dashed (dash : bool) (l : list ascii) : list ascii :=
  match l with
  | [] => []
  | c :: l => if is_slug_char c then c :: dashed false l
              else if dash then dashed true l else "-"%char :: dashed true l
  end.
Fixpoint drop_dashes (l : list ascii) : list ascii :=
  match l with c :: l' => if Ascii.eqb c "-" then drop_dashes l' else l | [] => [] end.
Definition strip_dashes (l : list ascii) : list ascii := rev (drop_dashes (rev (drop_dashes l))).
(** No two dashes are left to collapse. *)
Definition slugify_project_title (title : string) : list ascii :=
  strip_dashes (dashed false (String.list_ascii_of_string (lower title))).
(** [PROJECT_SLUG_PATTERN] *)
Definition slug_matches (l : list ascii) : bool :=
  match l with
  | c :: l => is_lower_letter c && forallb (λ c, is_slug_char c || Ascii.eqb c "-") l
  | [] => false
  end.
Definition project_slug (title : string) (suffix : list ascii) : list ascii :=
  let base := slugify_project_title title in
  let prefix := match base with c :: _ => if is_lower_letter c then [] else ["p"%char] | [] => ["p"%char] end in
  let reserved := Z.of_nat (length suffix) + 1 +
    (if bool_decide (prefix = []) then 0
     else Z.of_nat (length prefix) + (if bool_decide (base = []) then 0 else 1)) in
  let max_base_length := Z.max (PROJECT_SLUG_MAX_LENGTH - reserved) 0 in
  let base := strip_dashes (take (Z.to_nat max_base_length) base) in
  if bool_decide (prefix = []) then base ++ "-"%char :: suffix
  else if bool_decide (base = []) then prefix ++ "-"%char :: suffix
  else prefix ++ "-"%char :: base ++ "-"%char :: suffix.
(** [generate_project_slug], of the hexadecimal digits of the id. *)
Definition generate_project_slug (title hex : string) : res string :=
  let slug := project_slug title (String.list_ascii_of_string hex) in
  if slug_matches slug then Ok (String.string_of_list_ascii slug) else Exc ValueError.
