(* ===== verification/ProjectRules.v ===== *)
(** * ProjectRules: what the rules over a project's configuration keep

    The audience of the bot follows the choice of its owner, the secrets form a map that
    only their own endpoints change, no bot token gets in but by the binding, and a slug is
    always there, short, and valid. *)

From S2P Require Import Prelude Vocabulary Contracts Docs Db Api BotAccess Crypto EnvContract Github GithubActions.
From S2P Require Import ProjectConfig.
From Stdlib Require Import Ascii.

(** ** Reading what was written *)

Lemma get_drop_other key key' m : key ≠ key' → get key' (drop_key key m) = get key' m.
Proof. intros. unfold get. by rewrite lookup_drop_other. Qed.
Lemma get_or_put dflt key v m : get_or dflt key (put_key key v m) = v.
Proof. unfold get_or. by rewrite lookup_put_key. Qed.
Lemma get_or_put_other dflt key key' v m : key ≠ key' → get_or dflt key' (put_key key v m) = get_or dflt key' m.
Proof. intros. unfold get_or. by rewrite lookup_put_other. Qed.
Lemma get_or_drop_other dflt key key' m : key ≠ key' → get_or dflt key' (drop_key key m) = get_or dflt key' m.
Proof. intros. unfold get_or. by rewrite lookup_drop_other. Qed.
#[export] Hint Rewrite get_put get_or_put : doc.
#[export] Hint Rewrite get_put_other get_drop_other get_or_put_other get_or_drop_other using (by vm_compute) : doc.
Lemma is_null_iff v : is_null v = true ↔ v = DNull.
Proof. by destruct v. Qed.
Lemma not_null v : is_null v = false ↔ v ≠ DNull.
Proof. by destruct v. Qed.

(** Read off that a computation over configurations succeeded. *)
Lemma bind_ok {A B} (r : res A) (f : A → res B) b : r ≫= f = Ok b → ∃ a, r = Ok a ∧ f a = Ok b.
Proof. destruct r as [a|]; [|done]. by exists a. Qed.
Lemma refuse_ok b u : refuse_if b = Ok u → b = false.
Proof. by destruct b. Qed.
Ltac res_step :=
  match goal with
  | H : mbind _ _ = Ok _ |- _ => apply bind_ok in H as (? & ? & H)
  | H : refuse_if _ = Ok _ |- _ => apply refuse_ok in H
  | H : Ok _ = Ok _ |- _ => injection H as H
  | H : Exc _ = Ok _ |- _ => discriminate H
  | H : (match ?x with _ => _ end) = Ok _ |- _ => let E := fresh "E" in destruct x eqn:E
  end.
Ltac res_auto := repeat res_step; subst.

(** ** The audience of the bot *)

Definition audience_of_config (config : mapping) : doc := audience_in (get_or (DMap []) "env_overrides" config).
(** The audience that would be deployed is the one the owner chose, and a private choice
    names somebody; without a choice there is no audience. *)
Definition audience_ok (config : mapping) : Prop :=
  (get "bot_access" config = DNull ∧ audience_of_config config = DNull) ∨
  ∃ mode ids, get "bot_access" config = bot_access_record mode ids ∧ bot_access_valid mode ids = true ∧
    audience_of_config config = DStr ids.

Lemma audience_ok_other config config' :
  get "bot_access" config' = get "bot_access" config →
  get_or (DMap []) "env_overrides" config' = get_or (DMap []) "env_overrides" config →
  audience_ok config → audience_ok config'.
Proof. unfold audience_ok, audience_of_config. by intros -> ->. Qed.
Lemma vet_audience config p out :
  audience_ok (match p with Some p => p.(p_config) | None => [] end) →
  vet_config_write config p = Ok out → audience_ok out.
Proof.
  unfold vet_config_write. generalize (match p with Some p => p_config p | None => [] end) as stored. intros stored Hok Hv.
  apply bind_ok in Hv as (? & _ & Hv). apply bind_ok in Hv as (? & _ & Hv).
  revert Hv. set (v1 := if doc_truthy _ then _ else _). set (v2 := if _ && _ then _ else _). intros Hv.
  assert (get "bot_access" v2 = get "bot_access" config) as Hb.
  { subst v2 v1. destruct (doc_truthy _), (_ && _); by autorewrite with doc. }
  assert (get_or (DMap []) "env_overrides" v2 = get_or (DMap []) "env_overrides" config) as He.
  { subst v2 v1. destruct (doc_truthy _), (_ && _); by autorewrite with doc. }
  clearbody v2. clear v1. apply bind_ok in Hv as (v3 & H3 & Hv). unfold vet_bot_access in H3. unfold vet_overrides in Hv.
  destruct Hok as [[Ha Hn]|(mode & ids & Ha & Hvalid & Hn)]; unfold audience_of_config in Hn;
    rewrite Ha in H3; rewrite Hn in Hv; cbn [negb is_null bot_access_record andb] in H3, Hv; res_auto.
  - left. rewrite negb_false_iff, is_null_iff in *. unfold audience_of_config, audience_in.
    rewrite He, Hb. split; [done|]. destruct (get_or _ _ config) eqn:Ho; try done.
    unfold has_key in H. rewrite bool_decide_eq_false in H. unfold get. destruct (lookup_key _ _); [by destruct H|done].
  - right. exists mode, ids. unfold audience_of_config. autorewrite with doc. cbn [audience_in]. by autorewrite with doc.
Qed.

(** ** The secrets, as a map *)

Definition as_map (m : mapping) : gmap string doc := list_to_map m.
Lemma as_map_lookup m key : as_map m !! key = lookup_key key m.
Proof.
  induction m as [|[k v] m IH]; [apply lookup_empty|]. cbn. rewrite lookup_insert. cbn.
  case_decide; [done|apply IH].
Qed.
Lemma as_map_put key v m : as_map (put_key key v m) = <[key := v]> (as_map m).
Proof.
  apply map_eq. intros k. rewrite as_map_lookup, lookup_insert.
  case_decide; [subst; apply lookup_put_key|]. by rewrite lookup_put_other, as_map_lookup.
Qed.
Lemma as_map_drop key m : as_map (drop_key key m) = delete key (as_map m).
Proof.
  apply map_eq. intros k. rewrite as_map_lookup, lookup_delete.
  case_decide; [subst; apply lookup_drop_key|]. by rewrite lookup_drop_other, as_map_lookup.
Qed.
Definition insert_texts (texts : list (string * string)) (m : gmap string doc) : gmap string doc :=
  foldl (λ m p, <[p.1 := DStr p.2]> m) m texts.
Lemma as_map_update d texts : as_map (update_texts d texts) = insert_texts texts (as_map d).
Proof.
  revert d. induction texts as [|[k v] texts IH]; intros d; [done|]. cbn. unfold update_texts in *. cbn.
  by rewrite IH, as_map_put.
Qed.

Section secrets.
Context `{FernetLaws} (nonce : string → string).

Lemma existing_other config config' :
  get "secrets" config' = get "secrets" config → existing_secrets config' = existing_secrets config.
Proof. unfold existing_secrets. by intros ->. Qed.
Lemma existing_encrypted secrets encrypted config :
  encrypt_dict nonce secrets = Ok encrypted → existing_secrets (put_key "secrets" (DMap encrypted) config) = Ok secrets.
Proof.
  intros He. unfold existing_secrets. autorewrite with doc. cbn. apply decrypt_encrypted in He.
  by destruct encrypted.
Qed.
Lemma put_secrets_existing secrets config config' :
  put_secrets nonce secrets config = Ok config' → existing_secrets config' = Ok secrets.
Proof. unfold put_secrets. intros Hp. res_auto. by apply existing_encrypted. Qed.
Lemma put_secrets_audience secrets config config' :
  put_secrets nonce secrets config = Ok config' → audience_ok config → audience_ok config'.
Proof. unfold put_secrets. intros Hp. res_auto. apply audience_ok_other; by autorewrite with doc. Qed.

(** A write of the whole configuration leaves them. *)
Lemma vet_existing config p out :
  vet_config_write config p = Ok out →
  existing_secrets out = existing_secrets (match p with Some p => p.(p_config) | None => [] end).
Proof.
  unfold vet_config_write. generalize (match p with Some p => p_config p | None => [] end) as stored. intros stored Hv.
  apply bind_ok in Hv as (? & _ & Hv). apply bind_ok in Hv as (? & _ & Hv).
  revert Hv. set (v1 := if doc_truthy _ then _ else _). set (v2 := if _ && _ then _ else _). intros Hv.
  apply bind_ok in Hv as (v3 & H3 & Hv).
  assert (get "secrets" v2 = get "secrets" v1) as H2 by (subst v2; destruct (_ && _); by autorewrite with doc).
  assert (get "secrets" out = get "secrets" v1) as Hout.
  { rewrite <-H2. unfold vet_bot_access in H3. unfold vet_overrides in Hv. clearbody v2. clear v1 H2. res_auto; by autorewrite with doc. }
  unfold existing_secrets. rewrite Hout. subst v1. unfold stored_secrets_blob, or_empty.
  destruct (doc_truthy (get "secrets" stored)) eqn:Ht; [rewrite Ht; autorewrite with doc; by rewrite Ht|].
  change (doc_truthy (DMap [])) with false. cbv iota. unfold get at 1. by rewrite lookup_drop_key.
Qed.
Lemma merge_existing config secrets hints config' keys :
  merge_secrets_into nonce config secrets hints = Ok (config', keys) →
  ∃ existing, existing_secrets config = Ok existing ∧ existing_secrets config' = Ok (update_texts existing secrets).
Proof.
  unfold merge_secrets_into. intros Hm. apply bind_ok in Hm as (existing & He & Hm). exists existing. split; [done|].
  apply bind_ok in Hm as (encrypted & Henc & Hm). apply bind_ok in Hm as (config2 & Hh & [= <- _]).
  apply (existing_encrypted _ _ config) in Henc. rewrite <-Henc. apply existing_other.
  destruct hints; res_auto; by autorewrite with doc.
Qed.
Lemma merge_audience config secrets hints config' keys :
  merge_secrets_into nonce config secrets hints = Ok (config', keys) → audience_ok config → audience_ok config'.
Proof.
  unfold merge_secrets_into. intros Hm. apply bind_ok in Hm as (existing & _ & Hm).
  apply bind_ok in Hm as (encrypted & _ & Hm). apply bind_ok in Hm as (config2 & Hh & [= <- _]).
  apply audience_ok_other; destruct hints; res_auto; by autorewrite with doc.
Qed.
Lemma delete_existing key config config' keys :
  delete_secret_config nonce key config = Ok (config', keys) →
  ∃ existing, existing_secrets config = Ok existing ∧ has_key key existing = true ∧ key ≠ LEGACY_BOT_AUDIENCE_KEY ∧
    existing_secrets config' = Ok (drop_key key existing).
Proof.
  unfold delete_secret_config. intros Hd. apply bind_ok in Hd as (existing & He & Hd). exists existing.
  res_step; [done|]. res_step; [done|]. rewrite negb_false_iff in *. apply bind_ok in Hd as (config2 & Hp & [= <- _]).
  split_and!; [done..|]. by eapply put_secrets_existing.
Qed.
Lemma delete_audience key config config' keys :
  delete_secret_config nonce key config = Ok (config', keys) → audience_ok config → audience_ok config'.
Proof.
  unfold delete_secret_config. intros Hd. apply bind_ok in Hd as (existing & He & Hd).
  res_step; [done|]. res_step; [done|]. apply bind_ok in Hd as (config2 & Hp & [= <- _]). by eapply put_secrets_audience.
Qed.
(** What a release leaves: neither of the bot's two secrets. *)
Definition released_secrets (m : gmap string doc) : gmap string doc :=
  delete TELEGRAM_USERNAME_KEY (delete TELEGRAM_TOKEN_KEY m).
Lemma has_key_iff key m : has_key key m = true ↔ is_Some (as_map m !! key).
Proof. unfold has_key. by rewrite bool_decide_eq_true, as_map_lookup. Qed.
Lemma drop_bot_existing config r :
  drop_bot_secrets nonce config = Ok r →
  ∃ existing existing', existing_secrets config = Ok existing ∧
    existing_secrets (default config r) = Ok existing' ∧ as_map existing' = released_secrets (as_map existing).
Proof.
  unfold drop_bot_secrets. intros Hd. apply bind_ok in Hd as (existing & He & Hd). exists existing. res_step.
  - apply bind_ok in Hd as (config' & Hp & [= <-]). eexists. split_and!; [done|by eapply put_secrets_existing|].
    unfold released_secrets. by rewrite !as_map_drop.
  - injection Hd as <-. apply orb_false_iff in E as [Ht Hu]. exists existing. split_and!; [done..|].
    unfold released_secrets. rewrite <-not_true_iff_false, has_key_iff, <-eq_None_not_Some in Ht, Hu.
    by rewrite !delete_id by (rewrite ?lookup_delete_ne; done).
Qed.
Lemma drop_bot_audience config r :
  drop_bot_secrets nonce config = Ok r → audience_ok config → audience_ok (default config r).
Proof.
  unfold drop_bot_secrets. intros Hd. apply bind_ok in Hd as (existing & He & Hd). res_step.
  - apply bind_ok in Hd as (config' & Hp & [= <-]). by eapply put_secrets_audience.
  - by injection Hd as <-.
Qed.
Lemma set_access_audience mode ids config config' :
  set_bot_access_config nonce mode ids config = Ok config' → bot_access_valid mode ids = true → audience_ok config'.
Proof.
  unfold set_bot_access_config. intros Hs Hvalid. apply bind_ok in Hs as (overrides & _ & Hs).
  apply bind_ok in Hs as (existing & _ & Hs).
  set (config1 := put_key "bot_access" _ _) in Hs.
  assert (audience_ok config1) as Hok.
  { right. exists mode, ids. unfold audience_of_config. subst config1. autorewrite with doc. cbn [audience_in]. by autorewrite with doc. }
  res_step; [by eapply put_secrets_audience|by injection Hs as <-].
Qed.
Lemma set_access_existing mode ids config config' :
  set_bot_access_config nonce mode ids config = Ok config' →
  ∃ existing existing', existing_secrets config = Ok existing ∧ existing_secrets config' = Ok existing' ∧
    as_map existing' = delete LEGACY_BOT_AUDIENCE_KEY (as_map existing).
Proof.
  unfold set_bot_access_config. intros Hs. apply bind_ok in Hs as (overrides & _ & Hs).
  apply bind_ok in Hs as (existing & He & Hs).
  rewrite (existing_other config) in He by (by autorewrite with doc). exists existing. res_step.
  - eexists. split_and!; [done|by eapply put_secrets_existing|]. apply as_map_drop.
  - injection Hs as <-. exists existing. split_and!; [done| |].
    + rewrite <-He. apply existing_other. by autorewrite with doc.
    + rewrite <-not_true_iff_false, has_key_iff, <-eq_None_not_Some in E. by rewrite delete_id.
Qed.
End secrets.

(** ** Slugs *)

Definition slug_part (c : ascii) : Prop := is_slug_char c || Ascii.eqb c "-" = true.
Lemma dashed_part dash l : Forall slug_part (dashed dash l).
Proof.
  revert dash. induction l as [|c l IH]; intros dash; cbn; [constructor|].
  destruct (is_slug_char c) eqn:Hc; [constructor; [by unfold slug_part; rewrite Hc|apply IH]|].
  destruct dash; [apply IH|constructor; [done|apply IH]].
Qed.
Lemma drop_dashes_suffix l : ∃ k, drop_dashes l = drop k l.
Proof.
  induction l as [|c l [k IH]]; [by exists 0%nat|]. cbn. destruct (Ascii.eqb c "-"); [by exists (S k)|by exists 0%nat].
Qed.
Lemma strip_dashes_sub (P : ascii → Prop) l : Forall P l → Forall P (strip_dashes l).
Proof.
  intros Hl. unfold strip_dashes. destruct (drop_dashes_suffix l) as [k ->].
  destruct (drop_dashes_suffix (rev (drop k l))) as [k' ->].
  by apply List.Forall_rev, Forall_drop, List.Forall_rev, Forall_drop.
Qed.
Lemma strip_dashes_length l : (length (strip_dashes l) ≤ length l)%nat.
Proof.
  unfold strip_dashes. destruct (drop_dashes_suffix l) as [k ->].
  destruct (drop_dashes_suffix (rev (drop k l))) as [k' ->].
  rewrite length_rev, length_drop, length_rev, length_drop. lia.
Qed.
Lemma strip_dashes_cons c l : c ≠ "-"%char → ∃ l', strip_dashes (c :: l) = c :: l'.
Proof.
  intros Hc. unfold strip_dashes. cbn. rewrite (proj2 (Ascii.eqb_neq _ _) Hc). cbn.
  assert (∀ m, ∃ m', drop_dashes (m ++ [c]) = m' ++ [c]) as H.
  { induction m as [|d m [m' IH]]; cbn; [exists []; by rewrite (proj2 (Ascii.eqb_neq _ _) Hc)|].
    destruct (Ascii.eqb d "-"); [by exists m'|by exists (d :: m)]. }
  destruct (H (rev l)) as [m' ->]. exists (rev m'). by rewrite rev_app_distr.
Qed.
Lemma slug_rest l : Forall slug_part l → forallb (λ c, is_slug_char c || Ascii.eqb c "-") l = true.
Proof. induction 1 as [|c l Hc _ IH]; cbn; [done|]. unfold slug_part in Hc. by rewrite Hc. Qed.
Lemma lower_letter_part c : is_lower_letter c = true → slug_part c ∧ c ≠ "-"%char.
Proof.
  unfold slug_part, is_lower_letter, is_slug_char. intros Hc. rewrite Hc, orb_true_r. split; [done|]. intros ->. discriminate Hc.
Qed.

(** Whatever the title, a project gets a slug: a letter followed by letters,
    digits and dashes, of at most 40 characters, that ends in a dash and the 32 digits of its
    id.  The ValueError of the generator is never raised. *)
Theorem every_project_gets_its_slug (title hex : string) :
  String.length hex = 32%nat → Forall (λ c, is_slug_char c = true) (String.list_ascii_of_string hex) →
  ∃ slug base, generate_project_slug title hex = Ok slug ∧ slug = base +:+ "-" +:+ hex ∧
    (String.length slug ≤ 40)%nat ∧ slug_matches (String.list_ascii_of_string slug) = true.
Proof.
  intros Hlen Hhex. set (suffix := String.list_ascii_of_string hex).
  assert (length suffix = 32%nat) as Hsuffix.
  { rewrite <-Hlen. unfold suffix. clear. induction hex as [|c s IH]; cbn; [done|by rewrite IH]. }
  assert (∃ base, project_slug title suffix = base ++ "-"%char :: suffix ∧ (length base ≤ 7)%nat ∧
    slug_matches (base ++ "-"%char :: suffix) = true) as (base & Hslug & Hbase & Hmatch).
  { unfold project_slug. set (b := slugify_project_title title).
    assert (Forall slug_part b) as Hb by (apply strip_dashes_sub, dashed_part).
    assert (Forall slug_part suffix) as Hs by (eapply Forall_impl; [exact Hhex|]; intros c Hc; unfold slug_part; by rewrite Hc).
    assert (∀ n, Forall slug_part (strip_dashes (take n b))) as Hcut by (intros n; by apply strip_dashes_sub, Forall_take).
    assert (∀ n, length (strip_dashes (take n b)) ≤ n)%nat as Hshort.
    { intros n. etransitivity; [apply strip_dashes_length|]. rewrite length_take. lia. }
    rewrite Hsuffix.
    assert (∀ m, let p := "p"%char :: m in (length p ≤ 7)%nat → Forall slug_part m →
      (length p ≤ 7)%nat ∧ slug_matches (p ++ "-"%char :: suffix) = true) as Hp.
    { intros m p Hl Hm. split; [done|]. cbn. apply slug_rest, Forall_app. split; [done|by constructor]. }
    destruct b as [|c l] eqn:Eb; [|destruct (is_lower_letter c) eqn:Hc]; cbn [bool_decide decide].
    - exists ["p"%char]. split; [done|]. by apply Hp; [cbn; lia|].
    - destruct (lower_letter_part c Hc) as [_ Hdash]. cbv zeta. change (Z.to_nat (_ `max` 0)) with 7%nat. pose proof (Hshort 7%nat) as Hl. specialize (Hcut 7%nat). cbn [take] in *.
      destruct (strip_dashes_cons c (take 6 l) Hdash) as [l' Hl']. rewrite Hl' in *. exists (c :: l'). change (bool_decide ([] = [])) with true.
      split_and!; [by rewrite <-Hl'|done|].
      apply Forall_cons in Hcut as [_ Hcut]. cbn. rewrite Hc. apply slug_rest, Forall_app. split; [done|by constructor].
    - cbv zeta. change (Z.to_nat (_ `max` 0)) with 5%nat. pose proof (Hshort 5%nat) as Hl. specialize (Hcut 5%nat).
      destruct (strip_dashes (take 5 (c :: l))) as [|d m] eqn:Ed; cbn [bool_decide].
      + exists ["p"%char]. split; [done|]. by apply Hp; [cbn; lia|].
      + exists ("p"%char :: "-"%char :: d :: m). split; [done|]. apply Hp; [cbn in *; lia|by constructor]. }
  unfold generate_project_slug. fold suffix. rewrite Hslug, Hmatch.
  exists (String.string_of_list_ascii (base ++ "-"%char :: suffix)), (String.string_of_list_ascii base).
  assert (∀ l l', String.string_of_list_ascii (l ++ l') = String.string_of_list_ascii l +:+ String.string_of_list_ascii l') as Happ.
  { induction l as [|c l IH]; intros l'; cbn; [done|by rewrite IH]. }
  assert (∀ l, String.length (String.string_of_list_ascii l) = length l) as Hlength by (induction l; cbn; congruence).
  split_and!; [done| | |by rewrite String.list_ascii_of_string_of_list_ascii].
  - rewrite Happ. cbn. unfold suffix. by rewrite String.string_of_list_ascii_of_string.
  - rewrite Hlength, length_app. cbn. lia.
Qed.
Lemma every_project_gets_its_slug_witness :
  ∃ slug base, generate_project_slug "2 Fast -- Бот" "0123456789abcdef0123456789abcdef" = Ok slug ∧
    slug = base +:+ "-" +:+ "0123456789abcdef0123456789abcdef" ∧
    (String.length slug ≤ 40)%nat ∧ slug_matches (String.list_ascii_of_string slug) = true.
Proof. apply every_project_gets_its_slug; [done|]. apply List.Forall_forall, List.forallb_forall. vm_compute. reflexivity. Defined.
