(* ===== verification/TelegramTokens.v ===== *)
(** * TelegramTokens: may this bot be bound to this project

    [services/api/src/utils/telegram_token.py]: the chain of checks over a token, and the
    question whether a bound bot is alive.  Telegram is a parameter: what it answers to a
    method for a token, or the text of the error when no answer came. *)

From S2P Require Import Prelude Vocabulary Contracts Docs Db Api BotAccess Crypto EnvContract Github GithubActions.
From S2P Require Import GithubPulls ProjectConfig.

(** ** The verdict ([shared/contracts/dto/telegram.py]) *)

Inductive TokenCheckName := FORMAT | TELEGRAM_GET_ME | TELEGRAM_WEBHOOK | TELEGRAM_POLLER | PROJECT_UNIQUENESS.
Inductive TokenRejectionReason :=
  MALFORMED | INVALID_TOKEN | NO_USERNAME | TELEGRAM_UNREACHABLE | WEBHOOK_ACTIVE | POLLER_ACTIVE
| BOUND_TO_OWN_PROJECT | BOUND_ELSEWHERE.
#[export] Instance check_name_eq_dec : EqDecision TokenCheckName.
Proof. solve_decision. Defined.
Record TokenCheck := mkTokenCheck {
  tc_name : TokenCheckName; tc_passed : bool; tc_reason_code : option TokenRejectionReason; tc_detail : string }.
(** [status] is whether it was rejected. *)
Record TelegramTokenVerdict := mkVerdict {
  tv_rejected : bool;
  tv_reason_code : option TokenRejectionReason;
  tv_user_message : string;
  tv_bot_username : option string;
  tv_conflict_project_id : option string;
  tv_checks : list TokenCheck;
}.
Definition passed (name : TokenCheckName) (detail : string) : TokenCheck := mkTokenCheck name true None detail.

(** [_rejected] and [_unreachable] *)
Definition rejected (check : TokenCheck) (user_message : string) (preceding : list TokenCheck) : TelegramTokenVerdict :=
  mkVerdict true (tc_reason_code check) user_message None None (preceding ++ [check]).
Definition unreachable (name : TokenCheckName) (error : string) (preceding : list TokenCheck) : TelegramTokenVerdict :=
  rejected (mkTokenCheck name false (Some TELEGRAM_UNREACHABLE) error)
    "Could not reach Telegram right now. Please try again in a minute." preceding.
Definition EXTERNAL_ACTIVITY_MESSAGE : string :=
  "Something is already running on this token. Stop it and send the token again, or send a token for a different bot.".

(** A field of a contract that is a text. *)
Definition as_text (v : doc) : res string := match v with DStr s => Ok s | _ => Exc ValidationError end.

Definition Telegram := string → string → string + http_response.

Section validation.
Context `{PyRepr} (telegram : Telegram).
(** The text of the error of a body that is no JSON. *)
Context (json_error : string).

(** [resp.status_code != 200 or not data.get("ok")] *)
Definition declined (resp : http_response) (data : doc) : res bool :=
  if negb (status_code resp =? 200) then Ok true
  else ok ← attr_get "ok" data; Ok (negb (doc_truthy ok)).

(** A probe ends the chain with a verdict, or passes. *)
Definition check_no_webhook (token : string) (preceding : list TokenCheck) : res (TelegramTokenVerdict + TokenCheck) :=
  match telegram "getWebhookInfo" token with
  | inl error => Ok (inl (unreachable TELEGRAM_WEBHOOK error preceding))
  | inr resp =>
      match body resp with
      | None => Ok (inl (unreachable TELEGRAM_WEBHOOK json_error preceding))
      | Some data =>
          no ← declined resp data;
          if no : bool then
            description ← attr_get_or (DStr "Unknown error") "description" data;
            detail ← as_text description;
            Ok (inl (unreachable TELEGRAM_WEBHOOK detail preceding))
          else
            result ← item "result" data; url ← item "url" result;
            if doc_truthy url then
              Ok (inl (rejected (mkTokenCheck TELEGRAM_WEBHOOK false (Some WEBHOOK_ACTIVE)
                                   "getWebhookInfo returned a non-empty url") EXTERNAL_ACTIVITY_MESSAGE preceding))
            else Ok (inr (passed TELEGRAM_WEBHOOK ""))
      end
  end.
Definition check_no_poller (token : string) (preceding : list TokenCheck) : TelegramTokenVerdict + TokenCheck :=
  match telegram "getUpdates" token with
  | inl error => inl (unreachable TELEGRAM_POLLER error preceding)
  | inr resp =>
      if status_code resp =? 409 then
        inl (rejected (mkTokenCheck TELEGRAM_POLLER false (Some POLLER_ACTIVE) "getUpdates answered 409 Conflict")
               EXTERNAL_ACTIVITY_MESSAGE preceding)
      else inr (passed TELEGRAM_POLLER "")
  end.

(** The live projects, but this one, that hold the bot, with the rows of the join. *)
Definition holders (db : Database) (project_id bot_username : string) : list Project :=
  omap (λ r,
    if decide (rp_bot_username r = Some bot_username) then
      p ← projects db !! rp_project_id r;
      if bool_decide (p_id p = project_id) || bool_decide (p_status p = value ProjectStatus.ARCHIVED)
      then None else Some p
    else None) (map_to_list (repositories db)).*2.
Definition check_not_bound_elsewhere (db : Database) (project : Project) (bot_username : string)
    (preceding : list TokenCheck) : TelegramTokenVerdict + TokenCheck :=
  match holders db (p_id project) bot_username with
  | [] => inr (passed PROJECT_UNIQUENESS "")
  | own :: _ as all =>
      if existsb (λ h, negb (p_owner_id h =? p_owner_id project)) all then
        inl (rejected (mkTokenCheck PROJECT_UNIQUENESS false (Some BOUND_ELSEWHERE)
                         "Bot is bound to a project of another owner")
               "This bot is already in use. Create a new bot in @BotFather and send its token." preceding)
      else
        inl (mkVerdict true (Some BOUND_TO_OWN_PROJECT)
          ("This bot is already connected to your project " +:+ Contracts.quote +:+ p_title own +:+ Contracts.quote +:+
           ". Continue there, or free the token from that project and send it again.")
          None (Some (p_id own))
          (preceding ++ [mkTokenCheck PROJECT_UNIQUENESS false (Some BOUND_TO_OWN_PROJECT)
                           ("Bot is bound to project " +:+ p_id own)]))
  end.

(** The layers Telegram answers for: the username, if none refuses. *)
Definition ask_telegram (token : string) (format_check : TokenCheck)
    : res (TelegramTokenVerdict + (string * list TokenCheck)) :=
  match telegram "getMe" token with
  | inl error => Ok (inl (unreachable TELEGRAM_GET_ME error [format_check]))
  | inr resp =>
      data ← json resp;
      no ← declined resp data;
      if no : bool then
        description ← attr_get_or (DStr "Unknown error") "description" data;
        detail ← as_text description;
        Ok (inl (rejected (mkTokenCheck TELEGRAM_GET_ME false (Some INVALID_TOKEN) detail)
          ("Telegram rejected this token: " +:+ detail +:+ ". Check the token in @BotFather and send it again.")
          [format_check]))
      else
        result ← attr_get_or (DMap []) "result" data; username ← attr_get "username" result;
        if negb (doc_truthy username) then
          Ok (inl (rejected (mkTokenCheck TELEGRAM_GET_ME false (Some NO_USERNAME) "getMe returned no username")
            "Telegram accepted the token but returned no bot username. Recreate the token in @BotFather and send the new one."
            [format_check]))
        else
          bot_username ← as_text username;
          let checks := [format_check; passed TELEGRAM_GET_ME bot_username] in
          webhook ← check_no_webhook token checks;
          match webhook with
          | inl verdict => Ok (inl verdict)
          | inr check =>
              let checks := checks ++ [check] in
              match check_no_poller token checks with
              | inl verdict => Ok (inl verdict)
              | inr check => Ok (inr (bot_username, checks ++ [check]))
              end
          end
  end.
Definition validate_telegram_token (db : Database) (project : Project) (token : string) : res TelegramTokenVerdict :=
  let token := strip token in
  if negb (looks_like_bot_token token) then
    Ok (rejected (mkTokenCheck FORMAT false (Some MALFORMED) "Token does not match the BotFather format")
      "This does not look like a Telegram bot token. It should look like 123456789:AA... — copy the whole line @BotFather sent you."
      [])
  else
    asked ← ask_telegram token (passed FORMAT "");
    match asked with
    | inl verdict => Ok verdict
    | inr (bot_username, checks) =>
        match check_not_bound_elsewhere db project bot_username checks with
        | inl verdict => Ok verdict
        | inr check =>
            Ok (mkVerdict false None ("Token is valid. Bot: @" +:+ bot_username +:+ " (https://t.me/" +:+ bot_username +:+ ").") (Some bot_username) None (checks ++ [check]))
        end
    end.

(** ** Liveness *)

Inductive BotLivenessState := ALIVE | NOT_LIVE | NO_TOKEN | UNREACHABLE.
Record BotLiveness := mkLiveness {
  bl_state : BotLivenessState; bl_bot_username : option string; bl_retry_after : option Z; bl_detail : string }.
Definition TOKEN_REFUSED_STATUSES : list Z := [401; 404].
(** [_retry_after] *)
Definition retry_after (data : doc) : res (option Z) :=
  parameters ← attr_get "parameters" data;
  Ok (match parameters with
      | DMap m => match get "retry_after" m with DInt n => if n <=? 0 then None else Some n | _ => None end
      | _ => None
      end).
Definition bot_liveness (token : string) : res BotLiveness :=
  match telegram "getMe" token with
  | inl error => Ok (mkLiveness UNREACHABLE None None ("getMe request failed: " +:+ error))
  | inr resp =>
      let code := pretty (status_code resp) in
      match body resp with
      | None => Ok (mkLiveness UNREACHABLE None None
                      ("getMe returned HTTP " +:+ code +:+ " with a body that is not JSON"))
      | Some data =>
          no ← declined resp data;
          if no : bool then
            description ← attr_get_or (DStr "no description") "description" data;
            if bool_decide (status_code resp ∈ TOKEN_REFUSED_STATUSES) then
              Ok (mkLiveness NOT_LIVE None None
                    ("Telegram refused the stored token: HTTP " +:+ code +:+ ", " +:+ py_str description))
            else
              wait ← retry_after data;
              Ok (mkLiveness UNREACHABLE None wait
                    ("getMe returned HTTP " +:+ code +:+ ": " +:+ py_str description +:+
                     match wait with
                     | Some n => ", and asked for " +:+ pretty n +:+ "s before a retry"
                     | None => ""
                     end))
          else
            result ← attr_get_or (DMap []) "result" data; username ← attr_get "username" result;
            if negb (doc_truthy username) then
              Ok (mkLiveness NOT_LIVE None None "Telegram accepted the stored token but reported no bot username")
            else
              bot_username ← as_text username;
              Ok (mkLiveness ALIVE (Some bot_username) None ("getMe answered as @" +:+ bot_username))
      end
  end.
End validation.
