(* ===== verification/Projects.v ===== *)
(** * Projects: the API's projects

    [services/api/src/routers/projects.py], with [utils/telegram_binding.py] and the update
    of an application in [applications.py], which releases a bot: creation and updates,
    secrets, the bot's audience and its token, teardown and deletion.  An endpoint commits
    at its end ([transaction]).  The column [project_spec], and the tables no modelled
    endpoint reads (analytics, RAG, ports, health history), are left out. *)

From S2P Require Import Prelude Vocabulary Contracts Docs Db Api ApiTasks ApiStories ApiRuns BotAccess Crypto EnvContract.
From S2P Require Import Github GithubActions Placement World SchedulerClient ApiActions ProjectConfig TelegramTokens.
From Stdlib Require Import Ascii.

#[export] Instance Repository_rebuild : Rebuild Repository := λ r,
  mkRepository (rp_id r) (rp_project_id r) (rp_name r) (rp_git_url r) (rp_role r) (rp_acceptance_criteria r)
    (rp_bot_username r) (rp_created_at r).
Definition put_project (p : Project) : Database → Database := λ db, db <| projects ::= <[p.(p_id) := p]> |>.
Definition put_repository (r : Repository) : Database → Database :=
  λ db, db <| repositories ::= <[r.(rp_id) := r]> |>.
Definition repositories_of (db : Database) (project_id : string) : list Repository :=
  filter (λ r, rp_project_id r = project_id) (map_to_list (repositories db)).*2.
Definition applications_of (db : Database) (project_id : string) : list Application :=
  filter (λ a, a_repo_id a ∈ rp_id <$> repositories_of db project_id) (map_to_list (applications db)).*2.

(** ** Access *)

Definition load_locked_project (project_id : string) : M Database Project :=
  row ← gets (λ db, projects db !! project_id); some_or NOT_FOUND row.
Definition check_project_access (project : Project) (c : caller) : M Database unit :=
  actor ← resolve_actor c;
  match actor with
  | None => mret tt
  | Some u => guard_not (negb u.(u_is_admin) && negb (p_owner_id project =? u.(u_id))) (HTTPException 403)
  end.
(** The row a caller may change. *)
Definition accessible_project (c : caller) (project_id : string) : M Database Project :=
  project ← load_locked_project project_id; check_project_access project c;; mret project.

(** ** Creation *)

Record ProjectCreate := mkProjectCreate {
  pc_id : option string;
  pc_title : string;
  pc_status : ProjectStatus.t;
  pc_config : mapping;
  pc_initiating_run_id : string;
}.
(** [project_id.hex] *)
Definition uuid_hex (id : string) : string :=
  String.string_of_list_ascii (filter (λ c, c ≠ "-"%char) (String.list_ascii_of_string id)).
(** The rows an INSERT of a project may not collide with. *)
Definition project_is_free (db : Database) (p : Project) : bool :=
  bool_decide (projects db !! p_id p = None) &&
  forallb (λ q, negb (bool_decide (p_slug q = p_slug p))) (map_to_list (projects db)).*2 &&
  bool_decide (is_Some (users db !! p_owner_id p)).
(** [uuid] is the draw for a project that names no id. *)
Definition create_project (default_agent_type : AgentType.t) (uuid : string) (x_telegram_id : option Z)
    (project_in : ProjectCreate) : M Database Project :=
  transaction (
    let project_id := default uuid (pc_id project_in) in
    taken ← gets (λ db, bool_decide (is_Some (pc_id project_in)) && bool_decide (is_Some (projects db !! project_id)));
    guard_not taken (HTTPException 400);;
    guard_not (match x_telegram_id with Some t => t =? 0 | None => true end) (HTTPException 400);;
    user ← gets (λ db, snd <$> list_find (λ u, Some u.(u_telegram_id) = x_telegram_id) (map_to_list db.(users)).*2);
    user ← some_or NOT_FOUND user;
    slug ← of_res (generate_project_slug (pc_title project_in) (uuid_hex project_id));
    config ← of_res (initial_project_config default_agent_type (pc_config project_in));
    config ← of_res (vet_config_write config None);
    let project := mkProject project_id (pc_title project_in) slug (value (pc_status project_in))
                     (Some (pc_initiating_run_id project_in)) config user.(u_id) in
    free ← gets (λ db, project_is_free db project);
    guard_not (negb free) IntegrityError;;
    modify (put_project project);;
    mret project).

(** ** Releasing a bot ([utils/telegram_binding.py]) *)

Section projects.
Context `{Fernet} (nonce : string → string).

(** The name that is released, if any name was. *)
Definition release_bot_binding (project_id : string) (repos : list Repository) : M Database (option string) :=
  let bound := filter (λ r, is_Some (rp_bot_username r)) repos in
  fold_m (λ _ r, modify (put_repository (r <| rp_bot_username := None |>))) tt bound;;
  project ← load_locked_project project_id;
  dropped ← of_res (drop_bot_secrets nonce (p_config project));
  match dropped with
  | Some config => modify (put_project (project <| p_config := config |>))
  | None => mret tt
  end;;
  mret (r ← last bound; rp_bot_username r).
Definition release_bot_if_archived (project : Project) : M Database unit :=
  if decide (p_status project = value ProjectStatus.ARCHIVED) then
    repos ← gets (λ db, repositories_of db (p_id project));
    release_bot_binding (p_id project) repos;; mret tt
  else mret tt.

(** ** Updates *)

Record ProjectUpdate := mkProjectUpdate {
  pu_title : option string; pu_status : option ProjectStatus.t; pu_config : option mapping }.
Definition update_project (c : caller) (project_id : string) (u : ProjectUpdate) : M Database Project :=
  transaction (
    stored ← accessible_project c project_id;
    let project := stored <| p_title := default (p_title stored) (pu_title u) |> in
    let project := project <| p_status := match pu_status u with Some s => value s | None => p_status project end |> in
    config ← (match pu_config u with
              | Some config => of_res (vet_config_write config (Some project))
              | None => mret (p_config project)
              end);
    let project := project <| p_config := config |> in
    modify (put_project project);;
    release_bot_if_archived project;;
    load_locked_project project_id).
(** [patch_project] is the same, word for word. *)
Definition patch_project := update_project.

(** ** Secrets *)

(** Write what a rule makes of the configuration. *)
Definition write_config {A} (project : Project) (rule : mapping → res (mapping * A)) : M Database A :=
  '(config, a) ← of_res (rule (p_config project));
  modify (put_project (project <| p_config := config |>));;
  mret a.

Definition merge_secrets (c : caller) (project_id : string) (secrets hints : list (string * string))
    : M Database (list string) :=
  transaction (
    guard_not (bool_decide (secrets = [])) UNPROCESSABLE;;
    of_res (reject_bot_token_writes secrets);;
    of_res (reject_legacy_bot_access_writes secrets);;
    project ← accessible_project c project_id;
    write_config project (λ config, merge_secrets_into nonce config secrets hints)).
(** The body is a [BotAccessRequest]. *)
Definition set_bot_access (c : caller) (project_id mode allowed_telegram_ids : string) : M Database unit :=
  transaction (
    guard_not (negb (bot_access_valid mode allowed_telegram_ids)) UNPROCESSABLE;;
    project ← accessible_project c project_id;
    write_config project (λ config,
      config ← set_bot_access_config nonce mode allowed_telegram_ids config; Ok (config, tt))).
Definition delete_secret (c : caller) (project_id key : string) : M Database (list string) :=
  transaction (
    project ← accessible_project c project_id;
    write_config project (delete_secret_config nonce key)).

(** ** The bot token *)

Section telegram.
Context `{PyRepr} (telegram : Telegram) (json_error : string).

Definition primary_repository (db : Database) (project_id : string) : option Repository :=
  snd <$> list_find (λ r, rp_role r = "primary") (repositories_of db project_id).
Definition bot_secrets (token bot_username : string) : list (string * string) :=
  [(TELEGRAM_TOKEN_KEY, strip token); (TELEGRAM_USERNAME_KEY, bot_username)].
Definition bot_hints : list (string * string) :=
  [(TELEGRAM_TOKEN_KEY, "Telegram bot token from @BotFather");
   (TELEGRAM_USERNAME_KEY, "Bot username (without @) for building t.me links and smoke tests")].
(** What is committed once the verdict is there. *)
Definition bind_bot (project_id token : string) (verdict : TelegramTokenVerdict) : M Database TelegramTokenVerdict :=
  project ← load_locked_project project_id;
  repo ← gets (λ db, primary_repository db project_id);
  repo ← some_or CONFLICT repo;
  bot_username ← some_or AttributeError (tv_bot_username verdict);
  write_config project (λ config, merge_secrets_into nonce config (bot_secrets token bot_username) bot_hints);;
  modify (put_repository (repo <| rp_bot_username := Some bot_username |>));;
  mret verdict.
Definition bind_telegram_token (c : caller) (project_id token : string) : M Database TelegramTokenVerdict :=
  transaction (
    project ← accessible_project c project_id;
    db ← gets id;
    verdict ← of_res (validate_telegram_token telegram json_error db project token);
    if tv_rejected verdict then mret verdict else bind_bot project_id token verdict).

Definition check_telegram_bot_liveness (c : caller) (project_id : string) : M Database BotLiveness :=
  require_internal_or_admin c;;
  project ← load_locked_project project_id;
  secrets ← of_res (existing_secrets (p_config project));
  let token := get TELEGRAM_TOKEN_KEY secrets in
  if negb (doc_truthy token) then
    mret (mkLiveness NO_TOKEN None None ("project " +:+ project_id +:+ " holds no " +:+ TELEGRAM_TOKEN_KEY))
  else
    of_res (bot_liveness telegram (py_str token)).
End telegram.

(** ** Applications ([routers/applications.py]) *)

(** A project is empty when every application of it is down. *)
Definition still_up (db : Database) (project_id : string) : list Application :=
  filter (λ a, a_status a ≠ value ApplicationStatus.NOT_DEPLOYED) (applications_of db project_id).
Definition release_bot_if_undeployed (application : Application) : M Database unit :=
  if decide (a_status application = value ApplicationStatus.NOT_DEPLOYED) then
    row ← gets (λ db, repositories db !! a_repo_id application);
    repo ← some_or AttributeError row;
    up ← gets (λ db, still_up db (rp_project_id repo));
    if bool_decide (up = []) then
      repos ← gets (λ db, repositories_of db (rp_project_id repo));
      release_bot_binding (rp_project_id repo) repos;; mret tt
    else mret tt
  else mret tt.
(** [status]: the other fields an update may carry are measurements. *)
Definition update_application (application_id : Z) (status : option string) : M Database Application :=
  transaction (
    row ← gets (λ db, applications db !! application_id);
    application ← some_or NOT_FOUND row;
    match status with
    | Some s =>
        let application := application <| a_status := s |> in
        modify (put_application application);;
        release_bot_if_undeployed application;;
        mret application
    | None => mret application
    end).

(** ** Teardown *)

Inductive TeardownStatus := TEARDOWN_PENDING | TEARDOWN_COMPLETED | TEARDOWN_FAILED.
#[global] Instance teardown_status_eq_dec : EqDecision TeardownStatus.
Proof. solve_decision. Defined.
Record ProjectTeardownResult := mkTeardownResult {
  tr_status : TeardownStatus;
  tr_project_status : string;
  tr_pending_application_ids : list Z;
  tr_released_bot_username : option string;
  tr_error : option string;
}.

Definition load_for_teardown (c : caller) (project_id : string) : M Database (Project * list Application) :=
  project ← accessible_project c project_id;
  apps ← gets (λ db, applications_of db project_id);
  mret (project, apps).

(** The latest undeploy run of an application: its error, if it did not run. *)
Definition stalled_undeploy_error (db : Database) (project_id : string) (application_id : Z) : option string :=
  let ordered := select (map_to_list (runs db)).*2
    (λ r, bool_decide (r_project_id r = Some project_id) && bool_decide (r_type r = "deploy"))
    (λ a b, r_created_at b <=? r_created_at a) in
  match list_find (λ r, r_run_metadata r !! "application_id" = Some (MInt application_id)) ordered with
  | Some (_, run) =>
      if bool_decide (r_status run ∈ [value RunStatus.FAILED; value RunStatus.CANCELLED])
      then Some (if truthy (r_error_message run) then default "" (r_error_message run) else "undeploy failed")
      else None
  | None => None
  end.
(** The error of the first application whose undeploy did not run. *)
Definition first_stalled (db : Database) (project_id : string) (just_staged pending : list Z) : option string :=
  head (omap (λ id, if decide (id ∈ just_staged) then None else stalled_undeploy_error db project_id id) pending).
Definition teardown_state (project_id : string) (application_ids just_staged : list Z)
    : M Database ProjectTeardownResult :=
  project ← load_locked_project project_id;
  db ← gets id;
  let pending := a_id <$> filter (λ a, a_status a ≠ value ApplicationStatus.NOT_DEPLOYED)
                   (omap (λ id, applications db !! id) application_ids) in
  match first_stalled db project_id just_staged pending with
  | Some error =>
      some_or ValueError (member_of (A:=ProjectStatus.t) (p_status project));;
      mret (mkTeardownResult TEARDOWN_FAILED (p_status project) pending None (Some error))
  | None =>
      if negb (bool_decide (pending = [])) then
        some_or ValueError (member_of (A:=ProjectStatus.t) (p_status project));;
        mret (mkTeardownResult TEARDOWN_PENDING (p_status project) pending None None)
      else
        modify (put_project (project <| p_status := value ProjectStatus.ARCHIVED |>));;
        repos ← gets (λ db, repositories_of db project_id);
        released ← release_bot_binding project_id repos;
        mret (mkTeardownResult TEARDOWN_COMPLETED (value ProjectStatus.ARCHIVED) [] released None)
  end.

Definition UNRESOLVED_REASON : string := "recipient unresolved: project owner has no telegram id".
(** Whether an application is sent down: it may be, or its undeploy did not run. *)
Definition sends_down (db : Database) (project_id : string) (application : Application) : res bool :=
  match member_of (A:=ApplicationStatus.t) (a_status application) with
  | None => Exc ValueError
  | Some s =>
      Ok (bool_decide (s ∈ UNDEPLOYABLE_STATUSES) ||
          bool_decide (s = ApplicationStatus.UNDEPLOYING) &&
          bool_decide (is_Some (stalled_undeploy_error db project_id (a_id application))))
  end.
Definition stage_one (now : Z) (hex : nat → string) (project_id chat : string)
    (staged : list DeployMessage * list Z) (application : Application) : M Database (list DeployMessage * list Z) :=
  db ← gets id;
  down ← of_res (sends_down db project_id application);
  if down : bool then
    msg ← stage_undeploy now (hex (length staged.1)) application project_id DeployTrigger.PO chat
            (if decide (chat = "") then UNRESOLVED_REASON else "");
    mret (staged.1 ++ [msg], staged.2 ++ [a_id application])
  else mret staged.
(** What the request commits, and the messages it publishes then. *)
Definition teardown_rows (now : Z) (hex : nat → string) (c : caller) (project_id chat : string)
    : M Database (ProjectTeardownResult * list DeployMessage) :=
  transaction (
    '(_, apps) ← load_for_teardown c project_id;
    '(messages, staged) ← fold_m (stage_one now hex project_id chat) ([], []) apps;
    state ← teardown_state project_id (a_id <$> apps) staged;
    mret (state, messages)).
Definition teardown_project (c : caller) (project_id : string) : M World ProjectTeardownResult :=
  _ ← on_db (λ _, load_for_teardown c project_id);
  chat ← resolve_project_chat_id project_id "project_teardown" "";
  hex ← gets (λ w n, w.(uuids) (w.(drawn) + n)%nat);
  '(state, messages) ← on_db (λ now, teardown_rows now hex c project_id chat);
  modify (λ w, w <| drawn ::= λ n, (n + length messages)%nat |>);;
  fold_m (λ _ m, handler_publish DEPLOY_QUEUE (DeployMsg m)) tt messages;;
  mret state.
Definition get_teardown_status (c : caller) (project_id : string) : M Database ProjectTeardownResult :=
  transaction (
    '(_, apps) ← load_for_teardown c project_id;
    teardown_state project_id (a_id <$> apps) []).

(** ** Deletion *)

(** A DELETE: refused when a row that stays refers to a row that went. *)
Definition delete_statement (f : Database → Database) (refers : Database → Database → bool) : M Database unit :=
  old ← gets id;
  modify f;;
  new ← gets id;
  guard_not (refers old new) IntegrityError.
Definition gone {K A} `{Countable K} (old new : gmap K A) (key : K) : bool :=
  bool_decide (is_Some (old !! key)) && bool_decide (new !! key = None).
Definition maybe_gone {K A} `{Countable K} (old new : gmap K A) (key : option K) : bool :=
  match key with Some key => gone old new key | None => false end.
Abbreviation rows m := (map_to_list m).*2.
Definition delete_project_records (project_id : string) : M Database unit :=
  repo_ids ← gets (λ db, rp_id <$> repositories_of db project_id);
  app_ids ← gets (λ db, a_id <$> applications_of db project_id);
  task_ids ← gets (λ db, t_id <$> filter (λ t, t_project_id t = project_id) (rows (tasks db)));
  delete_statement (λ db, db <| runs ::= filter (λ p, r_project_id p.2 ≠ Some project_id) |>)
    (λ old new, existsb (λ g, gone (runs old) (runs new) (g_qa_run_id g)) (rows (grants new)));;
  delete_statement (λ db, db <| task_events ::= filter (λ e, te_task_id e ∉ task_ids) |>) (λ _ _, false);;
  delete_statement (λ db, db <| tasks ::= filter (λ p, t_project_id p.2 ≠ project_id) |>)
    (λ old new,
      existsb (λ t, maybe_gone (tasks old) (tasks new) (t_blocked_by_task_id t)) (rows (tasks new)) ||
      existsb (λ e, gone (tasks old) (tasks new) (te_task_id e)) (task_events new) ||
      existsb (λ r, maybe_gone (tasks old) (tasks new) (r_task_id r)) (rows (runs new)));;
  delete_statement (λ db, db <| stories ::= filter (λ p, s_project_id p.2 ≠ project_id) |>)
    (λ old new,
      existsb (λ s, maybe_gone (stories old) (stories new) (s_parent_story_id s) ||
                    maybe_gone (stories old) (stories new) (s_blocked_by_story_id s)) (rows (stories new)) ||
      existsb (λ t, maybe_gone (stories old) (stories new) (t_story_id t)) (rows (tasks new)) ||
      existsb (λ r, maybe_gone (stories old) (stories new) (r_story_id r)) (rows (runs new)));;
  delete_statement (λ db, db <| brainstorms ::= filter (λ p, p.2 ≠ project_id) |>)
    (λ old new, existsb (λ t, maybe_gone (brainstorms old) (brainstorms new) (t_source_brainstorm_id t)) (rows (tasks new)));;
  delete_statement
    (λ db, db <| deployments ::= filter (λ p, dp_application_id p.2 ∉ Some <$> app_ids) |>)
    (λ _ _, false);;
  delete_statement (λ db, db <| applications ::= filter (λ p, a_repo_id p.2 ∉ repo_ids) |>)
    (λ old new, existsb (λ d, maybe_gone (applications old) (applications new) (dp_application_id d)) (rows (deployments new)));;
  delete_statement (λ db, db <| repositories ::= filter (λ p, rp_project_id p.2 ≠ project_id) |>)
    (λ old new,
      existsb (λ a, gone (repositories old) (repositories new) (a_repo_id a)) (rows (applications new)) ||
      existsb (λ t, maybe_gone (repositories old) (repositories new) (t_repository_id t)) (rows (tasks new))).
Definition delete_project_row (project_id : string) : M Database unit :=
  delete_statement (λ db, db <| projects ::= delete project_id |>)
    (λ old new,
      let lost := gone (projects old) (projects new) in
      existsb (λ g, lost (g_project_id g)) (rows (grants new)) ||
      existsb (λ r, match r_project_id r with Some p => lost p | None => false end) (rows (runs new)) ||
      existsb (λ t, lost (t_project_id t)) (rows (tasks new)) ||
      existsb (λ s, lost (s_project_id s)) (rows (stories new)) ||
      existsb (λ r, lost (rp_project_id r)) (rows (repositories new)) ||
      existsb lost (rows (brainstorms new))).
Definition delete_project (c : caller) (project_id : string) : M Database unit :=
  transaction (
    _ ← accessible_project c project_id;
    delete_project_records project_id;;
    delete_project_row project_id).
End projects.
