(* ===== verification/ProjectSafety.v ===== *)
(** * ProjectSafety: what the project endpoints guarantee together

    The audience of every bot stays the one its owner chose, and the secrets of a project
    are a map that each endpoint changes as it says, over any sequence of the endpoints of
    [Projects]; what a binding, a teardown and a deletion leave. *)

From S2P Require Import Prelude Vocabulary Contracts Docs Db Api ApiTasks ApiRuns BotAccess Crypto EnvContract Github GithubActions.
From S2P Require Import Placement World SchedulerClient ApiActions ProjectConfig ProjectRules TelegramTokens Projects.

(** ** One row changes *)

Definition projects_keyed (db : Database) : Prop := ∀ id p, projects db !! id = Some p → p_id p = id.
(** The row of the project changed from [P]'s left to its right, and no other row. *)
Definition changes (id : string) (P : Project → Project → Prop) (db db' : Database) : Prop :=
  projects_keyed db → projects_keyed db' ∧ (∀ j, j ≠ id → projects db' !! j = projects db !! j) ∧
  ∃ p p', projects db !! id = Some p ∧ projects db' !! id = Some p' ∧ P p p'.

Lemma changes_put id p p' (P : Project → Project → Prop) db :
  projects db !! id = Some p → p_id p' = p_id p → P p p' → changes id P db (put_project p' db).
Proof.
  intros Hp Hid HP Hk. pose proof (Hk _ _ Hp) as Hi. unfold put_project. cbn.
  split_and!.
  - intros j q. cbn. rewrite lookup_insert_Some. intros [[<- <-]|[_ Hq]]; [congruence|by apply Hk].
  - intros j Hj. cbn. rewrite lookup_insert_ne; [done|congruence].
  - exists p, p'. cbn. rewrite <-Hi, Hid in *. by rewrite Hp, lookup_insert, decide_True.
Qed.
Lemma changes_same id (P : Project → Project → Prop) p db db' :
  projects db !! id = Some p → projects db' = projects db → P p p → changes id P db db'.
Proof. intros Hp He HP Hk. unfold projects_keyed. rewrite He. split_and!; [done|done|by exists p, p]. Qed.
Lemma changes_trans id (P Q R : Project → Project → Prop) db db1 db2 :
  changes id P db db1 → changes id Q db1 db2 → (∀ p q r, P p q → Q q r → R p r) → changes id R db db2.
Proof.
  intros H1 H2 HR Hk. destruct (H1 Hk) as (Hk1 & Ho1 & p & q & Hp & Hq & HP).
  destruct (H2 Hk1) as (Hk2 & Ho2 & q' & r & Hq' & Hr & HQ). simplify_eq.
  split_and!; [done| |by eauto 6]. intros j Hj. by rewrite Ho2, Ho1.
Qed.
Lemma changes_mono id (P Q : Project → Project → Prop) db db' :
  changes id P db db' → (∀ p q, P p q → Q p q) → changes id Q db db'.
Proof. intros HP Himp Hk. destruct (HP Hk) as (? & ? & ? & ? & ? & ? & ?). eauto 8. Qed.

(** ** What each endpoint commits *)

Lemma wp_accessible c id (Q : res Project → Database → Prop) db :
  (∀ p, projects db !! id = Some p → Q (Ok p) db) → (∀ e, Q (Exc e) db) → wp (accessible_project c id) Q db.
Proof.
  intros Ho He. unfold accessible_project, load_locked_project. wp_auto; [|done].
  unfold check_project_access. wp_auto. eapply wp_reads; [apply resolve_actor_reads|].
  intros [[u|]|e]; wp_auto; auto.
Qed.

Section projects.
Context `{FernetLaws} (nonce : string → string).

(** What releasing the bot makes of a row. *)
Definition released_row (p p' : Project) : Prop :=
  p_status p' = p_status p ∧ ∃ r, drop_bot_secrets nonce (p_config p) = Ok r ∧ p_config p' = default (p_config p) r.

(** Of these repositories, those that named a bot name none now, and the other rows stay. *)
Definition bots_gone (repos : list Repository) (db db' : Database) : Prop :=
  applications db' = applications db ∧
  ∀ k r, repositories db' !! k = Some r →
    rp_bot_username r = None ∧ (∃ r0, r0 ∈ repos ∧ rp_id r0 = k) ∨
    repositories db !! k = Some r ∧ ∀ r0, r0 ∈ repos → is_Some (rp_bot_username r0) → rp_id r0 ≠ k.
Lemma release_loop l db :
  wp (fold_m (λ _ r, modify (put_repository (r <| rp_bot_username := None |>))) tt l)
    (λ r d, projects d = projects db ∧ applications d = applications db ∧ ∀ k x, repositories d !! k = Some x →
       rp_bot_username x = None ∧ (∃ r0, r0 ∈ l ∧ rp_id r0 = k) ∨
       repositories db !! k = Some x ∧ ∀ r0, r0 ∈ l → rp_id r0 ≠ k) db.
Proof.
  revert db. induction l as [|r l IH]; intros db; cbn.
  { apply wp_ret. split_and!; [done..|]. right. split; [done|]. by intros r0 ?%elem_of_nil. }
  apply wp_bind, wp_modify. cbn [on_ok]. eapply wp_mono; [apply IH|]. cbn. intros res d (-> & -> & Hd). split_and!; [done..|].
  intros k x Hx. destruct (Hd k x Hx) as [(Hn & r0 & Hin & Hk)|[Hold Hno]].
  - left. split; [done|]. exists r0. by split; [right|].
  - rewrite lookup_insert_Some in Hold. destruct Hold as [[Hk <-]|[Hk Hold]].
    + left. split; [done|]. exists r. by split; [left|].
    + right. split; [done|]. intros r0 [->|Hin]%elem_of_cons; [done|by apply Hno].
Qed.
Lemma wp_release id repos db (Q : res (option string) → Database → Prop) :
  (∀ r db', changes id released_row db db' → bots_gone repos db db' → Q (Ok r) db') → (∀ e db', Q (Exc e) db') →
  wp (release_bot_binding nonce id repos) Q db.
Proof.
  intros Ho He. unfold release_bot_binding. apply wp_bind.
  eapply wp_mono; [apply release_loop|]. intros [[]|e] d (Hd & Hap & Hr); [|apply He]. cbn [on_ok].
  assert (bots_gone repos db d) as Hgone.
  { split; [done|]. intros k x Hx. destruct (Hr k x Hx) as [(? & r0 & [_ Hin]%list_elem_of_filter & Hk)|[Hold Hno]].
    - left. split; [done|by exists r0].
    - right. split; [done|]. intros r0 Hin Hs. apply Hno. by apply list_elem_of_filter. }
  unfold load_locked_project. wp_auto; try (by apply He).
  all: apply Ho; cbn beta in *; rewrite Hd in *; try done.
  - eapply (changes_trans id (λ p q, q = p)); [by apply (changes_same _ _ a _ d)| |].
    { apply (changes_put _ a); [by rewrite Hd|done|]. instantiate (1 := λ p p', released_row p p'). by split; [|eexists]. }
    by intros p q r -> ?.
  - apply (changes_same _ _ a); [done..|]. by split; [|eexists].
Qed.

(** What an update writes, before a release. *)
Definition updated_row (u : ProjectUpdate) (p q : Project) : Prop :=
  p_status q = match pu_status u with Some s => value s | None => p_status p end ∧
  match pu_config u with
  | Some config => ∃ p0, p_config p0 = p_config p ∧ vet_config_write config (Some p0) = Ok (p_config q)
  | None => p_config q = p_config p
  end.
Lemma update_row c id u db :
  wp (update_project nonce c id u) (λ r db', match r with
    | Ok _ => changes id (λ p p', ∃ q, updated_row u p q ∧
        if decide (p_status q = value ProjectStatus.ARCHIVED) then released_row q p' else p' = q) db db'
    | Exc _ => db' = db
    end) db.
Proof.
  unfold update_project. apply wp_transaction, wp_bind, wp_accessible; [|done]. intros p Hp. cbn beta iota.
  cbn [on_ok]. match goal with |- context [vet_config_write _ (Some ?x)] => set (q := x) end.
  apply wp_bind.
  assert (wp (match pu_config u with Some config => of_res (vet_config_write config (Some q)) | None => mret (p_config q) end)
    (λ r d, d = db ∧ ∀ config, r = Ok config → updated_row u p (q <| p_config := config |>)) db) as Hvet.
  { unfold updated_row. destruct (pu_config u); wp_auto; split; try done; intros ? [= <-]; split; eauto. }
  eapply wp_mono; [exact Hvet|]. intros [config|e] d [-> Hv]; [|done]. specialize (Hv _ eq_refl). cbn [on_ok].
  set (q' := q <| p_config := config |>) in *.
  assert (changes id (λ x y, updated_row u x q' ∧ y = q') db (put_project q' db)) as Hput by (by apply (changes_put _ p)).
  assert (projects_keyed db → p_id q' = id) as Hid by (intros Hk; exact (Hk _ _ Hp)).
  clearbody q'. apply wp_bind, wp_modify. cbn [on_ok]. unfold release_bot_if_archived.
  apply wp_bind. destruct (decide _) as [Ha|Ha].
  - apply wp_bind, wp_gets. cbn [on_ok]. apply wp_bind, wp_release; [|done]. intros r db' Hrel _.
    unfold load_locked_project. wp_auto; [|done].
    intros Hk. rewrite (Hid Hk) in Hrel. revert Hk. eapply changes_trans; [exact Hput|exact Hrel|]. intros x y z [Hu ->] Hz. exists q'. by rewrite decide_True.
  - unfold load_locked_project. wp_auto; [|done]. eapply changes_mono; [exact Hput|].
    intros x y [Hu ->]. exists q'. by rewrite decide_False.
Qed.

(** A part of the configuration was written by a rule. *)
Definition written_row {A} (rule : mapping → res (mapping * A)) (a : A) (p p' : Project) : Prop :=
  p_status p' = p_status p ∧ rule (p_config p) = Ok (p_config p', a).
Lemma wp_write_config {A} id p (rule : mapping → res (mapping * A)) db (Q : res A → Database → Prop) :
  projects db !! id = Some p →
  (∀ a p', rule (p_config p) = Ok (p_config p', a) → p_id p' = p_id p →
     changes id (written_row rule a) db (put_project p' db) → Q (Ok a) (put_project p' db)) →
  (∀ e, Q (Exc e) db) → wp (write_config p rule) Q db.
Proof.
  intros Hp Ho He. unfold write_config. wp_auto; [|done]. apply Ho; [done..|]. by apply (changes_put _ p).
Qed.
Lemma part_row {A} c id (rule : mapping → res (mapping * A)) db :
  wp (project ← accessible_project c id; write_config project rule)
    (λ r db', ∀ a, r = Ok a → changes id (written_row rule a) db db') db.
Proof.
  apply wp_bind, wp_accessible; [|done]. intros p Hp. cbn [on_ok].
  eapply wp_write_config; [done| |done]. by intros a p' _ _ Hch ? [= <-].
Qed.
Lemma merge_secrets_row c id secrets hints db :
  wp (merge_secrets nonce c id secrets hints) (λ r db', match r with
    | Ok keys => reject_bot_token_writes secrets = Ok tt ∧ reject_legacy_bot_access_writes secrets = Ok tt ∧
        changes id (written_row (λ config, merge_secrets_into nonce config secrets hints) keys) db db'
    | Exc _ => db' = db
    end) db.
Proof.
  unfold merge_secrets. wp_step.
  apply wp_bind, wp_guard_not; [intros _|done]. cbn [on_ok].
  apply wp_bind, wp_of_res; [intros [] Ht|done]. cbn [on_ok].
  apply wp_bind, wp_of_res; [intros [] Hl|done]. cbn [on_ok].
  eapply wp_mono; [apply part_row|]. intros [keys|e] d Hd; [|done]. by split_and!; [..|apply Hd].
Qed.
Lemma set_bot_access_row c id mode ids db :
  wp (set_bot_access nonce c id mode ids) (λ r db', match r with
    | Ok _ => bot_access_valid mode ids = true ∧
        changes id (λ p p', set_bot_access_config nonce mode ids (p_config p) = Ok (p_config p')) db db'
    | Exc _ => db' = db
    end) db.
Proof.
  unfold set_bot_access. wp_step. apply wp_bind, wp_guard_not; [intros Hv|done]. cbn [on_ok].
  eapply wp_mono; [apply part_row|]. intros [[]|e] d Hd; [|done]. split; [by apply negb_false_iff|].
  eapply changes_mono; [by apply Hd|]. intros p q [_ Hq]. apply bind_ok in Hq as (config & Hs & [= <-]). exact Hs.
Qed.
Lemma delete_secret_row c id key db :
  wp (delete_secret nonce c id key) (λ r db', match r with
    | Ok keys => changes id (written_row (delete_secret_config nonce key) keys) db db'
    | Exc _ => db' = db
    end) db.
Proof.
  unfold delete_secret. wp_step. eapply wp_mono; [apply part_row|]. intros [keys|e] d Hd; [by apply Hd|done].
Qed.

(** A binding: refused, or the token and the name are stored, and the primary repository
    names the bot. *)
Definition bound (telegram : Telegram) (json_error id token : string) (verdict : TelegramTokenVerdict)
    (db db' : Database) : Prop :=
  ∃ p repo bot keys, projects db !! id = Some p ∧ primary_repository db id = Some repo ∧
    validate_telegram_token telegram json_error db p token = Ok verdict ∧ tv_rejected verdict = false ∧
    tv_bot_username verdict = Some bot ∧ repositories db' = <[rp_id repo := repo <| rp_bot_username := Some bot |>]> (repositories db) ∧
    changes id (written_row (λ config, merge_secrets_into nonce config (bot_secrets token bot) bot_hints) keys) db db'.
Lemma bind_telegram_token_row telegram json_error c id token db :
  wp (bind_telegram_token nonce telegram json_error c id token) (λ r db', match r with
    | Ok verdict => if tv_rejected verdict then db' = db else bound telegram json_error id token verdict db db'
    | Exc _ => db' = db
    end) db.
Proof.
  unfold bind_telegram_token. wp_step. apply wp_bind, wp_accessible; [|done]. intros p Hp. cbn [on_ok].
  apply wp_bind, wp_gets. cbn [on_ok]. apply wp_bind, wp_of_res; [intros verdict Hv|done]. cbn [on_ok].
  destruct (tv_rejected verdict) eqn:Hr; [apply wp_ret; by rewrite Hr|].
  unfold bind_bot, load_locked_project. wp_auto; try done. simplify_eq.
  apply (wp_write_config id p); [done| |done]. intros keys p' Hrule Hid Hch. wp_auto.
  rewrite Hr. by eexists p, _, _, keys.
Qed.

(** An application went down, a teardown ended: the bot is released, or nothing is. *)
Lemma update_application_row aid status db :
  wp (update_application nonce aid status) (λ r db', match r with
    | Ok _ => projects db' = projects db ∨
        status = Some (value ApplicationStatus.NOT_DEPLOYED) ∧ ∃ id, changes id released_row db db'
    | Exc _ => db' = db
    end) db.
Proof.
  unfold update_application. wp_auto; auto. unfold release_bot_if_undeployed. wp_auto; auto; try (by left).
  apply wp_release; [|done]. intros r d Hrel _. wp_auto. right. split; [by f_equal|]. eexists. exact Hrel.
Qed.

(** What a teardown that is over leaves of the row. *)
Definition torn_row (p p' : Project) : Prop :=
  p_status p' = value ProjectStatus.ARCHIVED ∧
  ∃ r, drop_bot_secrets nonce (p_config p) = Ok r ∧ p_config p' = default (p_config p) r.
(** The applications among these that are not down. *)
Definition pending_of (db : Database) (application_ids : list Z) : list Application :=
  filter (λ a, a_status a ≠ value ApplicationStatus.NOT_DEPLOYED) (omap (λ id, applications db !! id) application_ids).
Lemma teardown_state_row id aids just db (Q : res ProjectTeardownResult → Database → Prop) :
  (∀ s db', tr_status s = TEARDOWN_COMPLETED → tr_project_status s = value ProjectStatus.ARCHIVED →
     pending_of db aids = [] → changes id torn_row db db' → bots_gone (repositories_of db id) db db' → Q (Ok s) db') →
  (∀ s, tr_status s ≠ TEARDOWN_COMPLETED → tr_pending_application_ids s = a_id <$> pending_of db aids →
     pending_of db aids ≠ [] → Q (Ok s) db) →
  (∀ e db', Q (Exc e) db') → wp (teardown_state nonce id aids just) Q db.
Proof.
  intros Hdone Hnot He. unfold teardown_state, load_locked_project.
  apply wp_bind, wp_bind, wp_gets. cbn [on_ok]. apply wp_some_or; [|intros _; apply He]. intros p Hp. cbn [on_ok].
  apply wp_bind, wp_gets. cbn [on_ok Datatypes.id]. fold (pending_of db aids). cbv zeta.
  destruct (first_stalled _ _ _ _) as [error|] eqn:Hf.
  - apply wp_bind, wp_some_or; [intros st _|intros _; apply He]. cbn [on_ok].
    apply wp_ret, Hnot; [done..|]. intros Hno. unfold first_stalled in Hf. by rewrite Hno in Hf.
  - destruct (negb _) eqn:Hpend; rewrite ?negb_true_iff, ?negb_false_iff, ?bool_decide_eq_true, ?bool_decide_eq_false in Hpend.
    { apply wp_bind, wp_some_or; [intros st _|intros _; apply He]. cbn [on_ok].
      apply wp_ret, Hnot; [done..|]. intros Hno. by rewrite Hno in Hpend. }
    apply fmap_nil_inv in Hpend. apply wp_bind, wp_modify. cbn [on_ok]. apply wp_bind, wp_gets. cbn [on_ok].
    apply wp_bind, wp_release; [|intros; apply He]. intros r db' Hrel Hgone. apply wp_ret, Hdone; [done..| |exact Hgone].
    eapply changes_trans; [|exact Hrel|].
    { apply (changes_put _ p (p <| p_status := value ProjectStatus.ARCHIVED |>)
        (λ x y, p_config y = p_config x ∧ p_status y = value ProjectStatus.ARCHIVED)); done. }
    intros x y z [Hc Hs] [Hs' (o & Hd & Hz)]. split; [congruence|]. exists o. rewrite <-Hc. done.
Qed.

Definition same_projects (d d' : Database) : Prop := projects d' = projects d.
#[local] Instance same_projects_preorder : PreOrder same_projects.
Proof. unfold same_projects. split; [done|]. intros ? ? ? -> ->. done. Qed.
Lemma stage_one_projects now hex id chat acc app : guar same_projects (stage_one now hex id chat acc app).
Proof. unfold stage_one, stage_undeploy, add_run. guar_auto; by apply guar_modify. Qed.

Lemma teardown_rows_row now hex c id chat db :
  wp (teardown_rows nonce now hex c id chat) (λ r db', match r with
    | Ok (s, _) => if decide (tr_status s = TEARDOWN_COMPLETED) then changes id torn_row db db' else projects db' = projects db
    | Exc _ => db' = db
    end) db.
Proof.
  unfold teardown_rows, load_for_teardown. wp_step. apply wp_bind, wp_bind, wp_accessible; [|done]. intros p Hp. cbn [on_ok].
  wp_auto. pose proof (guar_fold_m same_projects (stage_one now hex id chat)) as Hfold.
  eapply wp_mono; [apply (proj1 (guar_wp _ _) (Hfold _ _ (stage_one_projects _ _ _ _)))|].
  intros [[messages staged]|e] d Hd; cbn [on_ok]; [|done]. apply wp_bind, teardown_state_row; [| |done].
  - intros s db' Hs _ _ Hch _. apply wp_ret. rewrite decide_True by done.
    eapply changes_trans; [apply (changes_same id (λ x y, x = y) p _ d); [done|exact Hd|done]|exact Hch|]. by intros x y z ->.
  - intros s Hs _ _. apply wp_ret. by rewrite decide_False.
Qed.
Lemma get_teardown_status_row c id db :
  wp (get_teardown_status nonce c id) (λ r db', match r with
    | Ok s => if decide (tr_status s = TEARDOWN_COMPLETED) then changes id torn_row db db' else db' = db
    | Exc _ => db' = db
    end) db.
Proof.
  unfold get_teardown_status, load_for_teardown. wp_step. apply wp_bind, wp_bind, wp_accessible; [|done]. intros p Hp. cbn [on_ok].
  wp_auto. apply teardown_state_row; [| |done].
  - intros s db' Hs _ _ Hch _. by rewrite decide_True.
  - intros s Hs _ _. by rewrite decide_False.
Qed.

(** ** Creation and deletion *)

Lemma create_project_row agent uuid telegram_id body db :
  wp (create_project agent uuid telegram_id body) (λ r db', match r with
    | Ok p => projects db !! p_id p = None ∧ projects db' = <[p_id p := p]> (projects db) ∧
        audience_ok (p_config p) ∧ existing_secrets (p_config p) = Ok []
    | Exc _ => db' = db
    end) db.
Proof.
  unfold create_project. wp_auto; try done.
  match goal with H : negb _ = false |- _ => apply negb_false_iff in H; unfold project_is_free in H; cbn in H end.
  rewrite !andb_true_iff, bool_decide_eq_true in *. destruct_and!.
  match goal with H : vet_config_write _ None = Ok _ |- _ => rename H into Hv end.
  split_and!; [done|done|eapply vet_audience; [|exact Hv]; by left|exact (vet_existing _ _ _ Hv)].
Qed.

(** The statements of a deletion leave the projects alone, but the last. *)
Lemma delete_statement_projects f refers :
  (∀ d, projects (f d) = projects d) → guar same_projects (delete_statement f refers).
Proof. intros Hf. unfold delete_statement. guar_auto; by apply guar_modify. Qed.
Lemma delete_project_row_of c id db :
  wp (delete_project c id) (λ r db', match r with
    | Ok _ => is_Some (projects db !! id) ∧ projects db' = delete id (projects db)
    | Exc _ => db' = db
    end) db.
Proof.
  unfold delete_project. wp_step. apply wp_bind, wp_accessible; [|done]. intros p Hp. cbn [on_ok].
  apply wp_bind. eapply wp_mono.
  { apply (proj1 (guar_wp same_projects _)). unfold delete_project_records. guar_auto; by apply delete_statement_projects. }
  intros [[]|e] d Hd; cbn [on_ok]; [|done]. unfold delete_project_row, delete_statement. wp_auto; [|done].
  cbn. by rewrite Hd.
Qed.

(** ** Every endpoint *)

Inductive ProjectCall :=
| CreateProject (agent : AgentType.t) (uuid : string) (telegram_id : option Z) (body : ProjectCreate)
| UpdateProject (c : caller) (id : string) (u : ProjectUpdate)
| MergeSecrets (c : caller) (id : string) (secrets hints : list (string * string))
| SetBotAccess (c : caller) (id mode ids : string)
| DeleteSecret (c : caller) (id key : string)
| BindToken (telegram : Telegram) (json_error : string) (c : caller) (id token : string)
| CheckBot (telegram : Telegram) (c : caller) (id : string)
| UpdateApplication (application_id : Z) (status : option string)
| Teardown (now : Z) (hex : nat → string) (c : caller) (id chat : string)
| TeardownState (c : caller) (id : string)
| DeleteProject (c : caller) (id : string).
Context `{PyRepr}.
Definition serve_project (call : ProjectCall) : M Database unit :=
  match call with
  | CreateProject agent uuid telegram_id body => create_project agent uuid telegram_id body;; mret tt
  | UpdateProject c id u => update_project nonce c id u;; mret tt
  | MergeSecrets c id secrets hints => merge_secrets nonce c id secrets hints;; mret tt
  | SetBotAccess c id mode ids => set_bot_access nonce c id mode ids
  | DeleteSecret c id key => delete_secret nonce c id key;; mret tt
  | BindToken telegram json_error c id token => bind_telegram_token nonce telegram json_error c id token;; mret tt
  | CheckBot telegram c id => check_telegram_bot_liveness telegram c id;; mret tt
  | UpdateApplication aid status => update_application nonce aid status;; mret tt
  | Teardown now hex c id chat => teardown_rows nonce now hex c id chat;; mret tt
  | TeardownState c id => get_teardown_status nonce c id;; mret tt
  | DeleteProject c id => delete_project c id
  end.

(** A refused request changes nothing; the others, see the lemmas above. *)
Lemma wp_discard {A} (m : M Database A) (P : res A → Database → Prop) (Q : res unit → Database → Prop) db :
  wp m P db → (∀ a d, P (Ok a) d → Q (Ok tt) d) → (∀ e d, P (Exc e) d → Q (Exc e) d) → wp (m;; mret tt) Q db.
Proof. intros Hm Ho He. apply wp_bind. eapply wp_mono; [exact Hm|]. intros [a|e] d Hd; cbn; [apply wp_ret|]; eauto. Qed.

(** The secrets of a project as its endpoints see them: [None] inside where they cannot be
    decrypted. *)
Definition view (config : mapping) : option (gmap string doc) :=
  match existing_secrets config with Ok m => Some (as_map m) | Exc _ => None end.
Definition secrets_of (db : Database) (id : string) : option (option (gmap string doc)) :=
  view ∘ p_config <$> projects db !! id.

(** They were readable, and are what [f] makes of them. *)
Definition becomes (f : gmap string doc → gmap string doc) (old new : option (option (gmap string doc))) : Prop :=
  ∃ m, old = Some (Some m) ∧ new = Some (Some (f m)).



(** ** The audience of every bot *)

Record projects_ok (db : Database) : Prop := {
  po_keyed : projects_keyed db;
  po_audience : ∀ id p, projects db !! id = Some p → audience_ok (p_config p) }.
Lemma projects_ok_same db db' : projects db' = projects db → projects_ok db → projects_ok db'.
Proof. intros He [Hk Ha]. split; unfold projects_keyed; by rewrite He. Qed.
Lemma changes_ok id (P : Project → Project → Prop) db db' :
  changes id P db db' → (∀ p p', P p p' → audience_ok (p_config p) → audience_ok (p_config p')) →
  projects_ok db → projects_ok db'.
Proof.
  intros Hc HP [Hk Ha]. destruct (Hc Hk) as (Hk' & Ho & p & p' & Hp & Hp' & Hpp). split; [done|].
  intros j q Hq. destruct (decide (j = id)) as [->|Hj]; [|by eapply Ha; rewrite <-Ho].
  simplify_eq. eapply HP; [done|]. by eapply Ha.
Qed.
Lemma released_row_audience p p' : released_row p p' → audience_ok (p_config p) → audience_ok (p_config p').
Proof. intros (_ & r & Hd & ->). by eapply drop_bot_audience. Qed.
Lemma torn_row_audience p p' : torn_row p p' → audience_ok (p_config p) → audience_ok (p_config p').
Proof. intros (_ & r & Hd & ->). by eapply drop_bot_audience. Qed.
Lemma merged_row_audience secrets hints keys p p' :
  written_row (λ config, merge_secrets_into nonce config secrets hints) keys p p' →
  audience_ok (p_config p) → audience_ok (p_config p').
Proof. intros [_ Hm]. by eapply merge_audience. Qed.
Lemma updated_row_audience u p q : updated_row u p q → audience_ok (p_config p) → audience_ok (p_config q).
Proof.
  intros [_ Hc] Hok. destruct (pu_config u) as [config|]; [|by rewrite Hc].
  destruct Hc as (p0 & Hp0 & Hv). eapply vet_audience; [|exact Hv]. cbn. by rewrite Hp0.
Qed.
Lemma check_reads telegram c id : reads_only (check_telegram_bot_liveness telegram c id).
Proof. unfold reads_only, check_telegram_bot_liveness, load_locked_project. guar_auto; apply require_internal_or_admin_reads. Qed.
Lemma serve_project_audience call db : projects_ok db → wp (serve_project call) (λ _ db', projects_ok db') db.
Proof.
  intros Hok. destruct call; cbn [serve_project].
  - eapply wp_discard; [apply create_project_row| |by intros e d ->].
    intros p d (Hnew & Hd & Ha & _). split.
    + intros i q. rewrite Hd, lookup_insert_Some. intros [[<- <-]|[_ Hq]]; [done|by apply (po_keyed _ Hok)].
    + intros i q. rewrite Hd, lookup_insert_Some. intros [[<- <-]|[_ Hq]]; [done|by eapply (po_audience _ Hok)].
  - eapply wp_discard; [apply update_row| |by intros e d ->]. intros row d Hc. eapply changes_ok; [exact Hc| |done].
    intros p p' (q & Hu & Hq) Ha. apply updated_row_audience in Hu; [|done].
    destruct (decide _); [by eapply released_row_audience|by subst].
  - eapply wp_discard; [apply merge_secrets_row| |by intros e d ->].
    intros keys d (_ & _ & Hc). eapply changes_ok; [exact Hc|by apply merged_row_audience|done].
  - eapply wp_mono; [apply set_bot_access_row|]. intros [[]|e] d; [|by intros ->]. intros [Hv Hc].
    eapply changes_ok; [exact Hc| |done]. intros p p' Hs _. eapply set_access_audience; [exact Hs|exact Hv].
  - eapply wp_discard; [apply delete_secret_row| |by intros e d ->].
    intros keys d Hc. eapply changes_ok; [exact Hc| |done]. intros p p' [_ Hd]. by eapply delete_audience.
  - eapply wp_discard; [apply bind_telegram_token_row| |by intros e d ->]. intros verdict d. cbn beta iota.
    destruct (tv_rejected verdict); [by intros ->|]. intros (p & repo & bot & keys & _ & _ & _ & _ & _ & _ & Hc).
    eapply changes_ok; [exact Hc|by apply merged_row_audience|done].
  - eapply wp_discard; [apply (wp_reads _ (λ _ d, d = db)); [apply check_reads|done]|by intros _ d ->..].
  - eapply wp_discard; [apply update_application_row| |by intros e d ->]. intros row d [Hd|(_ & id & Hc)].
    + by eapply projects_ok_same.
    + eapply changes_ok; [exact Hc|by apply released_row_audience|done].
  - eapply wp_discard; [apply teardown_rows_row| |by intros e d ->]. intros [st ms] d Hd. cbn beta iota in Hd.
    destruct (decide _); [|by eapply projects_ok_same]. eapply changes_ok; [exact Hd|by apply torn_row_audience|done].
  - eapply wp_discard; [apply get_teardown_status_row| |by intros e d ->]. intros st d Hd. cbn beta iota in Hd.
    destruct (decide _); [|by subst]. eapply changes_ok; [exact Hd|by apply torn_row_audience|done].
  - eapply wp_mono; [apply delete_project_row_of|]. intros [[]|e] d; [|by intros ->]. intros [_ Hd].
    split.
    + intros i q. rewrite Hd, lookup_delete_Some. intros [_ Hq]. by apply (po_keyed _ Hok).
    + intros i q. rewrite Hd, lookup_delete_Some. intros [_ Hq]. by eapply (po_audience _ Hok).
Qed.

(** ** The secrets of a project *)

Lemma view_ok config m : existing_secrets config = Ok m → view config = Some (as_map m).
Proof. unfold view. by intros ->. Qed.
Lemma torn_row_view p p' :
  torn_row p p' → becomes released_secrets (Some (view (p_config p))) (Some (view (p_config p'))).
Proof.
  intros (_ & r & Hd & Hc). apply drop_bot_existing in Hd as (m & m' & Hm & Hm' & He). rewrite <-Hc in Hm'.
  exists (as_map m). by rewrite (view_ok _ _ Hm), (view_ok _ _ Hm'), He.
Qed.

Definition others_keep (id : string) (db db' : Database) : Prop := ∀ j, j ≠ id → secrets_of db' j = secrets_of db j.
Lemma changes_secrets id (P : Project → Project → Prop) (rel : relation (option (option (gmap string doc)))) db db' :
  changes id P db db' → (∀ p p', P p p' → rel (Some (view (p_config p))) (Some (view (p_config p')))) →
  projects_keyed db → rel (secrets_of db id) (secrets_of db' id) ∧ others_keep id db db'.
Proof.
  intros Hc HP Hk. destruct (Hc Hk) as (_ & Ho & p & p' & Hp & Hp' & Hpp). unfold others_keep, secrets_of.
  split; [rewrite Hp, Hp'; cbn; auto|]. intros j Hj. by rewrite Ho.
Qed.


Definition serve_projects (calls : list ProjectCall) (db : Database) : Database :=
  foldl (λ db call, (serve_project call db).2) db calls.
Lemma serve_projects_ok calls db : projects_ok db → projects_ok (serve_projects calls db).
Proof.
  revert db. induction calls as [|call calls IH]; intros db Hok; cbn; [done|].
  apply IH. exact (serve_project_audience call db Hok).
Qed.

(** C7 (invariant): Whatever requests the project endpoints serve, and however they end, the
    audience a bot would be deployed with stays the one its owner chose with
    [set_bot_access]: a project with no choice on record has no audience in its
    [env_overrides], and a project with one has exactly its list of ids there, which names
    somebody unless the bot is public. *)
Theorem bot_audience_is_the_owners_choice calls db id p :
  projects_ok db → projects (serve_projects calls db) !! id = Some p → audience_ok (p_config p).
Proof. intros Hok. apply po_audience, serve_projects_ok, Hok. Qed.


(** ** A bot is held once *)

Ltac res_walk := repeat (res_step; try (simplify_eq/=; done)).
Lemma webhook_rejects telegram json_error token preceding v :
  check_no_webhook telegram json_error token preceding = Ok (inl v) → tv_rejected v = true.
Proof. unfold check_no_webhook. intros Hw. res_walk. Qed.
Lemma poller_rejects telegram token preceding v : check_no_poller telegram token preceding = inl v → tv_rejected v = true.
Proof. unfold check_no_poller. destruct (telegram _ _); [by intros [= <-]|]. destruct (_ =? _); by intros [= <-]. Qed.
Lemma telegram_rejects telegram json_error token format v :
  ask_telegram telegram json_error token format = Ok (inl v) → tv_rejected v = true.
Proof.
  unfold ask_telegram. intros Ha. destruct (telegram _ _) as [|resp]; [by simplify_eq|]. res_walk.
  - simplify_eq. by eapply webhook_rejects.
  - simplify_eq. by eapply poller_rejects.
Qed.
Lemma accepted_holds_none telegram json_error db p token verdict bot :
  validate_telegram_token telegram json_error db p token = Ok verdict → tv_rejected verdict = false →
  tv_bot_username verdict = Some bot → holders db (p_id p) bot = [].
Proof.
  unfold validate_telegram_token. intros Hv Hr Hbot. destruct (negb _); [by simplify_eq|].
  apply bind_ok in Hv as ([v|[name checks]] & Hask & Hv).
  - simplify_eq. apply telegram_rejects in Hask. congruence.
  - unfold check_not_bound_elsewhere in Hv. destruct (holders _ _ _) eqn:Hh; [by simplify_eq/=|].
    destruct (existsb _ _); by simplify_eq/=.
Qed.
Lemma holders_none db id bot key r : holders db id bot = [] → repositories db !! key = Some r → rp_bot_username r = Some bot →
  ∀ p, projects db !! rp_project_id r = Some p → p_id p = id ∨ p_status p = value ProjectStatus.ARCHIVED.
Proof.
  intros Hno Hr Hb p Hp. destruct (decide (p_id p = id)) as [|Hid]; [by left|].
  destruct (decide (p_status p = value ProjectStatus.ARCHIVED)) as [|Hst]; [by right|]. exfalso.
  apply (not_elem_of_nil p). rewrite <-Hno. unfold holders. apply list_elem_of_omap. exists r. split.
  - apply list_elem_of_fmap. exists (key, r). split; [done|]. by apply elem_of_map_to_list.
  - rewrite decide_True by done. cbn. rewrite Hp. cbn. by rewrite !bool_decide_false.
Qed.
Lemma primary_of db id repo : primary_repository db id = Some repo → rp_project_id repo = id.
Proof.
  unfold primary_repository. destruct (list_find _ _) as [[i r]|] eqn:Hf; [|done]. intros [= <-].
  apply list_find_Some in Hf as (Hl & _ & _). apply list_elem_of_lookup_2, list_elem_of_filter in Hl. apply Hl.
Qed.

(** C8 (safety): A bot that was bound to a project is held by no other project that is not
    archived: whatever Telegram answered, an accepted token leaves every repository that
    names its bot with this project or an archived one, the token and the name are among
    the project's secrets, and its primary repository names the bot. *)
Theorem a_bound_bot_is_held_by_one_live_project telegram json_error c id token db verdict db' :
  projects_keyed db → bind_telegram_token nonce telegram json_error c id token db = (Ok verdict, db') →
  tv_rejected verdict = false →
  ∃ bot m, tv_bot_username verdict = Some bot ∧ secrets_of db' id = Some (Some m) ∧
    m !! TELEGRAM_USERNAME_KEY = Some (DStr bot) ∧ m !! TELEGRAM_TOKEN_KEY = Some (DStr (strip token)) ∧
    (∃ repo, repositories db' !! rp_id repo = Some repo ∧ rp_project_id repo = id ∧ rp_bot_username repo = Some bot) ∧
    ∀ key repo p, repositories db' !! key = Some repo → rp_bot_username repo = Some bot →
      projects db' !! rp_project_id repo = Some p → p_id p = id ∨ p_status p = value ProjectStatus.ARCHIVED.
Proof.
  intros Hk Hb Hr. pose proof (bind_telegram_token_row telegram json_error c id token db) as Hw. unfold wp in Hw.
  rewrite Hb in Hw. cbn in Hw. rewrite Hr in Hw.
  destruct Hw as (p & repo & bot & keys & Hp & Hrepo & Hv & _ & Hbot & Hrepos & Hc).
  destruct (Hc Hk) as (Hk' & Ho & p0 & p' & Hp0 & Hp' & Hst & Hm). simplify_eq.
  apply merge_existing in Hm as (m & Hm & Hm'). pose proof (accepted_holds_none _ _ _ _ _ _ _ Hv Hr Hbot) as Hno.
  pose proof (primary_of _ _ _ Hrepo) as Hproj.
  eexists bot, _. unfold secrets_of. rewrite Hp'. cbn. rewrite (view_ok _ _ Hm'), as_map_update. split_and!; [done..| | | |].
  - unfold bot_secrets, insert_texts. cbn. apply lookup_insert_eq.
  - unfold bot_secrets, insert_texts. cbn. by rewrite lookup_insert_ne, lookup_insert_eq by done.
  - exists (repo <| rp_bot_username := Some bot |>). rewrite Hrepos. split_and!; [apply lookup_insert_eq|done..].
  - intros key r q. rewrite Hrepos, lookup_insert_Some. intros [[_ <-]|[_ Hr']] Hrb Hq.
    + left. cbn in Hq. rewrite Hproj in Hq. exact (Hk' _ _ Hq).
    + destruct (decide (rp_project_id r = id)) as [He|Hne]; [left; rewrite He in Hq; exact (Hk' _ _ Hq)|].
      rewrite Ho in Hq by done. rewrite (Hk _ _ Hp) in Hno. by eapply holders_none.
Qed.

(** ** Deletion *)

Lemma wp_delete_statement f refers db (Q : res unit → Database → Prop) :
  (refers db (f db) = false → Q (Ok tt) (f db)) → (∀ e d, Q (Exc e) d) → wp (delete_statement f refers) Q db.
Proof. intros Ho He. unfold delete_statement. wp_auto; auto. Qed.
Definition same_grants (d d' : Database) : Prop := grants d' = grants d ∧ projects d' = projects d.
#[local] Instance same_grants_preorder : PreOrder same_grants.
Proof. unfold same_grants. split; [done|]. intros ? ? ? [-> ->] [-> ->]. done. Qed.
Lemma delete_records_grants id : guar same_grants (delete_project_records id).
Proof. unfold delete_project_records, delete_statement. guar_auto; by apply guar_modify. Qed.

Lemma a_grant_stays c id db key g :
  grants db !! key = Some g → g_project_id g = id → ∃ e, delete_project c id db = (Exc e, db).
Proof.
  intros Hg Hid. assert (wp (delete_project c id) (λ r db', (∃ e, r = Exc e) ∧ db' = db) db) as [[e He] Hd].
  { unfold delete_project. wp_step. apply wp_bind, wp_accessible; [|by cbn; eauto]. intros p Hp. cbn [on_ok]. apply wp_bind.
    eapply wp_mono; [apply (proj1 (guar_wp same_grants _) (delete_records_grants id))|].
    intros [[]|e] d [Hgr Hpr]; cbn [on_ok]; [|eauto]. unfold delete_project_row. apply wp_delete_statement; [|eauto].
    intros Hno. exfalso. rewrite !orb_false_iff in Hno. destruct Hno as [[[[[Hno _] _] _] _] _].
    rewrite <-not_true_iff_false in Hno. apply Hno, existsb_exists. exists g. split.
    - apply list_elem_of_In, list_elem_of_fmap. exists (key, g). split; [done|]. by apply elem_of_map_to_list; cbn; rewrite Hgr.
    - rewrite Hid. unfold gone. cbn. by rewrite Hpr, Hp, lookup_delete_eq, !bool_decide_true. }
  exists e. by rewrite (surjective_pairing (delete_project c id db)), He, Hd.
Qed.

(** C32 (error): A project that a temporary access grant refers to is never deleted:
    no statement of the deletion removes grants, so the request fails, whoever sends it, and
    leaves everything as it was. *)
Theorem a_project_with_a_grant_is_never_deleted c id db key g :
  grants db !! key = Some g → g_project_id g = id → ∃ e, delete_project c id db = (Exc e, db).
Proof. apply a_grant_stays. Qed.



(** ** Teardown *)

Definition down : string := value ApplicationStatus.NOT_DEPLOYED.
Definition rows_keyed (db : Database) : Prop :=
  (∀ id a, applications db !! id = Some a → a_id a = id) ∧ (∀ id r, repositories db !! id = Some r → rp_id r = id).
(** What sending applications down leaves: an application that was up is not down, and where
    none was up, nothing. *)
Definition staging (db : Database) (id : string) (acc : list DeployMessage * list Z) (d : Database) : Prop :=
  projects d = projects db ∧ repositories d = repositories db ∧
  (∀ k a, applications db !! k = Some a → a_status a ≠ down → ∃ a', applications d !! k = Some a' ∧ a_status a' ≠ down) ∧
  (still_up db id = [] → acc.1 = [] ∧ d = db).
Lemma stage_one_staging now hex id chat db acc x d :
  x ∈ applications_of db id → staging db id acc d →
  wp (stage_one now hex id chat acc x) (λ r d', match r with Ok acc' => staging db id acc' d' | Exc _ => True end) d.
Proof.
  intros Hin (Hp & Hr & Ha & Hno). unfold stage_one, stage_undeploy, add_run. wp_auto; try done.
  split_and!; [done..| |].
  - intros k y Hk Hup. cbn. rewrite lookup_insert. destruct (decide (a_id x = k)); [|by apply (Ha k y)]. eexists. by split.
  - intros Hdown. exfalso. destruct (Hno Hdown) as [_ ->].
    assert (a_status x = down) as Hx.
    { apply dec_stable. intros Hne. apply (not_elem_of_nil x). rewrite <-Hdown. by apply list_elem_of_filter. }
    match goal with H : sends_down _ _ _ = Ok true |- _ => unfold sends_down in H; rewrite Hx in H; by vm_compute in H end.
Qed.
Lemma still_up_pending db id d : rows_keyed db →
  (∀ k a, applications db !! k = Some a → a_status a ≠ down → ∃ a', applications d !! k = Some a' ∧ a_status a' ≠ down) →
  pending_of d (a_id <$> applications_of db id) = [] → still_up db id = [].
Proof.
  intros [Hk _] Hup Hno. apply elem_of_nil_inv. intros a [Hst Hin]%list_elem_of_filter.
  pose proof Hin as [_ ([k a'] & -> & Hl%elem_of_map_to_list)%list_elem_of_fmap]%list_elem_of_filter. cbn in *.
  destruct (Hup k a' Hl Hst) as (b & Hb & Hbs). apply (not_elem_of_nil b). rewrite <-Hno. apply list_elem_of_filter.
  split; [done|]. apply list_elem_of_omap. exists k. split; [|done]. apply list_elem_of_fmap. exists a'. by rewrite (Hk _ _ Hl).
Qed.

Lemma nothing_pending db id : rows_keyed db → still_up db id = [] → pending_of db (a_id <$> applications_of db id) = [].
Proof.
  intros [Hk _] Hstill. apply elem_of_nil_inv.
  intros a [Hst (k & [a' [-> Hin]]%list_elem_of_fmap & Hl)%list_elem_of_omap]%list_elem_of_filter.
  apply (not_elem_of_nil a). rewrite <-Hstill. apply list_elem_of_filter. split; [done|].
  pose proof Hin as [_ ([k a2] & -> & Hl'%elem_of_map_to_list)%list_elem_of_fmap]%list_elem_of_filter. cbn in *.
  rewrite (Hk _ _ Hl') in Hl. by simplify_eq.
Qed.

(** C9 (functional): A teardown is over when, and only when, no application of the project
    is up any more: then nothing is sent to the deployer, the project is archived, its bot's
    two secrets are dropped and none of its repositories names a bot.  While one is up,
    the project and its repositories stay as they were. *)
Theorem teardown_is_over_when_nothing_is_up now hex c id chat db s messages db' :
  projects_keyed db → rows_keyed db → teardown_rows nonce now hex c id chat db = (Ok (s, messages), db') →
  (tr_status s = TEARDOWN_COMPLETED ↔ still_up db id = []) ∧
  if decide (tr_status s = TEARDOWN_COMPLETED) then
    messages = [] ∧ changes id torn_row db db' ∧
    (becomes released_secrets (secrets_of db id) (secrets_of db' id)) ∧
    ∀ k r, repositories db' !! k = Some r → rp_project_id r = id → rp_bot_username r = None
  else projects db' = projects db ∧ repositories db' = repositories db.
Proof.
  intros Hk Hrk Hrun.
  assert (wp (teardown_rows nonce now hex c id chat) (λ r db', match r with
    | Ok (s, messages) => (tr_status s = TEARDOWN_COMPLETED ↔ still_up db id = []) ∧
        if decide (tr_status s = TEARDOWN_COMPLETED) then
          messages = [] ∧ changes id torn_row db db' ∧ bots_gone (repositories_of db id) db db'
        else projects db' = projects db ∧ repositories db' = repositories db
    | Exc _ => True end) db) as Hw.
  { unfold teardown_rows, load_for_teardown. wp_step. apply wp_bind, wp_bind, wp_accessible; [|done]. intros p Hp. cbn [on_ok].
    wp_auto. apply (wp_fold_m (staging db id)); [by split_and!; [..|intros; eauto|]| |].
    { intros x acc d Hin Hst. eapply wp_mono; [by apply stage_one_staging|]. by intros [acc'|e] d'. }
    intros [msgs staged] d (Hpr & Hre & Hup & Hdown). cbn [on_ok]. apply wp_bind, teardown_state_row; [| |done].
    - intros t db2 Ht _ Hnone Hch Hgone. apply wp_ret. rewrite decide_True by done.
      assert (still_up db id = []) as Hstill by (eapply still_up_pending; eauto).
      destruct (Hdown Hstill) as [? ->]. by split_and!.
    - intros t Ht _ Hsome. apply wp_ret. rewrite decide_False by done. split; [|by split]. split; [done|].
      intros Hstill. exfalso. apply Hsome. destruct (Hdown Hstill) as [_ ->]. by apply nothing_pending. }
  unfold wp in Hw. rewrite Hrun in Hw. cbn [fst snd] in Hw. destruct Hw as [Hiff Hw]. split; [done|].
  destruct (decide _); [|done]. destruct Hw as (-> & Hch & Happ & Hgone). split_and!; [done..| |].
  - apply (changes_secrets id torn_row (becomes released_secrets) _ _ Hch); [apply torn_row_view|done].
  - intros k r Hr Hid. destruct (Hgone k r Hr) as [[? _]|[Hold Hno]]; [done|].
    destruct (rp_bot_username r) eqn:Hb; [exfalso|done]. apply (Hno r); [|by rewrite Hb|by apply (proj2 Hrk)].
    apply list_elem_of_filter. split; [done|]. apply list_elem_of_fmap. exists (k, r). split; [done|]. by apply elem_of_map_to_list.
Qed.
End projects.

(** ** At work *)

(** A cipher that marks what it seals, and a bot nobody else runs. *)
#[local] Instance sample_fernet : Fernet :=
  {| key_is_set := true; fernet_encrypt := λ _ s, "e" +:+ s;
     fernet_decrypt := λ s, match s with String _ t => Some t | EmptyString => None end |}.
#[local] Instance sample_fernet_laws : FernetLaws.
Proof. by split. Qed.
#[local] Instance sample_repr : PyRepr := λ _, "".
Definition answers (result : doc) : string + http_response :=
  inr (mkResponse 200 ∅ (Some (DMap [("ok", DBool true); ("result", result)])) "").
Definition free_bot : Telegram := λ method _,
  if decide (method = "getMe") then answers (DMap [("username", DStr "echo_bot")])
  else answers (DMap [("url", DStr "")]).
Definition good_token : string := "123456789:AAAAAAAAAAAAAAAAAAAAAAAAAAAAAAAAAAA".

(** Two projects of one owner; the second, archived, still names the bot. *)
Definition sample_project (id status : string) : Project := mkProject id "Echo" ("slug-" +:+ id) status (Some "run") [] 1.
Definition sample_db (application : ApplicationStatus.t) : Database :=
  put_application (mkApplication 3 "r1" "srv" "bot" 512 (value application))
    (put_repository (mkRepository "r2" "p2" "echo" "https://git/2" "primary" None (Some "echo_bot") 0)
    (put_repository (mkRepository "r1" "p1" "echo" "https://git/1" "primary" None None 0)
    (put_project (sample_project "p2" "archived") (put_project (sample_project "p1" "active")
      (empty_database <| users := {[ 1 := mkUser 1 42 false ]} |>))))).
Definition owner : caller := mkCaller false (Some 42).
Lemma sample_ok application : projects_ok (sample_db application).
Proof.
  split; intros i p; cbn; rewrite !lookup_insert_Some, lookup_empty; intros [[<- <-]|[_ [[<- <-]|[_ ?]]]]; try done; by left.
Qed.
Lemma sample_rows application : rows_keyed (sample_db application).
Proof.
  split; intros i p; cbn; rewrite ?lookup_insert_Some, ?lookup_empty;
    [by intros [[<- <-]|[_ ?]]|by intros [[<- <-]|[_ [[<- <-]|[_ ?]]]]].
Qed.
Definition nonces : string → string := λ k, k.
Definition first_calls : list ProjectCall :=
  [MergeSecrets owner "p1" [("API_KEY", "k1")] [];
   SetBotAccess owner "p1" "custom" "7,8";
   UpdateProject owner "p1" (mkProjectUpdate None None (Some [("env_overrides", DMap [("TG_BOT_ALLOWED_TELEGRAM_IDS", DStr "")])]));
   BindToken free_bot "" owner "p1" good_token].

Lemma bot_audience_is_the_owners_choice_witness :
  match projects (serve_projects nonces first_calls (sample_db ApplicationStatus.RUNNING)) !! "p1" with
  | Some p => audience_of_config (p_config p) = DStr "7,8" ∧ audience_ok (p_config p)
  | None => False
  end.
Proof.
  destruct (projects _ !! "p1") as [p|] eqn:E; [|vm_compute in E; discriminate E]. split.
  - vm_compute in E. injection E as <-. reflexivity.
  - exact (bot_audience_is_the_owners_choice nonces first_calls _ "p1" p (sample_ok _) E).
Defined.

(** The second write of the configuration above was refused with 422; a token of a bot that
    an archived project names was accepted. *)
Example the_calls_end_as_they_should :
  let db := sample_db ApplicationStatus.RUNNING in
  (serve_project nonces (UpdateProject owner "p1" (mkProjectUpdate None None
     (Some [("env_overrides", DMap [("TG_BOT_ALLOWED_TELEGRAM_IDS", DStr "")])])))
     (serve_projects nonces (take 2 first_calls) db)).1 = Exc UNPROCESSABLE ∧
  secrets_of (serve_projects nonces first_calls db) "p1" = Some (Some
    {[ "API_KEY" := DStr "k1"; TELEGRAM_TOKEN_KEY := DStr good_token; TELEGRAM_USERNAME_KEY := DStr "echo_bot" ]}).
Proof. split; vm_compute; reflexivity. Qed.


Lemma a_bound_bot_is_held_by_one_live_project_witness :
  match bind_telegram_token nonces free_bot "" owner "p1" good_token (sample_db ApplicationStatus.RUNNING) with
  | (Ok verdict, db') => tv_bot_username verdict = Some "echo_bot" ∧
      ∀ key repo p, repositories db' !! key = Some repo → rp_bot_username repo = Some "echo_bot" →
        projects db' !! rp_project_id repo = Some p → p_id p = "p1" ∨ p_status p = "archived"
  | _ => False
  end.
Proof.
  destruct (bind_telegram_token _ _ _ _ _ _ _) as [[verdict|e] db'] eqn:E; [|vm_compute in E; discriminate E].
  assert (tv_rejected verdict = false ∧ tv_bot_username verdict = Some "echo_bot") as [Hr Hb]
    by (vm_compute in E; by injection E as <- _).
  destruct (a_bound_bot_is_held_by_one_live_project nonces free_bot "" owner "p1" good_token _ verdict db'
    (po_keyed _ (sample_ok _)) E Hr) as (bot & m & Hbot & _ & _ & _ & _ & Hheld).
  rewrite Hb in Hbot. injection Hbot as <-. by split.
Defined.

Definition granted_db : Database :=
  put_grant (mkGrant "grant-1" "p1" "ADMIN_ID" "7" "sha" "qa-1" "deploy-1"
    (mkQAMessage "s1" "p1" "deploy-1" "" "https://bot" 3 "- answers" "qa-1" None 0)
    "revoked" 0 None None None None 0 None None None None None 0 None) (sample_db ApplicationStatus.NOT_DEPLOYED).
Lemma a_project_with_a_grant_is_never_deleted_witness :
  (∃ e, delete_project owner "p1" granted_db = (Exc e, granted_db)) ∧
  (delete_project owner "p1" (sample_db ApplicationStatus.NOT_DEPLOYED)).1 = Ok tt.
Proof.
  split; [|by vm_compute].
  destruct (grants granted_db !! "grant-1") as [g|] eqn:E; [|vm_compute in E; discriminate E].
  apply (a_project_with_a_grant_is_never_deleted owner "p1" granted_db "grant-1" g E).
  vm_compute in E. by injection E as <-.
Defined.


(** A bound project, with its application up or down. *)
Definition bound_db (application : ApplicationStatus.t) : Database := serve_projects nonces first_calls (sample_db application).
Lemma bound_keyed application : projects_keyed (bound_db application).
Proof. apply (serve_projects_ok nonces first_calls), sample_ok. Qed.
Lemma rows_keyed_true db :
  forallb (λ p, bool_decide (a_id p.2 = p.1)) (map_to_list (applications db)) = true →
  forallb (λ p, bool_decide (rp_id p.2 = p.1)) (map_to_list (repositories db)) = true → rows_keyed db.
Proof.
  intros Ha Hr. rewrite forallb_forall in Ha, Hr. split; intros id x Hx;
    [specialize (Ha (id, x))|specialize (Hr (id, x))]; rewrite bool_decide_eq_true in *;
    [apply Ha|apply Hr]; by apply list_elem_of_In, elem_of_map_to_list.
Qed.
Definition teardown_of (application : ApplicationStatus.t) : res (ProjectTeardownResult * list DeployMessage) * Database :=
  teardown_rows nonces 0 pretty owner "p1" "42" (bound_db application).
Lemma teardown_is_over_when_nothing_is_up_witness :
  let over := mkTeardownResult TEARDOWN_COMPLETED "archived" [] (Some "echo_bot") None in
  (teardown_of ApplicationStatus.NOT_DEPLOYED).1 = Ok (over, []) ∧
  (∀ k r, repositories (teardown_of ApplicationStatus.NOT_DEPLOYED).2 !! k = Some r →
     rp_project_id r = "p1" → rp_bot_username r = None) ∧
  (λ o, (tr_status o.1, length o.2)) <$> (teardown_of ApplicationStatus.RUNNING).1 = Ok (TEARDOWN_PENDING, 1%nat).
Proof.
  intros over. assert ((teardown_of ApplicationStatus.NOT_DEPLOYED).1 = Ok (over, [])) as Hrun by (by vm_compute).
  assert (rows_keyed (bound_db ApplicationStatus.NOT_DEPLOYED)) as Hrows by (by apply rows_keyed_true; vm_compute).
  split_and!; [exact Hrun| |by vm_compute].
  destruct (teardown_is_over_when_nothing_is_up nonces 0 pretty owner "p1" "42" _ over []
    (teardown_of ApplicationStatus.NOT_DEPLOYED).2 (bound_keyed _) Hrows) as [_ Hdone].
  { rewrite <-Hrun. apply surjective_pairing. }
  by destruct Hdone as (_ & _ & _ & Hgone).
Defined.
