(* ===== verification/OwnerNotifications.v ===== *)
(** * OwnerNotifications: the message a story's ending owes its owner

    [services/scheduler/src/tasks/owner_notifications.py]: the record written on
    the run before a terminal transition, its delivery, and the recovery sweep.
    The last sections prove what the record is for: nothing is published for an
    ending that was not committed, every visit that returns settles the record or
    spends one of its attempts, and a sweep publishes at most what is owed. *)

From S2P Require Import Prelude Vocabulary Contracts Db Api ApiStories ApiRuns Placement.
From S2P Require Import World SchedulerClient Recipients.

(** The text of an exception, [f"{type(exc).__name__}: {exc}"]: it belongs to the
    libraries that raise it. *)
Class ExceptionTexts := exc_text : exn → string.

Definition OWNER_NOTIFICATION_MAX_ATTEMPTS : Z := 3.
Definition OWNER_NOTIFICATION_PAGE : Z := 100.

Inductive OwnerNotificationOutcome :=
| DELIVERED | RETRYING | EXHAUSTED | UNADDRESSABLE | VOIDED | SKIPPED.
#[export] Instance OwnerNotificationOutcome_eq_dec : EqDecision OwnerNotificationOutcome.
Proof. solve_decision. Defined.

(** [counts], and [counts[outcome.value] += 1]. *)
Definition OutcomeCounts := OwnerNotificationOutcome → Z.
Definition empty_counts : OutcomeCounts := λ _, 0.
Definition count_outcome (o : OwnerNotificationOutcome) (counts : OutcomeCounts) : OutcomeCounts :=
  λ o', if decide (o' = o) then counts o' + 1 else counts o'.

(** [_write_record]: the API merges the metadata. *)
Definition write_record (run_id : string) (record : OwnerNotification) : M World unit :=
  api_update_run run_id
    (no_update <| ru_run_metadata := Some {[ OWNER_NOTIFICATION_KEY := MNotification record ]} |>).

Definition read_owner_notification (run : Run) : M World (option OwnerNotification) :=
  match meta_get OWNER_NOTIFICATION_KEY run.(r_run_metadata) with
  | None => mret None
  | Some (MNotification r) => mret (Some r)
  | Some _ => raise ValidationError
  end.

Definition owe_owner_notification (run : Run) (event text story_id project_id : string)
    (terminal_status : StoryStatus.t) (task_id : option string) : M World OwnerNotification :=
  existing ← read_owner_notification run;
  match existing with
  | Some r =>
      if decide (r.(on_state) = OwnerNotificationState.VOIDED) then
        owed_at ← now;
        let record := mkOwnerNotification event text story_id project_id terminal_status task_id
                        OwnerNotificationState.OWED owed_at 0 None in
        write_record run.(r_id) record;;
        mret record
      else mret r
  | None =>
      owed_at ← now;
      let record := mkOwnerNotification event text story_id project_id terminal_status task_id
                      OwnerNotificationState.OWED owed_at 0 None in
      write_record run.(r_id) record;;
      mret record
  end.

(** The record [_settle] writes. *)
Definition settled_record (record : OwnerNotification) (state : OwnerNotificationState.t)
    (detail : option string) (attempts : option Z) : OwnerNotification :=
  record <| on_state := state |> <| on_detail := detail |>
         <| on_attempts := default record.(on_attempts) attempts |>.

Definition settle (run_id : string) (record : OwnerNotification)
    (state : OwnerNotificationState.t) (detail : option string) (attempts : option Z)
    : M World unit :=
  write_record run_id (settled_record record state detail attempts).

Definition abandon (run_id : string) (record : OwnerNotification) (attempts : Z) (error : string)
    : M World unit :=
  settle run_id record OwnerNotificationState.ABANDONED (Some error) (Some attempts);;
  notify_admins_best_effort (
    "Owner notification undelivered after " +:+ pretty attempts +:+ " attempts: event=" +:+
    record.(on_event) +:+ " story=" +:+ record.(on_story_id) +:+ " project=" +:+
    record.(on_project_id) +:+ " run=" +:+ run_id +:+ ": " +:+ error).

Definition spend_failed_attempt (run_id : string) (record : OwnerNotification) (attempts : Z)
    (error : string) : M World OwnerNotificationOutcome :=
  if OWNER_NOTIFICATION_MAX_ATTEMPTS <=? attempts then
    abandon run_id record attempts error;; mret EXHAUSTED
  else
    settle run_id record OwnerNotificationState.OWED (Some error) (Some attempts);;
    mret RETRYING.

(** The [POSystemEvent] of a record: PO answers about the task it names, if any. *)
Definition owed_event (record : OwnerNotification) (chat owner : string) : POSystemEvent :=
  mkPOSystemEvent record.(on_event) record.(on_text)
    (default record.(on_story_id) record.(on_task_id)) chat owner record.(on_story_id)
    record.(on_project_id).

Definition deliver_owed_notification `{ExceptionTexts} (run_id : string)
    (record : OwnerNotification) : M World OwnerNotificationOutcome :=
  if negb (owed record) then mret SKIPPED
  else
    let attempts := record.(on_attempts) + 1 in
    read ← attempt (api_get_story record.(on_story_id));
    match read with
    | Exc exc => spend_failed_attempt run_id record attempts (exc_text exc)
    | Ok story =>
        if negb (bool_decide (story.(s_status) = value record.(on_terminal_status))) then
          settle run_id record OwnerNotificationState.VOIDED
            (Some ("story is " +:+ story.(s_status) +:+ ", not " +:+
                   value record.(on_terminal_status))) None;;
          mret VOIDED
        else
          sent ← attempt (
            recipient ← resolve_project_recipient record.(on_project_id) record.(on_event)
                          record.(on_story_id);
            if negb (is_addressable recipient) then
              settle run_id record OwnerNotificationState.UNADDRESSABLE
                (Some recipient.(rcp_unaddressed_reason)) (Some attempts);;
              mret (Some UNADDRESSABLE)
            else
              publish PO_INPUT_QUEUE (POSystemEventMsg
                (owed_event record recipient.(rcp_telegram_chat_id)
                   recipient.(rcp_owner_user_id)));;
              mret None);
          match sent with
          | Exc exc => spend_failed_attempt run_id record attempts (exc_text exc)
          | Ok (Some outcome) => mret outcome
          | Ok None =>
              settle run_id record OwnerNotificationState.DELIVERED None (Some attempts);;
              mret DELIVERED
          end
    end.

(** The body of the sweep's loop. *)
Definition sweep_one `{ExceptionTexts} (counts : OutcomeCounts) (run : Run)
    : M World OutcomeCounts :=
  record ← read_owner_notification run;
  match record with
  | None => raise RuntimeError
  | Some record =>
      outcome ← deliver_owed_notification run.(r_id) record;
      mret (count_outcome outcome counts)
  end.

Definition supervise_owed_owner_notifications `{ExceptionTexts} : M World OutcomeCounts :=
  rows ← api_list_runs_owing_owner_notification OWNER_NOTIFICATION_PAGE;
  fold_m sweep_one empty_counts rows.

(** ** Specification of one visit

    What a visit to a record may come to, seen from outside: the outcome it
    answers, the record it leaves and the events it published.  [committed] says
    whether the story is in the status the record was written for, [chat] which
    chat its owner reads. *)

(** A transient failure: nothing went out, or the event went out and the answer
    was lost. *)
Definition attempted (record : OwnerNotification) (committed : bool) (chat : option string)
    (events : list POSystemEvent) : Prop :=
  events = [] ∨
  (committed = true ∧ ∃ c owner, chat = Some c ∧ events = [owed_event record c owner]).

Inductive visit (record : OwnerNotification) (committed : bool) (chat : option string)
    : OwnerNotificationOutcome → OwnerNotification → list POSystemEvent → Prop :=
| visit_skipped :
    owed record = false → visit record committed chat SKIPPED record []
| visit_voided detail :
    owed record = true → committed = false →
    visit record committed chat VOIDED
      (settled_record record OwnerNotificationState.VOIDED detail None) []
| visit_delivered c owner :
    owed record = true → committed = true → chat = Some c →
    visit record committed chat DELIVERED
      (settled_record record OwnerNotificationState.DELIVERED None (Some (record.(on_attempts) + 1)))
      [owed_event record c owner]
| visit_unaddressable detail :
    owed record = true → committed = true →
    visit record committed chat UNADDRESSABLE
      (settled_record record OwnerNotificationState.UNADDRESSABLE detail
         (Some (record.(on_attempts) + 1))) []
| visit_retrying detail events :
    owed record = true → attempted record committed chat events →
    record.(on_attempts) + 1 < OWNER_NOTIFICATION_MAX_ATTEMPTS →
    visit record committed chat RETRYING
      (settled_record record OwnerNotificationState.OWED detail (Some (record.(on_attempts) + 1)))
      events
| visit_exhausted detail events :
    owed record = true → attempted record committed chat events →
    OWNER_NOTIFICATION_MAX_ATTEMPTS ≤ record.(on_attempts) + 1 →
    visit record committed chat EXHAUSTED
      (settled_record record OwnerNotificationState.ABANDONED detail
         (Some (record.(on_attempts) + 1))) events.

(** The run with the record merged into its metadata. *)
Definition noted (record : OwnerNotification) (run : Run) : Run :=
  run <| r_run_metadata ::= λ m, merge m {[ OWNER_NOTIFICATION_KEY := MNotification record ]} |>.

(** The shared state after the record was written, and after events went out. *)
Definition note (run_id : string) (record : OwnerNotification) (s : Shared) : Shared :=
  s <| db := match s.(db).(runs) !! run_id with
             | Some run => put_run (noted record run) s.(db)
             | None => s.(db)
             end |>.
Definition post (events : list POSystemEvent) (s : Shared) : Shared :=
  s <| redis ::= λ r, r <| streams ::= λ l,
         l ++ ((λ e, (PO_INPUT_QUEUE, POSystemEventMsg e)) <$> events) |> |>.

Definition ending_committed (d : Database) (record : OwnerNotification) : bool :=
  match d.(stories) !! record.(on_story_id) with
  | Some st => bool_decide (st.(s_status) = value record.(on_terminal_status))
  | None => false
  end.

(** ** Facts *)

Lemma update_metadata_eq now run_id m d :
  update_run now service run_id (no_update <| ru_run_metadata := Some m |>) d =
  match d.(runs) !! run_id with
  | Some run => (Ok (run <| r_run_metadata ::= λ old, merge old m |>),
                 put_run (run <| r_run_metadata ::= λ old, merge old m |>) d)
  | None => (Exc NOT_FOUND, d)
  end.
Proof.
  unfold update_run, transaction, lock_run, mbind, M_bind, gets.
  destruct (runs d !! run_id) as [run|]; [|done]. cbn. by rewrite !andb_false_r.
Qed.

Section rules.
Context (E : env) `{!Alone E}.

(** Writing a record: it lands or the call fails; on a missing run it is a 404. *)
Lemma exec_write_record run_id record s (Q : res unit → Shared → Prop) :
  (is_Some (s.(db).(runs) !! run_id) → Q (Ok tt) (note run_id record s)) →
  (∀ e, Q (Exc e) s) →
  (∀ e, is_Some (s.(db).(runs) !! run_id) → Q (Exc e) (note run_id record s)) →
  exec E (write_record run_id record) s Q.
Proof.
  intros H1 H2 H3. apply exec_bind, exec_request; [apply _|]. intros s' ->%alone. split; [|auto].
  unfold wp, note in *. rewrite update_metadata_eq.
  destruct (runs (db s) !! run_id) as [run|]; cbn [fst snd over_http].
  - split; [apply exec_ret, H1; eauto|intros _; apply H3; eauto].
  - rewrite same_db. auto.
Qed.
Lemma exec_spend_failed_attempt run_id record committed chat events error s
    (Q : res OwnerNotificationOutcome → Shared → Prop) :
  owed record = true → attempted record committed chat events →
  (∀ o r', visit record committed chat o r' events → o ≠ SKIPPED → Q (Ok o) (note run_id r' s)) →
  (∀ e, Q (Exc e) s) →
  (∀ e o r', visit record committed chat o r' events → o ≠ SKIPPED → Q (Exc e) (note run_id r' s)) →
  exec E (spend_failed_attempt run_id record (record.(on_attempts) + 1) error) s Q.
Proof.
  intros Ho Ha H1 H2 H3. unfold spend_failed_attempt. destruct (Z.leb_spec OWNER_NOTIFICATION_MAX_ATTEMPTS (on_attempts record + 1)).
  - unfold abandon, settle. exec_auto. apply (exec_write_record).
    + intros _. cbn. exec_auto. eapply H1; [by apply visit_exhausted|done].
    + done.
    + intros e _. eapply H3; [by apply visit_exhausted|done].
  - unfold settle. exec_auto. apply (exec_write_record).
    + intros _. cbn. exec_auto. eapply H1; [by apply visit_retrying|done].
    + done.
    + intros e _. eapply H3; [by apply visit_retrying|done].
Qed.
End rules.

Lemma post_nil s : post [] s = s.
Proof. destruct s as [? [] ? ?]. unfold post, put_field. cbn. by rewrite app_nil_r. Qed.
Lemma post_note run_id r events s : post events (note run_id r s) = note run_id r (post events s).
Proof. by destruct s. Qed.
Lemma merge_same (k : string) (v v' : meta) (m : metadata) :
  merge (merge m {[ k := v ]}) {[ k := v' ]} = merge m {[ k := v' ]}.
Proof. unfold merge. by rewrite <-!insert_union_singleton_l, insert_insert_eq. Qed.

(** The second of two records replaces the first. *)
Lemma note_note run_id r r' s :
  (∀ run, s.(db).(runs) !! run_id = Some run → run.(r_id) = run_id) →
  note run_id r' (note run_id r s) = note run_id r' s.
Proof.
  intros Hkey. unfold note. destruct (runs (db s) !! run_id) as [run|] eqn:Er.
  - specialize (Hkey run eq_refl). destruct s as [d]. unfold put_run, put_field in *. cbn in *.
    rewrite <-Hkey, lookup_insert_eq. cbn. f_equal. f_equal. rewrite insert_insert_eq. f_equal.
    unfold noted, put_field. cbn. f_equal. apply merge_same.
  - destruct s as [d]. unfold put_field in *. cbn in *. by rewrite Er.
Qed.

(** ** Delivery implements a visit *)

Section delivery.
Context `{ExceptionTexts} (run_id : string) (record : OwnerNotification) (s : Shared).
Notation committed := (ending_committed s.(db) record).
Notation chat := (project_chat s.(db) record.(on_project_id)).

(** A visit from [s]: it returned, or it raised after some part of it. *)
Definition visited (result : res OwnerNotificationOutcome) (s' : Shared) : Prop :=
  match result with
  | Ok o => ∃ r' events, visit record committed chat o r' events ∧
      s' = if decide (o = SKIPPED) then s else note run_id r' (post events s)
  | Exc _ => ∃ events, attempted record committed chat events ∧
      (s' = post events s ∨
       ∃ o r', visit record committed chat o r' events ∧ s' = note run_id r' (post events s))
  end.

Lemma visited_returned o r' events s' :
  visit record committed chat o r' events → o ≠ SKIPPED → s' = note run_id r' (post events s) →
  visited (Ok o) s'.
Proof. intros Hv Ho ->. exists r', events. split; [done|]. by rewrite decide_False. Qed.

Lemma visited_raised e events : attempted record committed chat events → visited (Exc e) (post events s).
Proof. intros Ha. exists events. auto. Qed.

Lemma visit_attempted o r' events :
  visit record committed chat o r' events → attempted record committed chat events.
Proof. unfold attempted. destruct 1; naive_solver. Qed.

Lemma visited_written e o r' events :
  visit record committed chat o r' events → visited (Exc e) (note run_id r' (post events s)).
Proof. intros Hv. exists events. split; [by eapply visit_attempted|eauto]. Qed.

Context (Hkey : ∀ run, s.(db).(runs) !! run_id = Some run → run.(r_id) = run_id).

(** The handling of a failure, after the events [events] and possibly a write. *)
Lemma exec_spend_after E `{!Alone E} events s1 error :
  owed record = true → attempted record committed chat events →
  s1 = post events s ∨
    (∃ o r', visit record committed chat o r' events ∧ s1 = note run_id r' (post events s)) →
  exec E (spend_failed_attempt run_id record (record.(on_attempts) + 1) error) s1 visited.
Proof.
  intros Ho Ha Hs1.
  assert (∀ r, note run_id r s1 = note run_id r (post events s)) as Hn.
  { intros r. destruct Hs1 as [->|(o & r' & _ & ->)]; [done|]. apply note_note. by destruct s. }
  apply (exec_spend_failed_attempt E run_id record committed chat events error); [done|done| | |].
  - intros o r' Hv Hne. rewrite Hn. by eapply visited_returned.
  - intros e. exists events. split; [done|]. destruct Hs1 as [->|(o & r' & ? & ->)]; eauto.
  - intros e o r' Hv _. rewrite Hn. by eapply visited_written.
Qed.

Lemma deliver_visits E `{!Alone E} :
  exec E (deliver_owed_notification run_id record) s visited.
Proof.
  unfold deliver_owed_notification. destruct (owed record) eqn:Ho; cbn [negb].
  2:{ apply exec_ret. exists record, []. split; [by apply visit_skipped|done]. }
  assert (attempted record committed chat []) as Ha by (by left).
  assert (∀ e, visited (Exc e) s) as Hraise.
  { intros e. rewrite <-(post_nil s) at 1. by apply visited_raised. }
  apply exec_bind, exec_attempt, (exec_api_get_story E).
  2:{ intros e. apply (exec_spend_after E []); [done|done|left; by rewrite post_nil]. }
  intros st Hst _. cbn. case_bool_decide as Hc; cbn [negb].
  2:{ assert (committed = false) as Hcf.
      { unfold ending_committed. rewrite Hst. by apply bool_decide_eq_false. }
      unfold settle. apply exec_bind, (exec_write_record E).
      - intros _. cbn. apply exec_ret. eapply visited_returned; [by apply visit_voided|done|].
        by rewrite post_nil.
      - done.
      - intros e _. rewrite <-(post_nil s). eapply visited_written. by apply visit_voided. }
  assert (committed = true) as Hct.
  { unfold ending_committed. rewrite Hst. by apply bool_decide_eq_true. }
  apply exec_bind, exec_attempt, exec_bind, (exec_resolve_project_recipient E).
  2:{ intros e. apply (exec_spend_after E []); [done|done|left; by rewrite post_nil]. }
  intros rc Hrc. cbn. destruct (is_addressable rc) eqn:Hadd; cbn [negb].
  2:{ unfold settle. apply exec_bind, (exec_write_record E).
      - intros _. cbn. apply exec_ret. apply exec_ret.
        eapply visited_returned; [by apply visit_unaddressable|done|by rewrite post_nil].
      - intros e. apply (exec_spend_after E []); [done|done|left; by rewrite post_nil].
      - intros e _. apply (exec_spend_after E []); [done|done|right].
        do 2 eexists. split; [by apply visit_unaddressable|by rewrite post_nil]. }
  specialize (Hrc eq_refl).
  set (event := owed_event record (rcp_telegram_chat_id rc) (rcp_owner_user_id rc)).
  assert (attempted record committed chat [event]) as Ha1.
  { right. split; [done|]. by do 2 eexists. }
  apply exec_bind, exec_publish; [apply _|]. intros s' ->%alone. split.
  - cbn. apply exec_ret. unfold settle. apply exec_bind, (exec_write_record E).
    + intros _. cbn. apply exec_ret.
      eapply visited_returned; [by apply visit_delivered|done|done].
    + intros e. by apply (visited_raised e [event]).
    + intros e _. eapply (visited_written e DELIVERED _ [event]). by apply visit_delivered.
  - intros _. split; cbn.
    + apply (exec_spend_after E [event]); [done|done|by left].
    + apply (exec_spend_after E []); [done|done|left; by rewrite post_nil].
Qed.
End delivery.

(** C34 (refinement).  A delivery does what one visit may do, whatever calls fail
    and wherever the process dies.  If it returns, its outcome, the record it left
    on the run and the events it published are those of a [visit]; if it raises, it
    stopped before or right after the write of such a visit.  In every case the
    story was in the status the record was written for if an event went out, at
    most one did, and it went to the owner's chat. *)
Theorem delivery_implements_a_visit `{ExceptionTexts} run_id record w :
  in_env faulty w → well_keyed w.(shared).(db) →
  let '(result, w') := deliver_owed_notification run_id record w in
  visited run_id record w.(shared) result w'.(shared).
Proof.
  intros Hw (_ & _ & Hkey & _).
  pose proof (deliver_visits run_id record w.(shared) (λ run Hr, Hkey _ _ Hr) faulty w eq_refl Hw)
    as [_ Hv].
  by destruct (deliver_owed_notification run_id record w).
Qed.

(** ** Repeated visits *)

(** The record a run carries. *)
Definition recorded (run_id : string) (s : Shared) : option OwnerNotification :=
  run ← s.(db).(runs) !! run_id; owner_notification run.

(** One visit of a later tick: the process, started anew, reads the record and
    delivers it. *)
Definition revisit `{ExceptionTexts} (run_id : string) (turns : list turn) (w : World)
    : res OwnerNotificationOutcome * World :=
  let w := restarted turns w in
  match recorded run_id w.(shared) with
  | Some record => deliver_owed_notification run_id record w
  | None => (Exc KeyError, w)
  end.

Fixpoint revisits `{ExceptionTexts} (run_id : string) (ticks : list (list turn)) (w : World)
    : list (res OwnerNotificationOutcome) * World :=
  match ticks with
  | [] => ([], w)
  | turns :: ticks =>
      let '(o, w) := revisit run_id turns w in
      let '(os, w) := revisits run_id ticks w in (o :: os, w)
  end.

Definition undisturbed_ticks (ticks : list (list turn)) : Prop :=
  Forall (Forall (λ t, ∀ s, t.(others) s = s)) ticks.

Lemma restarted_env turns w :
  Forall (λ t, ∀ s, t.(others) s = s) turns → in_env faulty (restarted turns w).
Proof.
  intros Ht. split; [|done]. eapply Forall_impl; [exact Ht|]. intros t Hs. by split.
Qed.

Lemma well_keyed_note run_id r s : well_keyed s.(db) → well_keyed (note run_id r s).(db).
Proof.
  intros (Ht & Hs & Hr & Hg). unfold note. destruct (runs (db s) !! run_id) as [run|] eqn:Er;
    [|by destruct s].
  split_and!; [apply Ht|apply Hs| |apply Hg]. intros id x. cbn.
  intros [[<- <-]|[_ Hx]]%lookup_insert_Some; [done|by apply Hr].
Qed.

Lemma owner_notification_noted r run : owner_notification (noted r run) = Some r.
Proof.
  unfold owner_notification, noted. unfold put_field. cbn. unfold merge.
  rewrite (lookup_union_Some_l _ _ OWNER_NOTIFICATION_KEY (MNotification r)); [done|].
  exact (lookup_singleton_eq OWNER_NOTIFICATION_KEY (MNotification r)).
Qed.

Lemma recorded_note run_id r s :
  well_keyed s.(db) → is_Some (s.(db).(runs) !! run_id) →
  recorded run_id (note run_id r s) = Some r.
Proof.
  intros (_ & _ & Hkey & _) [run Er]. unfold recorded, note. rewrite Er. cbn.
  rewrite (Hkey _ _ Er), lookup_insert_eq. apply owner_notification_noted.
Qed.

Lemma visit_progress record committed chat o r' events :
  visit record committed chat o r' events →
  owed r' = false ∨ (owed r' = true ∧ r'.(on_attempts) = record.(on_attempts) + 1 ∧
                     r'.(on_attempts) < OWNER_NOTIFICATION_MAX_ATTEMPTS).
Proof. destruct 1; auto. Qed.

Lemma revisit_progress `{ExceptionTexts} run_id turns w o record :
  Forall (λ t, ∀ s, t.(others) s = s) turns → well_keyed w.(shared).(db) →
  recorded run_id w.(shared) = Some record →
  (revisit run_id turns w).1 = Ok o →
  let s' := (revisit run_id turns w).2.(shared) in
  well_keyed s'.(db) ∧ ∃ r', recorded run_id s' = Some r' ∧
    (owed r' = false ∨ (owed r' = true ∧ r'.(on_attempts) = record.(on_attempts) + 1 ∧
                        r'.(on_attempts) < OWNER_NOTIFICATION_MAX_ATTEMPTS)).
Proof.
  intros Ht Hk Hrec. unfold revisit. cbn [restarted].
  change (shared (restarted turns w)) with (shared w). rewrite Hrec.
  pose proof (restarted_env turns w Ht) as Henv. pose proof Hk as (_ & _ & Hkey & _).
  destruct (deliver_visits run_id record (shared w) (λ run Hr, Hkey _ _ Hr) faulty
              (restarted turns w) eq_refl Henv) as [_ Hv].
  intros Ho. rewrite Ho in Hv. destruct Hv as (r' & events & Hv & ->).
  case_decide as Hskip.
  - split; [done|]. subst. inversion Hv; subst. eauto.
  - assert (well_keyed (post events (shared w)).(db)) as Hk' by by destruct (shared w).
    split; [by apply well_keyed_note|]. exists r'. split; [|by eapply visit_progress].
    apply recorded_note; [done|]. revert Hrec. unfold recorded.
    destruct (runs (db (shared w)) !! run_id) as [run|] eqn:Er; [|done].
    intros _. exists run. by destruct (shared w).
Qed.

(** A settled record stays as it is, whatever happens around the visits. *)
Lemma revisits_settled `{ExceptionTexts} run_id ticks : ∀ w record,
  recorded run_id w.(shared) = Some record → owed record = false →
  (revisits run_id ticks w).2.(shared) = w.(shared).
Proof.
  induction ticks as [|turns ticks IH]; intros w record Hrec Hset; [done|]. cbn [revisits].
  assert (revisit run_id turns w = (Ok SKIPPED, restarted turns w)) as ->.
  { unfold revisit. change (shared (restarted turns w)) with (shared w). rewrite Hrec.
    unfold deliver_owed_notification. by rewrite Hset. }
  specialize (IH (restarted turns w) record Hrec Hset).
  by destruct (revisits run_id ticks (restarted turns w)).
Qed.

Lemma revisits_progress `{ExceptionTexts} run_id ticks : ∀ w record,
  undisturbed_ticks ticks → well_keyed w.(shared).(db) →
  recorded run_id w.(shared) = Some record →
  Forall (λ o, ∃ x, o = Ok x) (revisits run_id ticks w).1 →
  ∃ r', recorded run_id (revisits run_id ticks w).2.(shared) = Some r' ∧
    (owed r' = false ∨
     (r'.(on_attempts) = record.(on_attempts) + Z.of_nat (length ticks) ∧
      (ticks = [] ∨ r'.(on_attempts) < OWNER_NOTIFICATION_MAX_ATTEMPTS))).
Proof.
  induction ticks as [|turns ticks IH]; intros w record Ht Hk Hrec Hok.
  { exists record. split; [done|]. right. split; [cbn; lia|by left]. }
  apply Forall_cons in Ht as [Ht Hts]. revert Hok. cbn [revisits].
  destruct (revisit run_id turns w) as [o w1] eqn:E1.
  destruct (revisits run_id ticks w1) as [os w2] eqn:E2. cbn.
  intros [[x ->] Hos]%Forall_cons.
  destruct (revisit_progress run_id turns w x record Ht Hk Hrec) as (Hk1 & r1 & Hr1 & Hp);
    [by rewrite E1|]. rewrite E1 in *. cbn in *.
  destruct Hp as [Hset|(_ & Ha1 & Hlt1)].
  - exists r1. pose proof (revisits_settled run_id ticks w1 r1 Hr1 Hset) as Hs. rewrite E2 in Hs.
    cbn in Hs. rewrite Hs. by split; [|left].
  - destruct (IH w1 r1 Hts Hk1 Hr1) as (r2 & Hr2 & Hp2); [by rewrite E2|]. rewrite E2 in Hr2.
    exists r2. split; [done|]. destruct Hp2 as [?|[Ha Hlt]]; [by left|]. right.
    split; [lia|right]. destruct Hlt as [->|?]; cbn in *; lia.
Qed.

(**  An owed message is chased for three visits at most: after
    three visits that returned, however their calls failed in between, the record
    is settled (delivered, unaddressable, abandoned or voided), and no visit after
    that, under any schedule, changes anything or publishes again. *)
Theorem three_returned_visits_settle `{ExceptionTexts} run_id ticks later w record :
  recorded run_id w.(shared) = Some record → 0 ≤ record.(on_attempts) →
  well_keyed w.(shared).(db) → undisturbed_ticks ticks → length ticks = 3%nat →
  Forall (λ o, ∃ x, o = Ok x) (revisits run_id ticks w).1 →
  let w' := (revisits run_id ticks w).2 in
  (∃ r', recorded run_id w'.(shared) = Some r' ∧ owed r' = false) ∧
  (revisits run_id later w').2.(shared) = w'.(shared).
Proof.
  intros Hrec Ha Hk Ht Hlen Hok w'.
  destruct (revisits_progress run_id ticks w record Ht Hk Hrec Hok) as (r' & Hr' & Hp).
  assert (owed r' = false) as Hset.
  { destruct Hp as [?|[Hn [->|Hlt]]]; [done|done|]. unfold OWNER_NOTIFICATION_MAX_ATTEMPTS in Hlt. lia. }
  split; [by exists r'|by eapply revisits_settled].
Qed.

(** ** The sweep *)

(** The page of owing runs a sweep takes. *)
Definition owed_page (d : Database) : list Run :=
  limit (Some OWNER_NOTIFICATION_PAGE) (select (map_to_list d.(runs)).*2
    (λ r, match owner_notification r with Some n => owed n | None => false end)
    (λ a b, (a.(r_created_at) <? b.(r_created_at)) ||
            ((a.(r_created_at) =? b.(r_created_at)) && string_leb a.(r_id) b.(r_id)))).

Lemma list_runs_owing_eq d :
  list_runs_owing_owner_notification service OWNER_NOTIFICATION_PAGE d = (Ok (owed_page d), d).
Proof. reflexivity. Qed.

(** The tables a delivery reads, the runs apart. *)
Record agree (s s' : Shared) : Prop := {
  agree_stories : s'.(db).(stories) = s.(db).(stories);
  agree_projects : s'.(db).(projects) = s.(db).(projects);
  agree_users : s'.(db).(users) = s.(db).(users);
}.

Lemma agree_refl s : agree s s.
Proof. by split. Qed.
Lemma agree_visit s run_id r events : agree s (note run_id r (post events s)).
Proof. destruct s as [d]. unfold note. cbn. destruct (runs d !! run_id); by split. Qed.
Lemma agree_post s events : agree s (post events s).
Proof. by destruct s. Qed.
Lemma agree_trans s1 s2 s3 : agree s1 s2 → agree s2 s3 → agree s1 s3.
Proof. intros [] []. split; congruence. Qed.
Lemma agree_committed s s' record :
  agree s s' → ending_committed s'.(db) record = ending_committed s.(db) record.
Proof. intros []. unfold ending_committed. by rewrite agree_stories0. Qed.
Lemma agree_chat s s' id : agree s s' → project_chat s'.(db) id = project_chat s.(db) id.
Proof. intros []. unfold project_chat. by rewrite agree_projects0, agree_users0. Qed.

Lemma streams_note run_id r s : (note run_id r s).(redis) = s.(redis).
Proof. by destruct s. Qed.
Lemma streams_post events s :
  (post events s).(redis).(streams) =
    s.(redis).(streams) ++ ((λ e, (PO_INPUT_QUEUE, POSystemEventMsg e)) <$> events).
Proof. by destruct s as [? [] ? ?]. Qed.

(** What a visit leaves for the next one. *)
Lemma visited_frame `{ExceptionTexts} run_id record s o s' :
  well_keyed s.(db) → visited run_id record s o s' →
  well_keyed s'.(db) ∧ agree s s' ∧ ∃ events,
    attempted record (ending_committed s.(db) record) (project_chat s.(db) record.(on_project_id)) events ∧
    (o = Ok SKIPPED ∨ s'.(redis).(streams) =
       s.(redis).(streams) ++ ((λ e, (PO_INPUT_QUEUE, POSystemEventMsg e)) <$> events)) ∧
    (o = Ok SKIPPED → s' = s).
Proof.
  intros Hk. assert (∀ events, well_keyed (post events s).(db)) as Hkp by by destruct s.
  destruct o as [o|e]; cbn.
  - intros (r' & events & Hv & ->). case_decide as Ho.
    + split; [done|]. split; [apply agree_refl|]. exists []. subst. split; [by left|auto].
    + split; [by apply well_keyed_note|]. split; [apply agree_visit|]. exists events.
      split; [by eapply visit_attempted|]. split; [right; by rewrite streams_note, streams_post|].
      intros [= ->]. done.
  - intros (events & Ha & [->|(o & r' & Hv & ->)]).
    + split; [done|]. split; [apply agree_post|]. exists events. split; [done|].
      split; [right; by rewrite streams_post|done].
    + split; [by apply well_keyed_note|]. split; [apply agree_visit|]. exists events.
      split; [done|]. split; [right; by rewrite streams_note, streams_post|done].
Qed.

(** An event that may go out for a run, as the database of the tick has it. *)
Definition due (s : Shared) (x : Run * POSystemEvent) : Prop :=
  ∃ record chat owner,
    owner_notification x.1 = Some record ∧ owed record = true ∧ ending_committed s.(db) record = true ∧
    project_chat s.(db) record.(on_project_id) = Some chat ∧ x.2 = owed_event record chat owner.

Definition sent_for (s0 s : Shared) (rows : list Run) (s' : Shared) : Prop :=
  ∃ sent : list (Run * POSystemEvent),
    s'.(redis).(streams) =
      s.(redis).(streams) ++ ((λ x, (PO_INPUT_QUEUE, POSystemEventMsg x.2)) <$> sent) ∧
    sent.*1 `sublist_of` rows ∧ Forall (due s0) sent.

Lemma sent_nothing s0 s rows : sent_for s0 s rows s.
Proof. exists []. split_and!; [by rewrite app_nil_r|by apply sublist_nil_l|done]. Qed.

Lemma sent_one s0 s run record events rows rest s1 s' :
  owner_notification run = Some record → owed record = true → agree s0 s →
  attempted record (ending_committed s.(db) record) (project_chat s.(db) record.(on_project_id)) events →
  s1.(redis).(streams) = s.(redis).(streams) ++ ((λ e, (PO_INPUT_QUEUE, POSystemEventMsg e)) <$> events) →
  rows = run :: rest → sent_for s0 s1 rest s' → sent_for s0 s rows s'.
Proof.
  intros Hrun Howed Hag Ha Hs1 -> (sent & Hs' & Hsub & Hdue).
  destruct Ha as [->|(Hc & c & owner & Hchat & ->)].
  - exists sent. rewrite Hs', Hs1. cbn. rewrite app_nil_r. split_and!; [done|by constructor|done].
  - exists ((run, owed_event record c owner) :: sent). rewrite Hs', Hs1. cbn.
    rewrite <-(assoc_L (++)). split_and!; [done|by constructor|]. constructor; [|done].
    exists record, c, owner. rewrite <-(agree_committed s0 s), <-(agree_chat s0 s); done.
Qed.

Section sweep.
Context `{ExceptionTexts} (s0 : Shared).

Lemma exec_sweep rows : ∀ counts s,
  agree s0 s → well_keyed s.(db) →
  exec faulty (fold_m sweep_one counts rows) s (λ _ s', sent_for s0 s rows s').
Proof.
  induction rows as [|run rest IH]; intros counts s Hag Hk; cbn [fold_m].
  { apply exec_ret, sent_nothing. }
  assert (∀ r : res OutcomeCounts, sent_for s0 s (run :: rest) s) as Hnone by (intros _; apply sent_nothing).
  apply exec_bind. unfold sweep_one at 1, read_owner_notification.
  destruct (meta_get OWNER_NOTIFICATION_KEY (r_run_metadata run)) as [m|] eqn:Hm;
    [|exec_auto; apply Hnone; exact (Exc RuntimeError)].
  assert (∀ record, m = MNotification record → owner_notification run = Some record) as Hrec.
  { intros record ->. revert Hm. unfold meta_get, owner_notification. by repeat case_match; intros [= ->]. }
  destruct m as [| | | | |record| | | | | | | |]; try (exec_auto; apply Hnone; exact (Exc ValidationError)).
  specialize (Hrec record eq_refl). exec_auto.
  destruct (owed record) eqn:Howed.
  - eapply exec_mono.
    { apply (deliver_visits (r_id run) record s); [|apply _]. destruct Hk as (_ & _ & Hkr & _).
      intros run'. apply Hkr. }
    intros o s1 Hv. destruct (visited_frame _ _ _ _ _ Hk Hv) as (Hk1 & Hag1 & events & Ha & Hs1 & Hsk).
    assert (s1.(redis).(streams) =
      s.(redis).(streams) ++ ((λ e, (PO_INPUT_QUEUE, POSystemEventMsg e)) <$> events)
      ∨ o = Ok SKIPPED) as Hs1' by tauto.
    destruct o as [o|e].
    + exec_auto. eapply exec_mono; [apply IH; [by eapply agree_trans|done]|].
      intros ? s' Hsent. cbv beta in Hsent.
      destruct Hs1' as [Hs1'|Ho]; [by eapply sent_one|].
      rewrite (Hsk Ho) in Hsent. destruct Hsent as (sent & ? & ? & ?).
      exists sent. split_and!; [done|by constructor|done].
    + destruct Hs1' as [Hs1'|]; [|done]. eapply sent_one; [done..|apply sent_nothing].
  - unfold deliver_owed_notification. rewrite Howed. cbn [negb]. exec_auto.
    eapply exec_mono; [by apply IH|]. intros ? s' (sent & ? & ? & ?).
    exists sent. split_and!; [done|by constructor|done].
Qed.
End sweep.

(**  Whatever calls fail and wherever the process dies, a sweep
    publishes at most one event for each run of the page it took, only for a
    record that is owed and whose story is in the status the record was written
    for, and to the chat of the project's owner; a settled record is never
    published again. *)
Theorem sweep_publishes_only_what_is_owed `{ExceptionTexts} w :
  in_env faulty w → well_keyed w.(shared).(db) →
  let s := w.(shared) in
  let s' := (supervise_owed_owner_notifications w).2.(shared) in
  sent_for s s (owed_page s.(db)) s'.
Proof.
  intros Hw Hk s s'.
  assert (exec faulty supervise_owed_owner_notifications s
    (λ _ s', sent_for s s (owed_page s.(db)) s')) as Hexec.
  { unfold supervise_owed_owner_notifications. apply exec_bind, exec_bind, exec_read;
      [apply _|auto with reads|].
    intros s1 ->%alone. rewrite list_runs_owing_eq. cbn [fst over_http].
    split; [|intros _; apply sent_nothing].
    apply exec_model_validate; intros _; [|apply sent_nothing].
    by apply (exec_sweep s); [apply agree_refl|]. }
  by destruct (Hexec w eq_refl Hw) as [_ ?].
Qed.

(** ** The properties at a concrete world

    A finished story whose owner has not been told; the publish goes out and its
    answer is lost, so the next visit publishes again and then settles. *)

Definition sample_texts : ExceptionTexts := λ _, "ConnectError".
#[local] Existing Instance sample_texts.

Definition sample_record : OwnerNotification :=
  mkOwnerNotification "story_completed" "Done." "s1" "p1" StoryStatus.COMPLETED None
    OwnerNotificationState.OWED 0 0 None.
Definition sample_run : Run :=
  mkRun "qa-1" "qa" "completed" (Some "p1") None
    {[ OWNER_NOTIFICATION_KEY := MNotification sample_record ]}
    (Some (QAResult (mkQARunResult QAOutcome.PASSED None [] None None None None None [] [])))
    None (Some 0) (Some "s1") None 0.
Definition sample_story : Story :=
  mkStory "s1" "p1" None "Bot" None None "product" "completed" 0 None "po" None None None 0.
Definition sample_project : Project := mkProject "p1" "Bot" "bot" "active" (Some "run-1") [] 7.
Definition sample_db : Database :=
  mkDatabase ∅ [] {[ "s1" := sample_story ]} {[ "qa-1" := sample_run ]} ∅
    {[ "p1" := sample_project ]} {[ 7 := mkUser 7 4242 false ]} ∅ ∅ ∅ ∅.
Definition sample_world (turns : list turn) : World :=
  mkWorld (mkShared sample_db empty_redis (mkFleet [] [] (λ _, []) ∅) 0 []) turns false
    (λ n, "u" +:+ pretty n) 0 [] silent ∅ [].

(** get_story, get_project, get_user, XADD. *)
Definition lost_answer : list turn :=
  [undisturbed NoFault; undisturbed NoFault; undisturbed NoFault; undisturbed LostReply].

Lemma sample_well_keyed : well_keyed sample_db.
Proof.
  split_and!; intros id x; cbn; try (by rewrite lookup_empty);
    by intros [<- <-]%lookup_singleton_Some.
Qed.
Lemma sample_env : in_env faulty (sample_world lost_answer).
Proof. split; [|done]. repeat constructor; done. Qed.

Lemma delivery_implements_a_visit_witness :
  let '(result, w') := deliver_owed_notification "qa-1" sample_record (sample_world lost_answer) in
  visited "qa-1" sample_record (sample_world lost_answer).(shared) result w'.(shared).
Proof.
  apply (delivery_implements_a_visit "qa-1" sample_record (sample_world lost_answer)).
  - apply sample_env.
  - apply sample_well_keyed.
Defined.

Lemma sweep_publishes_only_what_is_owed_witness :
  sent_for (sample_world lost_answer).(shared) (sample_world lost_answer).(shared)
    (owed_page sample_db)
    (supervise_owed_owner_notifications (sample_world lost_answer)).2.(shared).
Proof.
  apply (sweep_publishes_only_what_is_owed (sample_world lost_answer)).
  - apply sample_env.
  - apply sample_well_keyed.
Defined.

Example the_lost_answer_is_published_twice :
  let w' := (revisits "qa-1" [lost_answer; []] (sample_world [])).2 in
  length w'.(shared).(redis).(streams) = 2%nat ∧
  on_state <$> recorded "qa-1" w'.(shared) = Some OwnerNotificationState.DELIVERED.
Proof. by vm_compute. Qed.

Lemma three_returned_visits_settle_witness :
  let w' := (revisits "qa-1" [lost_answer; []; []] (sample_world [])).2 in
  (∃ r', recorded "qa-1" w'.(shared) = Some r' ∧ owed r' = false) ∧
  (revisits "qa-1" [[]] w').2.(shared) = w'.(shared).
Proof.
  apply (three_returned_visits_settle "qa-1" [lost_answer; []; []] [[]] (sample_world []) sample_record).
  - vm_compute. reflexivity.
  - cbn. lia.
  - apply sample_well_keyed.
  - repeat constructor.
  - reflexivity.
  - vm_compute. repeat constructor; eexists; reflexivity.
Defined.
