(* ===== verification/WorkerLiveness.v ===== *)
(** * WorkerLiveness: is the worker behind an attempt still working?

    [services/scheduler/src/tasks/worker_liveness.py] and the run metadata it
    reads ([shared/contracts/worker_turn.py]): the classification of an attempt
    from what Redis says, the retryable stop request, and the outcome a finished
    attempt gives its task. *)

From S2P Require Import Prelude Vocabulary Contracts Db Api ApiTasks ApiRuns Placement.
From S2P Require Import World SchedulerClient OwnerNotifications.

(** ** The identity of a turn in the run's metadata *)

(** [AttemptTurnMetadata]; times in microseconds. *)
Record AttemptTurnMetadata := mkAttemptTurnMetadata {
  tm_initiating_run_id : option string;
  tm_worker_id : option string;
  tm_agent_limit_seconds : option Z;
  tm_active_turn_request_id : option string;
  tm_active_turn_backstop_seconds : option Z;
  tm_active_turn_requested_at : option Z;
  tm_worker_stop_requested_at : option Z;
  tm_worker_stop_attempts : option Z;
  tm_worker_stop_next_retry_at : option Z;
  tm_stop_reason : option string;
  tm_worker_state : option string;
}.
#[export] Instance AttemptTurnMetadata_rebuild : Rebuild AttemptTurnMetadata := λ r,
  mkAttemptTurnMetadata (tm_initiating_run_id r) (tm_worker_id r) (tm_agent_limit_seconds r)
    (tm_active_turn_request_id r) (tm_active_turn_backstop_seconds r)
    (tm_active_turn_requested_at r) (tm_worker_stop_requested_at r) (tm_worker_stop_attempts r)
    (tm_worker_stop_next_retry_at r) (tm_stop_reason r) (tm_worker_state r).
Definition no_turn : AttemptTurnMetadata :=
  mkAttemptTurnMetadata None None None None None None None None None None None.

(** The validation of one optional field; [None] is a [ValidationError].  A value
    of another JSON type is refused: no writer relies on a coercion. *)
Definition optional_field {A} (read : meta → option A) (ok : A → bool) (key : string)
    (m : metadata) : option (option A) :=
  match meta_get key m with
  | None => Some None
  | Some v => a ← read v; if ok a then Some (Some a) else None
  end.
Definition read_str (v : meta) : option string := meta_str (Some v).
Definition read_int (v : meta) : option Z := meta_int (Some v).
Definition read_time (v : meta) : option Z := meta_time (Some v).
Definition nonempty (s : string) : bool := bool_decide (s ≠ "").
Definition anything {A} (_ : A) : bool := true.

(** [from_run_metadata]: only its own fields are read. *)
Definition from_run_metadata (m : metadata) : option AttemptTurnMetadata :=
  initiating ← optional_field read_str nonempty "initiating_run_id" m;
  worker ← optional_field read_str nonempty "worker_id" m;
  agent_limit ← optional_field read_int (λ n, 0 <? n) "agent_limit_seconds" m;
  request_id ← optional_field read_str nonempty "active_turn_request_id" m;
  backstop ← optional_field read_int (λ n, 0 <? n) "active_turn_backstop_seconds" m;
  requested_at ← optional_field read_time anything "active_turn_requested_at" m;
  stop_at ← optional_field read_time anything "worker_stop_requested_at" m;
  stop_attempts ← optional_field read_int (λ n, 0 <=? n) "worker_stop_attempts" m;
  stop_retry ← optional_field read_time anything "worker_stop_next_retry_at" m;
  reason ← optional_field read_str anything "stop_reason" m;
  state ← optional_field read_str anything "worker_state" m;
  Some (mkAttemptTurnMetadata initiating worker agent_limit request_id backstop requested_at
          stop_at stop_attempts stop_retry reason state).

(** [as_run_metadata]: the non-null fields, for a merge patch. *)
Definition put_field_meta (key : string) (v : option meta) (m : metadata) : metadata :=
  match v with Some v => <[key := v]> m | None => m end.
Definition as_run_metadata (t : AttemptTurnMetadata) : metadata :=
  put_field_meta "initiating_run_id" (MStr <$> t.(tm_initiating_run_id)) (
  put_field_meta "worker_id" (MStr <$> t.(tm_worker_id)) (
  put_field_meta "agent_limit_seconds" (MInt <$> t.(tm_agent_limit_seconds)) (
  put_field_meta "active_turn_request_id" (MStr <$> t.(tm_active_turn_request_id)) (
  put_field_meta "active_turn_backstop_seconds" (MInt <$> t.(tm_active_turn_backstop_seconds)) (
  put_field_meta "active_turn_requested_at" (MTime <$> t.(tm_active_turn_requested_at)) (
  put_field_meta "worker_stop_requested_at" (MTime <$> t.(tm_worker_stop_requested_at)) (
  put_field_meta "worker_stop_attempts" (MInt <$> t.(tm_worker_stop_attempts)) (
  put_field_meta "worker_stop_next_retry_at" (MTime <$> t.(tm_worker_stop_next_retry_at)) (
  put_field_meta "stop_reason" (MStr <$> t.(tm_stop_reason)) (
  put_field_meta "worker_state" (MStr <$> t.(tm_worker_state)) ∅)))))))))).

(** ** Classification *)

Inductive WorkerAttemptState := RUNNING | IDLE | DEAD | TIMED_OUT | REMOVED | UNKNOWN.
#[export] Instance WorkerAttemptState_eq_dec : EqDecision WorkerAttemptState.
Proof. solve_decision. Defined.
Definition attempt_state_value (s : WorkerAttemptState) : string :=
  match s with
  | RUNNING => "running" | IDLE => "idle" | DEAD => "dead"
  | TIMED_OUT => "timed_out" | REMOVED => "removed" | UNKNOWN => "unknown"
  end.

(** [worker.py], [WORKER_TERMINAL_STATUSES]. *)
Definition WORKER_TERMINAL_STATUSES : list WorkerStatus.t :=
  [WorkerStatus.DEAD; WorkerStatus.FAILED; WorkerStatus.STOPPED; WorkerStatus.GONE].

Definition turn_backstop_expired (t : AttemptTurnMetadata) (now : Z) : bool :=
  match t.(tm_active_turn_requested_at), t.(tm_active_turn_backstop_seconds) with
  | Some at_, Some s => at_ + s * SECOND <=? now
  | _, _ => false
  end.

Definition unknown_or_timed_out (t : AttemptTurnMetadata) (now : Z) : WorkerAttemptState :=
  if turn_backstop_expired t now then TIMED_OUT else UNKNOWN.

(** [HGET] and [HGETALL] of what may not parse. *)
Definition read_redis {A} (f : Redis → A) : M World A :=
  remote (gets (λ w, f w.(shared).(redis))).
Definition read_stored {A} (f : Redis → option (stored A)) : M World (option A) :=
  raw ← read_redis f;
  match raw with
  | None => mret None
  | Some (Parsed a) => mret (Some a)
  | Some Unreadable => raise ValidationError
  end.

(** The last step: the lease of the turn, if the worker holds one. *)
Definition turn_verdict (run : Run) (t : AttemptTurnMetadata) (now : Z)
    (active : option WorkerActiveTurn) : WorkerAttemptState :=
  match active with
  | Some a =>
      if bool_decide (a.(at_attempt_id) = run.(r_id)) &&
         bool_decide (Some a.(at_request_id) = t.(tm_active_turn_request_id))
      then if a.(at_deadline_at) <=? now then TIMED_OUT else RUNNING
      else if turn_backstop_expired t now then unknown_or_timed_out t now else IDLE
  | None => if turn_backstop_expired t now then unknown_or_timed_out t now else IDLE
  end.

(** What the worker's status hash and its lease say of a worker not known to be
    removed. *)
Definition present_state (run : Run) (t : AttemptTurnMetadata) (worker_id : string) (now : Z)
    : M World WorkerAttemptState :=
  raw_status ← attempt (read_redis (λ r, r.(worker_status) !! worker_id));
  match raw_status with
  | Ok (Some status) =>
      match member_of status with
      | None => mret (unknown_or_timed_out t now)
      | Some status =>
          if bool_decide (status ∈ WORKER_TERMINAL_STATUSES) then mret DEAD
          else
            active ← attempt (read_stored (λ r, r.(active_turn) !! worker_id));
            match active with
            | Exc _ => mret (unknown_or_timed_out t now)
            | Ok active => mret (turn_verdict run t now active)
            end
      end
  | _ => mret (unknown_or_timed_out t now)
  end.

Definition attempt_state (run : Run) (now : Z)
    : M World (WorkerAttemptState * option string) :=
  match from_run_metadata run.(r_run_metadata) with
  | None => mret (UNKNOWN, None)
  | Some t =>
      match t.(tm_worker_id) with
      | None => mret (unknown_or_timed_out t now, None)
      | Some worker_id =>
          evidence ← attempt (match t.(tm_initiating_run_id) with
            | Some run_id => read_stored (λ r, r.(removed_workers) !! run_id ≫= (.!! worker_id))
            | None => mret None
            end);
          match evidence with
          | Exc _ => mret (unknown_or_timed_out t now, Some worker_id)
          | Ok evidence =>
              if match evidence with
                 | Some e => bool_decide (e.(re_attempt_id) = run.(r_id)) | None => false end
              then mret (REMOVED, Some worker_id)
              else state ← present_state run t worker_id now; mret (state, Some worker_id)
          end
      end
  end.

(** ** Runs of a task *)

Definition LIVE_ENGINEERING_STATUSES : list string :=
  [value RunStatus.QUEUED; value RunStatus.RUNNING].
Definition is_live (run : Run) : bool := bool_decide (run.(r_status) ∈ LIVE_ENGINEERING_STATUSES).

Definition select_live_engineering_run (task_id : string) : M World (option Run) :=
  runs ← api_list_runs task_id RunType.ENGINEERING;
  mret (snd <$> list_find (λ r, is_live r) runs).

(** [max(terminal, key=created_at)]: the first of the latest. *)
Fixpoint latest (l : list Run) : option Run :=
  match l with
  | [] => None
  | r :: l =>
      match latest l with
      | Some r' => if r.(r_created_at) <? r'.(r_created_at) then Some r' else Some r
      | None => Some r
      end
  end.
Definition select_terminal_engineering_run (task_id : string) : M World (option Run) :=
  runs ← api_list_runs task_id RunType.ENGINEERING;
  mret (latest (filter (λ r, is_live r = false) runs)).

(** ** What a finished attempt means for its task *)

(** [run.result.engineering_status]: a finished engineering run carries a typed
    result, or reading it raises. *)
Definition terminal_task_statuses (run : Run) : M World (list TaskStatus.t) :=
  if decide (run.(r_status) = value RunStatus.COMPLETED)
  then mret [TaskStatus.IN_CI; TaskStatus.TESTING; TaskStatus.DONE]
  else if decide (run.(r_status) = value RunStatus.FAILED) then
    match run.(r_result) with
    | Some (EngineeringResult r) =>
        if decide (r.(er_engineering_status) = EngineeringStatus.GAVE_UP)
        then mret [TaskStatus.WAITING_HUMAN_REVIEW] else mret [TaskStatus.FAILED]
    | _ => raise AttributeError
    end
  else mret [TaskStatus.FAILED].

Definition replay_terminal_attempt (task_id : string) (run : Run) (actor : string) : M World unit :=
  statuses ← terminal_task_statuses run;
  fold_m (λ _ status, api_transition_task task_id status actor;; mret tt) tt statuses.

Definition fail_removed_attempt (task : Task) (run : Run) : M World unit :=
  api_update_run run.(r_id)
    (mkRunUpdate (Some (Some (value RunStatus.FAILED)))
       (Some (as_run_metadata (no_turn <| tm_stop_reason :=
          Some (value WorkerStopReason.TURN_DEADLINE_EXCEEDED) |>)))
       (Some (Some (EngineeringResult (engineering_result EngineeringStatus.FAILED))))
       (Some (Some "engineering worker was removed after its turn timed out")) None);;
  api_transition_task task.(t_id) TaskStatus.FAILED "supervisor";; mret tt.

(** ** The stop request *)

(** [min(30 * (2 ** min(attempts - 1, 4)), 300)]. *)
Definition retry_seconds (attempts : Z) : Z := Z.min (30 * 2 ^ Z.min (attempts - 1) 4) 300.

(** The patch of a stop request. *)
Definition stop_patch (t : AttemptTurnMetadata) (state : WorkerAttemptState) (now : Z)
    : AttemptTurnMetadata :=
  let attempts := default 0 t.(tm_worker_stop_attempts) + 1 in
  no_turn
    <| tm_worker_stop_requested_at := Some (default now t.(tm_worker_stop_requested_at)) |>
    <| tm_worker_stop_attempts := Some attempts |>
    <| tm_worker_stop_next_retry_at := Some (now + retry_seconds attempts * SECOND) |>
    <| tm_stop_reason := Some (value WorkerStopReason.TURN_DEADLINE_EXCEEDED) |>
    <| tm_worker_state := Some (attempt_state_value state) |>.

Definition request_stuck_attempt_stop (task : Task) (run : Run) (state : WorkerAttemptState)
    (worker_id : option string) (now : Z) : M World bool :=
  t ← some_or ValidationError (from_run_metadata run.(r_run_metadata));
  if match t.(tm_worker_stop_next_retry_at) with Some at_ => now <? at_ | None => false end
  then mret false
  else
    let attempts := default 0 t.(tm_worker_stop_attempts) + 1 in
    api_update_run run.(r_id) (no_update <| ru_run_metadata := Some (as_run_metadata (stop_patch t state now)) |>);;
    (match worker_id with
     | Some w => publish WORKER_COMMANDS (DeleteWorkerMsg (mkDeleteWorkerCommand
                   ("stuck-" +:+ task.(t_id) +:+ "-" +:+ pretty attempts) w "timeout"))
     | None => mret tt
     end);;
    mret true.

(** ** Verdicts and their evidence *)

Section reads.
Context (E : env) `{!Alone E}.

Lemma exec_read_redis {A} (f : Redis → A) s (Q : res A → Shared → Prop) :
  Q (Ok (f s.(redis))) s → (∀ e, Q (Exc e) s) → exec E (read_redis f) s Q.
Proof.
  intros H1 H2. apply exec_remote; [apply _|]. intros s' ->%alone. split; [|auto].
  intros w <- Hw. by split.
Qed.

Lemma exec_read_stored {A} (f : Redis → option (stored A)) s (Q : res (option A) → Shared → Prop) :
  (∀ a, f s.(redis) = Some (Parsed a) → Q (Ok (Some a)) s) →
  (f s.(redis) = None → Q (Ok None) s) → (∀ e, Q (Exc e) s) →
  exec E (read_stored f) s Q.
Proof.
  intros H1 H2 H3. apply exec_bind, exec_read_redis; [|done].
  destruct (f (redis s)) as [[a|]|]; [apply exec_ret|apply exec_raise|apply exec_ret]; auto.
Qed.
End reads.

(** What has to be in Redis, or in the run's own metadata, for each verdict. *)
Definition evidence_for (run : Run) (now : Z) (r : Redis) (worker : option string)
    (state : WorkerAttemptState) : Prop :=
  match state with
  | UNKNOWN => True
  | REMOVED => ∃ t rid w e, from_run_metadata run.(r_run_metadata) = Some t ∧
      t.(tm_initiating_run_id) = Some rid ∧ t.(tm_worker_id) = Some w ∧ worker = Some w ∧
      r.(removed_workers) !! rid ≫= (.!! w) = Some (Parsed e) ∧ e.(re_attempt_id) = run.(r_id)
  | DEAD => ∃ t w status, from_run_metadata run.(r_run_metadata) = Some t ∧
      t.(tm_worker_id) = Some w ∧ worker = Some w ∧
      r.(worker_status) !! w = Some (value status) ∧ status ∈ WORKER_TERMINAL_STATUSES
  | RUNNING => ∃ t w a, from_run_metadata run.(r_run_metadata) = Some t ∧
      t.(tm_worker_id) = Some w ∧ worker = Some w ∧
      r.(active_turn) !! w = Some (Parsed a) ∧ a.(at_attempt_id) = run.(r_id) ∧
      t.(tm_active_turn_request_id) = Some a.(at_request_id) ∧ now < a.(at_deadline_at)
  | TIMED_OUT => ∃ t, from_run_metadata run.(r_run_metadata) = Some t ∧
      (turn_backstop_expired t now = true ∨
       ∃ w a, t.(tm_worker_id) = Some w ∧ r.(active_turn) !! w = Some (Parsed a) ∧
         a.(at_attempt_id) = run.(r_id) ∧
         t.(tm_active_turn_request_id) = Some a.(at_request_id) ∧ a.(at_deadline_at) ≤ now)
  | IDLE => ∃ t w status, from_run_metadata run.(r_run_metadata) = Some t ∧
      t.(tm_worker_id) = Some w ∧ worker = Some w ∧ turn_backstop_expired t now = false ∧
      r.(worker_status) !! w = Some (value status) ∧ status ∉ WORKER_TERMINAL_STATUSES
  end.

Lemma unavailable_evidence run now r worker t :
  from_run_metadata run.(r_run_metadata) = Some t →
  evidence_for run now r worker (unknown_or_timed_out t now).
Proof.
  intros Ht. unfold unknown_or_timed_out. destruct (turn_backstop_expired t now) eqn:Hb; [|done].
  exists t. auto.
Qed.

Section verdicts.
Context (E : env) `{!Alone E} (run : Run) (now : Z) (s : Shared) (t : AttemptTurnMetadata).
Context (Ht : from_run_metadata run.(r_run_metadata) = Some t).

Lemma exec_present_state w :
  t.(tm_worker_id) = Some w →
  exec E (present_state run t w now) s
    (λ r s', s' = s ∧ ∃ state, r = Ok state ∧ evidence_for run now s.(redis) (Some w) state).
Proof.
  intros Hw. assert (∃ state, Ok (A:=WorkerAttemptState) (unknown_or_timed_out t now) = Ok state ∧
    evidence_for run now s.(redis) (Some w) state) as Hun.
  { eexists. split; [done|]. by apply unavailable_evidence. }
  unfold present_state. apply exec_bind, exec_attempt, (exec_read_redis E); [|intros e; by apply exec_ret].
  destruct (worker_status (redis s) !! w) as [text|] eqn:Hst; [|by apply exec_ret].
  destruct (member_of text) as [status|] eqn:Hm; [|by apply exec_ret].
  apply member_of_Some in Hm. subst text. case_bool_decide as Hterm.
  { apply exec_ret. split; [done|]. exists DEAD. split; [done|]. by exists t, w, status. }
  apply exec_bind, exec_attempt, (exec_read_stored E).
  - intros a Ha. apply exec_ret. split; [done|]. eexists. split; [done|]. unfold turn_verdict in *.
    destruct (bool_decide _ && bool_decide _) eqn:Hmine.
    + apply andb_true_iff in Hmine as [Hid Hrq]. apply bool_decide_eq_true in Hid, Hrq.
      destruct (Z.leb_spec (at_deadline_at a) now).
      * exists t. split; [done|]. right. by exists w, a.
      * exists t, w, a. by split_and!.
    + destruct (turn_backstop_expired t now) eqn:Hb; [by apply unavailable_evidence|].
      by exists t, w, status.
  - intros _. apply exec_ret. split; [done|]. eexists. split; [done|]. unfold turn_verdict.
    destruct (turn_backstop_expired t now) eqn:Hb; [by apply unavailable_evidence|].
    by exists t, w, status.
  - intros e. by apply exec_ret.
Qed.
End verdicts.

(**  Unavailable Redis proves nothing.  Whatever calls fail, the
    classification answers, changes nothing, and every verdict rests on evidence:
    REMOVED on a stored removal record that names this attempt, DEAD on a terminal
    status of its worker, RUNNING on an unexpired lease of this attempt and
    request, TIMED_OUT on an expired lease or an expired backstop, IDLE on a worker
    known to be alive.  Without evidence the verdict is UNKNOWN. *)
Theorem verdicts_need_evidence run now w :
  in_env faulty w →
  let '(result, w') := attempt_state run now w in
  w'.(shared) = w.(shared) ∧ ∃ state worker, result = Ok (state, worker) ∧
    evidence_for run now w.(shared).(redis) worker state.
Proof.
  intros Hw. set (s := shared w). set (Q := λ (r : res (WorkerAttemptState * option string)) s', s' = s ∧
    ∃ state worker, r = Ok (state, worker) ∧ evidence_for run now s.(redis) worker state).
  assert (exec faulty (attempt_state run now) s Q) as Hexec; unfold Q in *.
  { unfold attempt_state. destruct (from_run_metadata _) as [t|] eqn:Ht;
      [|apply exec_ret; split; [done|by exists UNKNOWN, None]].
    assert (∀ worker, ∃ state worker', Ok (unknown_or_timed_out t now, worker) = Ok (state, worker') ∧
      evidence_for run now s.(redis) worker' state) as Hun.
    { intros worker. do 2 eexists. split; [done|]. by apply unavailable_evidence. }
    destruct (tm_worker_id t) as [wid|] eqn:Hwid; [|by apply exec_ret].
    assert (exec faulty (state ← present_state run t wid now; mret (state, Some wid)) s Q) as Hpres.
    { apply exec_bind. eapply exec_mono; [by apply (exec_present_state faulty run now s t)|].
      intros r s' (-> & state & -> & Hev). apply exec_ret. split; [done|]. by exists state, (Some wid). }
    apply exec_bind, exec_attempt. destruct (tm_initiating_run_id t) as [rid|] eqn:Hrid.
    2:{ apply exec_ret. exact Hpres. }
    apply (exec_read_stored faulty).
    - intros e He. cbn. case_bool_decide as Hid; [|exact Hpres]. apply exec_ret. split; [done|].
      exists REMOVED, (Some wid). split; [done|]. by exists t, rid, wid, e.
    - intros _. exact Hpres.
    - intros e. by apply exec_ret. }
  destruct (Hexec w eq_refl Hw) as [_ Hq]. by destruct (attempt_state run now w).
Qed.

(** ** The stop request *)

Lemma meta_get_merge key old new :
  meta_get key (merge old new) =
    match new !! key with
    | Some MNull => None
    | Some v => Some v
    | None => meta_get key old
    end.
Proof.
  unfold meta_get, merge. destruct (new !! key) as [v|] eqn:Hn.
  - rewrite (lookup_union_Some_l _ _ _ v Hn). by destruct v.
  - by rewrite lookup_union_r.
Qed.

(** A field the patch does not carry keeps its value. *)
Lemma optional_field_merge {A} (read : meta → option A) ok key old new :
  new !! key = None → optional_field read ok key (merge old new) = optional_field read ok key old.
Proof. intros Hn. unfold optional_field. by rewrite meta_get_merge, Hn. Qed.
Lemma optional_field_patched {A} (read : meta → option A) ok key old new v a :
  new !! key = Some v → v ≠ MNull → read v = Some a → ok a = true →
  optional_field read ok key (merge old new) = Some (Some a).
Proof.
  intros Hn Hnull Hr Hok. unfold optional_field. rewrite meta_get_merge, Hn.
  destruct v; [done|..]; cbn; rewrite Hr; cbn; by rewrite Hok.
Qed.

Lemma optional_field_nonneg key m n :
  optional_field read_int (λ n, 0 <=? n) key m = Some (Some n) → 0 ≤ n.
Proof.
  unfold optional_field. destruct (meta_get key m) as [v|]; [|done].
  destruct (read_int v) as [k|]; [|done]. cbn.
  destruct (Z.leb_spec 0 k); [by intros [= ->]|done].
Qed.

(** Reading the metadata back after the patch was merged. *)
Lemma from_run_metadata_patched m t state now :
  from_run_metadata m = Some t →
  let attempts := default 0 t.(tm_worker_stop_attempts) + 1 in
  from_run_metadata (merge m (as_run_metadata (stop_patch t state now))) =
    Some (t <| tm_worker_stop_requested_at := Some (default now t.(tm_worker_stop_requested_at)) |>
            <| tm_worker_stop_attempts := Some attempts |>
            <| tm_worker_stop_next_retry_at := Some (now + retry_seconds attempts * SECOND) |>
            <| tm_stop_reason := Some (value WorkerStopReason.TURN_DEADLINE_EXCEEDED) |>
            <| tm_worker_state := Some (attempt_state_value state) |>).
Proof.
  intros Ht attempts. unfold from_run_metadata in *.
  repeat match type of Ht with
  | mbind _ ?o = _ => let F := fresh "F" in destruct o eqn:F; [cbn [mbind option_bind] in Ht|done]
  end.
  injection Ht as <-. cbn in attempts.
  assert ((0 <=? attempts) = true) as Hpos.
  { apply Z.leb_le. subst attempts. destruct o6 as [n|]; cbn; [|lia].
    apply optional_field_nonneg in F6. lia. }
  set (new := as_run_metadata _).
  rewrite (optional_field_merge _ _ "initiating_run_id"), F by reflexivity. cbn [mbind option_bind].
  rewrite (optional_field_merge _ _ "worker_id"), F0 by reflexivity. cbn [mbind option_bind].
  rewrite (optional_field_merge _ _ "agent_limit_seconds"), F1 by reflexivity. cbn [mbind option_bind].
  rewrite (optional_field_merge _ _ "active_turn_request_id"), F2 by reflexivity. cbn [mbind option_bind].
  rewrite (optional_field_merge _ _ "active_turn_backstop_seconds"), F3 by reflexivity. cbn [mbind option_bind].
  rewrite (optional_field_merge _ _ "active_turn_requested_at"), F4 by reflexivity. cbn [mbind option_bind].
  rewrite (optional_field_patched _ _ "worker_stop_requested_at" _ _ (MTime (default now o5)) (default now o5))
    by (reflexivity || done). cbn [mbind option_bind].
  rewrite (optional_field_patched _ _ "worker_stop_attempts" _ _ (MInt attempts) attempts)
    by (reflexivity || done). cbn [mbind option_bind].
  rewrite (optional_field_patched _ _ "worker_stop_next_retry_at" _ _
    (MTime (now + retry_seconds attempts * SECOND)) (now + retry_seconds attempts * SECOND))
    by (reflexivity || done). cbn [mbind option_bind].
  rewrite (optional_field_patched _ _ "stop_reason" _ _
    (MStr (value WorkerStopReason.TURN_DEADLINE_EXCEEDED)) (value WorkerStopReason.TURN_DEADLINE_EXCEEDED))
    by (reflexivity || done). cbn [mbind option_bind].
  rewrite (optional_field_patched _ _ "worker_state" _ _ (MStr (attempt_state_value state))
    (attempt_state_value state)) by (reflexivity || done).
  reflexivity.
Qed.

Lemma retry_seconds_bounds attempts : 1 ≤ attempts → 30 ≤ retry_seconds attempts ≤ 300.
Proof.
  intros Ha. unfold retry_seconds. set (k := Z.min (attempts - 1) 4).
  assert (1 ≤ 2 ^ k) by (apply (Z.pow_le_mono_r 2 0 k); lia). lia.
Qed.

Lemma stop_attempts_nonneg m t :
  from_run_metadata m = Some t → 0 ≤ default 0 t.(tm_worker_stop_attempts).
Proof.
  unfold from_run_metadata. intros Ht.
  repeat match type of Ht with
  | mbind _ ?o = _ => let F := fresh "F" in destruct o eqn:F; [cbn [mbind option_bind] in Ht|done]
  end.
  injection Ht as <-. cbn. destruct o6 as [n|]; cbn; [|lia]. by apply optional_field_nonneg in F6.
Qed.

(** A metadata patch of a run: it lands or the call fails. *)
Definition patched (run_id : string) (m : metadata) (s : Shared) : Shared :=
  s <| db := match s.(db).(runs) !! run_id with
             | Some run => put_run (run <| r_run_metadata ::= λ old, merge old m |>) s.(db)
             | None => s.(db)
             end |>.

Lemma patched_run run m s :
  s.(db).(runs) !! run.(r_id) = Some run →
  (patched run.(r_id) m s).(db).(runs) !! run.(r_id) =
    Some (run <| r_run_metadata ::= λ old, merge old m |>).
Proof. intros Hr. unfold patched. rewrite Hr. by destruct s, run; apply lookup_insert_eq. Qed.
Lemma patched_redis run_id m s : (patched run_id m s).(redis) = s.(redis).
Proof. by destruct s. Qed.

Lemma exec_patch_run E `{!Alone E} run_id m s (Q : res unit → Shared → Prop) :
  (is_Some (s.(db).(runs) !! run_id) → Q (Ok tt) (patched run_id m s)) →
  (∀ e, Q (Exc e) s) → (∀ e, Q (Exc e) (patched run_id m s)) →
  exec E (api_update_run run_id (no_update <| ru_run_metadata := Some m |>)) s Q.
Proof.
  intros H1 H2 H3. apply exec_bind, exec_request; [apply _|]. intros s' ->%alone. split; [|auto].
  unfold wp, patched in *. rewrite update_metadata_eq.
  destruct (runs (db s) !! run_id) as [run|]; cbn [fst snd over_http].
  - split; [apply exec_ret, H1; eauto|intros _; apply H3].
  - rewrite same_db. auto.
Qed.

Definition stop_command (task : Task) (attempts : Z) (worker : option string) : list (string * message) :=
  match worker with
  | Some w => [(WORKER_COMMANDS, DeleteWorkerMsg (mkDeleteWorkerCommand
                 ("stuck-" +:+ task.(t_id) +:+ "-" +:+ pretty attempts) w "timeout"))]
  | None => []
  end.

Lemma exec_request_stop task run state worker now s t :
  s.(db).(runs) !! run.(r_id) = Some run →
  from_run_metadata run.(r_run_metadata) = Some t →
  exec faulty (request_stuck_attempt_stop task run state worker now) s (λ r s',
    r = Ok true →
    s'.(db).(runs) !! run.(r_id) =
      Some (run <| r_run_metadata ::= λ old, merge old (as_run_metadata (stop_patch t state now)) |>) ∧
    s'.(redis).(streams) = s.(redis).(streams) ++
      stop_command task (default 0 t.(tm_worker_stop_attempts) + 1) worker).
Proof.
  intros Hrun Ht. unfold request_stuck_attempt_stop. rewrite Ht.
  apply exec_bind, exec_some_or; [|done]. intros a [= <-]. cbv beta.
  destruct (match tm_worker_stop_next_retry_at t with Some _ => _ | None => _ end);
    [by apply exec_ret|].
  apply exec_bind, (exec_patch_run faulty); [|done|done]. intros _.
  pose proof (patched_run run (as_run_metadata (stop_patch t state now)) s Hrun) as Hp.
  pose proof (patched_redis run.(r_id) (as_run_metadata (stop_patch t state now)) s) as Hr.
  set (s1 := patched _ _ s) in *. clearbody s1. apply exec_bind. destruct worker as [wid|]; cbn [stop_command].
  - apply exec_publish; [apply _|]. intros s' ->%alone. split; [|done].
    apply exec_ret. intros _. split; [exact Hp|]. cbn. by rewrite Hr.
  - apply exec_ret, exec_ret. intros _. split; [exact Hp|]. by rewrite app_nil_r, Hr.
Qed.

(** Asking a stuck worker to stop is retried, with backoff.  A
    request that went through counts its attempt on the run, keeps the moment of
    the first request, sends at most the one command that names the worker, and
    sets the next retry between 30 and 300 seconds later; until that moment no
    further call changes anything, whatever it is asked to stop. *)
Theorem stop_requests_back_off task run state worker now w t :
  in_env faulty w →
  w.(shared).(db).(runs) !! run.(r_id) = Some run →
  from_run_metadata run.(r_run_metadata) = Some t →
  (request_stuck_attempt_stop task run state worker now w).1 = Ok true →
  let s' := (request_stuck_attempt_stop task run state worker now w).2.(shared) in
  let attempts := default 0 t.(tm_worker_stop_attempts) + 1 in
  ∃ run' t' retry_at,
    s'.(db).(runs) !! run.(r_id) = Some run' ∧
    from_run_metadata run'.(r_run_metadata) = Some t' ∧
    t'.(tm_worker_stop_attempts) = Some attempts ∧
    t'.(tm_worker_stop_requested_at) = Some (default now t.(tm_worker_stop_requested_at)) ∧
    t'.(tm_worker_stop_next_retry_at) = Some retry_at ∧
    now + 30 * SECOND ≤ retry_at ≤ now + 300 * SECOND ∧
    s'.(redis).(streams) = w.(shared).(redis).(streams) ++ stop_command task attempts worker ∧
    ∀ task2 state2 worker2 now2 w2, now2 < retry_at →
      request_stuck_attempt_stop task2 run' state2 worker2 now2 w2 = (Ok false, w2).
Proof.
  intros Hw Hrun Ht Hok s' attempts.
  destruct (exec_request_stop task run state worker now w.(shared) t Hrun Ht w eq_refl Hw) as [_ Hq].
  destruct (Hq Hok) as [Hrun' Hstream]. clear Hq. fold s' attempts in Hrun', Hstream.
  pose proof (from_run_metadata_patched _ _ state now Ht) as Ht'. cbv zeta in Ht'. fold attempts in Ht'.
  pose proof (stop_attempts_nonneg _ _ Ht). pose proof (retry_seconds_bounds attempts ltac:(lia)).
  do 2 eexists. exists (now + retry_seconds attempts * SECOND).
  split; [exact Hrun'|]. split; [exact Ht'|]. split; [done|]. split; [done|]. split; [done|].
  split; [unfold SECOND; lia|]. split; [done|].
  intros task2 state2 worker2 now2 w2 Hlt. unfold request_stuck_attempt_stop, mbind, M_bind.
  match goal with |- context [from_run_metadata ?m] => change (from_run_metadata m) with
    (from_run_metadata (merge (r_run_metadata run) (as_run_metadata (stop_patch t state now)))) end.
  rewrite Ht'. cbn. by rewrite (proj2 (Z.ltb_lt _ _) Hlt).
Qed.

(** ** The properties at concrete worlds *)

Definition sample_turn : AttemptTurnMetadata :=
  mkAttemptTurnMetadata (Some "run-1") (Some "w1") None (Some "req-1") (Some 60) (Some 0)
    None None None None None.
Definition turn_metadata : metadata := as_run_metadata sample_turn.
Definition stuck_run : Run :=
  mkRun "eng-1" "engineering" "running" (Some "p1") None turn_metadata None None None None
    (Some "t1") 0.
Definition stuck_task : Task :=
  mkTask "t1" "p1" "feature" "Echo" None None "in_dev" 0 None 0 3 false "po" None None None None
    None 0 0.
Definition stuck_world (r : Redis) (turns : list turn) : World :=
  mkWorld (mkShared (mkDatabase {[ "t1" := stuck_task ]} [] ∅ {[ "eng-1" := stuck_run ]} ∅
             {[ "p1" := sample_project ]} ∅ ∅ ∅ ∅ ∅) r (mkFleet [] [] (λ _, []) ∅) (61 * SECOND) [])
    turns false (λ n, "u" +:+ pretty n) 0 [] silent ∅ [].

(** The status hash cannot be read; the backstop has expired. *)
Lemma verdicts_need_evidence_witness :
  let w := stuck_world empty_redis [undisturbed NoFault; undisturbed Lost] in
  let '(result, w') := attempt_state stuck_run (61 * SECOND) w in
  w'.(shared) = w.(shared) ∧ ∃ state worker, result = Ok (state, worker) ∧
    evidence_for stuck_run (61 * SECOND) w.(shared).(redis) worker state.
Proof.
  apply (verdicts_need_evidence stuck_run (61 * SECOND)
    (stuck_world empty_redis [undisturbed NoFault; undisturbed Lost])).
  split; [|done]. repeat constructor; done.
Defined.

Example silence_times_out :
  (attempt_state stuck_run (61 * SECOND) (stuck_world empty_redis [])).1 = Ok (TIMED_OUT, Some "w1").
Proof. by vm_compute. Qed.

Lemma stop_requests_back_off_witness :
  let w := stuck_world empty_redis [] in
  let s' := (request_stuck_attempt_stop stuck_task stuck_run TIMED_OUT (Some "w1") (61 * SECOND) w).2.(shared) in
  ∃ run' t' retry_at,
    s'.(db).(runs) !! "eng-1" = Some run' ∧
    from_run_metadata run'.(r_run_metadata) = Some t' ∧
    t'.(tm_worker_stop_attempts) = Some 1 ∧
    t'.(tm_worker_stop_requested_at) = Some (61 * SECOND) ∧
    t'.(tm_worker_stop_next_retry_at) = Some retry_at ∧
    61 * SECOND + 30 * SECOND ≤ retry_at ≤ 61 * SECOND + 300 * SECOND ∧
    s'.(redis).(streams) = [] ++ stop_command stuck_task 1 (Some "w1") ∧
    ∀ task2 state2 worker2 now2 w2, now2 < retry_at →
      request_stuck_attempt_stop task2 run' state2 worker2 now2 w2 = (Ok false, w2).
Proof.
  apply (stop_requests_back_off stuck_task stuck_run TIMED_OUT (Some "w1") (61 * SECOND)
    (stuck_world empty_redis []) sample_turn).
  - by apply in_env_calm_faulty, calm_world.
  - reflexivity.
  - vm_compute. reflexivity.
  - vm_compute. reflexivity.
Defined.
