(* ===== verification/Dispatcher.v ===== *)
(** * Dispatcher: from a task in todo to a worker on its branch

    [services/scheduler/src/tasks/task_dispatcher.py]: the dispatch of todo tasks,
    with the guards that keep one attempt per task, the recovery of an attempt an
    earlier tick left behind, and the publication of a new one. *)

From Stdlib Require Import Ascii.
From S2P Require Import Prelude Vocabulary Contracts Docs Db Api ApiTasks ApiStories ApiRuns.
From S2P Require Import Placement RunLifecycle World SchedulerClient Recipients.
From S2P Require Import OwnerNotifications WorkerLiveness.

(** [error_message] of a run whose message never reached the queue. *)
Definition PUBLISH_FAILED_ERROR : string := "dispatch publish failed".

(** [_build_cumulative_context]: the summaries of finished iterations. *)
Definition context_line (event : TaskEvent) : option string :=
  if negb (bool_decide (event.(te_event_type) = value TaskEventType.ITERATION_END)) then None
  else
    let summary := default "" (meta_str (meta_get "summary" event.(te_details))) in
    let commit := default "" (meta_str (meta_get "commit_sha" event.(te_details))) in
    if decide (summary = "") then None
    else Some ("- " +:+ summary +:+
               (if decide (commit = "") then "" else " (commit: " +:+ commit +:+ ")")).
Definition build_cumulative_context (events : list TaskEvent) : string :=
  match omap context_line events with
  | [] => ""
  | lines => "## Context from completed tasks" +:+ newline +:+
             String.concat newline lines +:+ newline +:+ newline
  end.

Definition find_unfinished_run (task : Task) : M World (option Run) :=
  runs ← api_list_runs task.(t_id) RunType.ENGINEERING;
  mret (snd <$> list_find (λ r, is_live r) runs).

(** The iteration stamp of an attempt. *)
Definition of_iteration (task : Task) (run : Run) : bool :=
  bool_decide (run.(r_run_metadata) !! "iteration" = Some (MInt task.(t_current_iteration))).

Definition find_dispatched_run (task : Task) : M World (option Run) :=
  runs ← api_list_runs task.(t_id) RunType.ENGINEERING;
  mret (snd <$> list_find (λ r, of_iteration task r) runs).

Definition recover_dispatched_task (task_id : string) (run : Run) : M World unit :=
  api_transition_task task_id TaskStatus.IN_DEV "dispatcher";;
  statuses ← terminal_task_statuses run;
  fold_m (λ _ status, api_transition_task task_id status "dispatcher";; mret tt) tt statuses.

Definition story_blocks_dispatch (siblings : list Task) : bool :=
  existsb (λ s, bool_decide (s.(t_status) = value TaskStatus.IN_DEV)) siblings ||
  existsb (λ s, bool_decide (s.(t_status) = value TaskStatus.WAITING_HUMAN_REVIEW)) siblings.

Inductive PriorAttempt := RECOVERED | BLOCKED | REPLAYED.

(** [prior in _DISPATCH_COMPLETING]. *)
Definition dispatch_completing (p : PriorAttempt) : bool :=
  match p with RECOVERED | REPLAYED => true | BLOCKED => false end.

Definition handle_prior_attempt (task : Task) : M World (option PriorAttempt) :=
  unfinished_run ← find_unfinished_run task;
  match unfinished_run with
  | Some run =>
      api_transition_task task.(t_id) TaskStatus.IN_DEV "dispatcher";;
      mret (Some (if of_iteration task run then RECOVERED else BLOCKED))
  | None =>
      prior_run ← find_dispatched_run task;
      match prior_run with
      | Some run => recover_dispatched_task task.(t_id) run;; mret (Some REPLAYED)
      | None => mret None
      end
  end.

(** [ActionType.FEATURE if task.type is REFACTOR else ActionType(task.type)]. *)
Definition action_of (task_type : string) : res ActionType.t :=
  if decide (task_type = value TaskType.REFACTOR) then Ok ActionType.FEATURE
  else match member_of task_type with Some a => Ok a | None => Exc ValueError end.

(** The attempt's metadata: the story and task it serves, the run that owns it and
    the iteration that dispatched it. *)
Definition dispatch_metadata (task : Task) (initiating_run_id : string) : metadata :=
  <["iteration" := MInt task.(t_current_iteration)]> (
  merge (<["task_id" := MStr task.(t_id)]> (
         <["story_id" := match task.(t_story_id) with Some s => MStr s | None => MNull end]> (
         {[ "triggered_by" := MStr "dispatcher" ]})))
    (as_run_metadata (no_turn <| tm_initiating_run_id := Some initiating_run_id |>))).

(** The message of an attempt. *)
Definition dispatch_message (task : Task) (run_id description initiating_run_id chat : string)
    (action : ActionType.t) : EngineeringMessage :=
  mkEngineeringMessage run_id task.(t_project_id) initiating_run_id chat action (Some description)
    true (Some task.(t_id)) task.(t_story_id) 0
    (if truthy task.(t_story_id) then Some ("story/" +:+ default "" task.(t_story_id)) else None).

Definition create_and_publish_run (task : Task) (description initiating_run_id : string)
    : M World (option string) :=
  hex ← uuid4_hex;
  let run_id := "eng-" +:+ String.substring 0 12 hex in
  let run_metadata := dispatch_metadata task initiating_run_id in
  api_create_run (mkRunCreate run_id (value RunType.ENGINEERING) (Some task.(t_project_id)) None
                    None (Some task.(t_id)) run_metadata);;
  action ← of_res (action_of task.(t_type));
  recipient ← resolve_project_recipient task.(t_project_id) "task_dispatch"
                (default "" task.(t_story_id));
  sent ← attempt (publish ENGINEERING_QUEUE (EngineeringMsg
    (dispatch_message task run_id description initiating_run_id recipient.(rcp_telegram_chat_id)
       action)));
  match sent with
  | Ok _ => mret (Some run_id)
  | Exc _ =>
      api_update_run run_id
        (mkRunUpdate (Some (Some (value RunStatus.FAILED)))
           (Some (<["publish_failed" := MBool true]> (<["iteration" := MNull]> run_metadata)))
           (Some (Some (EngineeringResult (engineering_result EngineeringStatus.FAILED))))
           (Some (Some PUBLISH_FAILED_ERROR)) None);;
      mret None
  end.

Definition transition_to_in_dev (task_id : string) : M World bool :=
  first ← attempt (api_transition_task task_id TaskStatus.IN_DEV "dispatcher");
  match first with
  | Ok _ => mret true
  | Exc _ =>
      second ← attempt (api_transition_task task_id TaskStatus.IN_DEV "dispatcher");
      match second with Ok _ => mret true | Exc _ => mret false end
  end.

Definition project_and_initiating_run (project_id : string) : M World (option (Project * string)) :=
  project ← api_get_project project_id;
  match project with
  | None => mret None
  | Some p =>
      match require_initiating_run p with
      | Ok run_id => mret (Some (p, run_id))
      | Exc _ => mret None
      end
  end.

Definition INTERNAL_PROJECT_ID : string := "033c2033-fc75-4d86-ade2-08efe7b15a5e".

(** The summaries of the finished siblings, in front of the description. *)
Definition described (task : Task) (siblings : list Task) : M World string :=
  all_events ← map_m (λ s, api_get_task_events s.(t_id))
    (filter (λ s, s.(t_id) ≠ task.(t_id) ∧ s.(t_status) = value TaskStatus.DONE) siblings);
  mret (build_cumulative_context (concat all_events) +:+ default "" task.(t_description)).

(** What the loop does for one task: 1 if the task was dispatched by this tick,
    [mret 0] where the source continues. *)
Definition dispatch_task (task : Task) : M World Z :=
  still_blocked ← (if truthy task.(t_blocked_by_task_id) then
                     blocker ← api_get_task (default "" task.(t_blocked_by_task_id));
                     mret (negb (bool_decide (blocker.(t_status) = value TaskStatus.DONE)))
                   else mret false);
  if (still_blocked : bool) then mret 0
  else if decide (task.(t_project_id) = INTERNAL_PROJECT_ID) then mret 0
  else
    resolved ← project_and_initiating_run task.(t_project_id);
    match resolved with
    | None => mret 0
    | Some (project, initiating_run_id) =>
        if decide (project.(p_status) = value ProjectStatus.DRAFT) then mret 0
        else if negb (doc_truthy (get "workspace_ready" project.(p_config))) then mret 0
        else
          siblings ← (if truthy task.(t_story_id)
                      then api_get_tasks_by_story (default "" task.(t_story_id)) else mret []);
          if story_blocks_dispatch siblings then mret 0
          else
            prior ← handle_prior_attempt task;
            match prior with
            | Some p => mret (if dispatch_completing p then 1 else 0)
            | None =>
                description ← described task siblings;
                run_id ← create_and_publish_run task description initiating_run_id;
                match run_id with
                | None => mret 0
                | Some _ =>
                    moved ← transition_to_in_dev task.(t_id);
                    mret (if (moved : bool) then 1 else 0)
                end
            end
    end.

Definition dispatch_todo_tasks : M World Z :=
  tasks ← api_get_tasks_by_status TaskStatus.TODO;
  fold_m (λ dispatched task, n ← dispatch_task task; mret (dispatched + n)) 0 tasks.

(** ** One open attempt per task

    An attempt is open until its run is over.  The other processes close attempts
    and move tasks as they please; the hypothesis of the section's theorem is that
    none of them opens one: only this loop creates the runs of todo tasks (the
    administrator's [spawn_worker] takes a task out of todo first). *)

Definition open_attempt (task_id : string) (r : Run) : Prop :=
  r.(r_task_id) = Some task_id ∧ r.(r_type) = value RunType.ENGINEERING ∧
  is_terminal r.(r_status) = false.

Definition one_open_attempt (d : Database) : Prop := ∀ task_id i j r1 r2,
  d.(runs) !! i = Some r1 → d.(runs) !! j = Some r2 →
  open_attempt task_id r1 → open_attempt task_id r2 → i = j.

Definition no_open_attempt (task_id : string) (d : Database) : Prop := ∀ i r,
  d.(runs) !! i = Some r → ¬ open_attempt task_id r.

Definition opens_nothing (d d' : Database) : Prop := ∀ i r' task_id,
  d'.(runs) !! i = Some r' → open_attempt task_id r' →
  ∃ r, d.(runs) !! i = Some r ∧ open_attempt task_id r.

(** The others open no attempt; anything else may happen between two calls, and
    any call may fail. *)
Definition attempts_env : env := mkEnv (λ s s', opens_nothing s.(db) s'.(db)) true.

#[export] Instance opens_nothing_preorder : PreOrder opens_nothing.
Proof.
  split.
  - intros d i r' t Hr Ho. by exists r'.
  - intros d1 d2 d3 H12 H23 i r' t Hr Ho. destruct (H23 _ _ _ Hr Ho) as (r2 & Hr2 & Ho2). by eapply H12.
Qed.
#[export] Instance attempts_preorder : PreOrder (moves attempts_env).
Proof. split; [by intros s; cbn|]. intros s1 s2 s3 H12 H23. cbn in *. by etransitivity. Qed.

Lemma opens_same d d' : d'.(runs) = d.(runs) → opens_nothing d d'.
Proof. intros Heq i r' t Hr Ho. rewrite Heq in Hr. by exists r'. Qed.
Lemma one_open_stable d d' : one_open_attempt d → opens_nothing d d' → one_open_attempt d'.
Proof.
  intros H1 Ho t i j r1 r2 Hi Hj Ha Hb. destruct (Ho _ _ _ Hi Ha) as (? & ? & ?).
  destruct (Ho _ _ _ Hj Hb) as (? & ? & ?). by eapply H1.
Qed.
Lemma no_open_stable t d d' : no_open_attempt t d → opens_nothing d d' → no_open_attempt t d'.
Proof. intros H1 Ho i r Hi Ha. destruct (Ho _ _ _ Hi Ha) as (? & ? & ?). by eapply H1. Qed.

(** *** What the dispatcher's own calls do to attempts *)

Definition runs_kept {A} (m : M Database A) : Prop := guar (λ d d', d'.(runs) = d.(runs)) m.
#[export] Instance runs_kept_preorder : PreOrder (λ d d' : Database, d'.(runs) = d.(runs)).
Proof. split; [done|]. intros x y z H1 H2. by rewrite H2. Qed.

Lemma transition_task_keeps_runs now id to body : runs_kept (transition_task now id to body).
Proof.
  unfold runs_kept, transition_task, ApiTasks.get_task, validate_transition, set_status, create_status_event.
  guar_auto; by intros ?; apply guar_modify.
Qed.

Lemma closing_update_opens_nothing now id u d :
  u.(ru_status) = Some (Some (value RunStatus.FAILED)) →
  opens_nothing d (update_run now service id u d).2.
Proof.
  intros Hu. change (wp (update_run now service id u) (λ _ d', opens_nothing d d') d).
  unfold update_run. apply wp_transaction, wp_bind. unfold lock_run. wp_auto.
  2: by apply opens_same.
  eapply wp_reads; [apply resolve_actor_reads|intros r]. wp_auto; try by apply opens_same.
  match goal with H : apply_update _ _ = Ok ?r |- _ => rename r into run'; rename H into Happ end.
  assert (run'.(r_status) = value RunStatus.FAILED) as Hst.
  { revert Happ. unfold apply_update. rewrite Hu. by intros [= <-]. }
  intros i r' t. cbn. intros [[_ <-]|[_ Hr]]%lookup_insert_Some Ho; [|by exists r'].
  destruct Ho as (_ & _ & Ho). by rewrite Hst in Ho.
Qed.

Notation quiet m := (guar (within attempts_env) m) (only parsing).

Lemma quiet_read {A} (endpoint : Z → M Database A) :
  (∀ now, reads_only (endpoint now)) → quiet (request endpoint).
Proof.
  intros Hro. apply within_request; [apply _|]. intros s. cbn. rewrite <-(Hro s.(clock) s.(db)).
  by apply opens_same.
Qed.
Lemma quiet_model_validate {A} (valid : A → bool) a : quiet (model_validate valid a).
Proof. unfold model_validate. guar_auto. Qed.
Lemma quiet_get {A} (valid : A → bool) (endpoint : Z → M Database A) :
  (∀ now, reads_only (endpoint now)) → quiet (get_validated valid endpoint).
Proof. intros Hro. apply guar_bind; [apply _|by apply quiet_read|intros a; apply quiet_model_validate]. Qed.
Lemma quiet_none_if_missing {A} (m : M World A) : quiet m → quiet (none_if_missing m).
Proof. intros Hm. unfold none_if_missing. guar_auto. Qed.

Lemma quiet_get_project id : quiet (api_get_project id).
Proof. apply quiet_none_if_missing, quiet_get. auto with reads. Qed.
Lemma quiet_get_user id : quiet (api_get_user id).
Proof. apply quiet_none_if_missing, quiet_read. auto with reads. Qed.
Lemma quiet_get_task id : quiet (api_get_task id).
Proof. apply quiet_get. auto with reads. Qed.
Lemma quiet_tasks_by_story id : quiet (api_get_tasks_by_story id).
Proof. apply quiet_get. auto with reads. Qed.
Lemma quiet_tasks_by_status st : quiet (api_get_tasks_by_status st).
Proof. apply quiet_get. auto with reads. Qed.
Lemma quiet_task_events id : quiet (api_get_task_events id).
Proof. apply quiet_get. auto with reads. Qed.
Lemma quiet_list_runs id ty : quiet (api_list_runs id ty).
Proof. apply quiet_get. auto with reads. Qed.
Lemma quiet_transition id to actor : quiet (api_transition_task id to actor).
Proof.
  apply guar_bind; [apply _| |intros a; apply quiet_model_validate].
  apply within_request; [apply _|]. intros s. apply opens_same, transition_task_keeps_runs.
Qed.
Lemma quiet_closing_update id u :
  u.(ru_status) = Some (Some (value RunStatus.FAILED)) → quiet (api_update_run id u).
Proof.
  intros Hu. apply guar_bind; [apply _| |intros; apply guar_ret; apply _].
  apply within_request; [apply _|]. intros s. by apply closing_update_opens_nothing.
Qed.
Lemma quiet_publish stream m : quiet (publish stream m).
Proof. apply within_publish; [apply _|]. intros s. by apply opens_same. Qed.
#[local] Hint Resolve quiet_get_project quiet_get_user quiet_get_task quiet_tasks_by_story
  quiet_tasks_by_status quiet_task_events quiet_list_runs quiet_transition quiet_publish : guar.

Lemma quiet_resolve_recipient p e st : quiet (resolve_project_recipient p e st).
Proof. unfold resolve_project_recipient, resolve_owner_recipient, alert_unresolved. guar_auto. Qed.
Lemma quiet_terminal_task_statuses run : quiet (terminal_task_statuses run).
Proof. unfold terminal_task_statuses. guar_auto. Qed.
#[local] Hint Resolve quiet_resolve_recipient quiet_terminal_task_statuses : guar.
Lemma quiet_project_and_run p : quiet (project_and_initiating_run p).
Proof. unfold project_and_initiating_run. guar_auto. Qed.
Lemma quiet_recover id run : quiet (recover_dispatched_task id run).
Proof. unfold recover_dispatched_task. guar_auto. Qed.
Lemma quiet_described task siblings : quiet (described task siblings).
Proof. unfold described. guar_auto. Qed.
Lemma quiet_transition_to_in_dev id : quiet (transition_to_in_dev id).
Proof. unfold transition_to_in_dev. guar_auto. Qed.
#[local] Hint Resolve quiet_project_and_run quiet_recover quiet_described quiet_transition_to_in_dev : guar.

(** *** The guard sees every open attempt *)

Lemma list_runs_eq f d :
  list_runs service f d =
    (Ok (select (map_to_list d.(runs)).*2 (run_where f None)
           (λ a b, b.(r_created_at) <=? a.(r_created_at))), d).
Proof. reflexivity. Qed.

Definition task_runs_filter (task_id : string) : RunFilters :=
  (no_run_filter <| rf_task_id := Some task_id |>) <| rf_run_type := Some (value RunType.ENGINEERING) |>.

Lemma open_attempt_listed task_id d i r :
  d.(runs) !! i = Some r → open_attempt task_id r →
  r ∈ select (map_to_list d.(runs)).*2 (run_where (task_runs_filter task_id) None)
        (λ a b, b.(r_created_at) <=? a.(r_created_at)).
Proof.
  intros Hi (Ht & Hty & _). apply elem_of_select. split.
  - apply list_elem_of_fmap. exists (i, r). split; [done|]. by apply elem_of_map_to_list.
  - unfold run_where, where_eq. cbn. rewrite Ht, Hty.
    by rewrite (bool_decide_eq_true_2 (Some task_id = _)), orb_true_r.
Qed.

(** A run the DTO accepts is over or live. *)
Lemma valid_open_is_live r task_id : RunDTO_valid r = true → open_attempt task_id r → is_live r = true.
Proof.
  unfold RunDTO_valid. intros [_ Hv]%andb_true_iff (_ & _ & Ho).
  destruct (member_of (A:=RunType.t) (r_type r)); [|done].
  destruct (member_of (A:=RunStatus.t) (r_status r)) as [st|] eqn:Hst; [|done].
  apply member_of_Some in Hst. unfold is_live, is_terminal in *. rewrite Hst in *.
  apply bool_decide_eq_false in Ho. apply bool_decide_eq_true.
  unfold TERMINAL_RUN_STATUSES, LIVE_ENGINEERING_STATUSES in *. destruct st; set_solver.
Qed.

Lemma exec_list_task_runs task_id s (Q : res (list Run) → Shared → Prop) :
  (∀ s' rows, opens_nothing s.(db) s'.(db) → forallb RunDTO_valid rows = true →
     (∀ i r, s'.(db).(runs) !! i = Some r → open_attempt task_id r → r ∈ rows) → Q (Ok rows) s') →
  (∀ s' e, opens_nothing s.(db) s'.(db) → Q (Exc e) s') →
  exec attempts_env (api_list_runs task_id RunType.ENGINEERING) s Q.
Proof.
  intros H1 H2. apply exec_get_validated; [apply _|auto with reads|]. intros s' Hm.
  fold (task_runs_filter task_id). rewrite list_runs_eq. cbn [fst]. split_and!; [|done|auto].
  intros rows [= <-]. destruct (forallb _ _) eqn:Hv; [|by apply H2].
  apply H1; [done|done|]. intros i r. apply open_attempt_listed.
Qed.

Lemma exec_find_unfinished task s :
  exec attempts_env (find_unfinished_run task) s (λ r s', opens_nothing s.(db) s'.(db) ∧
    (r = Ok None → no_open_attempt task.(t_id) s'.(db))).
Proof.
  apply exec_bind, exec_list_task_runs.
  - intros s' rows Hm Hv Hall. apply exec_ret. split; [done|]. intros Hr i r Hi Ho.
    destruct (list_find _ rows) as [[? ?]|] eqn:Hf; [done|]. apply list_find_None in Hf.
    rewrite list.Forall_forall in Hf. pose proof (Hall _ _ Hi Ho) as Hin.
    apply (Hf r Hin). rewrite Is_true_true. apply (valid_open_is_live r (t_id task)); [|done].
    rewrite forallb_forall in Hv. apply Hv. by apply list_elem_of_In.
  - intros s' e Hm. by split.
Qed.

(** A quiet call, then the rest. *)
Lemma exec_quiet_bind {A B} (m : M World A) (f : A → M World B) s Q :
  quiet m →
  (∀ a s', opens_nothing s.(db) s'.(db) → exec attempts_env (f a) s' Q) →
  (∀ e s', opens_nothing s.(db) s'.(db) → Q (Exc e) s') →
  exec attempts_env (m ≫= f) s Q.
Proof.
  intros Hm Hf He. apply exec_bind. eapply exec_mono; [by apply exec_within|].
  intros [a|e] s' Hs; cbv beta in Hs; [by apply Hf|by apply He].
Qed.

Lemma exec_handle_prior task s :
  exec attempts_env (handle_prior_attempt task) s (λ r s', opens_nothing s.(db) s'.(db) ∧
    (r = Ok None → no_open_attempt task.(t_id) s'.(db))).
Proof.
  apply exec_bind. eapply exec_mono; [apply exec_find_unfinished|]. intros [[run|]|e] s1 [Hm1 Hn].
  3: by split.
  - apply exec_quiet_bind; [auto with guar| |].
    + intros ? s2 Hm2. apply exec_ret. split; [by etransitivity|done].
    + intros e s2 Hm2. split; [by etransitivity|done].
  - specialize (Hn eq_refl). apply exec_quiet_bind; [unfold find_dispatched_run; guar_auto| |].
    2:{ intros e s2 Hm2. split; [by etransitivity|done]. }
    intros [run|] s2 Hm2.
    + apply exec_quiet_bind; [auto with guar| |].
      * intros ? s3 Hm3. apply exec_ret. split; [by do 2 (etransitivity; [done|])|done].
      * intros e s3 Hm3. split; [by do 2 (etransitivity; [done|])|done].
    + apply exec_ret. split; [by etransitivity|]. intros _. by eapply no_open_stable.
Qed.

(** *** Opening an attempt *)

Lemma create_run_one_open now body d task_id :
  body.(rc_task_id) = Some task_id → one_open_attempt d → no_open_attempt task_id d →
  one_open_attempt (create_run now body d).2.
Proof.
  intros Hbody H1 Hno. change (wp (create_run now body) (λ _ d', one_open_attempt d') d).
  unfold create_run. wp_auto; try done.
  all: match goal with |- one_open_attempt (put_run ?r ?d0) => set (run := r) end.
  all: intros t i j r1 r2; cbn.
  all: intros [[<- <-]|[Hi Hr1]]%lookup_insert_Some [[<- <-]|[Hj Hr2]]%lookup_insert_Some Ha Hb;
    [done| | |by eapply H1].
  all: assert (∀ t', open_attempt t' run → t' = task_id) as Hown
    by (intros t' [Ht _]; subst run; cbn in Ht; congruence).
  all: first [rewrite (Hown _ Ha) in Hb | rewrite (Hown _ Hb) in Ha]; exfalso; by eapply Hno.
Qed.

Lemma exec_create_run task_id body s (Q : res Run → Shared → Prop) :
  body.(rc_task_id) = Some task_id → one_open_attempt s.(db) → no_open_attempt task_id s.(db) →
  (∀ r s', one_open_attempt s'.(db) → Q r s') →
  exec attempts_env (api_create_run body) s Q.
Proof.
  intros Hb H1 Hno HQ. apply exec_bind, exec_request; [apply _|]. intros s' Hm.
  assert (one_open_attempt s'.(db)) as H1' by by eapply one_open_stable.
  assert (no_open_attempt task_id s'.(db)) as Hno' by by eapply no_open_stable.
  pose proof (create_run_one_open s'.(clock) body s'.(db) task_id Hb H1' Hno') as Hc.
  split; [|auto]. unfold wp. destruct (create_run _ _ _) as [r d]. cbn [fst snd] in *.
  split; [|intros _; apply HQ; exact Hc].
  destruct (over_http r); [|apply HQ; exact Hc].
  apply exec_model_validate; intros _; apply HQ; exact Hc.
Qed.

Lemma exec_create_and_publish task description initiating s :
  one_open_attempt s.(db) → no_open_attempt task.(t_id) s.(db) →
  exec attempts_env (create_and_publish_run task description initiating) s
    (λ _ s', one_open_attempt s'.(db)).
Proof.
  intros H1 Hno. apply exec_bind, exec_uuid. intros hex. cbn.
  apply exec_bind, (exec_create_run task.(t_id)); [done|done|done|]. intros [r|e] s' H1'; [|done].
  eapply exec_mono; [apply exec_within|intros ? s'' Hs''; cbv beta in Hs''; by eapply one_open_stable].
  guar_auto. by apply quiet_closing_update.
Qed.

Lemma exec_dispatch_task task s :
  one_open_attempt s.(db) →
  exec attempts_env (dispatch_task task) s (λ _ s', one_open_attempt s'.(db)).
Proof.
  intros H1. apply exec_quiet_bind; [guar_auto| |intros e s' Hm; by eapply one_open_stable].
  intros blocked s1 Hm1. assert (one_open_attempt s1.(db)) as H1' by by eapply one_open_stable.
  clear H1 Hm1. destruct blocked; [by apply exec_ret|]. case_decide; [by apply exec_ret|].
  apply exec_quiet_bind; [auto with guar| |intros e s' Hm; by eapply one_open_stable].
  intros [[project initiating]|] s2 Hm2; [|apply exec_ret; by eapply one_open_stable].
  assert (one_open_attempt s2.(db)) as H2 by by eapply one_open_stable.
  clear H1' Hm2. case_decide; [by apply exec_ret|]. destruct (negb _); [by apply exec_ret|].
  apply exec_quiet_bind; [guar_auto| |intros e s' Hm; by eapply one_open_stable].
  intros siblings s3 Hm3. assert (one_open_attempt s3.(db)) as H3 by by eapply one_open_stable.
  clear H2 Hm3. destruct (story_blocks_dispatch siblings); [by apply exec_ret|].
  apply exec_bind. eapply exec_mono; [apply exec_handle_prior|].
  intros [[prior|]|e] s4 [Hm4 Hno]; [apply exec_ret| |]; try by eapply one_open_stable.
  specialize (Hno eq_refl). assert (one_open_attempt s4.(db)) as H4 by by eapply one_open_stable.
  apply exec_quiet_bind; [auto with guar| |intros e s' Hm; by eapply one_open_stable].
  intros description s5 Hm5. apply exec_bind. eapply exec_mono.
  { apply exec_create_and_publish; [by eapply one_open_stable|by eapply no_open_stable]. }
  intros [[run_id|]|e] s6 H6; cbv beta in H6; [|by apply exec_ret|done].
  apply exec_quiet_bind; [auto with guar| |intros e s' Hm; by eapply one_open_stable].
  intros moved s7 Hm7. apply exec_ret. by eapply one_open_stable.
Qed.

(** C13 (safety).  A task never has two attempts open at once.  Whatever the other
    processes do between the dispatcher's calls short of opening attempts
    themselves, whatever calls fail or lose their answer, and wherever the process
    dies: if no task has two open engineering runs before a tick, none has after
    it. *)
Theorem one_open_attempt_per_task w :
  in_env attempts_env w → one_open_attempt w.(shared).(db) →
  one_open_attempt (dispatch_todo_tasks w).2.(shared).(db).
Proof.
  intros Hw H1.
  assert (exec attempts_env dispatch_todo_tasks w.(shared) (λ _ s', one_open_attempt s'.(db))) as Hex.
  { apply exec_quiet_bind; [auto with guar| |intros e s' Hm; by eapply one_open_stable].
    intros tasks s' Hm. apply (exec_fold_m _ (λ _ s, one_open_attempt s.(db))).
    - by eapply one_open_stable.
    - intros task b s1 _ Hs1. apply exec_bind. eapply exec_mono; [by apply exec_dispatch_task|].
      intros [n|e] s2 H2; [by apply exec_ret|exact H2].
    - done. }
  by destruct (Hex w eq_refl Hw).
Qed.

(** ** Which tasks are dispatched *)

(** Everything a dispatch requires of the database. *)
Record ready (d : Database) (task : Task) (initiating : string) : Prop := {
  ready_blocker : truthy task.(t_blocked_by_task_id) = true → ∃ b,
    d.(tasks) !! default "" task.(t_blocked_by_task_id) = Some b ∧ b.(t_status) = value TaskStatus.DONE;
  ready_external : task.(t_project_id) ≠ INTERNAL_PROJECT_ID;
  ready_project : ∃ p, d.(projects) !! task.(t_project_id) = Some p ∧
    require_initiating_run p = Ok initiating ∧ p.(p_status) ≠ value ProjectStatus.DRAFT ∧
    doc_truthy (get "workspace_ready" p.(p_config)) = true;
  ready_story : truthy task.(t_story_id) = true → ∀ i t, d.(tasks) !! i = Some t →
    t.(t_story_id) = Some (default "" task.(t_story_id)) →
    t.(t_status) ≠ value TaskStatus.IN_DEV ∧ t.(t_status) ≠ value TaskStatus.WAITING_HUMAN_REVIEW;
  ready_attempts : ∀ i r, d.(runs) !! i = Some r → r.(r_task_id) = Some task.(t_id) →
    r.(r_type) = value RunType.ENGINEERING → is_live r = false ∧ of_iteration task r = false;
}.

Definition siblings_of (task : Task) (d : Database) : list Task :=
  if truthy task.(t_story_id)
  then select (map_to_list d.(tasks)).*2
         (task_where (no_filter <| tf_story_id := Some (default "" task.(t_story_id)) |>)) (task_order None)
  else [].

Definition attempts_of (task : Task) (d : Database) : list Run :=
  select (map_to_list d.(runs)).*2 (run_where (task_runs_filter task.(t_id)) None)
    (λ a b, b.(r_created_at) <=? a.(r_created_at)).

Lemma elem_of_rows {A} (m : gmap string A) a : a ∈ (map_to_list m).*2 ↔ ∃ i, m !! i = Some a.
Proof.
  rewrite list_elem_of_fmap. split.
  - intros ([i x] & -> & Hx%elem_of_map_to_list). by exists i.
  - intros [i Hi]. exists (i, a). split; [done|]. by apply elem_of_map_to_list.
Qed.

Lemma elem_of_siblings task d t :
  t ∈ siblings_of task d ↔ truthy task.(t_story_id) = true ∧
    (∃ i, d.(tasks) !! i = Some t) ∧ t.(t_story_id) = Some (default "" task.(t_story_id)).
Proof.
  unfold siblings_of. destruct (truthy (t_story_id task)) eqn:Htr; [|set_solver].
  rewrite elem_of_select, elem_of_rows. unfold task_where, where_eq. cbn. rewrite !andb_true_r.
  destruct (t_story_id task) as [sid|]; [|done]. cbn in *. apply bool_decide_eq_true in Htr.
  rewrite (bool_decide_eq_false_2 (sid = "")) by done. cbn. rewrite bool_decide_eq_true. naive_solver.
Qed.

Lemma elem_of_attempts task d r :
  task.(t_id) ≠ "" →
  r ∈ attempts_of task d ↔ (∃ i, d.(runs) !! i = Some r) ∧ r.(r_task_id) = Some task.(t_id) ∧
    r.(r_type) = value RunType.ENGINEERING.
Proof.
  intros Hid. unfold attempts_of. rewrite elem_of_select, elem_of_rows.
  unfold run_where, where_eq. cbn. rewrite !andb_true_r.
  rewrite (bool_decide_eq_false_2 (t_id task = "")) by done. cbn.
  rewrite (bool_decide_eq_false_2 ("engineering" = "")) by done. cbn.
  rewrite andb_true_iff, !bool_decide_eq_true. rewrite (inj_iff Some). done.
Qed.

Lemma story_blocks_false siblings :
  story_blocks_dispatch siblings = false ↔ ∀ t, t ∈ siblings →
    t.(t_status) ≠ value TaskStatus.IN_DEV ∧ t.(t_status) ≠ value TaskStatus.WAITING_HUMAN_REVIEW.
Proof.
  unfold story_blocks_dispatch. rewrite orb_false_iff, <-!not_true_iff_false, !existsb_elem.
  setoid_rewrite bool_decide_eq_true. split.
  - intros [H1 H2] t Ht. split; intros Hs; [apply H1|apply H2]; by exists t.
  - intros H. split; intros (t & Ht & Hs); by destruct (H t Ht).
Qed.

(** What one task's turn leaves: nothing on the queue, or one message for a ready
    task, with its run in the database. *)
Definition dispatched_or_not (task : Task) (s s' : Shared) : Prop :=
  s'.(redis).(streams) = s.(redis).(streams) ∨
  ∃ run_id initiating description chat action run,
    s'.(redis).(streams) = s.(redis).(streams) ++ [(ENGINEERING_QUEUE,
      EngineeringMsg (dispatch_message task run_id description initiating chat action))] ∧
    ready s.(db) task initiating ∧ action_of task.(t_type) = Ok action ∧
    s'.(db).(runs) !! run_id = Some run ∧ s.(db).(runs) !! run_id = None ∧
    run.(r_task_id) = Some task.(t_id) ∧ run.(r_type) = value RunType.ENGINEERING.

Section one_turn.
Context (E : env) `{!Alone E}.

(** A validated read when nobody else moves. *)
Lemma exec_alone_read {A} (valid : A → bool) (endpoint : Z → M Database A) s (Q : res A → Shared → Prop) :
  (∀ now, reads_only (endpoint now)) →
  (∀ a, (endpoint s.(clock) s.(db)).1 = Ok a → valid a = true → Q (Ok a) s) →
  (∀ e, Q (Exc e) s) →
  exec E (get_validated valid endpoint) s Q.
Proof.
  intros Hro H1 H2. apply exec_get_validated; [apply _|done|]. intros s' ->%alone.
  split; [|split; [intros [] _; apply H2|intros _; apply H2]].
  intros a Ha. destruct (valid a) eqn:Hv; [by apply H1|apply H2].
Qed.

(** Keeps the queue and the runs; other tables may change. *)
Definition calls_quietly {A} (m : M World A) : Prop := ∀ s,
  exec E m s (λ _ s', s'.(redis) = s.(redis) ∧ s'.(db).(runs) = s.(db).(runs)).

Lemma calls_quietly_transition id to actor : calls_quietly (api_transition_task id to actor).
Proof.
  intros s. apply exec_bind, exec_request; [apply _|]. intros s' ->%alone.
  split; [|by intros _]. unfold wp.
  pose proof (transition_task_keeps_runs s.(clock) id (value to) (mkTaskTransition None actor ∅) s.(db)) as Hr.
  destruct (transition_task _ _ _ _ _) as [r d]. cbn in *. split; [|by intros _].
  destruct (over_http r); [|done]. by apply exec_model_validate.
Qed.

Lemma calls_quietly_bind {A B} (m : M World A) (f : A → M World B) :
  calls_quietly m → (∀ a, calls_quietly (f a)) → calls_quietly (m ≫= f).
Proof.
  intros Hm Hf s. apply exec_bind. eapply exec_mono; [apply Hm|]. intros [a|e] s1 [Hr Hd]; [|done].
  eapply exec_mono; [apply Hf|]. intros r s2 [Hr' Hd']. split; congruence.
Qed.
Lemma calls_quietly_ret {A} (a : A) : calls_quietly (mret a).
Proof. intros s. by apply exec_ret. Qed.
Lemma calls_quietly_attempt {A} (m : M World A) : calls_quietly m → calls_quietly (attempt m).
Proof. intros Hm s. apply exec_attempt, Hm. Qed.
Lemma calls_quietly_fold {A B} (f : B → A → M World B) l : ∀ b,
  (∀ b a, calls_quietly (f b a)) → calls_quietly (fold_m f b l).
Proof.
  induction l as [|a l IH]; intros b Hf; cbn; [apply calls_quietly_ret|].
  apply calls_quietly_bind; auto.
Qed.

Lemma calls_quietly_recover id run : calls_quietly (recover_dispatched_task id run).
Proof.
  apply calls_quietly_bind; [apply calls_quietly_transition|intros _].
  apply calls_quietly_bind.
  - intros s. unfold terminal_task_statuses. exec_auto; done.
  - intros statuses. apply calls_quietly_fold. intros _ a.
    apply calls_quietly_bind; [apply calls_quietly_transition|intros; apply calls_quietly_ret].
Qed.
Lemma calls_quietly_in_dev id : calls_quietly (transition_to_in_dev id).
Proof.
  unfold transition_to_in_dev.
  apply calls_quietly_bind; [apply calls_quietly_attempt, calls_quietly_transition|].
  intros [?|?]; [apply calls_quietly_ret|].
  apply calls_quietly_bind; [apply calls_quietly_attempt, calls_quietly_transition|].
  intros [?|?]; apply calls_quietly_ret.
Qed.

(** The guard on prior attempts: it never publishes, and it lets a task through
    only when the database has neither a live attempt nor one of this iteration. *)
Lemma exec_prior_guard task s :
  task.(t_id) ≠ "" →
  exec E (handle_prior_attempt task) s (λ r s', s'.(redis) = s.(redis) ∧
    (r = Ok None → s' = s ∧ ∀ a, a ∈ attempts_of task s.(db) →
       is_live a = false ∧ of_iteration task a = false)).
Proof.
  intros Hid. apply exec_bind, exec_bind, exec_alone_read; [auto with reads| |done].
  intros rows Hrows _. fold (task_runs_filter (t_id task)) in Hrows. rewrite list_runs_eq in Hrows.
  injection Hrows as <-. fold (attempts_of task (db s)). apply exec_ret.
  destruct (list_find _ (attempts_of task (db s))) as [[? run]|] eqn:Hlive; cbn.
  { apply exec_bind. eapply exec_mono; [apply calls_quietly_transition|].
    intros [?|?] s1 [Hr _]; [apply exec_ret|]; done. }
  apply exec_bind, exec_bind, exec_alone_read; [auto with reads| |done].
  intros rows Hrows _. fold (task_runs_filter (t_id task)) in Hrows. rewrite list_runs_eq in Hrows.
  injection Hrows as <-. fold (attempts_of task (db s)). apply exec_ret.
  destruct (list_find (λ r, of_iteration task r) (attempts_of task (db s))) as [[? run]|] eqn:Hit; cbn.
  { apply exec_bind. eapply exec_mono; [apply calls_quietly_recover|].
    intros [?|?] s1 [Hr _]; [apply exec_ret|]; done. }
  apply exec_ret. split; [done|]. intros _. split; [done|]. intros a Ha.
  apply list_find_None in Hlive, Hit. rewrite list.Forall_forall in Hlive, Hit.
  specialize (Hlive a Ha). specialize (Hit a Ha).
  rewrite Is_true_true, not_true_iff_false in Hlive, Hit. done.
Qed.
(** A new run row, as the API builds it. *)
Definition new_run (now : Z) (body : RunCreate) : Run :=
  mkRun body.(rc_id) body.(rc_type) (value RunStatus.QUEUED) body.(rc_project_id) body.(rc_user_id)
    body.(rc_run_metadata) None None None body.(rc_story_id) body.(rc_task_id) now.

Lemma create_run_cases now body d :
  (∃ e, create_run now body d = (Exc e, d)) ∨
  (d.(runs) !! body.(rc_id) = None ∧
   create_run now body d = (Ok (new_run now body), put_run (new_run now body) d)).
Proof.
  assert (wp (create_run now body) (λ r d',
    (∃ e, r = Exc e ∧ d' = d) ∨
    (d.(runs) !! body.(rc_id) = None ∧ r = Ok (new_run now body) ∧ d' = put_run (new_run now body) d)) d)
    as Hwp.
  { unfold create_run. wp_auto; try (by left; eexists).
    all: right; match goal with H : negb _ = false |- _ =>
           apply negb_false_iff, andb_true_iff in H as [H%bool_decide_eq_true _] end.
    all: match goal with H : rc_user_id _ = _ |- _ => unfold new_run; rewrite H end; done. }
  unfold wp in Hwp. destruct (create_run now body d) as [r d']. cbn in Hwp.
  destruct Hwp as [(e & -> & ->)|(? & -> & ->)]; eauto.
Qed.

(** Closing the run of a failed publication keeps its identity. *)
Lemma closed_run_kept now run_id u d :
  keyed_runs d →
  let d' := (update_run now service run_id u d).2 in
  ∀ i r, d.(runs) !! i = Some r → ∃ r', d'.(runs) !! i = Some r' ∧
    r'.(r_task_id) = r.(r_task_id) ∧ r'.(r_type) = r.(r_type).
Proof.
  intros Hk. change (wp (update_run now service run_id u) (λ _ d', ∀ i r, d.(runs) !! i = Some r →
    ∃ r', d'.(runs) !! i = Some r' ∧ r'.(r_task_id) = r.(r_task_id) ∧ r'.(r_type) = r.(r_type)) d).
  unfold update_run. run_walk; eauto.
  match goal with H : apply_update ?st _ = Ok ?x |- _ => rename x into run'; set (stamped := st) in * end.
  match goal with H : d.(runs) !! run_id = Some ?x |- _ => rename x into row; rename H into Hrow end.
  assert (stamped.(r_id) = row.(r_id) ∧ stamped.(r_task_id) = row.(r_task_id) ∧
    stamped.(r_type) = row.(r_type)) as (Hi & Ht & Hty).
  { subst stamped. unfold record_first_terminal_completion. by repeat case_match. }
  clearbody stamped.
  assert (run'.(r_id) = stamped.(r_id) ∧ run'.(r_task_id) = stamped.(r_task_id) ∧
    run'.(r_type) = stamped.(r_type)) as (Hi' & Ht' & Hty').
  { match goal with H : apply_update _ _ = Ok _ |- _ => revert H end. unfold apply_update.
    destruct (ru_run_metadata u), (ru_result u), (ru_error_message u), (ru_status u) as [[]|];
      intros [= <-]; done. }
  intros i r Hr. cbn. rewrite Hi', Hi, (Hk _ _ Hrow).
  destruct (decide (i = run_id)) as [->|].
  - exists run'. rewrite lookup_insert_eq. simplify_eq. split_and!; congruence.
  - exists r. by rewrite lookup_insert_ne.
Qed.

Lemma put_new_run_keyed now body d : keyed_runs d → keyed_runs (put_run (new_run now body) d).
Proof. intros Hk i r. cbn. intros [[<- <-]|[_ ?]]%lookup_insert_Some; [done|by apply Hk]. Qed.

Lemma exec_publish_attempt task description initiating s :
  keyed_runs s.(db) → ready s.(db) task initiating →
  exec E (create_and_publish_run task description initiating) s (λ _ s', dispatched_or_not task s s').
Proof.
  intros Hk Hready. assert (dispatched_or_not task s s) as Hnot by by left.
  apply exec_bind, exec_uuid. intros hex. cbv zeta beta. set (run_id := "eng-" +:+ _).
  set (body := mkRunCreate _ _ _ _ _ _ _).
  apply exec_bind, exec_bind, exec_request; [apply _|]. intros s' ->%alone. split; [|done].
  unfold wp. destruct (create_run_cases s.(clock) body s.(db)) as [(e & ->)|[Hfree ->]].
  { cbn [fst snd]. rewrite same_db. by destruct e. }
  cbn [fst snd over_http]. set (run := new_run _ _). set (s1 := s <| db := put_run run s.(db) |>).
  assert (dispatched_or_not task s s1) as Hnot1 by by left.
  split; [|done]. apply exec_model_validate; intros _; [|done].
  assert (keyed_runs s1.(db)) as Hk1 by by apply put_new_run_keyed.
  assert (s1.(db).(runs) !! run_id = Some run) as Hrun by apply lookup_insert_eq.
  apply exec_bind, exec_of_res. destruct (action_of (t_type task)) as [action|e] eqn:Haction; [|done].
  apply exec_bind, (exec_resolve_project_recipient E); [|done]. intros rc _. cbv beta.
  set (m := EngineeringMsg _).
  assert (∀ s2, s2.(redis).(streams) = s.(redis).(streams) ++ [(ENGINEERING_QUEUE, m)] →
    (∃ r, s2.(db).(runs) !! run_id = Some r ∧ r.(r_task_id) = Some task.(t_id) ∧
          r.(r_type) = value RunType.ENGINEERING) → dispatched_or_not task s s2) as Hdone.
  { intros s2 Hs2 (r & Hr & Ht & Hty). right. by do 5 eexists; exists r. }
  assert (∀ s2, s2.(db) = s1.(db) → (s2.(redis) = s1.(redis) ∨
      s2.(redis).(streams) = s.(redis).(streams) ++ [(ENGINEERING_QUEUE, m)]) →
    ∀ u, exec E (api_update_run run_id u;; mret (M:=M World) (None : option string)) s2
           (λ _ s', dispatched_or_not task s s')) as Hclose.
  { intros s2 Hdb Hred u.
    assert (∀ d, (∃ r, d.(runs) !! run_id = Some r ∧ r.(r_task_id) = Some task.(t_id) ∧
      r.(r_type) = value RunType.ENGINEERING) → dispatched_or_not task s (s2 <| db := d |>)) as Hd.
    { intros d Hr. destruct Hred as [Hred|Hred]; [left; cbn; by rewrite Hred|by apply Hdone]. }
    assert (∃ r, s2.(db).(runs) !! run_id = Some r ∧ r.(r_task_id) = Some task.(t_id) ∧
      r.(r_type) = value RunType.ENGINEERING) as Hhas by (rewrite Hdb; by exists run).
    pose proof (Hd _ Hhas) as Hs2. rewrite same_db in Hs2.
    apply exec_bind, exec_bind, exec_request; [apply _|]. intros s3 ->%alone. split; [|done].
    destruct Hhas as (r & Hr & Ht & Hty).
    assert (keyed_runs s2.(db)) as Hk2 by by rewrite Hdb.
    destruct (closed_run_kept s2.(clock) run_id u s2.(db) Hk2 _ _ Hr) as (r' & Hr' & Ht' & Hty').
    unfold wp. destruct (update_run _ _ _ _ _) as [x d]. cbn [fst snd] in *.
    assert (dispatched_or_not task s (s2 <| db := d |>)) as Hfin.
    { apply Hd. exists r'. split_and!; congruence. }
    split; [|done]. destruct (over_http x); [|done]. by apply exec_ret, exec_ret. }
  apply exec_bind, exec_attempt, exec_publish; [apply _|]. intros s3 ->%alone. cbv zeta. split.
  - apply exec_ret, Hdone; [done|]. by exists run.
  - intros _. split; apply Hclose; try done; [by right|by left].
Qed.
Lemma exec_described task siblings s (Q : res string → Shared → Prop) :
  (∀ r, Q r s) → exec E (described task siblings) s Q.
Proof.
  intros HQ. apply exec_bind.
  assert (∀ l, exec E (map_m (λ t, api_get_task_events t.(t_id)) l) s (λ _ s', s' = s)) as Hmap.
  { induction l as [|t l IH]; cbn; [by apply exec_ret|].
    apply exec_bind, exec_alone_read; [auto with reads| |done]. intros ev _ _. cbv beta.
    apply exec_bind. eapply exec_mono; [exact IH|]. intros [l'|e] s' ->; [by apply exec_ret|done]. }
  eapply exec_mono; [apply Hmap|]. intros [l|e] s' ->; [by apply exec_ret|done].
Qed.

Lemma exec_one_turn task s :
  keyed_runs s.(db) → task.(t_id) ≠ "" →
  exec E (dispatch_task task) s (λ _ s', dispatched_or_not task s s').
Proof.
  intros Hk Hid. assert (dispatched_or_not task s s) as Hnot by by left.
  (* the blocker *)
  apply exec_bind. apply (exec_mono E) with (Q := λ r s', s' = s ∧ (r = Ok false →
    truthy task.(t_blocked_by_task_id) = true → ∃ b,
      s.(db).(tasks) !! default "" task.(t_blocked_by_task_id) = Some b ∧
      b.(t_status) = value TaskStatus.DONE)).
  { destruct (truthy (t_blocked_by_task_id task)); [|by apply exec_ret].
    apply exec_bind, exec_alone_read; [auto with reads| |done]. intros b Hb _. apply exec_ret.
    split; [done|]. intros [= Hst] _. rewrite get_task_eq in Hb.
    destruct (tasks (db s) !! _) as [b'|]; [|done]. injection Hb as ->. exists b. split; [done|].
    by apply negb_false_iff, bool_decide_eq_true in Hst. }
  intros [[]|e] s' [-> Hblocker]; [by apply exec_ret| |done]. specialize (Hblocker eq_refl).
  case_decide as Hint; [by apply exec_ret|].
  (* the project *)
  apply exec_bind, exec_bind, (exec_api_get_project E); [|by intros _; apply exec_ret, exec_ret|done].
  intros p Hp. cbv beta iota. destruct (require_initiating_run p) as [initiating|] eqn:Hrun;
    [|by apply exec_ret, exec_ret]. apply exec_ret.
  case_decide as Hdraft; [by apply exec_ret|].
  destruct (doc_truthy _) eqn:Hws; cbn [negb]; [|by apply exec_ret].
  (* the siblings *)
  apply exec_bind. apply (exec_mono E) with (Q := λ r s', s' = s ∧
    ∀ l, r = Ok l → l = siblings_of task s.(db)).
  { unfold siblings_of. destruct (truthy (t_story_id task)); [|apply exec_ret; split; congruence].
    apply exec_alone_read; [auto with reads| |done]. intros l [= <-] _. by split; [|intros ? [= <-]]. }
  intros [l|e] s' [-> Hl]; [|done]. rewrite (Hl l eq_refl). clear l Hl.
  destruct (story_blocks_dispatch _) eqn:Hstory; [by apply exec_ret|].
  rewrite story_blocks_false in Hstory.
  (* prior attempts *)
  apply exec_bind. eapply exec_mono; [by apply exec_prior_guard|].
  intros [[prior|]|e] s' [Hred Hprior];
    [apply exec_ret; left; by rewrite Hred| |left; by rewrite Hred].
  destruct (Hprior eq_refl) as [-> Hattempts]. clear Hred Hprior.
  assert (ready s.(db) task initiating) as Hready.
  { split; [exact Hblocker|done|by exists p| |].
    - intros Htr i t Ht Hs. apply Hstory, elem_of_siblings. eauto.
    - intros i r Hr Ht Hty. apply Hattempts, elem_of_attempts; eauto. }
  apply exec_bind, exec_described. intros [description|e]; [|done].
  apply exec_bind. eapply exec_mono; [by apply exec_publish_attempt|].
  intros [[run_id|]|e] s' Hs'; [|by apply exec_ret|done].
  apply exec_bind. eapply exec_mono; [apply calls_quietly_in_dev|].
  intros r s'' [Hred Hruns].
  assert (dispatched_or_not task s s'') as Hfin.
  { destruct Hs' as [Hs'|(x & ini & de & ch & ac & run & H1 & H2 & H3 & H4 & H5)].
    - left. by rewrite Hred.
    - right. exists x, ini, de, ch, ac, run. rewrite Hred, Hruns.
      exact (conj H1 (conj H2 (conj H3 (conj H4 H5)))). }
  destruct r; [by apply exec_ret|done].
Qed.
End one_turn.

(** C35 (safety).  Only a ready task gets a worker.  Whatever calls fail and
    wherever the process dies, what the dispatcher does for one task publishes
    nothing, or exactly one message; and then the task was ready (its blocker done,
    its project owned by a run, scaffolded and with a workspace, no sibling in
    development or handed to a human, no attempt open and none of this iteration),
    the message names the task, the run that owns its project and an attempt that
    did not exist before, and that attempt is in the database. *)
Theorem only_ready_tasks_are_dispatched task w :
  in_env faulty w → keyed_runs w.(shared).(db) → task.(t_id) ≠ "" →
  dispatched_or_not task w.(shared) (dispatch_task task w).2.(shared).
Proof. intros Hw Hk Hid. by destruct (exec_one_turn faulty task w.(shared) Hk Hid w eq_refl Hw). Qed.

(** ** Concrete worlds: two todo tasks of one story *)

Definition bot_project : Project :=
  mkProject "p1" "Bot" "bot" "active" (Some "run-1") [("workspace_ready", DBool true)] 7.
Definition todo_task (id title : string) (priority : Z) : Task :=
  mkTask id "p1" "feature" title (Some title) None "todo" priority None 0 3 false "architect" None None
    (Some "s1") None None 0 0.
Definition building_story : Story :=
  mkStory "s1" "p1" None "Bot" None None "product" "in_progress" 0 None "po" None None None 0.
Definition todo_db (tasks : list Task) : Database :=
  mkDatabase (list_to_map ((λ t, (t.(t_id), t)) <$> tasks)) [] {[ "s1" := building_story ]} ∅ ∅
    {[ "p1" := bot_project ]} {[ 7 := mkUser 7 4242 false ]} ∅ ∅ ∅ ∅.
Definition todo_world (tasks : list Task) (turns : list turn) : World :=
  mkWorld (mkShared (todo_db tasks) empty_redis (mkFleet [] [] (λ _, []) ∅) 0 []) turns false
    (λ n, "c0ffee00000" +:+ pretty n) 0 [] silent ∅ [].
Definition calls_before (n : nat) (rest : list fault) : list turn :=
  undisturbed <$> (replicate n NoFault ++ rest).

(** The statuses of the tasks, the runs and the branches that got a message. *)
Definition task_status (w : World) (id : string) : option string := t_status <$> w.(shared).(db).(tasks) !! id.
Definition run_statuses (w : World) : list (string * string) :=
  (λ x, (x.1, x.2.(r_status))) <$> map_to_list w.(shared).(db).(runs).
Definition dispatched_branches (w : World) : list (option string) :=
  omap (λ x, match x.2 with EngineeringMsg m => Some m.(em_branch) | _ => None end)
    w.(shared).(redis).(streams).

Example a_ready_task_is_dispatched :
  let '(r, w) := dispatch_todo_tasks (todo_world [todo_task "t1" "Echo" 0] []) in
  r = Ok 1 ∧ task_status w "t1" = Some "in_dev" ∧
  run_statuses w = [("eng-c0ffee000000", "queued")] ∧ dispatched_branches w = [Some "story/s1"].
Proof. by vm_compute. Qed.

Example the_second_task_of_a_story_waits :
  let '(r, w) := dispatch_todo_tasks (todo_world [todo_task "t1" "Echo" 0; todo_task "t2" "Help" 1] []) in
  r = Ok 1 ∧ task_status w "t2" = Some "todo" ∧ dispatched_branches w = [Some "story/s1"].
Proof. by vm_compute. Qed.

Lemma one_open_attempt_per_task_witness :
  one_open_attempt (dispatch_todo_tasks
    (todo_world [todo_task "t1" "Echo" 0] (calls_before 5 [LostReply]))).2.(shared).(db).
Proof.
  apply (one_open_attempt_per_task (todo_world [todo_task "t1" "Echo" 0] (calls_before 5 [LostReply]))).
  - split; [|done]. repeat constructor; done.
  - intros t i j r1 r2 Hi. cbn in Hi. by rewrite lookup_empty in Hi.
Defined.

(** One failed lookup strands a task.  The chat lookup comes after the
    run was created and outside the [try] that closes a run whose message was not
    sent.  When it fails, the run stays queued with no message on the queue; the
    next tick, with every call served, takes it for an attempt in progress, moves
    the task to in_dev and counts it as dispatched, and still publishes nothing. *)
Theorem lost_lookup_strands_the_task :
  let w1 := (dispatch_todo_tasks (todo_world [todo_task "t1" "Echo" 0] (calls_before 6 [Lost]))).2 in
  let '(second, w2) := dispatch_todo_tasks (restarted [] w1) in
  run_statuses w1 = [("eng-c0ffee000000", "queued")] ∧ task_status w1 "t1" = Some "todo" ∧
  second = Ok 1 ∧ task_status w2 "t1" = Some "in_dev" ∧
  run_statuses w2 = [("eng-c0ffee000000", "queued")] ∧
  w2.(shared).(redis).(streams) = [].
Proof. by vm_compute. Qed.

(**  The branch guard looks at the siblings' statuses only.  When both
    tries to move a dispatched task to in_dev fail, its sibling is dispatched by
    the same tick: two queued runs, two messages, one branch. *)
Theorem lost_transition_puts_two_attempts_on_a_branch :
  let '(r, w) := dispatch_todo_tasks
    (todo_world [todo_task "t1" "Echo" 0; todo_task "t2" "Help" 1] (calls_before 9 [Lost; Lost])) in
  r = Ok 1 ∧ task_status w "t1" = Some "todo" ∧ task_status w "t2" = Some "in_dev" ∧
  (run_statuses w).*2 = ["queued"; "queued"] ∧
  dispatched_branches w = [Some "story/s1"; Some "story/s1"].
Proof. by vm_compute. Qed.

Lemma only_ready_tasks_are_dispatched_witness :
  let w := todo_world [todo_task "t1" "Echo" 0] (calls_before 7 [LostReply]) in
  dispatched_or_not (todo_task "t1" "Echo" 0) w.(shared)
    (dispatch_task (todo_task "t1" "Echo" 0) w).2.(shared).
Proof.
  apply (only_ready_tasks_are_dispatched (todo_task "t1" "Echo" 0)
    (todo_world [todo_task "t1" "Echo" 0] (calls_before 7 [LostReply]))).
  - split; [|done]. repeat constructor; done.
  - intros i r Hi. cbn in Hi. by rewrite lookup_empty in Hi.
  - done.
Defined.
