(* ===== verification/Frames.v ===== *)
(** * Frames: what a scheduler call can change

    A call of the scheduler writes one table of the database, or one part of
    Redis.  A relation [R] on the shared state that ignores a table is kept by
    every call that only writes that table; with this, that a whole supervisor
    pass keeps [R] follows from the few calls that write what [R] reads. *)

From S2P Require Import Prelude Vocabulary Contracts Db Api ApiTasks ApiStories ApiRuns ApiGrants.
From S2P Require Import Placement World SchedulerClient Recipients ApiActions OwnerNotifications WorkerLiveness.
From S2P Require Import Github Dispatcher TaskLifecycle.

(** ** One table *)

Definition only_tasks (d d' : Database) : Prop :=
  d' = (d <| tasks := d'.(tasks) |>) <| task_events := d'.(task_events) |>.
Definition only_stories (d d' : Database) : Prop := d' = d <| stories := d'.(stories) |>.
Definition only_runs (d d' : Database) : Prop := d' = d <| runs := d'.(runs) |>.
Definition only_grants (d d' : Database) : Prop := d' = d <| grants := d'.(grants) |>.

#[export] Instance only_tasks_preorder : PreOrder only_tasks.
Proof.
  unfold only_tasks. split; [by intros []|]. intros [] [] [] H1 H2.
  unfold put_field in *. cbn in *. congruence.
Qed.
#[export] Instance only_stories_preorder : PreOrder only_stories.
Proof.
  unfold only_stories. split; [by intros []|]. intros [] [] [] H1 H2.
  unfold put_field in *. cbn in *. congruence.
Qed.
#[export] Instance only_runs_preorder : PreOrder only_runs.
Proof.
  unfold only_runs. split; [by intros []|]. intros [] [] [] H1 H2.
  unfold put_field in *. cbn in *. congruence.
Qed.
#[export] Instance only_grants_preorder : PreOrder only_grants.
Proof.
  unfold only_grants. split; [by intros []|]. intros [] [] [] H1 H2.
  unfold put_field in *. cbn in *. congruence.
Qed.

Lemma writes_task t : guar only_tasks (modify (put_task t)).
Proof. by intros []. Qed.
Lemma writes_event e : guar only_tasks (modify (add_event e)).
Proof. by intros []. Qed.
Lemma writes_story st : guar only_stories (modify (put_story st)).
Proof. by intros []. Qed.
Lemma writes_run r : guar only_runs (modify (put_run r)).
Proof. by intros []. Qed.
Lemma writes_grant g : guar only_grants (modify (put_grant g)).
Proof. by intros []. Qed.
#[export] Hint Resolve writes_task writes_event writes_story writes_run writes_grant : guar.

(** A read-only endpoint keeps every reflexive relation. *)
Lemma guar_reads (R : relation Database) {A} (m : M Database A) : Reflexive R → reads_only m → guar R m.
Proof. intros HR Hm d. rewrite <-(Hm d). reflexivity. Qed.

(** ** The endpoints *)

Lemma transition_task_writes now id to body : guar only_tasks (transition_task now id to body).
Proof.
  unfold transition_task, ApiTasks.get_task, validate_transition, set_status, create_status_event.
  guar_auto.
Qed.
Lemma update_task_writes now id body : guar only_tasks (update_task now id body).
Proof. unfold update_task, ApiTasks.get_task, commit_or_raise_fk. guar_auto. Qed.
Lemma create_task_writes now id body : guar only_tasks (create_task now id body).
Proof. unfold create_task, insert_task, commit_or_raise_fk, create_status_event. guar_auto. Qed.
Lemma create_task_event_writes id body : guar only_tasks (create_task_event id body).
Proof. unfold create_task_event, ApiTasks.get_task. guar_auto. Qed.
Lemma update_story_writes id body : guar only_stories (update_story id body).
Proof. unfold update_story, get_story. guar_auto. Qed.
Lemma post_story_action_writes action id : guar only_stories (post_story_action action id).
Proof.
  unfold post_story_action, human_review_story, wait_user_secret_story, complete_story, fail_story,
    pr_review_story, deploy_story, test_story, archive_story, start_story, reopen_story, move_story,
    get_story, do_transition, story_validate_transition.
  guar_auto.
Qed.
Lemma create_run_writes now body : guar only_runs (create_run now body).
Proof. unfold create_run. guar_auto. Qed.
Lemma update_run_writes now c id u : guar only_runs (update_run now c id u).
Proof.
  unfold update_run, lock_run, check_run_access. guar_auto.
  all: apply guar_reads; [apply _|apply resolve_actor_reads].
Qed.
Lemma create_grant_writes now c body : guar only_grants (create_grant now c body).
Proof.
  unfold create_grant, scalar_one_or_none. guar_auto.
  all: apply guar_reads; [apply _|apply require_internal_or_admin_reads].
Qed.

Lemma update_grant_writes now c id u : guar only_grants (update_grant now c id u).
Proof.
  unfold update_grant, load_grant. guar_auto.
  all: apply guar_reads; [apply _|apply require_internal_or_admin_reads].
Qed.
Lemma record_observation_writes now c error id o : guar only_grants (record_observation now c error id o).
Proof.
  unfold record_observation, load_grant, read_a_closed_grant, scalar_one_or_none. guar_auto.
  all: apply guar_reads; [apply _|apply require_internal_or_admin_reads].
Qed.
Lemma withdraw_writes now c id reason : guar only_runs (withdraw_run_dispatch now c id reason).
Proof.
  unfold withdraw_run_dispatch, lock_run, status_of. guar_auto.
  all: apply guar_reads; [apply _|apply require_internal_or_admin_reads].
Qed.
Lemma supersede_writes now c id reason : guar only_runs (supersede_run_dispatch now c id reason).
Proof.
  unfold supersede_run_dispatch, lock_run, status_of. guar_auto.
  all: apply guar_reads; [apply _|apply require_internal_or_admin_reads].
Qed.

(** ** Relations kept by a scheduler

    Nobody else moves; calls may fail or not. *)

Definition stays (E : env) (R : relation Shared) : relation World := λ w w',
  in_env E w → in_env E w' ∧ R w.(shared) w'.(shared).
Abbreviation keeps E R m := (guar (stays E R) m).

#[export] Instance stays_preorder E R : PreOrder R → PreOrder (stays E R).
Proof.
  intros [Hr Ht]. split.
  - intros w Hw. split; [done|reflexivity].
  - intros w1 w2 w3 H12 H23 Hw. destruct (H12 Hw) as [Hw2 Hm]. destruct (H23 Hw2) as [Hw3 Hm'].
    split; [done|by etransitivity].
Qed.

Class IgnoresTasks (R : relation Shared) := ignores_tasks : ∀ s d, only_tasks s.(db) d → R s (s <| db := d |>).
Class IgnoresStories (R : relation Shared) := ignores_stories : ∀ s d, only_stories s.(db) d → R s (s <| db := d |>).
Class IgnoresRuns (R : relation Shared) := ignores_runs : ∀ s d, only_runs s.(db) d → R s (s <| db := d |>).
Class IgnoresGrants (R : relation Shared) := ignores_grants : ∀ s d, only_grants s.(db) d → R s (s <| db := d |>).
Class IgnoresRedis (R : relation Shared) := ignores_redis : ∀ s r, R s (s <| redis := r |>).
(** Everything but the messages: the integer keys, markers and answers in Redis. *)
Class IgnoresKeys (R : relation Shared) := ignores_keys : ∀ s r,
  r.(streams) = s.(redis).(streams) → R s (s <| redis := r |>).
(** What was exchanged with GitHub grows. *)
Class IgnoresGithub (R : relation Shared) := ignores_github : ∀ s l, R s (s <| exchanged ::= λ x, x ++ l |>).
Class IgnoresDb (R : relation Shared) := ignores_db : ∀ s d, R s (s <| db := d |>).
Class IgnoresApplications (R : relation Shared) := ignores_applications : ∀ s app,
  R s (s <| db := put_application app s.(db) |>).
(** Messages to other queues than QA's. *)
Class IgnoresMessages (R : relation Shared) := ignores_messages : ∀ s stream m,
  stream ≠ QA_QUEUE → R s (s <| redis := s.(redis) <| streams ::= λ l, l ++ [(stream, m)] |> |>).
(** A run's metadata, the plan of its handoff apart, and a new run of one story (or of
    none). *)
Class IgnoresPatches (R : relation Shared) := ignores_patches : ∀ s id m,
  m !! QA_HANDOFF_KEY = None → R s (patched id m s).
Class IgnoresNewRun (R : relation Shared) (story_id : option string) := ignores_new_run : ∀ s run,
  s.(db).(runs) !! run.(r_id) = None → run.(r_story_id) = story_id → R s (s <| db := put_run run s.(db) |>).
#[export] Instance redis_keys R : IgnoresRedis R → IgnoresKeys R.
Proof. intros H s r _. apply H. Qed.
#[export] Instance redis_messages R : IgnoresRedis R → IgnoresMessages R.
Proof. intros H s stream m _. apply H. Qed.
#[export] Instance db_tasks R : IgnoresDb R → IgnoresTasks R.
Proof. intros H s d _. apply H. Qed.
#[export] Instance db_stories R : IgnoresDb R → IgnoresStories R.
Proof. intros H s d _. apply H. Qed.
#[export] Instance db_runs R : IgnoresDb R → IgnoresRuns R.
Proof. intros H s d _. apply H. Qed.
#[export] Instance db_grants R : IgnoresDb R → IgnoresGrants R.
Proof. intros H s d _. apply H. Qed.

Lemma ignores_new_run_at (R : relation Shared) st s d run : IgnoresNewRun R st →
  d.(runs) !! run.(r_id) = None → run.(r_story_id) = st →
  R (s <| db := d |>) (s <| db := put_run run d |>).
Proof. intros H Hfree Hst. exact (H (s <| db := d |>) run Hfree Hst). Qed.
#[export] Instance runs_patches R : IgnoresRuns R → IgnoresPatches R.
Proof.
  intros H s id m _. apply H. unfold only_runs. destruct s as [[] ? ? ?]. cbn. by destruct (runs !! id).
Qed.
#[export] Instance runs_new R st : IgnoresRuns R → IgnoresNewRun R st.
Proof. intros H s run _ _. apply H. by destruct s as [[] ? ? ?]. Qed.

(** What only the tasks say, kept by every call but theirs. *)
Class OfTasks (P : Database → Prop) := of_tasks : ∀ d d', d'.(tasks) = d.(tasks) → P d → P d'.
Definition keeping (P : Database → Prop) (s s' : Shared) : Prop := P s.(db) → P s'.(db).
#[export] Instance keeping_preorder P : PreOrder (keeping P).
Proof. unfold keeping. split; [by intros s|]. intros s1 s2 s3 ? ?. auto. Qed.
#[export] Instance keeping_stories P : OfTasks P → IgnoresStories (keeping P).
Proof. intros ? s d ->. unfold keeping. by apply (of_tasks (P:=P)). Qed.
#[export] Instance keeping_runs P : OfTasks P → IgnoresRuns (keeping P).
Proof. intros ? s d ->. unfold keeping. by apply (of_tasks (P:=P)). Qed.
#[export] Instance keeping_grants P : OfTasks P → IgnoresGrants (keeping P).
Proof. intros ? s d ->. unfold keeping. by apply (of_tasks (P:=P)). Qed.
#[export] Instance keeping_applications P : OfTasks P → IgnoresApplications (keeping P).
Proof. intros ? s app. unfold keeping. by apply (of_tasks (P:=P)). Qed.
#[export] Instance keeping_redis P : IgnoresRedis (keeping P).
Proof. intros s r. by unfold keeping. Qed.
#[export] Instance keeping_github P : IgnoresGithub (keeping P).
Proof. intros s l. by unfold keeping. Qed.

Section keeps.
Context (E : env) `{!Alone E} (R : relation Shared) `{!PreOrder R}.

Lemma exec_keeps {A} (m : M World A) s : keeps E R m → exec E m s (λ _ s', R s s').
Proof. intros Hm w <- Hw. by apply Hm. Qed.

Lemma keeps_exec {A} (m : M World A) : (∀ s, exec E m s (λ _ s', R s s')) → keeps E R m.
Proof. intros Hm w Hw. by apply (Hm w.(shared)). Qed.

Lemma keeps_local {A} (m : M World A) :
  (∀ w, (m w).2.(shared) = w.(shared) ∧ (m w).2.(schedule) = w.(schedule) ∧
        (m w).2.(down) = w.(down)) →
  keeps E R m.
Proof.
  intros H w Hw. destruct (H w) as (Hs & Hsch & Hd). split; [|rewrite Hs; reflexivity].
  unfold in_env in *. by rewrite Hsch, Hd.
Qed.
Lemma keeps_now : keeps E R now.
Proof. by apply keeps_local. Qed.
Lemma keeps_uuid : keeps E R uuid4_hex.
Proof. by apply keeps_local. Qed.
Lemma keeps_notify text : keeps E R (notify_admins_best_effort text).
Proof. apply keeps_local. intros w. unfold notify_admins_best_effort. by destruct (down w) eqn:Ed. Qed.

Lemma keeps_remote {A} (serve : M World A) : keeps E R serve → keeps E R (remote serve).
Proof.
  intros Hs. apply keeps_exec. intros s. apply exec_remote; [apply _|]. intros s' ->%alone.
  split; [|intros _; reflexivity]. eapply exec_mono; [by apply exec_keeps|]. auto.
Qed.
Lemma keeps_remote_gets {A} (f : World → A) : keeps E R (remote (gets f)).
Proof. by apply keeps_remote, keeps_local. Qed.
Lemma keeps_remote_ret {A} (a : A) : keeps E R (remote (mret a)).
Proof. by apply keeps_remote, keeps_local. Qed.

Lemma keeps_on_db {A} (endpoint : Z → M Database A) :
  (∀ s, R s (s <| db := (endpoint s.(clock) s.(db)).2 |>)) → keeps E R (on_db endpoint).
Proof.
  intros H w Hw. specialize (H w.(shared)). unfold on_db, set_db in *. by destruct (endpoint _ _).
Qed.
Lemma keeps_request {A} (endpoint : Z → M Database A) :
  (∀ s, R s (s <| db := (endpoint s.(clock) s.(db)).2 |>)) → keeps E R (request endpoint).
Proof.
  intros H. apply keeps_remote. intros w Hw. specialize (H w.(shared)).
  unfold on_db, set_db in *. by destruct (endpoint _ _).
Qed.
Lemma keeps_on_redis {A} (f : Redis → A * Redis) :
  (∀ s, R s (s <| redis := (f s.(redis)).2 |>)) → keeps E R (remote (on_redis f)).
Proof.
  intros H. apply keeps_remote. intros w Hw. specialize (H w.(shared)).
  unfold on_redis, set_redis in *. by destruct (f _).
Qed.
Lemma keeps_read {A} (endpoint : Z → M Database A) :
  (∀ now, reads_only (endpoint now)) → keeps E R (request endpoint).
Proof.
  intros Hro. apply keeps_request. intros s. rewrite <-(Hro s.(clock) s.(db)), same_db. reflexivity.
Qed.
Lemma keeps_model_validate {A} (valid : A → bool) a : keeps E R (model_validate valid a).
Proof. unfold model_validate. guar_auto. Qed.
Lemma keeps_get_validated {A} (valid : A → bool) (endpoint : Z → M Database A) :
  keeps E R (request endpoint) → keeps E R (get_validated valid endpoint).
Proof. intros H. apply guar_bind; [apply _|done|intros a; apply keeps_model_validate]. Qed.
Lemma keeps_none_if_missing {A} (m : M World A) : keeps E R m → keeps E R (none_if_missing m).
Proof. intros Hm. unfold none_if_missing. guar_auto. Qed.

(** *** Reads *)

Lemma keeps_get_project id : keeps E R (api_get_project id).
Proof. apply keeps_none_if_missing, keeps_get_validated, keeps_read. auto with reads. Qed.
Lemma keeps_get_user id : keeps E R (api_get_user id).
Proof. apply keeps_none_if_missing, keeps_read. auto with reads. Qed.
Lemma keeps_get_task id : keeps E R (api_get_task id).
Proof. apply keeps_get_validated, keeps_read. auto with reads. Qed.
Lemma keeps_tasks_by_story id : keeps E R (api_get_tasks_by_story id).
Proof. apply keeps_get_validated, keeps_read. auto with reads. Qed.
Lemma keeps_tasks_by_status st : keeps E R (api_get_tasks_by_status st).
Proof. apply keeps_get_validated, keeps_read. auto with reads. Qed.
Lemma keeps_task_events id : keeps E R (api_get_task_events id).
Proof. apply keeps_get_validated, keeps_read. auto with reads. Qed.
Lemma keeps_list_runs id ty : keeps E R (api_list_runs id ty).
Proof. apply keeps_get_validated, keeps_read. auto with reads. Qed.
Lemma keeps_get_story id : keeps E R (api_get_story id).
Proof. apply keeps_get_validated, keeps_read. auto with reads. Qed.
Lemma keeps_stories_by_status st : keeps E R (api_get_stories_by_status st).
Proof. apply keeps_get_validated, keeps_read. auto with reads. Qed.
Lemma keeps_stories_by_project id : keeps E R (api_get_stories_by_project id).
Proof. apply keeps_get_validated, keeps_read. auto with reads. Qed.
Lemma keeps_list_runs_owing n : keeps E R (api_list_runs_owing_owner_notification n).
Proof. apply keeps_get_validated, keeps_read. auto with reads. Qed.
Lemma keeps_latest_run id ty : keeps E R (api_get_latest_run_by_story id ty).
Proof.
  apply guar_bind; [apply _|apply keeps_read; auto with reads|]. intros [|r l]; [by apply guar_ret, _|].
  apply guar_bind; [apply _|apply keeps_model_validate|]. intros. by apply guar_ret, _.
Qed.
Lemma keeps_get_run_or_none id : keeps E R (api_get_run_if_missing_returns_none id).
Proof.
  apply guar_bind; [apply _|apply keeps_none_if_missing, keeps_read; auto with reads|].
  intros [r|]; [|by apply guar_ret, _].
  apply guar_bind; [apply _|apply keeps_model_validate|]. intros. by apply guar_ret, _.
Qed.
Lemma keeps_secret_keys id : keeps E R (api_list_project_secret_keys id).
Proof. apply keeps_read. auto with reads. Qed.
Lemma keeps_primary_repository id : keeps E R (api_get_primary_repository id).
Proof.
  apply guar_bind; [apply _|apply keeps_read; auto with reads|]. intros. by apply guar_ret, _.
Qed.
Lemma keeps_grant_exists id : keeps E R (api_temporary_access_grant_exists_for_run id).
Proof.
  apply guar_bind; [apply _|apply keeps_read; auto with reads|]. intros [|? ?]; by apply guar_ret, _.
Qed.
Lemma keeps_on_fleet {A} (f : Fleet → A) : keeps E R (on_fleet f).
Proof. apply keeps_remote_gets. Qed.
Lemma keeps_get_servers : keeps E R api_get_servers.
Proof. apply keeps_remote_gets. Qed.
Lemma keeps_active_incidents : keeps E R api_list_active_incidents.
Proof. apply keeps_remote_gets. Qed.
Lemma keeps_get_applications h : keeps E R (api_get_applications h).
Proof. apply keeps_remote_gets. Qed.
Lemma keeps_redis_get k : keeps E R (redis_get k).
Proof. apply keeps_remote_gets. Qed.
Lemma keeps_redis_expire k t : keeps E R (redis_expire k t).
Proof. apply keeps_remote_ret. Qed.
Lemma keeps_read_stored {A} (f : Redis → option (stored A)) : keeps E R (read_stored f).
Proof.
  unfold read_stored, read_redis. apply guar_bind; [apply _|apply keeps_remote_gets|].
  intros a. guar_auto.
Qed.
Lemma keeps_read_redis {A} (f : Redis → A) : keeps E R (read_redis f).
Proof. apply keeps_remote_gets. Qed.

(** *** Writes *)

Lemma keeps_transition_task `{!IgnoresTasks R} id to actor : keeps E R (api_transition_task id to actor).
Proof. apply keeps_get_validated, keeps_request. intros s. apply ignores_tasks, transition_task_writes. Qed.
Lemma keeps_update_task `{!IgnoresTasks R} id data : keeps E R (api_update_task id data).
Proof. apply keeps_get_validated, keeps_request. intros s. apply ignores_tasks, update_task_writes. Qed.
Lemma keeps_create_task `{!IgnoresTasks R} body : keeps E R (api_create_task body).
Proof.
  apply guar_bind; [apply _|apply keeps_uuid|intros x].
  apply keeps_get_validated, keeps_request. intros s. apply ignores_tasks, create_task_writes.
Qed.
Lemma keeps_create_task_event `{!IgnoresTasks R} id e : keeps E R (api_create_task_event id e).
Proof. apply keeps_get_validated, keeps_request. intros s. apply ignores_tasks, create_task_event_writes. Qed.
Lemma keeps_transition_story `{!IgnoresStories R} id action : keeps E R (api_transition_story id action).
Proof. apply keeps_get_validated, keeps_request. intros s. apply ignores_stories, post_story_action_writes. Qed.
Lemma keeps_fail_story `{!IgnoresStories R} id : keeps E R (api_fail_story id).
Proof. apply keeps_transition_story. Qed.
Lemma keeps_wait_user_secret_story `{!IgnoresStories R} id : keeps E R (api_wait_user_secret_story id).
Proof. apply (keeps_transition_story id "wait-user-secret"). Qed.
Lemma keeps_update_story `{!IgnoresStories R} id data : keeps E R (api_update_story id data).
Proof. apply keeps_get_validated, keeps_request. intros s. apply ignores_stories, update_story_writes. Qed.
Lemma keeps_create_run body `{!IgnoresNewRun R body.(rc_story_id)} : keeps E R (api_create_run body).
Proof.
  apply keeps_get_validated, keeps_request. intros s.
  destruct (create_run_cases s.(clock) body s.(db)) as [[e ->]|[Hfree ->]]; cbn.
  - rewrite same_db. reflexivity.
  - by apply ignores_new_run.
Qed.
Lemma keeps_create_run_if_absent body `{!IgnoresNewRun R body.(rc_story_id)} : keeps E R (api_create_run_if_absent body).
Proof.
  apply guar_bind; [apply _|apply keeps_get_run_or_none|]. intros [r|]; [by apply guar_ret, _|].
  by apply keeps_create_run.
Qed.
Lemma keeps_update_run `{!IgnoresRuns R} id u : keeps E R (api_update_run id u).
Proof.
  apply guar_bind; [apply _| |intros; by apply guar_ret, _]. apply keeps_request. intros s.
  apply ignores_runs, update_run_writes.
Qed.
Lemma keeps_patch_run `{!IgnoresPatches R} id m :
  m !! QA_HANDOFF_KEY = None → keeps E R (api_update_run id (no_update <| ru_run_metadata := Some m |>)).
Proof.
  intros Hm. apply keeps_exec. intros s.
  apply (exec_patch_run E); [intros _|intros _; reflexivity|intros _]; by apply ignores_patches.
Qed.
Lemma keeps_create_grant `{!IgnoresGrants R} body : keeps E R (api_create_temporary_access_grant body).
Proof. apply keeps_get_validated, keeps_request. intros s. apply ignores_grants, create_grant_writes. Qed.
Lemma keeps_publish `{!IgnoresRedis R} stream m : keeps E R (publish stream m).
Proof. apply keeps_on_redis. intros s. apply ignores_redis. Qed.
Lemma keeps_message `{!IgnoresMessages R} stream m : stream ≠ QA_QUEUE → keeps E R (publish stream m).
Proof. intros Hne. apply keeps_on_redis. intros s. by apply ignores_messages. Qed.
Lemma keeps_redis_set `{!IgnoresKeys R} k v ttl : keeps E R (redis_set k v ttl).
Proof. apply keeps_on_redis. intros s. by apply ignores_keys. Qed.
Lemma keeps_redis_incr `{!IgnoresKeys R} k : keeps E R (redis_incr k).
Proof. apply keeps_on_redis. intros s. by apply ignores_keys. Qed.
Lemma keeps_redis_delete `{!IgnoresKeys R} k : keeps E R (redis_delete k).
Proof. apply keeps_on_redis. intros s. by apply ignores_keys. Qed.
Lemma keeps_redis_mark `{!IgnoresKeys R} k : keeps E R (redis_mark k).
Proof. apply keeps_on_redis. intros s. by apply ignores_keys. Qed.
Lemma keeps_update_grant `{!IgnoresGrants R} id u : keeps E R (api_update_temporary_access_grant id u).
Proof. apply keeps_get_validated, keeps_request. intros s. apply ignores_grants, update_grant_writes. Qed.
Lemma keeps_record_observation `{!IgnoresGrants R} id o :
  keeps E R (api_record_temporary_access_observation id o).
Proof. apply keeps_get_validated, keeps_request. intros s. apply ignores_grants, record_observation_writes. Qed.
Lemma keeps_escalate `{!IgnoresDb R} id e : keeps E R (api_escalate_temporary_access_grant id e).
Proof. apply keeps_get_validated, keeps_request. intros s. apply ignores_db. Qed.
Lemma keeps_withdraw `{!IgnoresRuns R} id reason : keeps E R (api_withdraw_deploy_dispatch id reason).
Proof. apply keeps_request. intros s. apply ignores_runs, withdraw_writes. Qed.
Lemma keeps_supersede `{!IgnoresRuns R} id reason : keeps E R (api_supersede_deploy_dispatch id reason).
Proof. apply keeps_request. intros s. apply ignores_runs, supersede_writes. Qed.
Lemma keeps_record_outcome `{!IgnoresRuns R} id u : keeps E R (api_record_run_outcome_unless_settled id u).
Proof.
  unfold api_record_run_outcome_unless_settled. apply guar_catch; [apply _| |].
  - apply guar_bind; [apply _| |intros; by apply guar_ret, _]. apply keeps_request. intros s.
    apply ignores_runs, update_run_writes.
  - intros e. guar_auto.
Qed.
(** What a stop commits: nothing, or the application's status and a run of no story. *)
Lemma stop_application_rows_wp now hex id db :
  wp (stop_application_rows now hex id) (λ r d, d = db ∨ ∃ app run,
    d = put_run run (put_application app db) ∧ db.(runs) !! run.(r_id) = None ∧ run.(r_story_id) = None) db.
Proof.
  unfold stop_application_rows, get_app_with_repo, add_run. wp_auto; try by left.
  destruct a as [app repo]. wp_auto; try by left. right. eexists _, _. split; [done|].
  match goal with H : negb _ = false |- _ =>
    apply negb_false_iff, andb_true_iff in H as [Hfree%bool_decide_eq_true _] end.
  by split.
Qed.
Lemma keeps_stop_application `{!IgnoresApplications R} `{!IgnoresNewRun R None} `{!IgnoresRedis R} id :
  keeps E R (api_stop_application id).
Proof.
  apply keeps_exec. intros s. apply exec_serving; [apply _|]. intros s' ->%alone. split; [|intros _; reflexivity].
  eapply (exec_mono _ _ _ (λ _ s', R s s')); [|auto].
  apply exec_bind, exec_uuid. intros hex. apply exec_bind, exec_on_db.
  eapply wp_mono; [apply stop_application_rows_wp|]. intros r d Hd.
  assert (R s (s <| db := d |>)) as Hrows.
  { destruct Hd as [->|(app & run & -> & Hfree & Hst)]; [rewrite same_db; reflexivity|].
    etransitivity; [apply (ignores_applications s app)|]. by eapply ignores_new_run_at. }
  destruct r as [[m|]|e]; [|by apply exec_ret|done].
  apply exec_bind, exec_of_res. destruct (DeployMessage_validated m) as [m'|]; [|done].
  apply exec_handler_publish; [apply _|]. intros s' ->%alone. cbn.
  split; [|intros _; split; [|done]]; (etransitivity; [exact Hrows|apply ignores_redis]).
Qed.
Lemma keeps_get_application id : keeps E R (api_get_application_if_missing_returns_none id).
Proof.
  apply guar_bind; [apply _|apply keeps_none_if_missing, keeps_read; auto with reads|].
  intros [r|]; [|by apply guar_ret, _].
  apply guar_bind; [apply _|apply keeps_model_validate|]. intros. by apply guar_ret, _.
Qed.
Lemma keeps_get_repositories id : keeps E R (api_get_repositories id).
Proof. apply keeps_read. auto with reads. Qed.
Lemma keeps_get_projects : keeps E R api_get_projects.
Proof. apply keeps_get_validated, keeps_read. auto with reads. Qed.
Lemma keeps_tasks_by_project_and_status id st : keeps E R (api_get_tasks_by_project_and_status id st).
Proof. apply keeps_get_validated, keeps_read. auto with reads. Qed.
Lemma keeps_client : keeps E R github_client.
Proof. by apply keeps_local. Qed.
Lemma keeps_github `{!IgnoresGithub R} {A} (m : M Internet A) :
  trace m (λ _ _, True) → keeps E R (github m).
Proof.
  intros Hm. apply keeps_exec. intros s. eapply exec_github; [apply _|exact Hm|]. intros s' ->%alone.
  split; [|intros _; reflexivity]. intros r l _. split; intros; apply ignores_github.
Qed.
Lemma keeps_get_story_worker id : keeps E R (get_story_worker id).
Proof. apply keeps_remote_gets. Qed.
Lemma keeps_drop_story_worker `{!IgnoresKeys R} id : keeps E R (drop_story_worker id).
Proof. apply keeps_on_redis. intros s. by apply ignores_keys. Qed.
End keeps.

#[export] Hint Resolve keeps_now keeps_uuid keeps_notify keeps_model_validate keeps_get_project
  keeps_get_user keeps_get_task keeps_tasks_by_story keeps_tasks_by_status keeps_task_events
  keeps_list_runs keeps_get_story keeps_stories_by_status keeps_stories_by_project
  keeps_list_runs_owing keeps_latest_run keeps_get_run_or_none keeps_secret_keys
  keeps_primary_repository keeps_grant_exists keeps_get_servers keeps_active_incidents
  keeps_get_applications keeps_redis_get keeps_redis_expire keeps_read_stored keeps_read_redis
  keeps_transition_task keeps_update_task keeps_create_task keeps_create_task_event
  keeps_transition_story keeps_fail_story keeps_wait_user_secret_story keeps_update_story
  keeps_create_run keeps_create_run_if_absent keeps_update_run keeps_patch_run keeps_create_grant keeps_publish keeps_message
  keeps_redis_set keeps_redis_incr keeps_redis_delete keeps_redis_mark keeps_update_grant
  keeps_record_observation keeps_escalate keeps_withdraw keeps_supersede keeps_record_outcome
  keeps_get_application keeps_get_repositories keeps_stop_application keeps_get_projects keeps_tasks_by_project_and_status
  keeps_client keeps_get_story_worker keeps_drop_story_worker : guar.
#[export] Hint Extern 1 (_ !! QA_HANDOFF_KEY = None) => vm_compute; reflexivity : guar.
#[export] Hint Extern 1 (_ ≠ QA_QUEUE) => discriminate : guar.
(** The promises of the relation are found as instances. *)
#[export] Hint Extern 0 (PreOrder _) => typeclasses eauto : guar.
#[export] Hint Extern 0 (IgnoresPatches _) => typeclasses eauto : guar.
#[export] Hint Extern 0 (IgnoresMessages _) => typeclasses eauto : guar.
#[export] Hint Extern 0 (IgnoresKeys _) => typeclasses eauto : guar.
#[export] Hint Extern 0 (IgnoresNewRun _ _) => typeclasses eauto : guar.

(** ** The shared parts of the loops *)

Section parts.
Context (E : env) `{!Alone E} (R : relation Shared) `{!PreOrder R}.

Lemma keeps_resolve_recipient p e st : keeps E R (resolve_project_recipient p e st).
Proof. unfold resolve_project_recipient, resolve_owner_recipient, alert_unresolved. guar_auto. Qed.
Lemma keeps_write_record `{!IgnoresPatches R} id r : keeps E R (write_record id r).
Proof. unfold write_record. guar_auto. Qed.
Lemma keeps_read_record run : keeps E R (read_owner_notification run).
Proof. unfold read_owner_notification. guar_auto. Qed.
#[local] Hint Resolve keeps_resolve_recipient keeps_write_record keeps_read_record : guar.
Lemma keeps_owe `{!IgnoresPatches R} run ev text st p ts t :
  keeps E R (owe_owner_notification run ev text st p ts t).
Proof. unfold owe_owner_notification. guar_auto. Qed.
Lemma keeps_spend `{!IgnoresPatches R} id r n e : keeps E R (spend_failed_attempt id r n e).
Proof. unfold spend_failed_attempt, abandon, settle. guar_auto. Qed.
#[local] Hint Resolve keeps_spend : guar.
Lemma keeps_deliver `{ExceptionTexts} `{!IgnoresPatches R} `{!IgnoresMessages R} id r :
  keeps E R (deliver_owed_notification id r).
Proof. unfold deliver_owed_notification, settle. guar_auto. Qed.
Lemma keeps_terminal_task_statuses run : keeps E R (terminal_task_statuses run).
Proof. unfold terminal_task_statuses. guar_auto. Qed.
#[local] Hint Resolve keeps_terminal_task_statuses : guar.
Lemma keeps_replay `{!IgnoresTasks R} t run actor : keeps E R (replay_terminal_attempt t run actor).
Proof. unfold replay_terminal_attempt. guar_auto. Qed.
Lemma keeps_attempt_state run n : keeps E R (attempt_state run n).
Proof. unfold attempt_state, present_state. guar_auto. Qed.
Lemma keeps_select_live t : keeps E R (select_live_engineering_run t).
Proof. unfold select_live_engineering_run. guar_auto. Qed.
Lemma keeps_select_terminal t : keeps E R (select_terminal_engineering_run t).
Proof. unfold select_terminal_engineering_run. guar_auto. Qed.
Lemma keeps_fail_removed `{!IgnoresTasks R} `{!IgnoresRuns R} t run : keeps E R (fail_removed_attempt t run).
Proof. unfold fail_removed_attempt. guar_auto. Qed.
Lemma keeps_request_stop `{!IgnoresRuns R} `{!IgnoresRedis R} t run st w n :
  keeps E R (request_stuck_attempt_stop t run st w n).
Proof. unfold request_stuck_attempt_stop. guar_auto. Qed.
End parts.
#[export] Hint Resolve keeps_resolve_recipient keeps_owe keeps_deliver keeps_replay
  keeps_attempt_state keeps_select_live keeps_select_terminal keeps_fail_removed
  keeps_request_stop : guar.

(** ** What the writing calls do

    Each writing endpoint either leaves the database as it was or makes one
    change, written here as a function of the database. *)

Definition moved_task (now : Z) (to_status : TaskStatus.t) (actor : string) (t : Task) (d : Database)
    : Database :=
  add_event (mkTaskEvent t.(t_id) (value TaskEventType.STATUS_CHANGE) (Some t.(t_status))
      (Some (value to_status)) None ∅ actor)
    (put_task (t <| t_status := value to_status |> <| t_updated_at := now |>) d).

Lemma transition_task_cases now id to actor d :
  (∃ e, transition_task now id (value to) (mkTaskTransition None actor ∅) d = (Exc e, d)) ∨
  (∃ t, d.(tasks) !! id = Some t ∧ allowed t.(t_status) (value to) ∧
     transition_task now id (value to) (mkTaskTransition None actor ∅) d =
       (Ok (t <| t_status := value to |> <| t_updated_at := now |>), moved_task now to actor t d)).
Proof.
  unfold transition_task, transaction, ApiTasks.get_task, mbind, M_bind, gets.
  destruct (tasks d !! id) as [t|] eqn:Ht; cbn; [|by left; eexists].
  assert (wp (validate_transition t.(t_status) (value to)) (λ r d', d' = d ∧
    ((∃ e, r = Exc e) ∨ (r = Ok tt ∧ allowed t.(t_status) (value to)))) d) as Hv.
  { apply wp_validate_transition; intros H; split; [done|by right|done|by left; eexists]. }
  unfold wp in Hv. destruct (validate_transition _ _ d) as [r d']. cbn in Hv.
  destruct Hv as [-> [[e ->]|[-> Hal]]]; [by left; eexists|]. right. by exists t.
Qed.

Definition with_fields (now : Z) (data : list TaskUpdate) (t : Task) : option Task :=
  touched now t <$> set_task_fields t data.

Lemma update_task_cases now id data d :
  (∃ e, update_task now id data d = (Exc e, d)) ∨
  (∃ t t', d.(tasks) !! id = Some t ∧ with_fields now data t = Some t' ∧
     update_task now id data d = (Ok t', put_task t' d)).
Proof.
  unfold update_task, transaction, ApiTasks.get_task, mbind, M_bind, gets, with_fields.
  destruct (tasks d !! id) as [t|] eqn:Ht; cbn; [|by left; eexists].
  destruct (set_task_fields t data) as [t'|] eqn:Hf; cbn; [|by left; eexists].
  unfold commit_or_raise_fk, mbind, M_bind, gets, guard_not. cbn.
  destruct (negb _); cbn; [by left; eexists|]. right. exists t, (touched now t t'). by rewrite Hf.
Qed.

Definition moved_story (to_status : StoryStatus.t) (st : Story) (d : Database) : Database :=
  put_story (st <| s_status := value to_status |>) d.

(** The status an action moves a story to. *)
Definition action_target (action : string) : option StoryStatus.t :=
  if decide (action = "human-review") then Some StoryStatus.WAITING_HUMAN_REVIEW
  else if decide (action = "wait-user-secret") then Some StoryStatus.WAITING_USER_SECRET
  else if decide (action = "start") then Some StoryStatus.IN_PROGRESS
  else if decide (action = "complete") then Some StoryStatus.COMPLETED
  else if decide (action = "fail") then Some StoryStatus.FAILED
  else if decide (action = "pr_review") then Some StoryStatus.PR_REVIEW
  else if decide (action = "deploy") then Some StoryStatus.DEPLOYING
  else if decide (action = "test") then Some StoryStatus.TESTING
  else if decide (action = "reopen") then Some StoryStatus.REOPENED
  else if decide (action = "archive") then Some StoryStatus.ARCHIVED
  else None.

Lemma do_transition_cases st to d :
  (∃ e, do_transition st to d = (Exc e, d)) ∨
  (story_allowed st.(s_status) (value to) ∧
   do_transition st to d = (Ok (st <| s_status := value to |>), d)).
Proof.
  unfold do_transition, story_validate_transition, mbind, M_bind, some_or, guard_not.
  rewrite member_of_value. destruct (member_of (s_status st)) as [a|] eqn:Ha; cbn; [|by left; eexists].
  case_bool_decide as Hin; cbn; [|by left; eexists].
  right. split; [|done]. apply member_of_Some in Ha. by exists a, to.
Qed.

Lemma move_story_cases to id d :
  (∃ e, move_story to id d = (Exc e, d)) ∨
  (∃ st, d.(stories) !! id = Some st ∧ story_allowed st.(s_status) (value to) ∧
     move_story to id d = (Ok (st <| s_status := value to |>), moved_story to st d)).
Proof.
  unfold move_story, transaction, mbind, M_bind. rewrite get_story_eq.
  destruct (stories d !! id) as [st|] eqn:Hs; cbn; [|by left; eexists].
  destruct (do_transition_cases st to d) as [[e ->]|[Hal ->]];
    [by left; eexists|]. right. by exists st.
Qed.

Lemma post_story_action_cases action id d :
  (∃ e, post_story_action action id d = (Exc e, d)) ∨
  (∃ to st, action_target action = Some to ∧ d.(stories) !! id = Some st ∧
     story_allowed st.(s_status) (value to) ∧
     post_story_action action id d = (Ok (st <| s_status := value to |>), moved_story to st d)).
Proof.
  unfold post_story_action, action_target, human_review_story, wait_user_secret_story, complete_story,
    fail_story, pr_review_story, deploy_story, test_story, archive_story.
  repeat (case_decide; [first
    [ match goal with |- context [move_story ?to id d] =>
        destruct (move_story_cases to id d) as [?|(st & ? & ? & ?)]; [by left|right; by exists to, st]
      end
    | idtac ] |]).
  - unfold start_story, transaction, mbind, M_bind. rewrite get_story_eq.
    destruct (stories d !! id) as [st|] eqn:Hs; cbn; [|by left; eexists].
    assert (∃ r, (match s_blocked_by_story_id st return M Database unit with
      | Some b => if decide (b = "") then mret tt else λ d, let (r, d') := get_story b d in
          match r with
          | Ok a => guard_not (negb (bool_decide (s_status a = "completed"))) UNPROCESSABLE d'
          | Exc e => (Exc e, d') end
      | None => mret tt end) d = (r, d)) as [[[]|e] Hr].
    { destruct (s_blocked_by_story_id st) as [b|]; [|by eexists]. case_decide; [by eexists|].
      rewrite get_story_eq. destruct (stories d !! b); cbn; [|by eexists].
      destruct (negb _); by eexists. }
    + rewrite Hr. destruct (do_transition_cases st StoryStatus.IN_PROGRESS d) as [[e ->]|[Hal ->]];
        [by left; eexists|]. right. by exists StoryStatus.IN_PROGRESS, st.
    + rewrite Hr. by left; eexists.
  - unfold reopen_story, transaction, mbind, M_bind. rewrite get_story_eq.
    destruct (stories d !! id) as [st|] eqn:Hs; cbn; [|by left; eexists].
    destruct (do_transition_cases st StoryStatus.REOPENED d) as [[e ->]|[Hal ->]];
      [by left; eexists|]. right. by exists StoryStatus.REOPENED, st.
  - by left; eexists.
Qed.

Lemma update_story_cases id data d :
  (∃ e, update_story id data d = (Exc e, d)) ∨
  (∃ st st', d.(stories) !! id = Some st ∧ set_story_fields st data = Some st' ∧
     update_story id data d = (Ok st', put_story st' d)).
Proof.
  unfold update_story, transaction, mbind, M_bind. rewrite get_story_eq.
  destruct (stories d !! id) as [st|] eqn:Hs; cbn; [|by left; eexists].
  unfold gets. destruct (set_story_fields st data) as [st'|] eqn:Hf; cbn; [|by left; eexists].
  destruct (negb _); cbn; [by left; eexists|]. right. exists st, st'. by rewrite Hf.
Qed.

(** What an update leaves of a grant. *)
Definition updated_grant (now : Z) (u : GrantUpdate) (g : Grant) : option Grant :=
  (λ g, match u.(gu_status) with Some (Some s) => g <| g_status := value s |> | _ => g end) <$>
  set_grant_fields (stamp_moments now g u) u.

Lemma update_grant_cases now id u d :
  (∃ e, update_grant now service id u d = (Exc e, d)) ∨
  (∃ g g', d.(grants) !! id = Some g ∧ updated_grant now u g = Some g' ∧
     update_grant now service id u d = (Ok g', put_grant g' d)).
Proof.
  unfold update_grant, updated_grant, mbind, M_bind, guard_not. destruct (negb _); cbn; [by left; eexists|].
  unfold transaction, load_grant, mbind, M_bind, gets. cbn.
  destruct (grants d !! id) as [g|] eqn:Hg; cbn; [|by left; eexists].
  destruct (is_revoked g); cbn; [by left; eexists|].
  destruct (set_grant_fields _ _) as [g'|] eqn:Hf; cbn; [|by left; eexists].
  right. eexists g, _. rewrite Hf. by split_and!.
Qed.

(** ** Rules for the writing calls

    Nobody else moves.  A call leaves the state as it was and raises, or it made
    its change and returned the row or raised all the same (the answer was lost or
    did not validate). *)

(** The answer of a call that made its change. *)
Definition answers {A} (a : A) (r : res A) : Prop := ∀ a', r = Ok a' → a' = a.

Section calls.
Context (E : env) `{!Alone E}.

Lemma exec_validated {A} (valid : A → bool) (endpoint : Z → M Database A) s (Q : res A → Shared → Prop) :
  (∀ e, Q (Exc e) s) →
  ((∃ e, endpoint s.(clock) s.(db) = (Exc e, s.(db))) ∨
   (∃ a d, endpoint s.(clock) s.(db) = (Ok a, d) ∧ ∀ r, answers a r → Q r (s <| db := d |>))) →
  exec E (get_validated valid endpoint) s Q.
Proof.
  intros He Hc. apply exec_bind, exec_request; [apply _|]. intros s' ->%alone. split; [|auto].
  unfold wp. destruct Hc as [[e ->]|(a & d & -> & HQ)]; cbn [fst snd].
  - rewrite same_db. split; [|auto]. destruct e; apply He.
  - split; [|intros _; by apply HQ]. apply exec_model_validate; intros _; apply HQ; [by intros ? [= <-]|done].
Qed.

Lemma exec_transition_task id to actor s (Q : res Task → Shared → Prop) :
  (∀ e, Q (Exc e) s) →
  (∀ t r, s.(db).(tasks) !! id = Some t → allowed t.(t_status) (value to) →
     answers (t <| t_status := value to |> <| t_updated_at := s.(clock) |>) r →
     Q r (s <| db := moved_task s.(clock) to actor t s.(db) |>)) →
  exec E (api_transition_task id to actor) s Q.
Proof.
  intros He HQ. apply exec_validated; [done|].
  destruct (transition_task_cases s.(clock) id to actor s.(db)) as [?|(t & Ht & Hal & Heq)]; [by left|].
  right. eexists _, _. split; [exact Heq|]. intros r Hr. by eapply HQ.
Qed.

Lemma exec_update_task id data s (Q : res Task → Shared → Prop) :
  (∀ e, Q (Exc e) s) →
  (∀ t t' r, s.(db).(tasks) !! id = Some t → with_fields s.(clock) data t = Some t' → answers t' r →
     Q r (s <| db := put_task t' s.(db) |>)) →
  exec E (api_update_task id data) s Q.
Proof.
  intros He HQ. apply exec_validated; [done|].
  destruct (update_task_cases s.(clock) id data s.(db)) as [?|(t & t' & Ht & Hf & Heq)]; [by left|].
  right. eexists _, _. split; [exact Heq|]. intros r Hr. by eapply HQ.
Qed.

Lemma exec_transition_story id action s (Q : res Story → Shared → Prop) :
  (∀ e, Q (Exc e) s) →
  (∀ to st r, action_target action = Some to → s.(db).(stories) !! id = Some st →
     story_allowed st.(s_status) (value to) → answers (st <| s_status := value to |>) r →
     Q r (s <| db := moved_story to st s.(db) |>)) →
  exec E (api_transition_story id action) s Q.
Proof.
  intros He HQ. apply exec_validated; [done|].
  destruct (post_story_action_cases action id s.(db)) as [?|(to & st & Hto & Hs & Hal & Heq)]; [by left|].
  right. eexists _, _. split; [exact Heq|]. intros r Hr. by eapply HQ.
Qed.

Lemma exec_update_story id data s (Q : res Story → Shared → Prop) :
  (∀ e, Q (Exc e) s) →
  (∀ st st' r, s.(db).(stories) !! id = Some st → set_story_fields st data = Some st' → answers st' r →
     Q r (s <| db := put_story st' s.(db) |>)) →
  exec E (api_update_story id data) s Q.
Proof.
  intros He HQ. apply exec_validated; [done|].
  destruct (update_story_cases id data s.(db)) as [?|(st & st' & Hs & Hf & Heq)]; [by left|].
  right. eexists _, _. split; [exact Heq|]. intros r Hr. by eapply HQ.
Qed.

Lemma exec_creates_run body s (Q : res Run → Shared → Prop) :
  (∀ e, Q (Exc e) s) →
  (∀ r, s.(db).(runs) !! body.(rc_id) = None → answers (new_run s.(clock) body) r →
     Q r (s <| db := put_run (new_run s.(clock) body) s.(db) |>)) →
  exec E (api_create_run body) s Q.
Proof.
  intros He HQ. apply exec_validated; [done|].
  destruct (create_run_cases s.(clock) body s.(db)) as [?|(Hfree & Heq)]; [by left|].
  right. eexists _, _. split; [exact Heq|]. intros r Hr. by eapply HQ.
Qed.

Lemma exec_update_grant id u s (Q : res Grant → Shared → Prop) :
  (∀ e, Q (Exc e) s) →
  (∀ g g' r, s.(db).(grants) !! id = Some g → updated_grant s.(clock) u g = Some g' → answers g' r →
     Q r (s <| db := put_grant g' s.(db) |>)) →
  exec E (api_update_temporary_access_grant id u) s Q.
Proof.
  intros He HQ. apply exec_validated; [done|].
  destruct (update_grant_cases s.(clock) id u s.(db)) as [?|(g & g' & Hg & Hf & Heq)]; [by left|].
  right. eexists _, _. split; [exact Heq|]. intros r Hr. by eapply HQ.
Qed.

(** Listings: the rows of the database, validated. *)
Lemma exec_tasks_by_status st s (Q : res (list Task) → Shared → Prop) :
  (∀ e, Q (Exc e) s) →
  (∀ l, (∀ t, t ∈ l → (∃ i, s.(db).(tasks) !! i = Some t) ∧ t.(t_status) = value st) → Q (Ok l) s) →
  exec E (api_get_tasks_by_status st) s Q.
Proof.
  intros He HQ. apply (exec_alone_read E); [auto with reads| |done]. intros l [= <-] _. apply HQ.
  intros t. rewrite elem_of_select, elem_of_rows. unfold task_where, where_eq. cbn.
  rewrite !andb_true_r. intros [Hrow Hst]. split; [done|]. revert Hst.
  rewrite bool_decide_eq_false_2 by (by destruct st). cbn. rewrite bool_decide_eq_true. by intros [= ->].
Qed.
Lemma exec_stories_by_status st s (Q : res (list Story) → Shared → Prop) :
  (∀ e, Q (Exc e) s) →
  (∀ l, (∀ t, t ∈ l → (∃ i, s.(db).(stories) !! i = Some t) ∧ t.(s_status) = value st) → Q (Ok l) s) →
  exec E (api_get_stories_by_status st) s Q.
Proof.
  intros He HQ. apply (exec_alone_read E); [auto with reads| |done]. intros l [= <-] _. apply HQ.
  intros t. rewrite elem_of_select, elem_of_rows. unfold story_where, where_eq. cbn.
  rewrite !andb_true_r. intros [Hrow Hst]. split; [done|]. revert Hst.
  rewrite bool_decide_eq_false_2 by (by destruct st). cbn. rewrite bool_decide_eq_true. by intros [= ->].
Qed.
End calls.

(** The tasks of a story, as the API lists them. *)
Definition of_story (sid : string) : TaskFilters := no_filter <| tf_story_id := Some sid |>.

Lemma elem_of_listed d sid l t :
  (list_tasks (of_story sid) d).1 = Ok l → sid ≠ "" →
  t ∈ l ↔ (∃ i, d.(tasks) !! i = Some t) ∧ t.(t_story_id) = Some sid.
Proof.
  intros [= <-] Hsid. rewrite elem_of_select, elem_of_rows. unfold task_where, where_eq. cbn.
  rewrite !andb_true_r, bool_decide_eq_false_2 by done. cbn. by rewrite bool_decide_eq_true.
Qed.

Lemma length_omap {A B} (f : A → option B) (l : list A) :
  length (omap f l) = length (filter (λ x, f x ≠ None) l).
Proof.
  induction l as [|x l IH]; [done|]. rewrite filter_cons.
  change (omap f (x :: l)) with (match f x with Some y => y :: omap f l | None => omap f l end).
  destruct (f x) as [y|]; [rewrite decide_True by done; cbn; by rewrite IH|by rewrite decide_False by auto].
Qed.

Lemma map_to_list_filtered {A} (P : string * A → Prop) `{∀ x, Decision (P x)} (m : gmap string A) :
  map_to_list (filter P m) ≡ₚ filter P (map_to_list m).
Proof.
  rewrite map_filter_alt. apply map_to_list_to_map.
  eapply sublist_NoDup; [exact (NoDup_fst_map_to_list m)|apply fmap_sublist, sublist_filter].
Qed.

(** As many of them bear a mark as rows of the story do. *)
Lemma length_marked d sid l (mark : Task → Prop) `{!∀ t, Decision (mark t)}
    (P : string * Task → Prop) `{!∀ x, Decision (P x)} :
  (list_tasks (of_story sid) d).1 = Ok l → sid ≠ "" →
  (∀ x, P x ↔ x.2.(t_story_id) = Some sid ∧ mark x.2) →
  length (filter mark l) = size (filter P d.(tasks)).
Proof.
  intros [= <-] Hsid HP. rewrite <-length_map_to_list, map_to_list_filtered. unfold select.
  rewrite (merge_sort_Permutation _ _).
  induction (map_to_list d.(tasks)) as [|[i t] rows IH]; [done|]. cbn [fmap list_fmap].
  rewrite !filter_cons.
  assert (Is_true (task_where (of_story sid) t) ↔ t.(t_story_id) = Some sid) as Hw.
  { rewrite Is_true_true. unfold task_where, where_eq. cbn.
    rewrite !andb_true_r, bool_decide_eq_false_2 by done. cbn. by rewrite bool_decide_eq_true. }
  specialize (HP (i, t)). cbn in *.
  destruct (decide (Is_true (task_where (of_story sid) t))) as [H1|H1].
  - rewrite filter_cons. destruct (decide (mark t)) as [H2|H2].
    + rewrite decide_True by tauto. cbn. by rewrite IH.
    + rewrite decide_False by tauto. apply IH.
  - rewrite decide_False by tauto. apply IH.
Qed.

Lemma exec_repositories E `{!Alone E} id s (Q : res (list Repository) → Shared → Prop) :
  id ≠ "" → (∀ e, Q (Exc e) s) →
  (∀ l, (∀ repo, repo ∈ l → (∃ i, s.(db).(repositories) !! i = Some repo) ∧ repo.(rp_project_id) = id) →
     Q (Ok l) s) →
  exec E (api_get_repositories id) s Q.
Proof.
  intros Hid He HQ. apply exec_read; [apply _|auto with reads|]. intros s' ->%alone.
  split; [|intros _; apply He]. apply HQ. intros repo (i & Hi & _)%elem_of_take.
  apply list_elem_of_lookup_2 in Hi. rewrite elem_of_select, elem_of_rows in Hi. destruct Hi as [Hrow Hw].
  split; [done|]. unfold where_eq in Hw. rewrite bool_decide_eq_false_2 in Hw by done. cbn in Hw.
  apply bool_decide_eq_true in Hw. by injection Hw.
Qed.
Lemma exec_primary_repository E `{!Alone E} id s (Q : res (option Repository) → Shared → Prop) :
  id ≠ "" → (∀ e, Q (Exc e) s) →
  (∀ o, (∀ repo, o = Some repo → (∃ i, s.(db).(repositories) !! i = Some repo) ∧ repo.(rp_project_id) = id) →
     Q (Ok o) s) →
  exec E (api_get_primary_repository id) s Q.
Proof.
  intros Hid He HQ. apply exec_bind, (exec_repositories E); [done..|]. intros rows Hrows.
  apply exec_ret, HQ. intros repo Hrepo. apply Hrows.
  destruct (list_find _ rows) as [[i r]|] eqn:Hf.
  - apply list_find_Some in Hf as (Hi & _). injection Hrepo as <-. by eapply list_elem_of_lookup_2.
  - destruct rows; [done|]. injection Hrepo as <-. by left.
Qed.
