(* ===== verification/TemporaryAccess.v ===== *)
(** * TemporaryAccess: handing a test identity out and taking it back

    [services/scheduler/src/tasks/temporary_access.py]: the grant that a private
    bot's QA run starts from, and the sweep that drives every grant from what the
    record, its deploys and the running service say. *)

From S2P Require Import Prelude Vocabulary Contracts Db Api ApiRuns ApiGrants.
From S2P Require Import Placement World SchedulerClient.

(** ** Configuration ([startup.get_config]) *)

Class TemporaryAccessConfig := {
  grant_ttl_minutes : Z;
  revoke_stale_minutes : Z;
  max_revoke_attempts : Z;
  observation_window_minutes : Z;
  unrevoked_ttl_minutes : Z;
  revoked_watch_minutes : Z;
  contract_audit_hours : Z;
}.

(** [_UNSETTLED_DISPATCH_ERROR], [_UNOBSERVABLE_ERROR]. *)
Definition UNSETTLED_DISPATCH_ERROR : string := "grant deploy dispatch unsettled".
Definition UNOBSERVABLE_ERROR : string := "temporary access cannot be observed".

(** [counts]. *)
Record SweepCounts := mkSweepCounts {
  c_dispatched : Z;
  c_released : Z;
  c_revoked : Z;
  c_expired : Z;
  c_revoke_failed : Z;
  c_escalated : Z;
}.
#[export] Instance SweepCounts_rebuild : Rebuild SweepCounts := λ c,
  mkSweepCounts (c_dispatched c) (c_released c) (c_revoked c) (c_expired c) (c_revoke_failed c)
    (c_escalated c).
Definition empty_sweep_counts : SweepCounts := mkSweepCounts 0 0 0 0 0 0.

(** [counts] is one object: what a handler counted stays counted when it raises
    later.  A handler answers with the counts as it left them and how it ended. *)
Definition counted {A} (before after : SweepCounts) (m : M World A) : M World (SweepCounts * res unit) :=
  r ← attempt m;
  mret (match r with Ok _ => (after, Ok tt) | Exc e => (before, Exc e) end).
(** The same where nothing was counted before the call. *)
Definition then_count {A} (m : M World A) (c : SweepCounts) : M World (SweepCounts * res unit) :=
  m;; mret (c, Ok tt).
Definition no_count (c : SweepCounts) : M World (SweepCounts * res unit) := mret (c, Ok tt).

Definition dispatched (c : SweepCounts) : SweepCounts := c <| c_dispatched ::= Z.succ |>.

(** [env_observation.py]. *)
Definition env_observation_result_key (request_id : string) : string :=
  "env-observation:result:" +:+ request_id.
Definition env_observation_pending_key (request_id : string) : string :=
  "env-observation:pending:" +:+ request_id.

Definition slot_audit_key (grant : Grant) : string :=
  "temporary-access:slot-audit:" +:+ grant.(g_project_id) +:+ ":" +:+ grant.(g_env_key).

(** ** The deploys *)

Definition new_deploy_run_id (kind : string) : M World string :=
  hex ← uuid4_hex; mret ("deploy-" +:+ kind +:+ "-" +:+ String.substring 0 8 hex).

(** The message of a temporary-access deploy: the granted commit, one value changed. *)
Definition access_deploy (grant : Grant) (run_id value_ : string) (fence : bool) : DeployMessage :=
  mkDeployMessage run_id grant.(g_project_id) ""
    "temporary QA access deploy, not requested by the owner" "" DeployTrigger.ADMIN
    DeployAction.FEATURE 0 grant.(g_head_sha) None [(grant.(g_env_key), value_)] fence.

Definition publish_deploy (grant : Grant) (run_id value_ : string) (run_metadata : metadata)
    (fence_active_deploys : bool) : M World unit :=
  api_create_run (mkRunCreate run_id (value RunType.DEPLOY) (Some grant.(g_project_id)) None None None
    (merge (<["grant_id" := MStr grant.(g_id)]> {[ "head_sha" := MStr grant.(g_head_sha) ]})
       run_metadata));;
  m ← of_res (DeployMessage_validated (access_deploy grant run_id value_ fence_active_deploys));
  publish DEPLOY_QUEUE (DeployMsg m).

Definition publish_grant_deploy (grant : Grant) (grant_run_id : string) : M World unit :=
  publish_deploy grant grant_run_id grant.(g_subject)
    {[ "triggered_by" := MStr "temporary_access_grant" ]} false.

Definition has_status (grant : Grant) (s : TemporaryAccessStatus.t) : bool :=
  bool_decide (grant.(g_status) = value s).

(** ** Handing the access out *)

Definition grant_temporary_access (project_id env_key subject head_sha : string)
    (qa_message : QAMessage) : M World Grant :=
  let grant_id := String.substring 0 255 ("tempaccess-" +:+ qa_message.(qm_run_id)) in
  proposed ← new_deploy_run_id "grant";
  body ← of_res (GrantCreate_validated (mkGrantCreate grant_id project_id env_key subject head_sha
                   qa_message.(qm_run_id) proposed qa_message));
  grant ← api_create_temporary_access_grant body;
  if negb (has_status grant TemporaryAccessStatus.GRANTING) then mret grant
  else
    run ← api_get_run_if_missing_returns_none grant.(g_grant_run_id);
    match run with
    | Some _ => mret grant
    | None => publish_grant_deploy grant grant.(g_grant_run_id);; mret grant
    end.

(** ** What a deploy run says *)

Definition is_terminal_run (run : Run) : bool := is_terminal run.(r_status).

(** [run.result.deploy_outcome]. *)
Definition deploy_outcome_of (run : Run) : res (option DeployOutcome.t) :=
  match run.(r_result) with
  | None => Ok None
  | Some (DeployResult r) => Ok (Some r.(dr_deploy_outcome))
  | Some _ => Exc AttributeError
  end.

Definition deploy_succeeded (run : Run) : res bool :=
  if negb (bool_decide (run.(r_status) = value RunStatus.COMPLETED)) then Ok false
  else match deploy_outcome_of run with
       | Ok o => Ok (bool_decide (o = Some DeployOutcome.SUCCESS))
       | Exc e => Exc e
       end.

Definition deploy_failure_detail (run : Run) (kind : string) : res string :=
  match deploy_outcome_of run with
  | Ok o => Ok (kind +:+ " deploy " +:+ run.(r_id) +:+ " ended " +:+ run.(r_status) +:+ " (" +:+
                match o with Some o => value o | None => "no result" end +:+ ")")
  | Exc e => Exc e
  end.

(** [_dispatch_settled]. *)
Definition dispatch_settled (run : Run) : bool :=
  truthy_meta (run.(r_run_metadata) !! DISPATCH_SUPERSEDED_AT_KEY) ||
  (is_terminal_run run && bool_decide (is_Some run.(r_result))).

(** ** The QA run behind a grant *)

(** [QARunResult(qa_outcome=BLOCKED, summary=..., blocker=...)]. *)
Definition blocked_result (summary : string) (category : QABlockerCategory.t)
    (attempted sent received : string) : QARunResult :=
  mkQARunResult QAOutcome.BLOCKED (Some summary) [] None None None None
    (Some (mkQABlocker (value category) attempted sent received)) [] [].

Definition fail_qa_run (grant : Grant) (category : QABlockerCategory.t)
    (attempted sent received summary error_message : string) : M World unit :=
  if bool_decide (grant.(g_revoke_reason) = Some (value TemporaryAccessRevokeReason.RUN_MISSING))
  then mret tt
  else
    api_record_run_outcome_unless_settled grant.(g_qa_run_id)
      (((no_update <| ru_status := Some (Some (value RunStatus.FAILED)) |>)
         <| ru_error_message := Some (Some error_message) |>)
         <| ru_result := Some (Some (QAResult
              (blocked_result summary category attempted sent received))) |>);;
    mret tt.

(** ** Taking it back *)

Definition dispatch_revoke (grant : Grant) (reason : TemporaryAccessRevokeReason.t) : M World unit :=
  let attempts := grant.(g_revoke_attempts) + 1 in
  revoke_run_id ← new_deploy_run_id "revoke";
  api_update_temporary_access_grant grant.(g_id)
    ((((no_grant_update <| gu_status := Some (Some TemporaryAccessStatus.REVOKING) |>)
        <| gu_revoke_reason := Some (Some reason) |>)
        <| gu_revoke_run_id := Some (Some revoke_run_id) |>)
        <| gu_revoke_attempts := Some (Some attempts) |>);;
  publish_deploy grant revoke_run_id ""
    (<["revoke_reason" := MStr (value reason)]>
       {[ "triggered_by" := MStr "temporary_access_revoke" ]}) true.

Definition release_qa (grant : Grant) (counts : SweepCounts) : M World (SweepCounts * res unit) :=
  match grant.(g_qa_dispatched_at) with
  | Some _ => no_count counts
  | None =>
      publish QA_QUEUE (QAMsg grant.(g_qa_message));;
      then_count (api_update_temporary_access_grant grant.(g_id)
                    (no_grant_update <| gu_qa_dispatched := Some (Some true) |>))
        (counts <| c_released ::= Z.succ |>)
  end.

(** [age = _age_minutes(t)]: the age in microseconds. *)
Definition age_of (t : Z) : M World Z := now_ ← now; mret (now_ - t).

Definition revocation_reason `{TemporaryAccessConfig} (grant : Grant)
    : M World (option TemporaryAccessRevokeReason.t) :=
  run ← api_get_run_if_missing_returns_none grant.(g_qa_run_id);
  match run with
  | None => mret (Some TemporaryAccessRevokeReason.RUN_MISSING)
  | Some run =>
      if is_terminal_run run then mret (Some TemporaryAccessRevokeReason.RUN_TERMINAL)
      else
        age ← age_of grant.(g_granted_at);
        if older_than age 0 grant_ttl_minutes then
          let rounded := pretty (rounded_minutes 1 age) in
          notify_admins_best_effort ("Temporary access " +:+ grant.(g_env_key) +:+ " for project " +:+
            grant.(g_project_id) +:+ " outlived its QA run " +:+ grant.(g_qa_run_id) +:+ " by " +:+
            rounded +:+ " minutes and is being revoked by timeout");;
          fail_qa_run grant QABlockerCategory.QA_ACCESS_EXPIRED
            ("keep temporary access " +:+ grant.(g_env_key) +:+ " for the duration of the QA run")
            ("grant " +:+ grant.(g_id) +:+ " issued " +:+ rounded +:+ " minutes ago")
            ("QA run still " +:+ run.(r_status) +:+ " after " +:+ pretty grant_ttl_minutes +:+
             " minutes")
            "temporary test access outlived the QA run it was granted for"
            ("temporary access " +:+ grant.(g_env_key) +:+ " expired while the QA run was still " +:+
             run.(r_status));;
          mret (Some TemporaryAccessRevokeReason.EXPIRED)
        else mret None
  end.

Definition settle_granted `{TemporaryAccessConfig} (grant : Grant) (counts : SweepCounts)
    : M World (SweepCounts * res unit) :=
  if has_status grant TemporaryAccessStatus.REVOKE_FAILED then
    reason ← some_or ValueError (mbind member_of grant.(g_revoke_reason));
    then_count (dispatch_revoke grant reason) (dispatched counts)
  else
    reason ← revocation_reason grant;
    match reason with
    | None => release_qa grant counts
    | Some reason =>
        let counts := if decide (reason = TemporaryAccessRevokeReason.EXPIRED)
                      then counts <| c_expired ::= Z.succ |> else counts in
        counted counts (dispatched counts) (dispatch_revoke grant reason)
    end.

(** ** A grant whose deploy has not confirmed *)

Definition report_unsettled_dispatch `{TemporaryAccessConfig} (grant : Grant) (claimed_at : Z)
    : M World unit :=
  waited ← age_of claimed_at;
  if negb (older_than waited 0 revoke_stale_minutes) then mret tt
  else if String.prefix UNSETTLED_DISPATCH_ERROR (default "" grant.(g_last_error)) then mret tt
  else
    let rounded := pretty (rounded_minutes 1 waited) in
    notify_admins_best_effort ("Temporary access " +:+ grant.(g_env_key) +:+ " for project " +:+
      grant.(g_project_id) +:+ " cannot be revoked (grant " +:+ grant.(g_id) +:+ "): deploy " +:+
      grant.(g_grant_run_id) +:+ " claimed the dispatch " +:+ rounded +:+
      " minutes ago and never said whether it reached GitHub");;
    api_update_temporary_access_grant grant.(g_id) (no_grant_update <| gu_last_error :=
      Some (Some (UNSETTLED_DISPATCH_ERROR +:+ ": grant deploy " +:+ grant.(g_grant_run_id) +:+
        " claimed the dispatch " +:+ rounded +:+ " minutes ago and never recorded an outcome")) |>);;
    mret tt.

Definition stop_grant_deploy `{TemporaryAccessConfig} (grant : Grant) (detail : string)
    : M World bool :=
  run ← api_get_run_if_missing_returns_none grant.(g_grant_run_id);
  match run with
  | None => mret true
  | Some run =>
      if dispatch_settled run then mret true
      else
        withdrawal ← api_withdraw_deploy_dispatch grant.(g_grant_run_id)
          ("temporary access grant " +:+ grant.(g_id) +:+ " was abandoned: " +:+ detail);
        match withdrawal.(dd_claimed_at) with
        | None => mret true
        | Some claimed_at =>
            run ← api_get_run_if_missing_returns_none grant.(g_grant_run_id);
            if match run with Some run => dispatch_settled run | None => false end then mret true
            else
              supersede ← api_supersede_deploy_dispatch grant.(g_grant_run_id)
                ("temporary access grant " +:+ grant.(g_id) +:+ " took the dispatch back: " +:+ detail);
              if settled supersede then mret true
              else report_unsettled_dispatch grant claimed_at;; mret false
        end
  end.

Definition abandon_grant `{TemporaryAccessConfig} (grant : Grant) (detail : string)
    (counts : SweepCounts) : M World (SweepCounts * res unit) :=
  fail_qa_run grant QABlockerCategory.QA_ACCESS_GRANT_FAILED
    ("grant temporary access " +:+ grant.(g_env_key) +:+ " for project " +:+ grant.(g_project_id))
    ("deploy of " +:+ grant.(g_head_sha) +:+ " with " +:+ grant.(g_env_key) +:+ " set")
    detail "temporary test access could not be granted"
    ("temporary access " +:+ grant.(g_env_key) +:+ " was never confirmed: " +:+ detail);;
  stopped ← stop_grant_deploy grant detail;
  if (stopped : bool) then
    then_count (dispatch_revoke grant TemporaryAccessRevokeReason.GRANT_FAILED) (dispatched counts)
  else no_count counts.

Definition redispatch_grant (grant : Grant) (counts : SweepCounts)
    : M World (SweepCounts * res unit) :=
  grant_run_id ← new_deploy_run_id "grant";
  api_update_temporary_access_grant grant.(g_id)
    (no_grant_update <| gu_grant_run_id := Some (Some grant_run_id) |>);;
  then_count (publish_grant_deploy grant grant_run_id) (dispatched counts).

Definition settle_grant_in_flight `{TemporaryAccessConfig} (grant : Grant) (counts : SweepCounts)
    : M World (SweepCounts * res unit) :=
  age ← age_of grant.(g_granted_at);
  if older_than age 0 grant_ttl_minutes then
    abandon_grant grant ("grant deploy " +:+ grant.(g_grant_run_id) +:+ " did not confirm within " +:+
                         pretty grant_ttl_minutes +:+ " minutes") counts
  else
    run ← api_get_run_if_missing_returns_none grant.(g_grant_run_id);
    match run with
    | None => redispatch_grant grant counts
    | Some run =>
        if negb (is_terminal_run run) then
          age ← age_of run.(r_created_at);
          if negb (older_than age 0 revoke_stale_minutes) then no_count counts
          else abandon_grant grant ("grant deploy " +:+ run.(r_id) +:+ " is still " +:+
                 run.(r_status) +:+ " after " +:+ pretty revoke_stale_minutes +:+ " minutes") counts
        else if bool_decide (run.(r_status) = value RunStatus.CANCELLED) then
          redispatch_grant grant counts
        else
          ok ← of_res (deploy_succeeded run);
          if negb ok then
            detail ← of_res (deploy_failure_detail run "grant");
            abandon_grant grant detail counts
          else
            api_update_temporary_access_grant grant.(g_id)
              (no_grant_update <| gu_status := Some (Some TemporaryAccessStatus.GRANTED) |>);;
            settle_granted (grant <| g_status := value TemporaryAccessStatus.GRANTED |>) counts
    end.

(** ** Reading the running service *)

(** [_reconciling_since]. *)
Definition reconciling_since (grant : Grant) : Z := default grant.(g_granted_at) grant.(g_reopened_at).

Definition past_the_watch_window `{TemporaryAccessConfig} (now : Z) (grant : Grant) : bool :=
  match grant.(g_revoked_at) with
  | None => false
  | Some t => older_than now t revoked_watch_minutes
  end.

Definition observation_request_id (grant : Grant) : string :=
  "envobs-" +:+ default "None" grant.(g_revoke_run_id) +:+ "-" +:+ pretty grant.(g_slot_clear_readings).

(** [_ObservationTarget]. *)
Record ObservationTarget := mkObservationTarget {
  ot_application_id : Z;
  ot_server_handle : string;
  ot_service_slug : string;
}.

Definition observation_target (grant : Grant) : M World (option ObservationTarget) :=
  application ← api_get_application_if_missing_returns_none grant.(g_qa_message).(qm_application_id);
  match application with
  | None => mret None
  | Some app =>
      repositories ← api_get_repositories grant.(g_project_id);
      guard_not (negb (bool_decide (app.(a_repo_id) ∈ (rp_id <$> repositories)))) ValueError;;
      if negb (bool_decide (app.(a_status) = value ApplicationStatus.RUNNING)) then mret None
      else
        project ← api_get_project grant.(g_project_id);
        mret ((λ p, mkObservationTarget app.(a_id) app.(a_server_handle) p.(p_slug)) <$> project)
  end.

(** [_read_observation]. *)
Definition read_observation (request_id : string) : M World (option EnvObservationResult) :=
  raw ← remote (gets (λ w, w.(shared).(redis).(observations) !! env_observation_result_key request_id));
  match raw with
  | None => mret None
  | Some Unreadable => raise ValidationError
  | Some (Parsed r) => r ← model_validate EnvObservationResult_valid r; mret (Some r)
  end.

Definition ask_for_observation `{TemporaryAccessConfig} (grant : Grant) (request_id : string)
    (slow_audit : bool) : M World unit :=
  at_ ← now;
  if match grant.(g_observed_at) with
     | Some t => negb (older_than at_ t observation_window_minutes)
     | None => false
     end then mret tt
  else
    due ← (if slow_audit then redis_mark (slot_audit_key grant) else mret true);
    if negb due then mret tt
    else
      target ← observation_target grant;
      match target with
      | None => mret tt
      | Some t =>
          asked ← redis_mark (env_observation_pending_key request_id);
          if negb asked then mret tt
          else
            m ← model_validate EnvObservationRequest_valid
                  (mkEnvObservationRequest request_id grant.(g_project_id) t.(ot_server_handle)
                     t.(ot_service_slug) grant.(g_env_key));
            publish ENV_OBSERVATION_QUEUE (EnvObservationMsg m)
      end.

Definition report_unobservable_grant `{TemporaryAccessConfig} (grant : Grant) (detail : string)
    : M World unit :=
  if has_status grant TemporaryAccessStatus.REVOKED then mret tt
  else
    at_ ← now;
    if negb (older_than at_ (reconciling_since grant) unrevoked_ttl_minutes) then mret tt
    else if String.prefix UNOBSERVABLE_ERROR (default "" grant.(g_last_error)) then mret tt
    else
      notify_admins_best_effort ("Temporary access " +:+ grant.(g_env_key) +:+ " for project " +:+
        grant.(g_project_id) +:+ " (grant " +:+ grant.(g_id) +:+ ") cannot be confirmed removed: " +:+
        detail);;
      api_update_temporary_access_grant grant.(g_id) (no_grant_update <| gu_last_error :=
        Some (Some (UNOBSERVABLE_ERROR +:+ ": " +:+ detail)) |>);;
      mret tt.

(** The reading a reported observation makes of an answer. *)
Definition reading (grant : Grant) (request_id : string) (t : ObservationTarget)
    (r : EnvObservationResult) (present : bool) : Observation :=
  mkObservation request_id t.(ot_application_id) t.(ot_server_handle) t.(ot_service_slug)
    grant.(g_env_key) present r.(ev_containers).

(** [_observe_running_service]: whether the value was present, and the grant as the
    record left it. *)
Definition observe_running_service `{TemporaryAccessConfig} (grant : Grant) (slow_audit : bool)
    : M World (option (bool * Grant)) :=
  let request_id := observation_request_id grant in
  observation ← read_observation request_id;
  match observation with
  | None => ask_for_observation grant request_id slow_audit;; mret None
  | Some r =>
      remote (on_redis (λ x, (tt, x <| observations ::= delete (env_observation_result_key request_id) |>)));;
      if decide (r.(ev_outcome) = EnvObservationOutcome.UNREACHABLE) then
        report_unobservable_grant grant r.(ev_detail);; mret None
      else
        target ← observation_target grant;
        match target with
        | None => mret None
        | Some t =>
            present ← some_or ValidationError r.(ev_present);
            o ← model_validate Observation_valid (reading grant request_id t r present);
            settled_ ← api_record_temporary_access_observation grant.(g_id) o;
            mret (Some (present, settled_))
        end
  end.

(** ** A revoke in flight, and a closed grant *)

Definition retries_are_spent `{TemporaryAccessConfig} (now : Z) (grant : Grant) : bool :=
  (max_revoke_attempts <=? grant.(g_revoke_attempts)) ||
  older_than now (reconciling_since grant) unrevoked_ttl_minutes.

Definition record_revoke_failure `{TemporaryAccessConfig} (grant : Grant) (error : string)
    (counts : SweepCounts) : M World (SweepCounts * res unit) :=
  at_ ← now;
  let exhausted := retries_are_spent at_ grant && bool_decide (grant.(g_escalated_at) = None) in
  let counts := counts <| c_revoke_failed ::= Z.succ |> in
  if negb exhausted then
    counted counts counts (api_update_temporary_access_grant grant.(g_id)
      ((no_grant_update <| gu_status := Some (Some TemporaryAccessStatus.REVOKE_FAILED) |>)
         <| gu_last_error := Some (Some error) |>))
  else
    let counts := counts <| c_escalated ::= Z.succ |> in
    notify_admins_best_effort ("Temporary access " +:+ grant.(g_env_key) +:+ " survived " +:+
      pretty grant.(g_revoke_attempts) +:+ " revoke attempts and needs a human: grant " +:+
      grant.(g_id) +:+ ", project " +:+ grant.(g_project_id) +:+ ", story " +:+
      grant.(g_qa_message).(qm_story_id) +:+ ", QA run " +:+ grant.(g_qa_run_id) +:+
      ". The test identity " +:+ grant.(g_subject) +:+
      " may still be admitted by the deployed bot. Last error: " +:+ error);;
    counted counts counts (api_escalate_temporary_access_grant grant.(g_id)
      (mkEscalation error
         ("temporary access " +:+ grant.(g_env_key) +:+ " is still granted: " +:+ error)
         (blocked_result "temporary test access could not be revoked"
            QABlockerCategory.QA_CLEANUP_FAILED
            ("revoke temporary access " +:+ grant.(g_env_key) +:+ " for project " +:+
             grant.(g_project_id))
            ("deploy of " +:+ grant.(g_head_sha) +:+ " with " +:+ grant.(g_env_key) +:+ " cleared")
            error))).

Definition settle_revoke_in_flight `{TemporaryAccessConfig} (grant : Grant) (counts : SweepCounts)
    : M World (SweepCounts * res unit) :=
  revoke_run_id ← some_or ValueError grant.(g_revoke_run_id);
  reason ← some_or ValueError (mbind member_of grant.(g_revoke_reason));
  let again := then_count (dispatch_revoke grant reason) (dispatched counts) in
  run ← api_get_run_if_missing_returns_none revoke_run_id;
  match run with
  | None => again
  | Some run =>
      if negb (is_terminal_run run) then
        age ← age_of run.(r_created_at);
        if negb (older_than age 0 revoke_stale_minutes) then no_count counts else again
      else if bool_decide (run.(r_status) = value RunStatus.CANCELLED) then again
      else
        ok ← of_res (deploy_succeeded run);
        if negb ok then
          detail ← of_res (deploy_failure_detail run "revoke");
          record_revoke_failure grant detail counts
        else
          read ← observe_running_service grant false;
          match read with
          | None => no_count counts
          | Some (present, settled_) =>
              if (present : bool) then
                record_revoke_failure grant ("the running service still carries " +:+
                  grant.(g_env_key) +:+ " after revoke deploy " +:+ run.(r_id)) counts
              else if negb (has_status settled_ TemporaryAccessStatus.REVOKED) then no_count counts
              else no_count (counts <| c_revoked ::= Z.succ |>)
          end
  end.

Definition watch_closed_grant `{TemporaryAccessConfig} (grant : Grant) (counts : SweepCounts)
    : M World (SweepCounts * res unit) :=
  at_ ← now;
  read ← observe_running_service grant (past_the_watch_window at_ grant);
  match read with
  | None => no_count counts
  | Some (present, settled_) =>
      if negb present then no_count counts
      else if negb (has_status settled_ TemporaryAccessStatus.REVOKING) then no_count counts
      else
        notify_admins_best_effort ("Temporary access " +:+ grant.(g_env_key) +:+ " for project " +:+
          grant.(g_project_id) +:+ " (grant " +:+ grant.(g_id) +:+ ") is set on the running " +:+
          "service again after it was confirmed removed; revoking it again");;
        then_count (dispatch_revoke settled_ TemporaryAccessRevokeReason.OBSERVED_AFTER_REVOKE)
          (dispatched counts)
  end.

(** ** The sweep *)

(** What one grant's status asks for. *)
Definition settle_one `{TemporaryAccessConfig} (grant : Grant) (counts : SweepCounts)
    : M World (SweepCounts * res unit) :=
  if has_status grant TemporaryAccessStatus.GRANTING then settle_grant_in_flight grant counts
  else if has_status grant TemporaryAccessStatus.REVOKING then settle_revoke_in_flight grant counts
  else if has_status grant TemporaryAccessStatus.REVOKED then watch_closed_grant grant counts
  else settle_granted grant counts.

(** The body of the loop: one grant that cannot be settled is that grant's problem. *)
Definition sweep_grant `{TemporaryAccessConfig} (counts : SweepCounts) (grant : Grant)
    : M World SweepCounts :=
  let failed (c : SweepCounts) := c <| c_revoke_failed ::= Z.succ |> in
  r ← attempt (settle_one grant counts);
  match r with
  | Ok (counts, Ok _) => mret counts
  | Ok (counts, Exc _) => mret (failed counts)
  | Exc _ => mret (failed counts)
  end.

Definition supervise_temporary_access `{TemporaryAccessConfig} : M World SweepCounts :=
  at_ ← now;
  grants ← api_list_temporary_access_grants_under_watch (at_ - revoked_watch_minutes * MINUTE)
             (at_ - contract_audit_hours * 60 * MINUTE);
  fold_m sweep_grant empty_sweep_counts grants.
