(* ===== verification/AccessOnRecord.v ===== *)
(** * AccessOnRecord: no access outside the record

    What [TemporaryAccess] sends, against the rows it leaves: the deploys that set
    or clear a test identity are named by the grant they belong to, a QA run is
    released only for a confirmed grant, and only a revoke in flight or a closed
    grant is read. *)

From S2P Require Import Prelude Vocabulary Contracts Db Api ApiRuns ApiGrants.
From S2P Require Import Placement World SchedulerClient GrantLifecycle Dispatcher Frames TemporaryAccess.

(** ** Messages on record *)

(** The same access: what no update of a grant changes. *)
Definition same_access (g h : Grant) : Prop :=
  g.(g_id) = h.(g_id) ∧ g.(g_project_id) = h.(g_project_id) ∧ g.(g_env_key) = h.(g_env_key) ∧
  g.(g_subject) = h.(g_subject) ∧ g.(g_head_sha) = h.(g_head_sha) ∧
  g.(g_qa_message) = h.(g_qa_message).

(** A queued deploy run that names the grant. *)
Definition access_run (d : Database) (g : Grant) (run_id : string) : Prop :=
  ∃ run, d.(runs) !! run_id = Some run ∧ run.(r_status) = value RunStatus.QUEUED ∧
    run.(r_type) = value RunType.DEPLOY ∧ run.(r_run_metadata) !! "grant_id" = Some (MStr g.(g_id)).

(** The deploy sets the identity under the run a granting record names, or clears it
    under the run a revoking record names, and then stops every other writer. *)
Definition deploys_as_recorded (g : Grant) (m : DeployMessage) : Prop :=
  (m.(dm_env_overrides) = [(g.(g_env_key), g.(g_subject))] ∧
   m.(dm_task_id) = g.(g_grant_run_id) ∧ g.(g_status) = value TemporaryAccessStatus.GRANTING) ∨
  (m.(dm_env_overrides) = [(g.(g_env_key), "")] ∧ m.(dm_fence_active_deploys) = true ∧
   g.(g_revoke_run_id) = Some m.(dm_task_id) ∧ g.(g_status) = value TemporaryAccessStatus.REVOKING).

Definition recorded_message (d : Database) (x : string * message) : Prop :=
  ∃ g, d.(grants) !! g.(g_id) = Some g ∧
  match x.2 with
  | DeployMsg m => x.1 = DEPLOY_QUEUE ∧ m.(dm_project_id) = g.(g_project_id) ∧
      OptionalCommitSha g.(g_head_sha) = Some m.(dm_head_sha) ∧
      access_run d g m.(dm_task_id) ∧ deploys_as_recorded g m
  | QAMsg m => x.1 = QA_QUEUE ∧ m = g.(g_qa_message) ∧
      g.(g_status) = value TemporaryAccessStatus.GRANTED
  | EnvObservationMsg m => x.1 = ENV_OBSERVATION_QUEUE ∧ m.(eo_project_id) = g.(g_project_id) ∧
      m.(eo_env_key) = g.(g_env_key) ∧
      (g.(g_status) = value TemporaryAccessStatus.REVOKING ∨
       g.(g_status) = value TemporaryAccessStatus.REVOKED)
  | _ => False
  end.

(** Nothing went out, or one message that is on record. *)
Definition on_record (s s' : Shared) : Prop :=
  s'.(redis).(streams) = s.(redis).(streams) ∨
  ∃ x, s'.(redis).(streams) = s.(redis).(streams) ++ [x] ∧ recorded_message s'.(db) x.

(** Nothing went out and no grant changed; nothing went out. *)
Definition hushed (s s' : Shared) : Prop :=
  s'.(redis).(streams) = s.(redis).(streams) ∧ s'.(db).(grants) = s.(db).(grants).
Definition silent (s s' : Shared) : Prop := s'.(redis).(streams) = s.(redis).(streams).

#[export] Instance hushed_preorder : PreOrder hushed.
Proof. split; [by intros s|]. intros s1 s2 s3 [? ?] [? ?]. split; congruence. Qed.
#[export] Instance silent_preorder : PreOrder silent.
Proof. split; [by intros s|]. intros s1 s2 s3 H1 H2. unfold silent in *. congruence. Qed.
#[export] Instance hushed_runs : IgnoresRuns hushed.
Proof. intros s d ->. by split. Qed.
#[export] Instance hushed_keys : IgnoresKeys hushed.
Proof. intros s r Hr. by split. Qed.
#[export] Instance silent_db : IgnoresDb silent.
Proof. by intros s d. Qed.
#[export] Instance silent_keys : IgnoresKeys silent.
Proof. by intros s r Hr. Qed.

Lemma on_record_silent s s' : silent s s' → on_record s s'.
Proof. by left. Qed.
Lemma on_record_after s s1 s' : silent s s1 → on_record s1 s' → on_record s s'.
Proof. unfold silent, on_record. by intros ->. Qed.

Section steps.
Context (E : env) `{!Alone E}.

(** A quiet part, then the rest. *)
Lemma exec_hushed_bind {A B} (m : M World A) (f : A → M World B) s0 s :
  keeps E hushed m → hushed s0 s →
  (∀ a s', hushed s0 s' → exec E (f a) s' (λ _ s'', on_record s0 s'')) →
  exec E (m ≫= f) s (λ _ s'', on_record s0 s'').
Proof.
  intros Hm Hs Hf. apply exec_bind. eapply exec_mono; [by apply (exec_keeps E hushed)|].
  intros [a|e] s' Hc; [apply Hf; by etransitivity|]. left. destruct Hs, Hc. congruence.
Qed.
Lemma exec_silent {A} (m : M World A) s0 s :
  keeps E silent m → silent s0 s → exec E m s (λ _ s', on_record s0 s').
Proof.
  intros Hm Hs. eapply exec_mono; [by apply (exec_keeps E silent)|]. intros r s' Hc. left.
  unfold silent in *. congruence.
Qed.
Lemma exec_then_count {A} (m : M World A) c s0 s :
  exec E m s (λ _ s', on_record s0 s') → exec E (then_count m c) s (λ _ s', on_record s0 s').
Proof. intros Hm. apply exec_bind. eapply exec_mono; [exact Hm|]. intros [a|e] s' Hs'; [by apply exec_ret|done]. Qed.
Lemma exec_counted {A} (m : M World A) b c s0 s :
  exec E m s (λ _ s', on_record s0 s') → exec E (counted b c m) s (λ _ s', on_record s0 s').
Proof.
  intros Hm. apply exec_bind, exec_attempt. eapply exec_mono; [exact Hm|]. intros r s' Hs'. by apply exec_ret.
Qed.

(** ** The deploys *)

Lemma exec_publish_deploy grant run_id v md fence s0 s g :
  silent s0 s → s.(db).(grants) !! g.(g_id) = Some g → same_access g grant → md !! "grant_id" = None →
  deploys_as_recorded g (access_deploy grant run_id v fence) →
  exec E (publish_deploy grant run_id v md fence) s (λ _ s', on_record s0 s').
Proof.
  intros Hs Hg (Hid & Hp & Hk & Hsub & Hsha & _) Hmd Hrec. apply exec_bind, (exec_creates_run E); [by left|].
  intros r Hfree _. destruct r as [r|e]; [|by left].
  apply exec_bind, exec_of_res. destruct (DeployMessage_validated _) as [m|e] eqn:Hm; [|by left].
  apply exec_publish; [apply _|]. intros s' ->%alone. cbn.
  assert (∀ d', d'.(grants) = s.(db).(grants) →
    d'.(runs) !! run_id = Some (new_run s.(clock) (mkRunCreate run_id (value RunType.DEPLOY)
      (Some grant.(g_project_id)) None None None
      (merge (<["grant_id" := MStr grant.(g_id)]> {[ "head_sha" := MStr grant.(g_head_sha) ]}) md))) →
    recorded_message d' (DEPLOY_QUEUE, DeployMsg m)) as Hok.
  { intros d' Hd' Hrun. exists g. rewrite Hd'. split; [done|]. unfold DeployMessage_validated in Hm.
    destruct (OptionalCommitSha _) as [sha|] eqn:Hc; [|done]. destruct (_ && _); [|done].
    injection Hm as <-. cbn in *. rewrite Hsha. split_and!; [done|done|done| |done].
    eexists. split; [exact Hrun|]. split_and!; [done|done|]. cbn. rewrite Hid. unfold merge.
    rewrite lookup_union_r by done. apply lookup_insert_eq. }
  assert (on_record s0 (s <| db := put_run (new_run s.(clock) (mkRunCreate run_id (value RunType.DEPLOY)
    (Some grant.(g_project_id)) None None None
    (merge (<["grant_id" := MStr grant.(g_id)]> {[ "head_sha" := MStr grant.(g_head_sha) ]}) md))) s.(db) |>))
    by (by left).
  split; [|intros _; split; [|done]]; right; eexists; (split; [by rewrite <-Hs|]);
    (apply Hok; [done|apply lookup_insert_eq]).
Qed.

Lemma updated_grant_keeps at_ u g g' : updated_grant at_ u g = Some g' →
  same_access g' g ∧
  g'.(g_status) = match u.(gu_status) with Some (Some s) => value s | _ => g.(g_status) end ∧
  g'.(g_grant_run_id) = match u.(gu_grant_run_id) with Some (Some r) => r | _ => g.(g_grant_run_id) end ∧
  g'.(g_revoke_run_id) = match u.(gu_revoke_run_id) with Some r => r | None => g.(g_revoke_run_id) end.
Proof.
  unfold updated_grant, set_grant_fields, stamp_moments, same_access.
  destruct u as [us ug uq ur ui ua ue ul]; cbn.
  destruct uq as [[[]|]|], ue as [[[]|]|], ug as [[?|]|], ua as [[?|]|], ur, ui, ul, us as [[?|]|];
    intros; simplify_eq/=; by split_and!.
Qed.

(** The record as the row has it: the same access, under the same id. *)
Definition row_of (d : Database) (grant g : Grant) : Prop :=
  d.(grants) !! grant.(g_id) = Some g ∧ same_access g grant.

Lemma row_put d grant g g' : row_of d grant g → same_access g' g →
  row_of (put_grant g' d) grant g' ∧ (put_grant g' d).(grants) !! g'.(g_id) = Some g'.
Proof.
  intros (Hg & Hid & ?) (Hid' & ?). split; [split|].
  - cbn. rewrite Hid', Hid. apply lookup_insert_eq.
  - unfold same_access in *. destruct_and!. split_and!; congruence.
  - apply lookup_insert_eq.
Qed.

Lemma exec_dispatch_revoke grant g reason s0 s :
  silent s0 s → row_of s.(db) grant g →
  exec E (dispatch_revoke grant reason) s (λ _ s', on_record s0 s').
Proof.
  intros Hs Hrow. unfold dispatch_revoke, new_deploy_run_id. apply exec_bind, exec_bind, exec_uuid.
  intros hex. apply exec_ret, exec_bind, (exec_update_grant E); [by left|].
  intros g0 g' r Hg0 Hu _. destruct Hrow as [Hg Hsame]. rewrite Hg in Hg0. injection Hg0 as <-.
  apply updated_grant_keeps in Hu as (Hsa & Hst & _ & Hrv). cbn in Hst, Hrv.
  destruct r as [r|e]; [|by left].
  destruct (row_put _ grant g g' (conj Hg Hsame) Hsa) as [[_ Hsame'] Hg'].
  apply (exec_publish_deploy _ _ _ _ _ s0 _ g'); [done|done|done|done|].
  destruct Hsame' as (_ & _ & Hk & _). right. cbn. rewrite Hk. by split_and!.
Qed.

Lemma exec_redispatch_grant grant g counts s0 s :
  silent s0 s → row_of s.(db) grant g → g.(g_status) = value TemporaryAccessStatus.GRANTING →
  exec E (redispatch_grant grant counts) s (λ _ s', on_record s0 s').
Proof.
  intros Hs Hrow Hgr. unfold redispatch_grant, new_deploy_run_id. apply exec_bind, exec_bind, exec_uuid.
  intros hex. apply exec_ret, exec_bind, (exec_update_grant E); [by left|].
  intros g0 g' r Hg0 Hu _. destruct Hrow as [Hg Hsame]. rewrite Hg in Hg0. injection Hg0 as <-.
  apply updated_grant_keeps in Hu as (Hsa & Hst & Hgr' & _). cbn in Hst, Hgr'.
  destruct r as [r|e]; [|by left].
  destruct (row_put _ grant g g' (conj Hg Hsame) Hsa) as [[_ Hsame'] Hg'].
  apply exec_then_count, (exec_publish_deploy _ _ _ _ _ s0 _ g'); [done|done|done|done|].
  destruct Hsame' as (_ & _ & Hk & Hsub & _). left. cbn. rewrite Hk, Hsub, Hst. by split_and!.
Qed.

Lemma exec_release_qa grant g counts s0 s :
  silent s0 s → row_of s.(db) grant g → g.(g_status) = value TemporaryAccessStatus.GRANTED →
  exec E (release_qa grant counts) s (λ _ s', on_record s0 s').
Proof.
  intros Hs [Hg Hsame] Hst. unfold release_qa. destruct (g_qa_dispatched_at grant); [by apply exec_ret; left|].
  assert (on_record s0 s) as H0 by by left.
  assert (∀ q g', g'.(g_status) = value TemporaryAccessStatus.GRANTED → same_access g' grant →
    q.(db).(grants) !! grant.(g_id) = Some g' →
    q.(redis).(streams) = s.(redis).(streams) ++ [(QA_QUEUE, QAMsg grant.(g_qa_message))] →
    on_record s0 q) as Hout.
  { intros q g' Hst' (Hid & _ & _ & _ & _ & Hq) Hg' Hq'. right. eexists. split; [by rewrite Hq', Hs|].
    exists g'. by rewrite Hid. }
  apply exec_bind, exec_publish; [apply _|]. intros s' ->%alone. cbn. split.
  - apply exec_then_count, (exec_update_grant E); [by intros _; eapply (Hout _ g)|].
    intros g0 g' r Hg0 Hu _. cbn in Hg0. rewrite Hg in Hg0. injection Hg0 as <-.
    apply updated_grant_keeps in Hu as (Hsa & Hst' & _). cbn in Hst'.
    destruct (row_put _ grant g g' (conj Hg Hsame) Hsa) as [[Hg' Hsame'] _].
    apply (Hout _ g'); [congruence|done| |done]. exact Hg'.
  - intros _. split; [|done]. by eapply (Hout _ g).
Qed.

Lemma row_hushed s s' grant g : hushed s s' → row_of s.(db) grant g → row_of s'.(db) grant g.
Proof. intros [_ Heq] [Hg ?]. split; [|done]. by rewrite Heq. Qed.
Lemma hushed_silent s s' : hushed s s' → silent s s'.
Proof. by intros [? _]. Qed.

(** ** The steps of the sweep *)

Context `{TemporaryAccessConfig}.

Lemma keeps_age_of R `{!PreOrder R} t : keeps E R (age_of t).
Proof. unfold age_of. guar_auto. Qed.
Lemma keeps_fail_qa_run R `{!PreOrder R} `{!IgnoresRuns R} grant category a b c d e :
  keeps E R (fail_qa_run grant category a b c d e).
Proof. unfold fail_qa_run. guar_auto. Qed.
#[local] Hint Resolve keeps_age_of keeps_fail_qa_run : guar.
Lemma keeps_revocation_reason grant : keeps E hushed (revocation_reason grant).
Proof. unfold revocation_reason. guar_auto. Qed.
Lemma keeps_report_unsettled grant t : keeps E silent (report_unsettled_dispatch grant t).
Proof. unfold report_unsettled_dispatch. guar_auto. Qed.
Lemma keeps_record_revoke_failure grant error counts :
  keeps E silent (record_revoke_failure grant error counts).
Proof. unfold record_revoke_failure, counted. guar_auto. Qed.
Lemma keeps_observation_target R `{!PreOrder R} grant : keeps E R (observation_target grant).
Proof. unfold observation_target. guar_auto. Qed.
Lemma keeps_read_observation R `{!PreOrder R} id : keeps E R (read_observation id).
Proof. unfold read_observation. guar_auto; apply keeps_remote_gets; apply _. Qed.
Lemma keeps_report_unobservable grant detail : keeps E silent (report_unobservable_grant grant detail).
Proof. unfold report_unobservable_grant. guar_auto. Qed.

Lemma exec_settle_granted grant g counts s0 s :
  silent s0 s → row_of s.(db) grant g →
  (has_status grant TemporaryAccessStatus.REVOKE_FAILED = false →
   g.(g_status) = value TemporaryAccessStatus.GRANTED) →
  exec E (settle_granted grant counts) s (λ _ s', on_record s0 s').
Proof.
  intros Hs Hrow Hst. unfold settle_granted. destruct (has_status grant _).
  - apply exec_bind, exec_some_or; [|by left]. intros reason _.
    by eapply exec_then_count, exec_dispatch_revoke.
  - eapply exec_mono; [apply (exec_hushed_bind _ _ s); [apply keeps_revocation_reason|done|]|].
    + intros [reason|] s' Hq.
      * apply exec_counted. eapply exec_dispatch_revoke; [by apply hushed_silent|by eapply row_hushed].
      * eapply exec_release_qa; [by apply hushed_silent|by eapply row_hushed|by apply Hst].
    + intros r s' Hs'. cbn in Hs'. by eapply on_record_after.
Qed.

Lemma exec_stop_grant_deploy grant detail s :
  exec E (stop_grant_deploy grant detail) s (λ r s', silent s s' ∧ (r = Ok true → hushed s s')).
Proof.
  assert (∀ A (m : M World A) (f : A → M World bool) s1, hushed s s1 → keeps E hushed m →
    (∀ a s2, hushed s s2 → exec E (f a) s2 (λ r s', silent s s' ∧ (r = Ok true → hushed s s'))) →
    exec E (m ≫= f) s1 (λ r s', silent s s' ∧ (r = Ok true → hushed s s'))) as Hbind.
  { intros A m f s1 H1 Hm Hf. apply exec_bind. eapply exec_mono; [by apply (exec_keeps E hushed)|].
    intros [a|e] s2 H2; [apply Hf; by etransitivity|]. split; [|done].
    apply hushed_silent. by etransitivity. }
  assert (∀ b s1, hushed s s1 → exec E (mret b) s1 (λ r s', silent s s' ∧ (r = Ok true → hushed s s'))) as Hret.
  { intros b s1 H1. apply exec_ret. split; [by apply hushed_silent|done]. }
  unfold stop_grant_deploy. apply Hbind; [done|guar_auto|]. intros [run|] s1 H1; [|by apply Hret].
  destruct (dispatch_settled run); [by apply Hret|].
  apply Hbind; [done|guar_auto|]. intros withdrawal s2 H2.
  destruct (dd_claimed_at withdrawal); [|by apply Hret].
  apply Hbind; [done|guar_auto|]. intros run' s3 H3. destruct (match run' with Some _ => _ | None => _ end); [by apply Hret|].
  apply Hbind; [done|guar_auto|]. intros sup s4 H4. destruct (settled sup); [by apply Hret|].
  apply exec_bind. eapply exec_mono; [apply (exec_keeps E silent), keeps_report_unsettled|].
  intros r s5 H5. cbn in H5. assert (silent s s5) by (etransitivity; [by apply hushed_silent|done]).
  destruct r; [apply exec_ret|]; by split.
Qed.

Lemma exec_abandon_grant grant g detail counts s0 s :
  hushed s0 s → row_of s0.(db) grant g →
  exec E (abandon_grant grant detail counts) s (λ _ s', on_record s0 s').
Proof.
  intros Hs Hrow. unfold abandon_grant. apply exec_hushed_bind; [guar_auto|done|]. intros _ s1 H1.
  apply exec_bind. eapply exec_mono; [apply exec_stop_grant_deploy|].
  intros [[]|e] s2 [Hsil Hh]; [|apply exec_ret|];
    try (left; unfold silent in *; destruct H1; congruence).
  specialize (Hh eq_refl). eapply exec_then_count, exec_dispatch_revoke.
  - apply hushed_silent. by etransitivity.
  - eapply row_hushed; [|exact Hrow]. by etransitivity.
Qed.

Lemma exec_settle_grant_in_flight grant g counts s :
  row_of s.(db) grant g → g.(g_status) = value TemporaryAccessStatus.GRANTING →
  exec E (settle_grant_in_flight grant counts) s (λ _ s', on_record s s').
Proof.
  intros Hrow Hst. unfold settle_grant_in_flight. apply exec_hushed_bind; [guar_auto|done|].
  intros age s1 H1. destruct (older_than _ _ _); [by eapply exec_abandon_grant|].
  apply exec_hushed_bind; [guar_auto|done|]. intros [run|] s2 H2.
  2:{ eapply exec_redispatch_grant; [by apply hushed_silent|by eapply row_hushed|done]. }
  destruct (negb (is_terminal_run run)).
  { apply exec_hushed_bind; [guar_auto|done|]. intros age' s3 H3. destruct (negb _).
    - apply exec_ret. left. by apply hushed_silent.
    - by eapply exec_abandon_grant. }
  destruct (bool_decide _).
  { eapply exec_redispatch_grant; [by apply hushed_silent|by eapply row_hushed|done]. }
  apply exec_hushed_bind; [guar_auto|done|]. intros ok s3 H3. destruct (negb ok).
  { apply exec_hushed_bind; [guar_auto|done|]. intros d s4 H4. by eapply exec_abandon_grant. }
  apply exec_bind, (exec_update_grant E); [intros _; left; by apply hushed_silent|].
  intros g0 g' r Hg0 Hu _. pose proof (row_hushed _ _ _ _ H3 Hrow) as [Hg Hsame].
  rewrite Hg in Hg0. injection Hg0 as <-.
  apply updated_grant_keeps in Hu as (Hsa & Hst' & _). cbn in Hst'.
  destruct r as [r|e]; [|left; exact (hushed_silent _ _ H3)].
  destruct (row_put _ grant g g' (conj Hg Hsame) Hsa) as [[Hg' Hsame'] _].
  apply (exec_settle_granted _ g'); [exact (hushed_silent _ _ H3)|by split|done].
Qed.

Lemma record_observation_row at_ error id o d g :
  d.(grants) !! id = Some g → g.(g_id) = id →
  wp (record_observation at_ service error id o) (λ r d', match r with
    | Exc _ => d' = d
    | Ok x => d'.(grants) !! id = Some x ∧ same_access x g
    end) d.
Proof.
  intros Hg Hid.
  assert (∀ x, same_access x g → <[x.(g_id) := x]> d.(grants) !! g.(g_id) = Some x ∧ same_access x g) as Hput.
  { intros x Hx. split; [|done]. destruct Hx as [-> _]. apply lookup_insert_eq. }
  assert (∀ x, same_access x g → same_access (count_clear_reading at_ x) g) as Hclear.
  { intros x Hx. unfold count_clear_reading. by destruct (g_slot_clear_since x). }
  unfold record_observation, read_a_closed_grant. grant_walk; simplify_eq/=; try done.
  all: match goal with |- <[_ := ?x]> _ !! _ = _ ∧ _ => apply (Hput x); try by split_and! end.
  all: by apply Hclear; split_and!.
Qed.

Lemma exec_ask_for_observation grant g request_id slow s0 s :
  silent s0 s → row_of s.(db) grant g →
  g.(g_status) = value TemporaryAccessStatus.REVOKING ∨ g.(g_status) = value TemporaryAccessStatus.REVOKED →
  exec E (ask_for_observation grant request_id slow) s (λ _ s', on_record s0 s').
Proof.
  intros Hs Hrow Hst. eapply exec_mono; [|intros r s' Hr; eapply on_record_after; [exact Hs|exact Hr]].
  unfold ask_for_observation. apply exec_hushed_bind; [guar_auto|done|]. intros t s1 H1.
  destruct (match g_observed_at grant with Some _ => _ | None => _ end).
  { apply exec_ret. left. by apply hushed_silent. }
  apply exec_hushed_bind; [guar_auto|done|]. intros due s2 H2.
  destruct (negb due); [apply exec_ret; left; by apply hushed_silent|].
  apply exec_hushed_bind; [by apply keeps_observation_target, _|done|]. intros [tg|] s3 H3.
  2:{ apply exec_ret. left. by apply hushed_silent. }
  apply exec_hushed_bind; [guar_auto|done|]. intros asked s4 H4.
  destruct (negb asked); [apply exec_ret; left; by apply hushed_silent|].
  apply exec_bind, exec_model_validate; intros _; [|left; by apply hushed_silent].
  apply exec_publish; [apply _|]. intros s' ->%alone. cbn.
  assert (on_record s s4) by (left; by apply hushed_silent).
  assert (recorded_message s4.(db) (ENV_OBSERVATION_QUEUE, EnvObservationMsg
    (mkEnvObservationRequest request_id grant.(g_project_id) tg.(ot_server_handle)
       tg.(ot_service_slug) grant.(g_env_key)))) as Hm.
  { destruct (row_hushed _ _ _ _ H4 Hrow) as [Hg (Hid & Hp & Hk & _)]. exists g. rewrite Hid. by split_and!. }
  destruct H4 as [H4 _]. split; [|intros _; split; [|done]]; right; eexists; (split; [by cbn; rewrite H4|done]).
Qed.

(** A reading: what it answers is the row, and then nothing went out. *)
Definition has_read (s : Shared) (r : res (option (bool * Grant))) (s' : Shared) : Prop :=
  on_record s s' ∧ ∀ present g', r = Ok (Some (present, g')) → silent s s' ∧ row_of s'.(db) g' g'.

Lemma exec_observe grant g slow s :
  row_of s.(db) grant g →
  g.(g_status) = value TemporaryAccessStatus.REVOKING ∨ g.(g_status) = value TemporaryAccessStatus.REVOKED →
  exec E (observe_running_service grant slow) s (has_read s).
Proof.
  intros Hrow Hst. unfold observe_running_service.
  assert (∀ A (m : M World A) (f : A → M World (option (bool * Grant))) s1, hushed s s1 → keeps E hushed m →
    (∀ a s2, hushed s s2 → exec E (f a) s2 (has_read s)) →
    exec E (m ≫= f) s1 (has_read s)) as Hbind.
  { intros A m f s1 H1 Hm Hf. apply exec_bind. eapply exec_mono; [by apply (exec_keeps E hushed)|].
    intros [a|e] s2 H2; [apply Hf; by etransitivity|]. split; [|done]. left.
    apply hushed_silent. by etransitivity. }
  assert (∀ s1, silent s s1 → exec E (mret None) s1 (has_read s)) as Hret.
  { intros s1 H1. apply exec_ret. split; [by left|done]. }
  apply Hbind; [done|by apply keeps_read_observation, _|]. intros [o|] s1 H1.
  - apply Hbind; [done|apply keeps_on_redis; [apply _..|]; intros q; by apply ignores_keys|].
    intros _ s2 H2. case_decide.
    + apply exec_bind. eapply exec_mono; [apply (exec_keeps E silent), keeps_report_unobservable|].
      intros r s3 H3. assert (silent s s3) by (etransitivity; [by apply hushed_silent|done]).
      destruct r; [by apply Hret|]. split; [by left|done].
    + apply Hbind; [done|by apply keeps_observation_target, _|]. intros [tg|] s3 H3; [|apply Hret; by apply hushed_silent].
      apply Hbind; [done|guar_auto|]. intros present s4 H4. apply Hbind; [done|guar_auto|]. intros ob s5 H5.
      apply exec_bind, (exec_validated E); [split; [left; by apply hushed_silent|done]|].
      destruct (row_hushed _ _ _ _ H5 Hrow) as [Hg Hsame].
      pose proof (record_observation_row s5.(clock) (ob_env_key ob +:+ " is set on application " +:+
        pretty (ob_application_id ob) +:+ " after the grant was confirmed revoked") (g_id grant) ob
        s5.(db) g Hg (proj1 Hsame)) as Hw.
      unfold wp in Hw. destruct (record_observation _ _ _ _ _ _) as [[x|e] d'] eqn:Heq; [|left; exists e; by rewrite <-Hw].
      right. exists x, d'. split; [done|]. cbn in Hw. destruct Hw as [Hx Hxs]. intros r Hr.
      pose proof (hushed_silent _ _ H5) as Hsil. destruct r as [x'|e']; [|split; [by left|done]].
      rewrite (Hr x' eq_refl). apply exec_ret. split; [by left|]. intros p g' [= <- <-]. split; [exact Hsil|].
      split; [|by split_and!]. cbn. destruct Hxs as [-> _], Hsame as [-> _]. exact Hx.
  - apply exec_bind. eapply exec_mono; [by eapply (exec_ask_for_observation grant g); [|eapply row_hushed|]; [by apply hushed_silent|..]|].
    intros r s2 Hr. cbn in Hr. destruct r; [apply exec_ret|]; by split.
Qed.

Lemma exec_settle_revoke_in_flight grant g counts s :
  row_of s.(db) grant g → g.(g_status) = value TemporaryAccessStatus.REVOKING →
  exec E (settle_revoke_in_flight grant counts) s (λ _ s', on_record s s').
Proof.
  intros Hrow Hst. unfold settle_revoke_in_flight.
  apply exec_hushed_bind; [guar_auto|done|]. intros rid s1 H1.
  apply exec_hushed_bind; [guar_auto|done|]. intros reason s2 H2.
  assert (∀ s3, hushed s s3 → exec E (then_count (dispatch_revoke grant reason) (dispatched counts)) s3
    (λ _ s', on_record s s')) as Hagain.
  { intros s3 H3. eapply exec_then_count, exec_dispatch_revoke; [by apply hushed_silent|by eapply row_hushed]. }
  apply exec_hushed_bind; [guar_auto|done|]. intros [run|] s3 H3; [|by apply Hagain].
  destruct (negb (is_terminal_run run)).
  { apply exec_hushed_bind; [guar_auto|done|]. intros age s4 H4. destruct (negb _); [|by apply Hagain].
    apply exec_ret. left. by apply hushed_silent. }
  destruct (bool_decide _); [by apply Hagain|].
  apply exec_hushed_bind; [guar_auto|done|]. intros ok s4 H4. destruct (negb ok).
  { apply exec_hushed_bind; [guar_auto|done|]. intros detail s5 H5.
    apply exec_silent; [apply keeps_record_revoke_failure|by apply hushed_silent]. }
  apply exec_bind. eapply exec_mono; [apply (exec_observe _ g); [by eapply row_hushed|by left]|].
  intros [[[present g']|]|e] s5 [Hon Hread]; cbn.
  - destruct (Hread _ _ eq_refl) as [Hs5 _].
    assert (silent s s5) by (etransitivity; [by apply hushed_silent|done]).
    destruct present; [by apply exec_silent, H0; apply keeps_record_revoke_failure|].
    destruct (negb _); by apply exec_ret; left.
  - apply exec_ret. eapply on_record_after; [by apply hushed_silent|done].
  - eapply on_record_after; [by apply hushed_silent|done].
Qed.

Lemma exec_watch_closed_grant grant g counts s :
  row_of s.(db) grant g → g.(g_status) = value TemporaryAccessStatus.REVOKED →
  exec E (watch_closed_grant grant counts) s (λ _ s', on_record s s').
Proof.
  intros Hrow Hst. unfold watch_closed_grant. apply exec_hushed_bind; [guar_auto|done|]. intros t s1 H1.
  apply exec_bind. eapply exec_mono; [apply (exec_observe _ g); [by eapply row_hushed|by right]|].
  intros [[[present g']|]|e] s2 [Hon Hread]; cbn.
  - destruct (Hread _ _ eq_refl) as [Hs2 Hrow2].
    assert (silent s s2) by (etransitivity; [by apply hushed_silent|done]).
    destruct (negb present); [by apply exec_ret; left|]. destruct (negb _); [by apply exec_ret; left|].
    apply exec_bind, exec_notify. by eapply exec_then_count, exec_dispatch_revoke.
  - apply exec_ret. eapply on_record_after; [by apply hushed_silent|done].
  - eapply on_record_after; [by apply hushed_silent|done].
Qed.

Lemma exec_sweep_grant grant counts s :
  s.(db).(grants) !! grant.(g_id) = Some grant → GrantDTO_valid grant = true →
  exec E (sweep_grant counts grant) s (λ _ s', on_record s s').
Proof.
  intros Hg Hv. unfold sweep_grant. apply exec_bind, exec_attempt.
  eapply exec_mono with (Q := λ _ s', on_record s s').
  - assert (row_of s.(db) grant grant) as Hrow by (split; [done|by split_and!]).
    unfold settle_one. destruct (has_status grant TemporaryAccessStatus.GRANTING) eqn:H1.
    { apply bool_decide_eq_true in H1. by eapply exec_settle_grant_in_flight. }
    destruct (has_status grant TemporaryAccessStatus.REVOKING) eqn:H2.
    { apply bool_decide_eq_true in H2. by eapply exec_settle_revoke_in_flight. }
    destruct (has_status grant TemporaryAccessStatus.REVOKED) eqn:H3.
    { apply bool_decide_eq_true in H3. by eapply exec_watch_closed_grant. }
    eapply exec_settle_granted; [done|done|]. intros H4. revert H1 H2 H3 H4 Hv.
    unfold has_status, GrantDTO_valid. rewrite !bool_decide_eq_false, !andb_true_iff, !bool_decide_eq_true.
    intros ???? [[[[st Hst%member_of_Some] _] _] _]. by destruct st.
  - intros [[c [[]|e]]|e] s' Hs'; by apply exec_ret.
Qed.

(** ** Handing it out *)

Lemma create_grant_row at_ b d :
  (∀ i g, d.(grants) !! i = Some g → g.(g_id) = i) →
  wp (create_grant at_ service b) (λ r d', match r with
    | Exc _ => d' = d
    | Ok g => d'.(grants) !! g.(g_id) = Some g
    end) d.
Proof.
  intros Hk. unfold create_grant. grant_walk; try done.
  - match goal with H : _ !! _ = Some _ |- _ => by rewrite (Hk _ _ H) end.
  - cbn. apply lookup_insert_eq.
Qed.

Lemma exec_grant_temporary_access project_id env_key subject head_sha m s :
  well_keyed s.(db) →
  exec E (grant_temporary_access project_id env_key subject head_sha m) s (λ _ s', on_record s s').
Proof.
  intros (_ & _ & _ & Hk). unfold grant_temporary_access, new_deploy_run_id.
  apply exec_bind, exec_bind, exec_uuid. intros hex. apply exec_ret, exec_bind, exec_of_res.
  destruct (GrantCreate_validated _) as [b|]; [|by left].
  apply exec_bind, (exec_validated E); [by left|].
  pose proof (create_grant_row s.(clock) b s.(db) Hk) as Hw. unfold wp in Hw.
  destruct (create_grant _ _ _ _) as [[g|e] d'] eqn:Heq; [|left; exists e; by rewrite <-Hw].
  right. exists g, d'. split; [done|]. cbn in Hw. intros r Hr. destruct r as [g1|]; [|by left].
  rewrite (Hr g1 eq_refl). destruct (has_status g _) eqn:Hst; cbn [negb]; [|by apply exec_ret; left].
  apply bool_decide_eq_true in Hst. set (s1 := s <| db := d' |>).
  assert (row_of s1.(db) g g) as Hrow by (split; [exact Hw|by split_and!]).
  eapply exec_mono; [apply (exec_hushed_bind _ _ s1 s1); [guar_auto|done|]|].
  - intros [run|] s2 H2; [apply exec_ret; left; by apply hushed_silent|].
    apply exec_bind. eapply exec_mono; [apply (exec_publish_deploy _ _ _ _ _ s1 s2 g)|].
    + by apply hushed_silent.
    + by eapply row_hushed.
    + by split_and!.
    + done.
    + left. by split_and!.
    + intros [[]|e] s3 H3; [by apply exec_ret|done].
  - intros r' s' H'. exact H'.
Qed.
End steps.

(** C23 (safety).  No test identity goes out, or comes back, outside the record.
    Whatever calls fail and wherever the process dies, handing access out and
    settling one grant each put at most one message on a stream, and it is on
    record: a deploy that sets the identity runs under the run id a GRANTING grant
    names, one that clears it runs fenced under the run id a REVOKING grant names,
    both with a queued run that names the grant; a QA run is released only when
    its grant reads GRANTED, with the very message the grant was recorded with;
    and only a grant being revoked or closed is read. *)
Theorem access_messages_are_on_record `{TemporaryAccessConfig} w :
  in_env faulty w → well_keyed w.(shared).(db) →
  (∀ project_id env_key subject head_sha m,
     on_record w.(shared) (grant_temporary_access project_id env_key subject head_sha m w).2.(shared)) ∧
  (∀ id grant counts, w.(shared).(db).(grants) !! id = Some grant → GrantDTO_valid grant = true →
     on_record w.(shared) (sweep_grant counts grant w).2.(shared)).
Proof.
  intros Hw Hk. split.
  - intros p k sub sha m. by destruct (exec_grant_temporary_access faulty p k sub sha m _ Hk w eq_refl Hw).
  - intros id grant counts Hg Hv. destruct Hk as (_ & _ & _ & Hk).
    rewrite <-(Hk _ _ Hg) in Hg. by destruct (exec_sweep_grant faulty grant counts _ Hg Hv w eq_refl Hw).
Qed.

(** ** Concrete worlds *)

#[local] Instance sweep_config : TemporaryAccessConfig := {|
  grant_ttl_minutes := 90; revoke_stale_minutes := 20; max_revoke_attempts := 3;
  observation_window_minutes := 30; unrevoked_ttl_minutes := 180; revoked_watch_minutes := 1440;
  contract_audit_hours := 24 |}.

(** A confirmed grant, two hours old. *)
Definition open_grant : Grant :=
  mkGrant "grant-1" "p1" "ADMIN_ID" "8202532144" "0123456789abcdef0123456789abcdef01234567" "qa-1" "deploy-qa-grant-1"
    (mkQAMessage "s1" "p1" "deploy-1" "" "https://bot.example" 7 "- answers /start" "qa-1" (Some "echo_bot") 0)
    "granted" 0 None None None None 0 None None None None None 0 None.
Definition granted_world (turns : list turn) : World :=
  let w := todo_world [] turns in
  w <| shared ::= λ s, (s <| db ::= put_grant open_grant |>) <| clock := 120 * MINUTE |> |>.

Example an_orphaned_grant_is_taken_back :
  let '(r, w) := supervise_temporary_access (granted_world []) in
  r = Ok (mkSweepCounts 1 0 0 0 0 0) ∧
  g_status <$> w.(shared).(db).(grants) !! "grant-1" = Some "revoking" ∧
  length w.(shared).(redis).(streams) = 1%nat.
Proof. by vm_compute. Qed.

Lemma access_messages_are_on_record_witness :
  (∀ project_id env_key subject head_sha m,
     on_record (granted_world []).(shared)
       (grant_temporary_access project_id env_key subject head_sha m (granted_world [])).2.(shared)) ∧
  on_record (granted_world []).(shared) (sweep_grant empty_sweep_counts open_grant (granted_world [])).2.(shared).
Proof.
  destruct (access_messages_are_on_record (granted_world [])) as [Hgrant Hsweep].
  - split; [|done]. constructor.
  - apply well_keyed_true. by vm_compute.
  - split; [exact Hgrant|]. by apply (Hsweep "grant-1"); vm_compute.
Defined.
