(* ===== verification/SupervisorTasks.v ===== *)
(** * SupervisorTasks: stuck stories, failed, parked and stuck tasks

    The part of [services/scheduler/src/tasks/supervisor.py] that works on tasks:
    the retry of the architect, the retry or escalation of failed tasks, the wait
    for server capacity, and the reconciliation of tasks in development with what
    is known of their workers. *)

From S2P Require Import Prelude Vocabulary Contracts Db Api ApiTasks ApiStories ApiRuns Disposition.
From S2P Require Import Placement World SchedulerClient Recipients OwnerNotifications.
From S2P Require Import WorkerLiveness Dispatcher Frames.

(** ** Configuration ([startup.get_config]) *)

Class SupervisorConfig := {
  max_deploy_retries : Z;
  max_deploy_fix_attempts : Z;
  deploy_retry_ttl : Z;
  story_stuck_threshold : Z;
  max_architect_retries : Z;
  story_retry_ttl : Z;
  qa_failure_limit : Z;
  qa_fix_limit : Z;
  qa_handoff_recovery_minutes : Z;
  resource_wait_timeout_minutes : Z;
  resource_wait_metrics_freshness_seconds : Z;
}.

Definition STORY_RETRY_KEY_PREFIX : string := "story:architect_retries:".
Definition STORY_HUMAN_REVIEW_ACTION : string := "human-review".

(** [_notify_admin_failure]. *)
Definition notify_admin_failure (entity_id project_id error : string) : M World unit :=
  notify_admins_best_effort ("Supervisor failure for " +:+ entity_id +:+ " (project " +:+
    project_id +:+ "):" +:+ newline +:+ String.substring 0 500 error).

(** ** Stories without tasks *)

(** The body of the loop; the counts are [(retried, failed)]. *)
Definition supervise_stuck_story `{SupervisorConfig} (now : Z) (active_projects : list string)
    (counts : Z * Z) (story : Story) : M World (Z * Z) :=
  if negb (older_than now story.(s_created_at) story_stuck_threshold) then mret counts
  else if bool_decide (story.(s_project_id) ∈ active_projects) then mret counts
  else
    tasks ← api_get_tasks_by_story story.(s_id);
    match tasks with
    | _ :: _ => mret counts
    | [] =>
        let retry_key := STORY_RETRY_KEY_PREFIX +:+ story.(s_id) in
        raw ← redis_get retry_key;
        let current_retries := default 0 raw in
        if max_architect_retries <=? current_retries then
          api_fail_story story.(s_id);;
          redis_delete retry_key;;
          mret (counts.1, counts.2 + 1)
        else
          recipient ← resolve_project_recipient story.(s_project_id) "story_stuck_retry" story.(s_id);
          publish ARCHITECT_QUEUE (ArchitectMsg (mkArchitectMessage story.(s_id)
            story.(s_project_id) recipient.(rcp_telegram_chat_id) false None));;
          redis_set retry_key (current_retries + 1) story_retry_ttl;;
          mret (counts.1 + 1, counts.2)
    end.

Definition supervise_stuck_stories `{SupervisorConfig} : M World (Z * Z) :=
  stories ← api_get_stories_by_status StoryStatus.CREATED;
  active_stories ← api_get_stories_by_status StoryStatus.IN_PROGRESS;
  at_ ← now;
  fold_m (supervise_stuck_story at_ (s_project_id <$> active_stories)) (0, 0) stories.

(** ** Failed tasks *)

Definition escalate_task_to_human_review (task : Task) (detail : string) : M World unit :=
  api_transition_task task.(t_id) TaskStatus.WAITING_HUMAN_REVIEW "supervisor";;
  (if truthy task.(t_story_id)
   then api_transition_story (default "" task.(t_story_id)) STORY_HUMAN_REVIEW_ACTION;; mret tt
   else mret tt);;
  notify_admin_failure task.(t_id) task.(t_project_id) detail.

Definition IMPOSSIBLE_CAPACITY_TASK_TEXT : string :=
  "Engineering cannot place this project on any managed server. Tell the user that the request needs operator review.".

(** A [POSystemEvent] about a task, to the chat of its project's owner. *)
Definition tell_owner_of_task (event text : string) (task : Task) : M World unit :=
  recipient ← resolve_project_recipient task.(t_project_id) event (default "" task.(t_story_id));
  if negb (is_addressable recipient) then mret tt
  else publish PO_INPUT_QUEUE (POSystemEventMsg (mkPOSystemEvent event text task.(t_id)
         recipient.(rcp_telegram_chat_id) recipient.(rcp_owner_user_id)
         (default "" task.(t_story_id)) task.(t_project_id))).

Definition request_resources_via_po : Task → M World unit :=
  tell_owner_of_task "task_waiting_resources"
    "Engineering is waiting for server capacity. Tell the user that work will resume automatically when capacity becomes available.".
Definition request_infrastructure_wait_via_po : Task → M World unit :=
  tell_owner_of_task "task_waiting_infrastructure"
    "Engineering is waiting for a server whose setup is still being finished on our side. Tell the user this is our infrastructure, not a problem with their project, and that work will resume automatically once the server is ready.".
Definition notify_resources_resumed_via_po : Task → M World unit :=
  tell_owner_of_task "task_resources_resumed"
    "Server capacity is available again. Tell the user that engineering has resumed.".

Definition opt_int (n : option Z) : meta := match n with Some n => MInt n | None => MNull end.

(** The metadata of a parked task. *)
Definition waiting_metadata (now : Z) (reason : AllocationFailureReason.t)
    (result : EngineeringRunResult) (old : metadata) : metadata :=
  <["allocation_required_ram_mb" := opt_int result.(er_allocation_required_ram_mb)]> (
  <["allocation_min_disk_mb" := opt_int result.(er_allocation_min_disk_mb)]> (
  <["allocation_failure_reason" := MStr (value reason)]>
    (match old !! "resource_wait_started_at" with
     | Some _ => old
     | None => <["resource_wait_started_at" := MTime now]> old
     end))).

(** The parking itself, for a refusal that waits. *)
Definition park_task (task : Task) (reason : AllocationFailureReason.t)
    (result : EngineeringRunResult) : M World unit :=
  let old := default ∅ task.(t_failure_metadata) in
  at_ ← now;
  api_update_task task.(t_id) [SetFailureMetadata (Some (waiting_metadata at_ reason result old))];;
  api_transition_task task.(t_id) TaskStatus.WAITING_RESOURCES "supervisor";;
  match old !! "resource_wait_started_at" with
  | Some _ => mret tt
  | None =>
      attempt (if decide (reason = AllocationFailureReason.SERVER_NOT_PROVISIONED)
               then request_infrastructure_wait_via_po task
               else request_resources_via_po task);;
      mret tt
  end.

(** [reason.value], where the routing implies that there is a reason. *)
Definition on_refusal {A} (reason : option AllocationFailureReason.t)
    (f : AllocationFailureReason.t → M World A) : M World A :=
  r ← some_or AttributeError reason; f r.

Definition park_task_waiting_resources `{ExceptionTexts} (task : Task) : M World bool :=
  runs ← api_list_runs task.(t_id) RunType.ENGINEERING;
  match runs with
  | [] => mret false
  | run :: _ =>
      match run.(r_result) with
      | Some (EngineeringResult result) =>
          let reason := result.(er_allocation_failure_reason) in
          match refusal_routing ENGINEERING (attempt_disposition reason true) with
          | HUMAN_REVIEW_WITH_OWNER_NOTICE =>
              owed ← owe_owner_notification run "task_impossible_capacity"
                IMPOSSIBLE_CAPACITY_TASK_TEXT (default "" task.(t_story_id)) task.(t_project_id)
                StoryStatus.WAITING_HUMAN_REVIEW (Some task.(t_id));
              escalate_task_to_human_review task
                "allocation request exceeds every managed server's capacity";;
              deliver_owed_notification run.(r_id) owed;;
              mret true
          | HUMAN_REVIEW_PLATFORM_ALERT =>
              on_refusal reason (λ r, escalate_task_to_human_review task
                ("placement could not be evaluated: " +:+ value r));;
              mret true
          | PARK_WAITING_RESOURCES =>
              on_refusal reason (λ r, park_task task r result);;
              mret true
          | _ => mret false
          end
      | _ => mret false
      end
  end.

(** The body of the loop; the counts are [(retried, escalated)]. *)
Definition supervise_failed_task `{ExceptionTexts} (counts : Z * Z) (task : Task)
    : M World (Z * Z) :=
  if negb (truthy task.(t_story_id)) then mret counts
  else
    parked ← park_task_waiting_resources task;
    if (parked : bool) then mret counts
    else if task.(t_current_iteration) <? task.(t_max_iterations) then
      api_transition_task task.(t_id) TaskStatus.BACKLOG "supervisor";;
      api_transition_task task.(t_id) TaskStatus.TODO "supervisor";;
      api_update_task task.(t_id) [SetCurrentIteration (Some (task.(t_current_iteration) + 1))];;
      mret (counts.1 + 1, counts.2)
    else
      attempt (api_transition_task task.(t_id) TaskStatus.WAITING_HUMAN_REVIEW "supervisor");;
      attempt (api_transition_story (default "" task.(t_story_id)) STORY_HUMAN_REVIEW_ACTION);;
      mret (counts.1, counts.2 + 1).

Definition supervise_failed_tasks `{ExceptionTexts} : M World (Z * Z) :=
  tasks ← api_get_tasks_by_status TaskStatus.FAILED;
  fold_m supervise_failed_task (0, 0) tasks.

(** ** Tasks waiting for capacity *)

(** [isinstance(v, int)]: a bool is one. *)
Definition py_int (v : option meta) : option Z :=
  match v with
  | Some (MInt n) => Some n
  | Some (MBool b) => Some (if b then 1 else 0)
  | _ => None
  end.

(** [_parse_datetime(v)]. *)
Definition parse_datetime (v : meta) : res Z :=
  match v with
  | MTime t => Ok t
  | MStr _ => Exc ValueError
  | _ => Exc AttributeError
  end.

(** What the loop over the servers asks of one before it reads its applications. *)
Definition worth_asking (freshness_seconds now required_ram_mb min_disk_mb : Z)
    (failed : gset string) (server : Server) : bool :=
  server_admits_application server failed &&
  negb ((server.(sv_capacity_ram_mb) <? required_ram_mb) ||
        (server.(sv_capacity_disk_mb) <? min_disk_mb)) &&
  match server.(sv_last_health_check) with
  | None => false
  | Some checked =>
      let age := now - checked in (0 <=? age) && (age <=? freshness_seconds * SECOND)
  end.

Definition has_room (required_ram_mb : Z) (server : Server) (apps : list HostedApp) : bool :=
  let reserved := foldr (λ a acc, a.(ha_reserved_ram_mb) + acc) 0
    (filter (λ a, a.(ha_status) ≠ ApplicationStatus.NOT_DEPLOYED ∧
                  a.(ha_status) ≠ ApplicationStatus.STOPPED) apps) in
  Z.max reserved server.(sv_used_ram_mb) + required_ram_mb <=? server.(sv_capacity_ram_mb).

Fixpoint search_servers (freshness_seconds now required_ram_mb min_disk_mb : Z)
    (failed : gset string) (servers : list Server) : M World bool :=
  match servers with
  | [] => mret false
  | server :: servers =>
      if negb (worth_asking freshness_seconds now required_ram_mb min_disk_mb failed server)
      then search_servers freshness_seconds now required_ram_mb min_disk_mb failed servers
      else
        apps ← api_get_applications server.(sv_handle);
        if has_room required_ram_mb server apps then mret true
        else search_servers freshness_seconds now required_ram_mb min_disk_mb failed servers
  end.

(** [_admissible_target_exists]. *)
Definition ask_for_admissible_target `{SupervisorConfig} (required_ram_mb min_disk_mb : Z)
    : M World bool :=
  at_ ← now;
  incidents ← api_list_active_incidents;
  servers ← api_get_servers;
  search_servers resource_wait_metrics_freshness_seconds at_ required_ram_mb min_disk_mb
    (provisioning_failed_server_handles incidents) servers.

Definition resources_available `{SupervisorConfig} (m : metadata) : M World bool :=
  match py_int (m !! "allocation_required_ram_mb"), py_int (m !! "allocation_min_disk_mb") with
  | Some required_ram, Some min_disk => ask_for_admissible_target required_ram min_disk
  | _, _ => mret false
  end.

Definition clear_failed_run_iteration (task : Task) : M World unit :=
  runs ← api_list_runs task.(t_id) RunType.ENGINEERING;
  match list_find (λ r, of_iteration task r) runs with
  | None => mret tt
  | Some (_, run) =>
      api_update_run run.(r_id) (no_update <| ru_run_metadata :=
        Some (<["iteration" := MNull]> run.(r_run_metadata)) |>)
  end.

(** The body of the loop; the counts are [(resumed, expired)]. *)
Definition supervise_waiting_resource_task `{SupervisorConfig} (counts : Z * Z) (task : Task)
    : M World (Z * Z) :=
  let m := default ∅ task.(t_failure_metadata) in
  let stamp := m !! "resource_wait_started_at" in
  started_at ← of_res (if truthy_meta stamp then parse_datetime (default MNull stamp)
                       else Ok task.(t_updated_at));
  at_ ← now;
  if older_than at_ started_at resource_wait_timeout_minutes then
    api_transition_task task.(t_id) TaskStatus.WAITING_HUMAN_REVIEW "supervisor";;
    api_create_task_event task.(t_id) (mkTaskEventCreate TaskEventType.NOTE None
      (<["reason" := MStr "resource_wait_timeout"]>
         {[ "age_minutes" := MJson (age_text (at_ - started_at)) ]}) "supervisor");;
    notify_admin_failure task.(t_id) task.(t_project_id) "resource wait timed out";;
    mret (counts.1, counts.2 + 1)
  else
    available ← resources_available m;
    if negb available then mret counts
    else
      clear_failed_run_iteration task;;
      api_transition_task task.(t_id) TaskStatus.BACKLOG "supervisor";;
      api_transition_task task.(t_id) TaskStatus.TODO "supervisor";;
      attempt (notify_resources_resumed_via_po task);;
      mret (counts.1 + 1, counts.2).

Definition supervise_waiting_resource_tasks `{SupervisorConfig} : M World (Z * Z) :=
  tasks ← api_get_tasks_by_status TaskStatus.WAITING_RESOURCES;
  fold_m supervise_waiting_resource_task (0, 0) tasks.

(** ** Tasks in development *)

(** The body of the loop; the counts are [(timed_out, working, stopping)]. *)
Definition supervise_stuck_task (now : Z) (counts : Z * Z * Z) (task : Task)
    : M World (Z * Z * Z) :=
  let '(timed_out, working, stopping) := counts in
  live ← select_live_engineering_run task.(t_id);
  match live with
  | None =>
      terminal_run ← select_terminal_engineering_run task.(t_id);
      (match terminal_run with
       | Some run => replay_terminal_attempt task.(t_id) run "supervisor"
       | None => mret tt
       end);;
      mret counts
  | Some run =>
      verdict ← attempt_state run now;
      match verdict with
      | (RUNNING, _) => mret (timed_out, working + 1, stopping)
      | (IDLE, _) | (UNKNOWN, _) => mret counts
      | (REMOVED, _) | (TIMED_OUT, None) =>
          fail_removed_attempt task run;;
          mret (timed_out + 1, working, stopping)
      | (state, worker_id) =>
          request_stuck_attempt_stop task run state worker_id now;;
          mret (timed_out, working, stopping + 1)
      end
  end.

Definition supervise_stuck_tasks : M World (Z * Z * Z) :=
  tasks ← api_get_tasks_by_status TaskStatus.IN_DEV;
  at_ ← now;
  fold_m (supervise_stuck_task at_) (0, 0, 0) tasks.

(** ** The re-check of a parked request *)

(** When nobody moves and every call is served, the loop over the servers answers
    what the search over their states answers. *)
Lemma exec_search_servers freshness now required disk failed servers s :
  exec calm (search_servers freshness now required disk failed servers) s (λ r s', s' = s ∧
    r = Ok (existsb (λ sv, worth_asking freshness now required disk failed sv &&
                           has_room required sv (s.(fleet).(fl_applications) sv.(sv_handle))) servers)).
Proof.
  induction servers as [|sv servers IH]; [by apply exec_ret|]. cbn [search_servers existsb].
  destruct (worth_asking freshness now required disk failed sv); cbn; [|exact IH].
  apply exec_bind, (exec_remote_gets calm _ (λ s, s.(fleet).(fl_applications) sv.(sv_handle))); [done|].
  intros s' ->%alone. split; [|done]. destruct (has_room _ _ _); cbn; [by apply exec_ret|exact IH].
Qed.

Lemma exec_ask_for_admissible_target `{SupervisorConfig} required disk s :
  exec calm (ask_for_admissible_target required disk) s (λ r s', s' = s ∧
    r = Ok (admissible_target_exists resource_wait_metrics_freshness_seconds s.(clock) s.(fleet)
              required disk)).
Proof.
  apply exec_bind, exec_now, exec_bind.
  apply (exec_remote_gets calm _ (λ s, s.(fleet).(fl_active_incidents))); [done|].
  intros s' ->%alone. split; [|done].
  apply exec_bind, (exec_remote_gets calm _ (λ s, s.(fleet).(fl_servers))); [done|].
  intros s' ->%alone. split; [|done]. apply exec_search_servers.
Qed.

(** ** Retries of failed tasks *)

(** Keeps the iteration counters and their bounds. *)
Definition counters_kept (s s' : Shared) : Prop :=
  (∀ i t, s.(db).(tasks) !! i = Some t → t.(t_id) = i) →
  (∀ i t, s'.(db).(tasks) !! i = Some t → t.(t_id) = i) ∧
  ∀ i t', s'.(db).(tasks) !! i = Some t' → ∃ t, s.(db).(tasks) !! i = Some t ∧
    t'.(t_current_iteration) = t.(t_current_iteration) ∧ t'.(t_max_iterations) = t.(t_max_iterations).
#[export] Instance counters_kept_preorder : PreOrder counters_kept.
Proof.
  split.
  - intros s Hk. split; [done|]. intros i t Ht. by exists t.
  - intros s1 s2 s3 H12 H23 Hk. destruct (H12 Hk) as [Hk2 H2]. destruct (H23 Hk2) as [Hk3 H3].
    split; [done|]. intros i t Ht. destruct (H3 _ _ Ht) as (t2 & Ht2 & ? & ?).
    destruct (H2 _ _ Ht2) as (t1 & Ht1 & ? & ?). exists t1. split_and!; congruence.
Qed.
Lemma counters_kept_tasks s d : d.(tasks) = s.(db).(tasks) → counters_kept s (s <| db := d |>).
Proof. intros Heq Hk. cbn. rewrite Heq. split; [done|]. intros i t Ht. by exists t. Qed.
#[export] Instance counters_stories : IgnoresStories counters_kept.
Proof. intros s d ->. by apply counters_kept_tasks. Qed.
#[export] Instance counters_runs : IgnoresRuns counters_kept.
Proof. intros s d ->. by apply counters_kept_tasks. Qed.
#[export] Instance counters_redis : IgnoresRedis counters_kept.
Proof. intros s r Hk. split; [done|]. intros i t Ht. by exists t. Qed.

(** A row replaced by one with the same counters. *)
Lemma counters_kept_put s id t t' d :
  s.(db).(tasks) !! id = Some t → t'.(t_id) = t.(t_id) →
  t'.(t_current_iteration) = t.(t_current_iteration) → t'.(t_max_iterations) = t.(t_max_iterations) →
  d.(tasks) = <[t'.(t_id) := t']> s.(db).(tasks) → counters_kept s (s <| db := d |>).
Proof.
  intros Ht Hid Hi Hm Hd Hk. cbn. rewrite Hd. split; intros i x [[<- <-]|[_ Hx]]%lookup_insert_Some.
  - done.
  - by apply Hk.
  - exists t. rewrite Hid, (Hk _ _ Ht). by split_and!.
  - by exists x.
Qed.

Section counters.
Context (E : env) `{!Alone E}.

Lemma keeps_counters_transition id to actor : keeps E counters_kept (api_transition_task id to actor).
Proof.
  apply keeps_exec. intros s. apply (exec_transition_task E); [done|].
  intros t r Ht _ _.
  by eapply (counters_kept_put s _ t (t <| t_status := value to |> <| t_updated_at := s.(clock) |>)).
Qed.
Lemma keeps_counters_metadata id m : keeps E counters_kept (api_update_task id [SetFailureMetadata m]).
Proof.
  apply keeps_exec. intros s. apply (exec_update_task E); [done|].
  intros t t' r Ht Hf _. unfold with_fields in Hf. cbn in Hf. injection Hf as <-.
  eapply counters_kept_put; [done| | | |reflexivity]; unfold touched; by case_decide.
Qed.
#[local] Hint Resolve keeps_counters_transition keeps_counters_metadata : guar.
Lemma keeps_counters_escalate task detail : keeps E counters_kept (escalate_task_to_human_review task detail).
Proof. unfold escalate_task_to_human_review, notify_admin_failure. guar_auto. Qed.
Lemma keeps_counters_tell event text task : keeps E counters_kept (tell_owner_of_task event text task).
Proof. unfold tell_owner_of_task. guar_auto. Qed.
#[local] Hint Resolve keeps_counters_escalate keeps_counters_tell : guar.
Lemma keeps_counters_park `{ExceptionTexts} task :
  keeps E counters_kept (park_task_waiting_resources task).
Proof.
  unfold park_task_waiting_resources, park_task, on_refusal, request_infrastructure_wait_via_po,
    request_resources_via_po.
  guar_auto.
Qed.
End counters.

(** Against the tasks the pass started from: every counter is as it was, or one
    higher where a failed task had iterations left. *)
Definition within_budget (s0 s : Shared) : Prop :=
  (∀ i t, s.(db).(tasks) !! i = Some t → t.(t_id) = i) ∧
  ∀ i t, s.(db).(tasks) !! i = Some t → ∃ t0, s0.(db).(tasks) !! i = Some t0 ∧
    t.(t_max_iterations) = t0.(t_max_iterations) ∧
    (t.(t_current_iteration) = t0.(t_current_iteration) ∨
     t.(t_current_iteration) = t0.(t_current_iteration) + 1 ∧
     t0.(t_current_iteration) < t0.(t_max_iterations) ∧
     t0.(t_status) = value TaskStatus.FAILED ∧ truthy t0.(t_story_id) = true).

Lemma within_budget_kept s0 s s' : within_budget s0 s → counters_kept s s' → within_budget s0 s'.
Proof.
  intros [Hk Hb] Hc. destruct (Hc Hk) as [Hk' Hc']. split; [done|]. intros i t' Ht'.
  destruct (Hc' _ _ Ht') as (t & Ht & Hi & Hm). destruct (Hb _ _ Ht) as (t0 & Ht0 & Hm0 & Hi0).
  exists t0. split; [done|]. rewrite Hi, Hm. auto.
Qed.

Section retries.
Context `{ExceptionTexts} (E : env) `{!Alone E} (s0 : Shared).

(** A part that keeps the counters, followed by the rest. *)
Lemma exec_budget_bind {A B} (m : M World A) (f : A → M World B) s :
  keeps E counters_kept m → within_budget s0 s →
  (∀ a s', within_budget s0 s' → exec E (f a) s' (λ _ s'', within_budget s0 s'')) →
  exec E (m ≫= f) s (λ _ s'', within_budget s0 s'').
Proof.
  intros Hm Hs Hf. apply exec_bind. eapply exec_mono; [by apply (exec_keeps E counters_kept)|].
  intros [a|e] s' Hc; [apply Hf|]; by eapply within_budget_kept.
Qed.

Lemma exec_failed_task counts task s :
  s0.(db).(tasks) !! task.(t_id) = Some task → task.(t_status) = value TaskStatus.FAILED →
  within_budget s0 s →
  exec E (supervise_failed_task counts task) s (λ _ s', within_budget s0 s').
Proof.
  intros Hrow Hst Hs. unfold supervise_failed_task.
  destruct (truthy (t_story_id task)) eqn:Hstory; cbn [negb]; [|by apply exec_ret].
  apply exec_budget_bind; [by apply keeps_counters_park|done|]. intros [] s1 Hs1; [by apply exec_ret|].
  destruct (Z.ltb_spec (t_current_iteration task) (t_max_iterations task)) as [Hlt|].
  - apply exec_budget_bind; [by apply keeps_counters_transition|done|]. intros _ s2 Hs2.
    apply exec_budget_bind; [by apply keeps_counters_transition|done|]. intros _ s3 Hs3.
    apply exec_bind, (exec_update_task E); [done|]. intros t t' r Ht Hf _.
    assert (within_budget s0 (s3 <| db := put_task t' s3.(db) |>)) as Hfin.
    { destruct Hs3 as [Hk Hb]. unfold with_fields in Hf. cbn in Hf. injection Hf as Hf.
      assert (t'.(t_id) = t_id task ∧ t'.(t_current_iteration) = t_current_iteration task + 1 ∧
              t'.(t_max_iterations) = t.(t_max_iterations)) as (Hid & Hit & Hmx).
      { rewrite <-(Hk _ _ Ht), <-Hf. unfold touched. case_decide as Heq; [|done].
        by rewrite <-Heq. }
      split; intros i x; cbn; intros [[<- <-]|[_ Hx]]%lookup_insert_Some; [done|by apply Hk| |by apply Hb].
      destruct (Hb _ _ Ht) as (t0 & Ht0 & Hm0 & _). rewrite Hrow in Ht0. injection Ht0 as <-.
      exists task. rewrite Hid, Hit, Hmx, Hm0. split_and!; auto. }
    destruct r; [by apply exec_ret|done].
  - apply exec_budget_bind; [apply guar_attempt; by apply keeps_counters_transition|done|]. intros _ s2 Hs2.
    apply exec_budget_bind; [apply guar_attempt; apply keeps_transition_story; apply _|done|].
    intros _ s3 Hs3. by apply exec_ret.
Qed.
End retries.

(**  Failed tasks are retried within their budget.  Whatever calls
    fail and wherever the process dies, a pass over the failed tasks creates no
    task, leaves every bound, and raises the iteration of a task by one at most,
    and only if the task had failed inside a story with iterations left; so an
    iteration never passes its bound. *)
Theorem failed_tasks_keep_their_budget `{ExceptionTexts} w :
  in_env faulty w → well_keyed w.(shared).(db) →
  within_budget w.(shared) (supervise_failed_tasks w).2.(shared).
Proof.
  intros Hw (Hk & _). assert (within_budget w.(shared) w.(shared)) as H0.
  { split; [done|]. intros i t Ht. exists t. auto. }
  assert (exec faulty supervise_failed_tasks w.(shared) (λ _ s', within_budget w.(shared) s')) as Hex.
  { apply exec_bind, (exec_tasks_by_status faulty); [done|]. intros l Hl.
    apply (exec_fold_m faulty (λ _ s, within_budget w.(shared) s)); [done| |done].
    intros task b s Hin Hs. destruct (Hl _ Hin) as [[i Hi] Hst].
    eapply exec_mono; [apply (exec_failed_task faulty w.(shared)); [|done|done]|by intros []].
    by rewrite (Hk _ _ Hi). }
  by destruct (Hex w eq_refl Hw).
Qed.

(** ** Attempts nobody works on *)

(** The live attempt of a task, as the supervisor selects it. *)
Definition live_attempt (task : Task) (d : Database) : option Run :=
  snd <$> list_find (λ r, is_live r) (attempts_of task d).

(** No worker ever reported for the run, and no turn was requested. *)
Definition never_started (run : Run) : Prop := ∃ t,
  from_run_metadata run.(r_run_metadata) = Some t ∧ t.(tm_worker_id) = None ∧
  (t.(tm_active_turn_requested_at) = None ∨ t.(tm_active_turn_backstop_seconds) = None).

Lemma never_started_is_unknown run now : never_started run →
  attempt_state run now = mret (UNKNOWN, None).
Proof.
  intros (t & Ht & Hw & Hb). unfold attempt_state. rewrite Ht, Hw. unfold unknown_or_timed_out.
  assert (turn_backstop_expired t now = false) as ->; [|done].
  unfold turn_backstop_expired. destruct Hb as [->| ->]; [done|]. by destruct (tm_active_turn_requested_at t).
Qed.

(**  An attempt that never started is waited for without end.
    A task in development whose live run has no worker and no requested turn is
    what a message that was never sent leaves behind.  Whatever the clock says,
    whatever calls fail, a pass over the tasks in development changes nothing when
    each of them has such a run: no run is closed, no task is moved, nothing is
    published.  There is no deadline from the creation of the run. *)
Theorem never_started_attempts_wait_for_ever w :
  in_env faulty w →
  (∀ i t, w.(shared).(db).(tasks) !! i = Some t → t.(t_status) = value TaskStatus.IN_DEV →
     ∃ run, live_attempt t w.(shared).(db) = Some run ∧ never_started run) →
  (supervise_stuck_tasks w).2.(shared) = w.(shared).
Proof.
  intros Hw Hall.
  assert (exec faulty supervise_stuck_tasks w.(shared) (λ _ s', s' = w.(shared))) as Hex.
  { apply exec_bind, (exec_tasks_by_status faulty); [done|]. intros l Hl.
    apply exec_bind, exec_now. apply (exec_fold_m faulty (λ _ s, s = w.(shared))); [done| |done].
    intros task [[a b] c] s Hin ->. destruct (Hl _ Hin) as [[i Hi] Hst].
    destruct (Hall _ _ Hi Hst) as (run & Hrun & Hns).
    apply exec_bind, exec_bind, (exec_alone_read faulty); [auto with reads| |done].
    intros rows Hrows _. fold (task_runs_filter (t_id task)) in Hrows. rewrite list_runs_eq in Hrows.
    injection Hrows as <-. apply exec_ret. fold (attempts_of task (db (shared w))).
    unfold live_attempt in Hrun. rewrite Hrun. apply exec_bind.
    rewrite never_started_is_unknown by done. by apply exec_ret, exec_ret. }
  by destruct (Hex w eq_refl Hw).
Qed.

(** ** Concrete worlds *)

#[local] Existing Instance sample_texts.

Definition config : SupervisorConfig :=
  Build_SupervisorConfig 3 2 86400 10 3 86400 2 3 15 60 300.
#[local] Existing Instance config.

(** The dispatcher of [lost_lookup_strands_the_task], and ten years later. *)
Definition stranded_world : World :=
  let w1 := (dispatch_todo_tasks (todo_world [todo_task "t1" "Echo" 0] (calls_before 6 [Lost]))).2 in
  let w2 := (dispatch_todo_tasks (restarted [] w1)).2 in
  (w2 <| schedule := calls_before 2 [LostReply] |>) <| shared ::= λ s, s <| clock := 3650 * 1440 * MINUTE |> |>.

Definition is_never_started (run : Run) : bool :=
  match from_run_metadata run.(r_run_metadata) with
  | Some t => bool_decide (t.(tm_worker_id) = None) &&
              bool_decide (t.(tm_active_turn_requested_at) = None)
  | None => false
  end.
Lemma is_never_started_true run : is_never_started run = true → never_started run.
Proof.
  unfold is_never_started. destruct (from_run_metadata _) as [t|] eqn:Ht; [|done].
  rewrite andb_true_iff, !bool_decide_eq_true. intros [? ?]. exists t. auto.
Qed.

(** Every task of a concrete world has a live run that never started. *)
Definition all_never_started (d : Database) : bool :=
  forallb (λ t, match live_attempt t d with Some r => is_never_started r | None => false end)
    (map_to_list d.(tasks)).*2.
Lemma all_never_started_true d : all_never_started d = true →
  ∀ i t, d.(tasks) !! i = Some t → ∃ run, live_attempt t d = Some run ∧ never_started run.
Proof.
  unfold all_never_started. rewrite forallb_forall. intros H i t Hi.
  specialize (H t). rewrite <-list_elem_of_In, elem_of_rows in H. specialize (H (ex_intro _ i Hi)).
  destruct (live_attempt t d) as [r|]; [|done]. exists r. split; [done|by apply is_never_started_true].
Qed.

Lemma never_started_attempts_wait_for_ever_witness :
  task_status stranded_world "t1" = Some "in_dev" ∧
  (supervise_stuck_tasks stranded_world).2.(shared) = stranded_world.(shared).
Proof.
  split; [by vm_compute|]. apply (never_started_attempts_wait_for_ever stranded_world).
  - split; [|done]. vm_compute. repeat constructor; done.
  - intros i t Hi _. revert i t Hi. apply all_never_started_true. by vm_compute.
Defined.

(** A failed task of a story, its last run failed for a reason of its own. *)
Definition failed_run (id : string) (reason : option AllocationFailureReason.t) : Run :=
  mkRun id "engineering" "failed" (Some "p1") None {[ "iteration" := MInt 0 ]}
    (Some (EngineeringResult (mkEngineeringRunResult EngineeringStatus.FAILED None None None reason
             (Some 512) (Some 1024)))) None (Some 0) None (Some "t1") 0.
Definition failed_world (reason : option AllocationFailureReason.t) (iteration : Z) (turns : list turn) : World :=
  let d := todo_db [((todo_task "t1" "Echo" 0) <| t_status := "failed" |>) <| t_current_iteration := iteration |>] in
  (todo_world [] turns)
    <| shared ::= λ s, s <| db := d <| runs := {[ "eng-1" := failed_run "eng-1" reason ]} |> |> |>.
Definition task_iteration (w : World) (id : string) : option Z :=
  t_current_iteration <$> w.(shared).(db).(tasks) !! id.
Definition story_status (w : World) (id : string) : option string :=
  s_status <$> w.(shared).(db).(stories) !! id.

Example a_failed_task_is_retried :
  let '(r, w) := supervise_failed_tasks (failed_world None 0 []) in
  r = Ok (1, 0) ∧ task_status w "t1" = Some "todo" ∧ task_iteration w "t1" = Some 1.
Proof. by vm_compute. Qed.
Example an_exhausted_task_is_escalated :
  let '(r, w) := supervise_failed_tasks (failed_world None 3 []) in
  r = Ok (0, 1) ∧ task_status w "t1" = Some "waiting_human_review" ∧
  story_status w "s1" = Some "waiting_human_review".
Proof. by vm_compute. Qed.
Example a_refused_task_is_parked :
  let '(r, w) := supervise_failed_tasks
    (failed_world (Some AllocationFailureReason.INSUFFICIENT_FREE_MEMORY) 0 []) in
  r = Ok (0, 0) ∧ task_status w "t1" = Some "waiting_resources" ∧ task_iteration w "t1" = Some 0.
Proof. by vm_compute. Qed.

Lemma failed_tasks_keep_their_budget_witness :
  within_budget (failed_world None 0 (calls_before 4 [LostReply])).(shared)
    (supervise_failed_tasks (failed_world None 0 (calls_before 4 [LostReply]))).2.(shared).
Proof.
  apply (failed_tasks_keep_their_budget (failed_world None 0 (calls_before 4 [LostReply]))).
  - split; [|done]. vm_compute. repeat constructor; done.
  - apply well_keyed_true. by vm_compute.
Defined.

(** A request no server can ever hold stops for a human, and the
    owner's notice is written before.  But the task moves before its story: when
    the call that moves the story is lost, the next pass no longer sees the task,
    the story stays in progress, and the sweep that should deliver the notice voids
    it.  The owner is never told. *)
Theorem lost_story_move_silences_the_owner :
  let w1 := (supervise_failed_tasks
    (failed_world (Some AllocationFailureReason.IMPOSSIBLE_CAPACITY) 0 (calls_before 4 [Lost]))).2 in
  let w2 := (supervise_owed_owner_notifications (restarted [] w1)).2 in
  let '(r, w3) := supervise_failed_tasks w2 in
  task_status w1 "t1" = Some "waiting_human_review" ∧ story_status w1 "s1" = Some "in_progress" ∧
  on_state <$> recorded "eng-1" w1.(shared) = Some OwnerNotificationState.OWED ∧
  on_state <$> recorded "eng-1" w2.(shared) = Some OwnerNotificationState.VOIDED ∧
  r = Ok (0, 0) ∧ w3.(shared) = w2.(shared) ∧ w3.(shared).(redis).(streams) = [].
Proof. by vm_compute. Qed.
