(* ===== verification/SupervisorDeploy.v ===== *)
(** * SupervisorDeploy: from a finished deploy to QA, engineering, or a human

    The part of [services/scheduler/src/tasks/supervisor.py] that works on
    deploys: the routing of a story on the outcome of its latest deploy run, the
    handoff to QA, the retries, the waits for servers and for the user's secrets. *)

From S2P Require Import Prelude Vocabulary Contracts Docs Db Api ApiTasks ApiStories ApiRuns Disposition.
From S2P Require Import Placement BotAccess World SchedulerClient Recipients OwnerNotifications.
From S2P Require Import WorkerLiveness Dispatcher Frames TemporaryAccess SupervisorTasks.

Definition DEPLOY_RETRY_KEY_PREFIX : string := "deploy:retries:".
Definition INFRASTRUCTURE_WAIT_STARTED_KEY : string := "infrastructure_wait_started_at".

(** [RefusedDeployAction]. *)
Inductive RefusedDeployAction := REDISPATCHED | WAITING | ESCALATED.

(** The counts a tick over the deploying stories returns. *)
Record DeployCounts := mkDeployCounts {
  d_tested : Z;
  d_retried : Z;
  d_redispatched : Z;
  d_waiting : Z;
  d_escalated : Z;
  d_failed : Z;
}.
#[export] Instance DeployCounts_rebuild : Rebuild DeployCounts := λ c,
  mkDeployCounts (d_tested c) (d_retried c) (d_redispatched c) (d_waiting c) (d_escalated c) (d_failed c).
Definition no_deploys : DeployCounts := mkDeployCounts 0 0 0 0 0 0.

(** ** Shared parts *)

(** [_fail_story_on_invalid_result]. *)
Definition fail_story_on_invalid_result `{ExceptionTexts} (story_id project_id run_type : string)
    (exc : exn) : M World unit :=
  api_fail_story story_id;;
  notify_admin_failure story_id project_id ("invalid " +:+ run_type +:+ " run result: " +:+ exc_text exc).

(** The story is failed and the administrators are told why. *)
Definition fail_with (entity_id story_id project_id error : string) : M World unit :=
  api_fail_story story_id;; notify_admin_failure entity_id project_id error.

(** [_deploy_run_head_sha]: whatever the run's metadata holds. *)
Definition deploy_run_head_sha (run : Run) : option meta := run.(r_run_metadata) !! "head_sha".

(** The value as the text a model's field takes. *)
Definition head_sha_text (head_sha : option meta) : res string :=
  match head_sha with Some (MStr s) => Ok s | _ => Exc ValidationError end.

(** A deploy of the same commit once more: its run, the chat its outcome is told to,
    and the message. *)
Definition redeploy_message (run_id project_id story_id head_sha : string) (r : Recipient)
    : DeployMessage :=
  mkDeployMessage run_id project_id r.(rcp_telegram_chat_id) r.(rcp_unaddressed_reason) story_id
    DeployTrigger.WEBHOOK DeployAction.FEATURE 0 head_sha None [] false.

Definition redispatch_deploy (new_run_id project_id story_id event : string) (run_metadata : metadata)
    (head_sha : option meta) : M World unit :=
  api_create_run (mkRunCreate new_run_id (value RunType.DEPLOY) (Some project_id) None (Some story_id)
    None run_metadata);;
  recipient ← resolve_project_recipient project_id event story_id;
  sha ← of_res (head_sha_text head_sha);
  m ← of_res (DeployMessage_validated (redeploy_message new_run_id project_id story_id sha recipient));
  publish DEPLOY_QUEUE (DeployMsg m).

(** ** A deploy that succeeded *)

Definition qa_run_id_for_deploy (deploy_run_id : string) : string :=
  String.substring 0 255 ("qa-" +:+ deploy_run_id).

Definition execute_qa_handoff (qa_run_id : string) (plan : QAHandoffPlan) : M World unit :=
  match plan.(hp_access) with
  | Some access =>
      grant_temporary_access plan.(hp_qa_message).(qm_project_id) access.(ta_env_key)
        access.(ta_subject) access.(ta_head_sha) plan.(hp_qa_message);;
      mret tt
  | None =>
      publish QA_QUEUE (QAMsg plan.(hp_qa_message));;
      at_ ← now;
      api_update_run qa_run_id
        (no_update <| ru_run_metadata := Some {[ QA_DISPATCHED_AT_KEY := MTime at_ ]} |>)
  end.

Definition temporary_access_is_needed (project : Project) (result : DeployRunResult) : bool :=
  if negb result.(dr_test_identity_slot) then false
  else negb (bot_admits (project_bot_audience project.(p_config)) "" QA_TEST_TELEGRAM_ID).

Definition resolve_qa_repository (project_id : string) : M World (option Repository) :=
  repo ← api_get_primary_repository project_id;
  mret (match repo with
        | Some r => if decide (strip (default "" r.(rp_acceptance_criteria)) = "") then None else Some r
        | None => None
        end).

(** [TemporaryAccessRequest(...)]. *)
Definition access_request (head_sha : option meta) : res TemporaryAccessRequest :=
  match head_sha_text head_sha with
  | Ok s => match CommitSha s with
            | Some sha => Ok (mkTemporaryAccessRequest TEST_IDENTITY_ENV_KEY (pretty QA_TEST_TELEGRAM_ID) sha)
            | None => Exc ValidationError
            end
  | Exc e => Exc e
  end.

Definition missing_handoff_fields (result : DeployRunResult) : list string :=
  match result.(dr_deployed_url) with None => ["deployed_url"] | Some _ => [] end ++
  match result.(dr_application_id) with None => ["application_id"] | Some _ => [] end.

(** The QA message and the plan of a handoff, whose parts the caller has. *)
Definition qa_message_of (story_id project_id initiating_run_id chat deployed_url : string)
    (application_id : Z) (repo : Repository) (result : DeployRunResult) (qa_run_id : string) : QAMessage :=
  mkQAMessage story_id project_id initiating_run_id chat deployed_url application_id
    (strip (default "" repo.(rp_acceptance_criteria))) qa_run_id
    (if truthy repo.(rp_bot_username) then repo.(rp_bot_username) else result.(dr_bot_username)) 0.

(** From the decision to the message: the QA run with its plan, the story, the handoff. *)
Definition start_qa (story_id project_id initiating_run_id deployed_url : string) (application_id : Z)
    (repo : Repository) (run : Run) (result : DeployRunResult) (grant_needed : bool) : M World unit :=
  let qa_run_id := qa_run_id_for_deploy run.(r_id) in
  qa_recipient ← resolve_project_recipient project_id "qa_dispatch" story_id;
  let qa_message := qa_message_of story_id project_id initiating_run_id
    qa_recipient.(rcp_telegram_chat_id) deployed_url application_id repo result qa_run_id in
  guard_not (negb (QAMessage_valid qa_message)) ValidationError;;
  access ← (if grant_needed
            then a ← of_res (access_request (deploy_run_head_sha run)); mret (Some a)
            else mret None);
  let plan := mkQAHandoffPlan qa_message access in
  api_create_run_if_absent (mkRunCreate qa_run_id (value RunType.QA) (Some project_id) None (Some story_id)
    None (<["application_id" := MInt application_id]> {[ QA_HANDOFF_KEY := MHandoff plan ]}));;
  api_transition_story story_id "test";;
  execute_qa_handoff qa_run_id plan.

Definition handle_deploy_success_story (story_id project_id : string) (run : Run)
    (result : DeployRunResult) : M World bool :=
  let refuse error := fail_with story_id story_id project_id error;; mret false in
  match result.(dr_deployed_url), result.(dr_application_id) with
  | Some deployed_url, Some application_id =>
      repo ← resolve_qa_repository project_id;
      match repo with
      | None => refuse "deploy succeeded but the project's repository has no acceptance criteria — cannot run QA"
      | Some repo =>
          project ← api_get_project project_id;
          match project with
          | None => refuse "deploy succeeded but the project is gone — cannot run QA"
          | Some project =>
              match require_initiating_run project with
              | Exc _ => refuse "deploy succeeded but the project names no initiating run — cannot run QA"
              | Ok initiating_run_id =>
                  let grant_needed := temporary_access_is_needed project result in
                  if grant_needed && negb (truthy_meta (deploy_run_head_sha run)) then
                    refuse "deploy succeeded but its commit is unknown — QA cannot be granted temporary access"
                  else
                    start_qa story_id project_id initiating_run_id deployed_url application_id repo run
                      result grant_needed;;
                    mret true
              end
          end
      end
  | _, _ =>
      refuse ("deploy reported success but missing " +:+
              String.concat ", " (missing_handoff_fields result) +:+ " — cannot run QA")
  end.

(** ** A deploy that needs a fix *)

Definition deploy_fix_description (error_details : string) : string :=
  "Deploy failed — fix the code so containers start cleanly." +:+ newline +:+ newline +:+
  "Error: " +:+ error_details +:+ newline +:+ newline +:+
  "Run the service locally or check imports/dependencies before pushing.".

Definition handle_deploy_code_fix `{SupervisorConfig} (story_id project_id : string) (run : Run)
    (result : DeployRunResult) : M World bool :=
  let refuse error := fail_with run.(r_id) story_id project_id error;; mret false in
  project ← api_get_project project_id;
  match project with
  | None => refuse "deploy fix needs a project that is gone"
  | Some project =>
      match require_initiating_run project with
      | Exc _ => refuse "deploy fix needs a project that names its initiating run"
      | Ok initiating_run_id =>
          let attempt_ := result.(dr_deploy_fix_attempt) in
          if max_deploy_fix_attempts <=? attempt_ then refuse "deploy fix retries exhausted"
          else
            api_transition_story story_id "start";;
            let error_details := if truthy result.(dr_error_details) then default "" result.(dr_error_details)
                                 else "unknown deploy error" in
            let fix_task_id := "eng-deploy-fix-" +:+ run.(r_id) +:+ "-" +:+ pretty (attempt_ + 1) in
            attempt (api_create_run (mkRunCreate fix_task_id (value RunType.ENGINEERING) (Some project_id)
              None (Some story_id) None ∅));;
            fix_recipient ← resolve_project_recipient project_id "deploy_code_fix" story_id;
            let fix_msg := mkEngineeringMessage fix_task_id project_id initiating_run_id
              fix_recipient.(rcp_telegram_chat_id) ActionType.FIX
              (Some (deploy_fix_description error_details)) false None (Some story_id) (attempt_ + 1) None in
            guard_not (negb (EngineeringMessage_valid fix_msg)) ValidationError;;
            publish ENGINEERING_QUEUE (EngineeringMsg fix_msg);;
            mret true
      end
  end.

(** ** A deploy to try again *)

Definition handle_deploy_retry `{SupervisorConfig} (story_id project_id : string) (run : Run)
    : M World bool :=
  let head_sha := deploy_run_head_sha run in
  if negb (truthy_meta head_sha) then
    fail_with run.(r_id) story_id project_id "deploy retry could not find original head_sha";;
    mret false
  else
    let retry_key := DEPLOY_RETRY_KEY_PREFIX +:+ story_id in
    attempts ← redis_incr retry_key;
    redis_expire retry_key deploy_retry_ttl;;
    if max_deploy_retries <=? attempts then
      api_fail_story story_id;;
      redis_delete retry_key;;
      notify_admin_failure run.(r_id) project_id ("deploy retries exhausted (" +:+ pretty attempts +:+ ")");;
      mret false
    else
      new_run_id ← new_deploy_run_id "retry";
      redispatch_deploy new_run_id project_id story_id "deploy_retry"
        (<["triggered_by" := MStr "supervisor_retry"]> (<["attempt" := MInt attempts]>
           {[ "head_sha" := default MNull head_sha ]})) head_sha;;
      mret true.

(** [_handle_deploy_give_up]. *)
Definition handle_deploy_give_up (story_id project_id : string) (run : Run) (result : DeployRunResult)
    : M World unit :=
  fail_with run.(r_id) story_id project_id
    (if truthy result.(dr_error_details) then default "" result.(dr_error_details) else "unknown error").

(** ** A placement the platform refused *)

(** An optional integer as an f-string shows it. *)
Definition int_text (n : option Z) : string := match n with Some n => pretty n | None => "None" end.

(** [AttemptDisposition.value]. *)
Definition disposition_value (d : AttemptDisposition) : string :=
  match d with
  | INFRASTRUCTURE_WAIT => "infrastructure_wait"
  | OPERATOR_REVIEW => "operator_review"
  | TECHNICAL_FAILURE => "technical_failure"
  | PRODUCT_FAILURE => "product_failure"
  | NO_FAILURE => "none"
  end.

Definition IMPOSSIBLE_CAPACITY_TEXT : string :=
  "Deploying this project needs more capacity than any managed server can provide. Tell the user that our operators have been asked to review it, and that this is our infrastructure, not a problem with their project.".

(** What is recorded on a story whose refusal goes to a human. *)
Definition refusal_record (result : DeployRunResult) (reason : AllocationFailureReason.t) (detail : string)
    : metadata :=
  <["deploy_outcome" := MStr (value DeployOutcome.WAITING_INFRASTRUCTURE)]> (
  <["allocation_failure_reason" := MStr (value reason)]> (
  <["allocation_required_ram_mb" := opt_int result.(dr_allocation_required_ram_mb)]> (
  <["allocation_min_disk_mb" := opt_int result.(dr_allocation_min_disk_mb)]> (
  {[ "detail" := MStr detail ]})))).

Definition escalate_refused_deploy `{ExceptionTexts} (story_id project_id : string) (run : Run)
    (result : DeployRunResult) (reason : AllocationFailureReason.t) (tell_owner : bool)
    (detail : string) : M World unit :=
  api_update_story story_id [StorySetQuarantineReason (Some (refusal_record result reason detail))];;
  owed ← (if tell_owner then
            record ← owe_owner_notification run "story_impossible_capacity" IMPOSSIBLE_CAPACITY_TEXT
                       story_id project_id StoryStatus.WAITING_HUMAN_REVIEW None;
            mret (Some record)
          else mret None);
  api_transition_story story_id STORY_HUMAN_REVIEW_ACTION;;
  notify_admin_failure run.(r_id) project_id detail;;
  match owed with
  | Some record => deliver_owed_notification run.(r_id) record;; mret tt
  | None => mret tt
  end.

Definition infrastructure_wait_started_at (run : Run) : res Z :=
  let stamp := run.(r_run_metadata) !! INFRASTRUCTURE_WAIT_STARTED_KEY in
  if truthy_meta stamp then parse_datetime (default MNull stamp) else Ok run.(r_created_at).

Definition handle_deploy_infrastructure_wait `{ExceptionTexts} `{SupervisorConfig}
    (story_id project_id : string) (run : Run) (result : DeployRunResult)
    (reason : AllocationFailureReason.t) : M World RefusedDeployAction :=
  waiting_since ← of_res (infrastructure_wait_started_at run);
  at_ ← now;
  let waited := at_ - waiting_since in
  if older_than at_ waiting_since resource_wait_timeout_minutes then
    escalate_refused_deploy story_id project_id run result reason false
      ("deploy waited " +:+ pretty (rounded_minutes 1 waited) +:+
       " minutes for an admissible server (" +:+ value reason +:+ ")");;
    mret ESCALATED
  else
    required ← some_or AttributeError result.(dr_allocation_required_ram_mb);
    disk ← some_or AttributeError result.(dr_allocation_min_disk_mb);
    available ← ask_for_admissible_target required disk;
    if negb available then mret WAITING
    else
      let head_sha := deploy_run_head_sha run in
      if negb (truthy_meta head_sha) then
        escalate_refused_deploy story_id project_id run result reason false
          "deploy run has no head_sha to resume the infrastructure wait with";;
        mret ESCALATED
      else
        new_run_id ← new_deploy_run_id "infra";
        redispatch_deploy new_run_id project_id story_id "deploy_after_infrastructure_wait"
          (<["triggered_by" := MStr "supervisor_infrastructure_wait"]> (
             <[INFRASTRUCTURE_WAIT_STARTED_KEY := MTime waiting_since]>
             {[ "head_sha" := default MNull head_sha ]})) head_sha;;
        mret REDISPATCHED.

Definition route_refused_deploy `{ExceptionTexts} `{SupervisorConfig} (story_id project_id : string)
    (run : Run) (result : DeployRunResult) : M World RefusedDeployAction :=
  let disposition := attempt_disposition result.(dr_allocation_failure_reason) true in
  reason ← some_or AttributeError result.(dr_allocation_failure_reason);
  let escalate tell_owner detail :=
    escalate_refused_deploy story_id project_id run result reason tell_owner detail;;
    mret ESCALATED in
  match refusal_routing DEPLOY disposition with
  | WAIT_FOR_ADMISSIBLE_TARGET =>
      handle_deploy_infrastructure_wait story_id project_id run result reason
  | HUMAN_REVIEW_WITH_OWNER_NOTICE =>
      escalate true ("deploy needs " +:+ int_text result.(dr_allocation_required_ram_mb) +:+
        " MB RAM and " +:+ int_text result.(dr_allocation_min_disk_mb) +:+
        " MB disk, which exceeds every managed server")
  | HUMAN_REVIEW_PLATFORM_ALERT =>
      escalate false ("deploy placement could not be evaluated: " +:+ value reason)
  | _ =>
      escalate false ("deploy refusal " +:+ value reason +:+ " classified as " +:+
        disposition_value disposition)
  end.

(** ** A deploy that waits for the user *)

Definition secret_request_text (missing : list MissingUserSecret) : string :=
  "Deployment is paused because the project needs secret(s) only the user can provide:" +:+ newline +:+
  String.concat newline ((λ m, "- " +:+ m.(ms_key) +:+ ": " +:+ m.(ms_description)) <$> missing) +:+
  newline +:+
  "Ask the user for each value and save it. Deployment resumes automatically once every secret is saved.".

Definition request_user_secret_via_po (story_id project_id : string) (missing : list MissingUserSecret)
    : M World unit :=
  recipient ← resolve_project_recipient project_id "story_waiting_user_secret" story_id;
  if negb (is_addressable recipient) then mret tt
  else publish PO_INPUT_QUEUE (POSystemEventMsg (mkPOSystemEvent "story_waiting_user_secret"
         (secret_request_text missing) story_id recipient.(rcp_telegram_chat_id)
         recipient.(rcp_owner_user_id) story_id project_id)).

Definition handle_deploy_waiting_user_secret (story_id project_id : string) (result : DeployRunResult)
    : M World unit :=
  api_wait_user_secret_story story_id;;
  attempt (request_user_secret_via_po story_id project_id result.(dr_missing_user_secrets));;
  mret tt.

(** ** The loop over the deploying stories *)

Definition count_refused (action : RefusedDeployAction) (c : DeployCounts) : DeployCounts :=
  match action with
  | REDISPATCHED => c <| d_redispatched ::= Z.succ |>
  | WAITING => c <| d_waiting ::= Z.succ |>
  | ESCALATED => c <| d_escalated ::= Z.succ |>
  end.

(** What the outcome of the latest deploy run asks for. *)
Definition route_deploy `{ExceptionTexts} `{SupervisorConfig} (counts : DeployCounts)
    (story_id project_id : string) (run : Run) (result : DeployRunResult) : M World DeployCounts :=
  match result.(dr_deploy_outcome) with
  | DeployOutcome.SUCCESS =>
      handed_off ← handle_deploy_success_story story_id project_id run result;
      mret (if handed_off : bool then counts <| d_tested ::= Z.succ |> else counts <| d_failed ::= Z.succ |>)
  | DeployOutcome.CODE_FIX | DeployOutcome.SMOKE_FAILURE =>
      dispatched ← handle_deploy_code_fix story_id project_id run result;
      mret (if dispatched : bool then counts <| d_redispatched ::= Z.succ |>
            else counts <| d_failed ::= Z.succ |>)
  | DeployOutcome.RETRY | DeployOutcome.CANCELLED =>
      was_retried ← handle_deploy_retry story_id project_id run;
      mret (if was_retried : bool then counts <| d_retried ::= Z.succ |> else counts <| d_failed ::= Z.succ |>)
  | DeployOutcome.WAITING_INFRASTRUCTURE =>
      action ← route_refused_deploy story_id project_id run result;
      mret (count_refused action counts)
  | DeployOutcome.WAITING_FOR_USER_SECRET =>
      handle_deploy_waiting_user_secret story_id project_id result;;
      mret (counts <| d_waiting ::= Z.succ |>)
  | DeployOutcome.GIVE_UP | DeployOutcome.ALLOCATION_MISSING
  | DeployOutcome.ENVIRONMENT_CONTRACT_INVALID | DeployOutcome.ENVIRONMENT_RESOLUTION_FAILED
  | DeployOutcome.HEAD_SHA_MISSING =>
      handle_deploy_give_up story_id project_id run result;;
      mret (counts <| d_failed ::= Z.succ |>)
  end.

(** [except ValidationError]: the story fails once, loudly; any other exception
    ends the tick. *)
Definition latest_run_or_fail `{ExceptionTexts} (story_id project_id : string) (run_type : RunType.t)
    : M World (option (option Run)) :=
  r ← attempt (api_get_latest_run_by_story story_id run_type);
  match r with
  | Ok run => mret (Some run)
  | Exc e =>
      if decide (e = ValidationError) then
        fail_story_on_invalid_result story_id project_id (value run_type) e;; mret None
      else raise e
  end.

Definition is_live_status (run : Run) : bool :=
  bool_decide (run.(r_status) = value RunStatus.QUEUED) || bool_decide (run.(r_status) = value RunStatus.RUNNING).

(** The body of the loop. *)
Definition supervise_deploying_story `{ExceptionTexts} `{SupervisorConfig} (counts : DeployCounts)
    (story : Story) : M World DeployCounts :=
  latest ← latest_run_or_fail story.(s_id) story.(s_project_id) RunType.DEPLOY;
  match latest with
  | None => mret (counts <| d_failed ::= Z.succ |>)
  | Some None => mret counts
  | Some (Some run) =>
      if is_live_status run then mret counts
      else match run.(r_result) with
           | None => mret counts
           | Some (DeployResult result) =>
               route_deploy counts story.(s_id) story.(s_project_id) run result
           | Some _ => raise AttributeError
           end
  end.

Definition supervise_deploying_stories `{ExceptionTexts} `{SupervisorConfig} : M World DeployCounts :=
  stories ← api_get_stories_by_status StoryStatus.DEPLOYING;
  fold_m supervise_deploying_story no_deploys stories.

(** ** The loop over the stories that wait for a secret *)

Definition redispatch_waiting_deploy (story_id project_id : string) (run : Run) : M World bool :=
  let head_sha := deploy_run_head_sha run in
  if negb (truthy_meta head_sha) then
    fail_with run.(r_id) story_id project_id "waiting deploy could not find original head_sha";;
    mret false
  else
    api_transition_story story_id "deploy";;
    new_run_id ← new_deploy_run_id "secret";
    redispatch_deploy new_run_id project_id story_id "deploy_after_user_secret"
      (<["triggered_by" := MStr "supervisor_user_secret"]> {[ "head_sha" := default MNull head_sha ]}) head_sha;;
    mret true.

(** The body of the loop; the counts are [(redispatched, failed)]. *)
Definition supervise_waiting_user_secret_story `{ExceptionTexts} (counts : Z * Z) (story : Story)
    : M World (Z * Z) :=
  latest ← latest_run_or_fail story.(s_id) story.(s_project_id) RunType.DEPLOY;
  match latest with
  | None => mret (counts.1, counts.2 + 1)
  | Some None => mret counts
  | Some (Some run) =>
      match run.(r_result) with
      | None => mret counts
      | Some (DeployResult result) =>
          let missing_keys := ms_key <$> result.(dr_missing_user_secrets) in
          if decide (missing_keys = []) then mret counts
          else
            present ← api_list_project_secret_keys story.(s_project_id);
            if negb (forallb (λ k, bool_decide (k ∈ present)) missing_keys) then mret counts
            else
              redeployed ← redispatch_waiting_deploy story.(s_id) story.(s_project_id) run;
              mret (if redeployed : bool then (counts.1 + 1, counts.2) else (counts.1, counts.2 + 1))
      | Some _ => raise AttributeError
      end
  end.

Definition supervise_waiting_user_secret_stories `{ExceptionTexts} : M World (Z * Z) :=
  stories ← api_get_stories_by_status StoryStatus.WAITING_USER_SECRET;
  fold_m supervise_waiting_user_secret_story (0, 0) stories.
