(* ===== verification/SupervisorTesting.v ===== *)
(** * SupervisorTesting: from a QA verdict to the owner, engineering, or a human

    The part of [services/scheduler/src/tasks/supervisor.py] that works on stories
    under test: the routing on the outcome of the latest QA run, the recovery of a
    handoff whose process died, the quarantine of an unverified application and the
    bounded, fingerprinted fixes. *)

From Stdlib Require Import Ascii.
From S2P Require Import Prelude Vocabulary Contracts Db Api ApiTasks ApiStories ApiRuns ApiActions.
From S2P Require Import Placement World SchedulerClient Recipients OwnerNotifications WorkerLiveness Dispatcher.
From S2P Require Import SupervisorTasks SupervisorDeploy.

(** The counts a tick over the stories under test returns. *)
Record TestingCounts := mkTestingCounts {
  q_completed : Z;
  q_redispatched : Z;
  q_failed : Z;
  q_recovered : Z;
}.
#[export] Instance TestingCounts_rebuild : Rebuild TestingCounts := λ c,
  mkTestingCounts (q_completed c) (q_redispatched c) (q_failed c) (q_recovered c).
Definition no_tests : TestingCounts := mkTestingCounts 0 0 0 0.

(** ** The plan on a QA run *)

(** [QAHandoffPlan.model_validate(value)]. *)
Definition read_plan (v : option meta) : res QAHandoffPlan :=
  match v with
  | Some (MHandoff plan) =>
      if QAMessage_valid plan.(hp_qa_message) &&
         match plan.(hp_access) with
         | Some a => bool_decide (is_Some (CommitSha a.(ta_head_sha)))
         | None => true
         end
      then Ok plan else Exc ValidationError
  | _ => Exc ValidationError
  end.

Definition story_completed_text (run : Run) : res string :=
  match run.(r_run_metadata) !! QA_HANDOFF_KEY with
  | None => Exc KeyError
  | v =>
      match read_plan v with
      | Exc e => Exc e
      | Ok plan =>
          let m := plan.(hp_qa_message) in
          let address := if truthy m.(qm_bot_username)
            then m.(qm_deployed_url) +:+ " (Telegram bot @" +:+ default "" m.(qm_bot_username) +:+ ")"
            else m.(qm_deployed_url) in
          Ok ("The story is finished: it is deployed and QA passed. Tell the user the good news and give them the address: " +:+ address)
      end
  end.

Definition recover_qa_handoff `{SupervisorConfig} (run : Run) : M World bool :=
  match meta_get QA_HANDOFF_KEY run.(r_run_metadata) with
  | None => mret false
  | Some plan_data =>
      if truthy_meta (run.(r_run_metadata) !! QA_DISPATCHED_AT_KEY) then mret false
      else
        at_ ← now;
        if negb (older_than at_ run.(r_created_at) qa_handoff_recovery_minutes) then mret false
        else
          plan ← of_res (read_plan (Some plan_data));
          taken ← (match plan.(hp_access) with
                   | Some _ => api_temporary_access_grant_exists_for_run run.(r_id)
                   | None => mret false
                   end);
          if (taken : bool) then mret false
          else execute_qa_handoff run.(r_id) plan;; mret true
  end.

(** ** The quarantine *)

Definition blocker_fields (b : QABlocker) : list (string * string) :=
  [("category", b.(qb_category)); ("attempted", b.(qb_attempted)); ("sent", b.(qb_sent));
   ("received", b.(qb_received))].

(** [if value: reason[key] = value]. *)
Definition set_if (b : bool) (key : string) (v : meta) (reason : metadata) : metadata :=
  if b then <[key := v]> reason else reason.

Definition qa_quarantine_reason (result : QARunResult) : metadata :=
  set_if (negb (bool_decide (result.(qr_telegram_probe_evidence) = []))) "telegram_probe_evidence"
    (MDocs result.(qr_telegram_probe_evidence)) (
  set_if (negb (bool_decide (result.(qr_state_changes) = []))) "state_changes"
    (MStateChanges result.(qr_state_changes)) (
  set_if (truthy result.(qr_error)) "error" (MStr (default "" result.(qr_error))) (
  set_if (truthy result.(qr_summary)) "summary" (MStr (default "" result.(qr_summary))) (
  match result.(qr_blocker) with
  | Some b => <["blocker" := MObj (blocker_fields b)]>
  | None => id
  end {[ "qa_outcome" := MStr (value result.(qr_qa_outcome)) ]})))).

Definition quarantine_text (reason : metadata) : string :=
  let field key := default "" (meta_str (reason !! key)) in
  let detail :=
    match meta_obj (reason !! "blocker") with
    | Some b => default "" (obj_get "category" b) +:+ ": " +:+ default "" (obj_get "received" b)
    | None =>
        if decide (field "summary" ≠ "") then field "summary"
        else if decide (field "error" ≠ "") then field "error" else field "qa_outcome"
    end in
  "QA could not confirm that the bot works. The bot has been stopped, but its Telegram token remains assigned to this project. Reason: " +:+
  detail +:+ ". Please decide whether to fix and redeploy it.".

Definition quarantine_unverified_application `{ExceptionTexts} (story_id project_id : string) (run : Run)
    (result : QARunResult) : M World unit :=
  application_id ← some_or RuntimeError (py_int (run.(r_run_metadata) !! "application_id"));
  api_stop_application application_id;;
  let reason := qa_quarantine_reason result in
  api_update_story story_id [StorySetQuarantineReason (Some reason)];;
  owed ← owe_owner_notification run "story_quarantined" (quarantine_text reason) story_id project_id
    StoryStatus.WAITING_HUMAN_REVIEW None;
  api_transition_story story_id STORY_HUMAN_REVIEW_ACTION;;
  deliver_owed_notification run.(r_id) owed;;
  mret tt.

(** ** A confirmed defect *)

(** [_qa_failure_metadata]: the dictionary a fix task carries, if it is not empty. *)
Definition qa_failure_metadata (task : Task) : option meta :=
  match default ∅ task.(t_failure_metadata) !! "qa_failure" with
  | Some (MQAFailure e) => Some (MQAFailure e)
  | Some (MObj fields) => if decide (fields = []) then None else Some (MObj fields)
  | Some (MJson doc) => if truthy_meta (Some (MJson doc)) then Some (MJson doc) else None
  | _ => None
  end.

(** [item.get("qa_run_id")], [item.get("fingerprint")]. *)
Definition evidence_run_id (v : meta) : option string :=
  match v with
  | MQAFailure e => Some e.(qe_qa_run_id)
  | MObj fields => obj_get "qa_run_id" fields
  | _ => None
  end.
Definition evidence_fingerprint (v : meta) : option string :=
  match v with
  | MQAFailure e => Some e.(qe_fingerprint)
  | MObj fields => obj_get "fingerprint" fields
  | _ => None
  end.

(** *** [json.dumps] of the evidence, keys sorted *)

Definition json_check (c : QAFailedCheck) : string :=
  json_object [json_field "detail" (json_string c.(qc_detail)); json_field "name" (json_string c.(qc_name))].

(** What [_qa_failure_fingerprint] hashes. *)
Definition canonical_failure (summary : string) (failed_checks : list QAFailedCheck) : string :=
  lower (json_object [json_field "failed_checks" (json_array (json_check <$> failed_checks));
                      json_field "summary" (json_string summary)]).
Definition qa_failure_fingerprint `{Sha256} (summary : string) (failed_checks : list QAFailedCheck) : string :=
  String.substring 0 16 (sha256_hexdigest (canonical_failure summary failed_checks)).

Definition fix_attempts_exhausted_text (summary : string) (exhausted_limit : Z) : string :=
  "QA kept finding the same problem after " +:+ pretty exhausted_limit +:+
  " attempts to fix it, so work on this story has stopped and a specialist has been asked to look at it. The last thing QA reported: " +:+
  summary.

Definition fix_description (summary : string) (failed_checks : list QAFailedCheck) : string :=
  let issues_text := String.concat newline
    ((λ c, "- " +:+ c.(qc_name) +:+ ": " +:+ c.(qc_detail)) <$> failed_checks) in
  "QA testing found issues after deploy. Fix the following:" +:+ newline +:+ newline +:+
  (if decide (issues_text = "") then summary else issues_text) +:+ newline +:+ newline +:+
  "QA summary: " +:+ summary.

Definition fix_task (story_id project_id summary : string) (failed_checks : list QAFailedCheck)
    (evidence : QAFailureEvidence) : TaskCreate :=
  mkTaskCreate project_id TaskType.FIX ("QA fix: " +:+ String.substring 0 80 summary) TaskStatus.TODO
    (Some (fix_description summary failed_checks)) None 0 3 false "system" None None (Some story_id) None
    (Some {[ "qa_failure" := MQAFailure evidence ]}).

(** Whether a defect has been fixed, or tried, too often: [Some limit] for the limit
    it exceeds. *)
Definition exhausted `{SupervisorConfig} (attempt total_attempt : Z) : option Z :=
  if qa_failure_limit <? attempt then Some qa_failure_limit
  else if qa_fix_limit <? total_attempt then Some qa_fix_limit
  else None.

(** The end of a story whose fixes ran out. *)
Definition escalate_qa_failure `{ExceptionTexts} (story_id project_id : string) (run : Run)
    (summary fingerprint : string) (evidence : QAFailureEvidence) (limit : Z) : M World unit :=
  api_update_story story_id [StorySetQuarantineReason (Some (
    <["qa_outcome" := MStr (value QAOutcome.FAILED)]> {[ "qa_failure" := MQAFailure evidence ]}))];;
  owed ← owe_owner_notification run "story_quarantined" (fix_attempts_exhausted_text summary limit)
    story_id project_id StoryStatus.WAITING_HUMAN_REVIEW None;
  api_transition_story story_id STORY_HUMAN_REVIEW_ACTION;;
  deliver_owed_notification run.(r_id) owed;;
  notify_admins_best_effort ("QA failure " +:+ fingerprint +:+ " exhausted " +:+ pretty limit +:+
    " fix attempts for story " +:+ story_id).

(** The evidence of this failure, after what earlier fixes left. *)
Definition failure_evidence `{Sha256} (qa_run_id summary : string) (failed_checks : list QAFailedCheck)
    (prior_evidence : list meta) : QAFailureEvidence :=
  let fingerprint := qa_failure_fingerprint summary failed_checks in
  let matching := filter (λ v, evidence_fingerprint v = Some fingerprint) prior_evidence in
  mkQAFailureEvidence qa_run_id fingerprint (Z.of_nat (length matching) + 1)
    (Z.of_nat (length prior_evidence) + 1) summary failed_checks.

Definition handle_qa_failed `{ExceptionTexts} `{SupervisorConfig} `{Sha256}
    (story_id project_id : string) (run : Run) (result : QARunResult) : M World (option bool) :=
  let summary := if truthy result.(qr_summary) then default "" result.(qr_summary) else "QA testing failed" in
  tasks ← api_get_tasks_by_story story_id;
  let prior_evidence := omap qa_failure_metadata tasks in
  if existsb (λ v, bool_decide (evidence_run_id v = Some run.(r_id))) prior_evidence then
    api_transition_story story_id "start";; mret None
  else
    let evidence := failure_evidence run.(r_id) summary result.(qr_failed_checks) prior_evidence in
    match exhausted evidence.(qe_fingerprint_attempt) evidence.(qe_fix_attempt) with
    | Some limit =>
        escalate_qa_failure story_id project_id run summary evidence.(qe_fingerprint) evidence limit;;
        mret (Some false)
    | None =>
        api_create_task (fix_task story_id project_id summary result.(qr_failed_checks) evidence);;
        api_transition_story story_id "start";;
        mret (Some true)
    end.

(** ** The loop over the stories under test *)

(** What the verdict of the latest QA run asks for. *)
Definition route_verdict `{ExceptionTexts} `{SupervisorConfig} `{Sha256} (counts : TestingCounts)
    (story_id project_id : string) (run : Run) (result : QARunResult) : M World TestingCounts :=
  let quarantine :=
    quarantine_unverified_application story_id project_id run result;;
    mret (counts <| q_failed ::= Z.succ |>) in
  match result.(qr_qa_outcome) with
  | QAOutcome.PASSED =>
      text ← of_res (story_completed_text run);
      owed ← owe_owner_notification run "story_completed" text story_id project_id
        StoryStatus.COMPLETED None;
      api_transition_story story_id "complete";;
      deliver_owed_notification run.(r_id) owed;;
      mret (counts <| q_completed ::= Z.succ |>)
  | QAOutcome.FAILED =>
      if bool_decide (is_Some result.(qr_blocker)) || bool_decide (result.(qr_failed_checks) = []) then
        quarantine
      else
        dispatched ← handle_qa_failed story_id project_id run result;
        mret (match dispatched with
              | Some true => counts <| q_redispatched ::= Z.succ |>
              | Some false => counts <| q_failed ::= Z.succ |>
              | None => counts
              end)
  | QAOutcome.BLOCKED | QAOutcome.EXHAUSTED | QAOutcome.ERROR => quarantine
  end.

(** The body of the loop. *)
Definition supervise_testing_story `{ExceptionTexts} `{SupervisorConfig} `{Sha256}
    (counts : TestingCounts) (story : Story) : M World TestingCounts :=
  latest ← latest_run_or_fail story.(s_id) story.(s_project_id) RunType.QA;
  match latest with
  | None => mret (counts <| q_failed ::= Z.succ |>)
  | Some None => mret counts
  | Some (Some run) =>
      if bool_decide (run.(r_status) = value RunStatus.QUEUED) then
        recovered ← recover_qa_handoff run;
        mret (if recovered : bool then counts <| q_recovered ::= Z.succ |> else counts)
      else if bool_decide (run.(r_status) = value RunStatus.RUNNING) then mret counts
      else match run.(r_result) with
           | None => mret counts
           | Some (QAResult result) => route_verdict counts story.(s_id) story.(s_project_id) run result
           | Some _ => raise AttributeError
           end
  end.

Definition supervise_testing_stories `{ExceptionTexts} `{SupervisorConfig} `{Sha256}
    : M World TestingCounts :=
  stories ← api_get_stories_by_status StoryStatus.TESTING;
  fold_m supervise_testing_story no_tests stories.

(** ** Concrete worlds: a story under test *)

Definition tested_sha : string := "0123456789abcdef0123456789abcdef01234567".
Definition tested_message : QAMessage :=
  mkQAMessage "s1" "p1" "run-1" "4242" "https://bot.example" 3 "it echoes" "qa-deploy-1" (Some "echo_bot") 0.
Definition tested_plan (access : bool) : QAHandoffPlan :=
  mkQAHandoffPlan tested_message
    (if access then Some (mkTemporaryAccessRequest "TG_BOT_TEST_TELEGRAM_ID" "8202532144" tested_sha) else None).
Definition verdict (o : QAOutcome.t) (checks : list QAFailedCheck) : QARunResult :=
  mkQARunResult o (Some "the bot is silent") checks None None None None
    (if decide (o = QAOutcome.BLOCKED) then Some (mkQABlocker "target_unreachable" "say /start" "/start" "nothing")
     else None) [] [].
Definition qa_run (status : RunStatus.t) (access : bool) (result : option QARunResult) : Run :=
  mkRun "qa-deploy-1" "qa" (value status) (Some "p1") None
    (<["application_id" := MInt 3]> {[ QA_HANDOFF_KEY := MHandoff (tested_plan access) ]})
    (QAResult <$> result) None (Some 0) (Some "s1") None 0.
(** The story s1 under test, its QA run, and the application in [app_status]. *)
Definition testing_world (run : Run) (app_status : ApplicationStatus.t) (turns : list turn) : World :=
  let w := todo_world [] turns in
  w <| shared ::= λ s, (s <| clock := 60 * MINUTE |>) <| db := (s.(db)
    <| stories := {[ "s1" := building_story <| s_status := value StoryStatus.TESTING |> ]} |>)
    <| runs := {[ run.(r_id) := run ]} |>
    <| repositories := {[ "repo1" := mkRepository "repo1" "p1" "bot" "git@github.com:o/bot.git" "primary"
         (Some "it echoes") (Some "echo_bot") 0 ]} |>
    <| applications := {[ 3 := mkApplication 3 "repo1" "srv" "bot" 512 (value app_status) ]} |> |> |>.
Definition judged_world (o : QAOutcome.t) (checks : list QAFailedCheck) (turns : list turn) : World :=
  testing_world (qa_run RunStatus.COMPLETED false (Some (verdict o checks))) ApplicationStatus.RUNNING turns.
Definition the_defect : list QAFailedCheck := [mkQAFailedCheck "echo" "no answer"].
