(* ===== verification/StoryTurns.v ===== *)
(** * StoryTurns: a tick over stories, one turn each

    The supervisor's loops read the stories of one status, look at the latest run of
    each and act on that story alone.  Here is what such a loop has in common: the
    relation one turn keeps, the latest run of a story, and the rule that lifts
    what a turn may do to what a whole tick may do. *)

From S2P Require Import Prelude Vocabulary Contracts Db Api ApiTasks ApiStories ApiRuns.
From S2P Require Import Placement World SchedulerClient Recipients OwnerNotifications.
From S2P Require Import WorkerLiveness Dispatcher Frames TemporaryAccess SupervisorTasks SupervisorDeploy.

(** ** Turns of one story *)

(** The rows under their own keys. *)
Definition keyed (d : Database) : Prop :=
  (∀ id st, d.(stories) !! id = Some st → st.(s_id) = id) ∧
  (∀ id r, d.(runs) !! id = Some r → r.(r_id) = id).

(** Runs keep everything but their metadata; a new one is of the story or of none. *)
Definition same_verdict (r r' : Run) : Prop := r <| r_run_metadata := ∅ |> = r' <| r_run_metadata := ∅ |>.
Definition runs_of_turn (sid : string) (d d' : Database) : Prop := ∀ id,
  match d.(runs) !! id with
  | Some r => ∃ r', d'.(runs) !! id = Some r' ∧ same_verdict r r'
  | None => ∀ r', d'.(runs) !! id = Some r' → r'.(r_story_id) = Some sid ∨ r'.(r_story_id) = None
  end.

(** One story may move, to a status that [may] be reached. *)
Definition stories_of_turn (sid : string) (may : string → Prop) (d d' : Database) : Prop :=
  (∀ i, i ≠ sid → d'.(stories) !! i = d.(stories) !! i) ∧
  match d.(stories) !! sid with
  | Some st => ∃ st', d'.(stories) !! sid = Some st' ∧
      (st'.(s_status) = st.(s_status) ∨ may st'.(s_status))
  | None => d'.(stories) !! sid = None
  end.

Definition turn_of (sid : string) (may : string → Prop) (s s' : Shared) : Prop :=
  keyed s.(db) → keyed s'.(db) ∧ s'.(db).(projects) = s.(db).(projects) ∧
  runs_of_turn sid s.(db) s'.(db) ∧ stories_of_turn sid may s.(db) s'.(db).

#[export] Instance same_verdict_preorder : PreOrder same_verdict.
Proof. unfold same_verdict. split; [done|]. intros ? ? ? -> ->. done. Qed.

Lemma same_verdict_story r r' : same_verdict r r' → r'.(r_story_id) = r.(r_story_id).
Proof. unfold same_verdict. intros H. exact (f_equal r_story_id (eq_sym H)). Qed.

#[export] Instance turn_of_preorder sid may : PreOrder (turn_of sid may).
Proof.
  split.
  - intros s Hk. split; [done|]. split; [done|]. split; [|split; [done|]].
    + intros id. destruct (runs s.(db) !! id) as [r|] eqn:E; [|congruence]. by exists r.
    + destruct (stories s.(db) !! sid) as [st|]; [|done]. exists st. auto.
  - intros s1 s2 s3 H12 H23 Hk1. destruct (H12 Hk1) as (Hk2 & Hp2 & Hr2 & Ho2 & Hs2).
    destruct (H23 Hk2) as (Hk3 & Hp3 & Hr3 & Ho3 & Hs3). split; [done|].
    split; [congruence|]. split; [|split].
    + intros id. specialize (Hr2 id). specialize (Hr3 id). destruct (runs s1.(db) !! id) as [r|].
      * destruct Hr2 as (r2 & Hr2 & H2). rewrite Hr2 in Hr3. destruct Hr3 as (r3 & Hr3 & H3).
        exists r3. split; [done|]. by etransitivity.
      * intros r3 Hr3'. destruct (runs s2.(db) !! id) as [r2|]; [|by apply Hr3].
        destruct Hr3 as (r & Hr & Hsame). rewrite Hr in Hr3'. injection Hr3' as <-.
        rewrite (same_verdict_story r2 r Hsame). by apply (Hr2 r2).
    + intros i Hi. by rewrite Ho3, Ho2.
    + destruct (stories s1.(db) !! sid) as [st|].
      * destruct Hs2 as (st2 & Hst2 & H2). rewrite Hst2 in Hs3. destruct Hs3 as (st3 & Hst3 & H3).
        exists st3. split; [done|]. destruct H3 as [->|]; [|by right]. destruct H2 as [->|]; auto.
      * by rewrite Hs2 in Hs3.
Qed.

#[export] Instance turn_of_redis sid may : IgnoresRedis (turn_of sid may).
Proof. intros s r. exact (reflexivity (R:=turn_of sid may) s). Qed.

(** Tables a turn does not speak of. *)
Lemma turn_of_same sid may s d :
  d.(stories) = s.(db).(stories) → d.(runs) = s.(db).(runs) → d.(projects) = s.(db).(projects) →
  turn_of sid may s (s <| db := d |>).
Proof.
  intros Hs Hr Hp Hk. destruct (turn_of_preorder sid may) as [Hrefl _].
  destruct (Hrefl s Hk) as (H1 & _ & H2 & H3 & H4).
  unfold keyed, runs_of_turn, stories_of_turn in *. cbn. rewrite Hs, Hr, Hp. done.
Qed.
#[export] Instance turn_of_grants sid may : IgnoresGrants (turn_of sid may).
Proof. intros s d ->. by apply turn_of_same. Qed.
#[export] Instance turn_of_tasks sid may : IgnoresTasks (turn_of sid may).
Proof. intros s d ->. by apply turn_of_same. Qed.

#[export] Instance turn_of_applications sid may : IgnoresApplications (turn_of sid may).
Proof. intros s app. by apply turn_of_same. Qed.

Lemma turn_of_put_run sid may s r :
  match s.(db).(runs) !! r.(r_id) with
  | Some old => same_verdict old r
  | None => r.(r_story_id) = Some sid ∨ r.(r_story_id) = None
  end → turn_of sid may s (s <| db := put_run r s.(db) |>).
Proof.
  intros Hr [Hks Hkr]. destruct (turn_of_preorder sid may) as [Hrefl _].
  destruct (Hrefl s (conj Hks Hkr)) as (_ & _ & Hruns & Hst). split; [|split; [done|split; [|exact Hst]]].
  - split; [exact Hks|]. intros id x. cbn. intros [[<- <-]|[_ Hx]]%lookup_insert_Some; [done|by apply Hkr].
  - intros id. cbn. destruct (decide (id = r.(r_id))) as [->|Hne].
    + rewrite lookup_insert_eq. destruct (runs s.(db) !! r_id r) as [old|]; [by exists r|].
      by intros r' [= <-].
    + rewrite lookup_insert_ne by done. apply Hruns.
Qed.
#[export] Instance turn_of_patches sid may : IgnoresPatches (turn_of sid may).
Proof.
  intros s id m _. unfold patched. destruct (runs s.(db) !! id) as [r|] eqn:E; [|by apply turn_of_same].
  intros Hk. assert (r.(r_id) = id) as Hid by (by apply Hk). subst id.
  apply (turn_of_put_run sid may s); [|done]. cbn. rewrite E. by destruct r.
Qed.
#[export] Instance turn_of_own_run sid may : IgnoresNewRun (turn_of sid may) (Some sid).
Proof. intros s r Hfree Hst. apply turn_of_put_run. rewrite Hfree. by left. Qed.
#[export] Instance turn_of_free_run sid may : IgnoresNewRun (turn_of sid may) None.
Proof. intros s r Hfree Hst. apply turn_of_put_run. rewrite Hfree. by right. Qed.

Lemma turn_of_put_story sid (may : string → Prop) s st st' :
  s.(db).(stories) !! sid = Some st → st'.(s_id) = st.(s_id) →
  st'.(s_status) = st.(s_status) ∨ may st'.(s_status) →
  turn_of sid may s (s <| db := put_story st' s.(db) |>).
Proof.
  intros Hst Hid Hmay [Hks Hkr]. destruct (turn_of_preorder sid may) as [Hrefl _].
  destruct (Hrefl s (conj Hks Hkr)) as (_ & _ & Hruns & _). rewrite (Hks _ _ Hst) in Hid.
  split; [|split; [done|split; [exact Hruns|]]]; [split; [|exact Hkr]|split].
  - intros id x. cbn. intros [[<- <-]|[_ Hx]]%lookup_insert_Some; [done|by apply Hks].
  - intros i Hi. cbn. rewrite Hid. by rewrite lookup_insert_ne.
  - rewrite Hst. exists st'. cbn. rewrite Hid, lookup_insert_eq. done.
Qed.

(** ** The calls of the handlers *)

(** What a relation promises to the handlers of the story [sid]: their calls keep it,
    as long as they move the story where it [may] go. *)
Class StoryFrame (E : env) (sid : string) (may : string → Prop) (R : relation Shared) := {
  frame_preorder :: PreOrder R;
  frame_tasks :: IgnoresTasks R;
  frame_grants :: IgnoresGrants R;
  frame_patches :: IgnoresPatches R;
  frame_messages :: IgnoresMessages R;
  frame_keys :: IgnoresKeys R;
  frame_own_run :: IgnoresNewRun R (Some sid);
  frame_free_run :: IgnoresNewRun R None;
  frame_move : ∀ to action, action_target action = Some to → may (value to) →
    keeps E R (api_transition_story sid action);
  frame_record : ∀ data, keeps E R (api_update_story sid data);
}.

#[export] Instance turn_of_frame E `{!Alone E} sid may : StoryFrame E sid may (turn_of sid may).
Proof.
  split; try apply _.
  - intros to action Hto Hmay. apply keeps_exec. intros s.
    apply (exec_transition_story E); [intros _; reflexivity|]. intros to' st r Hto' Hst _ _.
    rewrite Hto in Hto'. injection Hto' as <-. eapply turn_of_put_story; [exact Hst|done|by right].
  - intros data. apply keeps_exec. intros s. apply (exec_update_story E); [intros _; reflexivity|].
    intros st st' r Hst Hf _. apply set_story_fields_keeps in Hf as (Hid & Hs & _).
    eapply turn_of_put_story; [exact Hst|done|by left].
Qed.

Section turn.
Context (E : env) `{!Alone E} (sid : string) (may : string → Prop) (R : relation Shared).
Context `{!StoryFrame E sid may R}.

(** The actions, by where they lead. *)
Lemma keeps_turn_record data : keeps E R (api_update_story sid data).
Proof. apply frame_record. Qed.
Lemma keeps_turn_fail : may (value StoryStatus.FAILED) → keeps E R (api_fail_story sid).
Proof. by apply (frame_move StoryStatus.FAILED "fail"). Qed.
Lemma keeps_turn_test : may (value StoryStatus.TESTING) → keeps E R (api_transition_story sid "test").
Proof. by apply frame_move. Qed.
Lemma keeps_turn_start : may (value StoryStatus.IN_PROGRESS) → keeps E R (api_transition_story sid "start").
Proof. by apply frame_move. Qed.
Lemma keeps_turn_deploy : may (value StoryStatus.DEPLOYING) → keeps E R (api_transition_story sid "deploy").
Proof. by apply frame_move. Qed.
Lemma keeps_turn_review :
  may (value StoryStatus.WAITING_HUMAN_REVIEW) → keeps E R (api_transition_story sid STORY_HUMAN_REVIEW_ACTION).
Proof. by apply frame_move. Qed.
Lemma keeps_turn_wait :
  may (value StoryStatus.WAITING_USER_SECRET) → keeps E R (api_wait_user_secret_story sid).
Proof. by apply (frame_move StoryStatus.WAITING_USER_SECRET "wait-user-secret"). Qed.
Lemma keeps_turn_complete :
  may (value StoryStatus.COMPLETED) → keeps E R (api_transition_story sid "complete").
Proof. by apply frame_move. Qed.

(** The shared parts. *)
Lemma keeps_turn_grant p k sub sha m : keeps E R (grant_temporary_access p k sub sha m).
Proof.
  unfold grant_temporary_access, new_deploy_run_id, publish_grant_deploy, publish_deploy. guar_auto.
Qed.
#[local] Hint Resolve keeps_turn_grant keeps_turn_fail : guar.
Lemma keeps_turn_handoff id plan `{!IgnoresRedis R} : keeps E R (execute_qa_handoff id plan).
Proof. unfold execute_qa_handoff. guar_auto. Qed.
Lemma keeps_turn_fail_with id p e :
  may (value StoryStatus.FAILED) → keeps E R (fail_with id sid p e).
Proof. intros. unfold fail_with, notify_admin_failure. guar_auto. Qed.
End turn.
#[export] Hint Resolve keeps_turn_record keeps_turn_fail keeps_turn_test keeps_turn_start
  keeps_turn_deploy keeps_turn_review keeps_turn_wait keeps_turn_complete keeps_turn_grant
  keeps_turn_handoff keeps_turn_fail_with : guar.


(** ** The latest run of a story *)

Definition latest_run (d : Database) (sid : string) (ty : RunType.t) (r : Run) : Prop :=
  (∃ i, d.(runs) !! i = Some r) ∧ r.(r_story_id) = Some sid ∧ r.(r_type) = value ty ∧
  ∀ i r', d.(runs) !! i = Some r' → r'.(r_story_id) = Some sid → r'.(r_type) = value ty →
    r'.(r_created_at) ≤ r.(r_created_at).

Section reads.
Context (E : env) `{!Alone E}.

Lemma exec_latest_run sid ty s (Q : res (option Run) → Shared → Prop) :
  sid ≠ "" →
  (may_fail E = true → Q (Exc ConnectionLost) s) →
  ((∀ r, ¬ latest_run s.(db) sid ty r) → Q (Ok None) s) →
  (∀ r, latest_run s.(db) sid ty r → Q (if RunDTO_valid r then Ok (Some r) else Exc ValidationError) s) →
  exec E (api_get_latest_run_by_story sid ty) s Q.
Proof.
  intros Hsid He Hn Hr. apply exec_bind, exec_read; [apply _|auto with reads|]. intros s' ->%alone.
  rewrite list_runs_eq. cbn. split; [|done].
  set (l := select _ _ _).
  assert (∀ r, r ∈ l ↔ (∃ i, s.(db).(runs) !! i = Some r) ∧ r.(r_story_id) = Some sid ∧ r.(r_type) = value ty)
    as Hl.
  { intros r. unfold l. rewrite elem_of_select, elem_of_rows. unfold run_where, where_eq. cbn.
    rewrite !andb_true_r, (bool_decide_eq_false_2 (sid = "")) by done.
    rewrite (bool_decide_eq_false_2 (RunType.value ty = "")) by (by destruct ty). cbn.
    rewrite andb_true_iff, !bool_decide_eq_true, (inj_iff Some). naive_solver. }
  assert (Sorted (λ a b, b.(r_created_at) <=? a.(r_created_at)) l) as Hs.
  { apply (select_sorted _ _ (λ a b, b.(r_created_at) <=? a.(r_created_at))).
    intros a b. rewrite !Is_true_true, !Z.leb_le. lia. }
  destruct l as [|r l'].
  { apply exec_ret, Hn. intros r (Hrow & Hst & Hty & _). by apply (elem_of_nil r), Hl. }
  assert (latest_run s.(db) sid ty r) as Hlatest.
  { destruct (proj1 (Hl r)) as (Hrow & Hst & Hty); [by left|]. split_and!; [done..|].
    intros i r' Hi Hst' Hty'. assert (r' ∈ r :: l') as Hin by (apply Hl; eauto).
    apply Sorted_StronglySorted in Hs; [|intros a b c; rewrite !Is_true_true, !Z.leb_le; lia].
    apply elem_of_cons in Hin as [->|Hin]; [lia|].
    apply StronglySorted_inv in Hs as [_ Hall]. rewrite Forall_forall in Hall.
    specialize (Hall r' Hin). cbn in Hall. rewrite Is_true_true, Z.leb_le in Hall. done. }
  specialize (Hr r Hlatest). apply exec_bind, exec_model_validate; intros Hv; rewrite Hv in Hr;
    [by apply exec_ret|done].
Qed.

Lemma exec_listed_stories status s (Q : res (list Story) → Shared → Prop) :
  keyed s.(db) →
  (∀ e, Q (Exc e) s) →
  (∀ l, NoDup (s_id <$> l) →
     (∀ st, st ∈ l → s.(db).(stories) !! st.(s_id) = Some st ∧ st.(s_status) = value status) → Q (Ok l) s) →
  exec E (api_get_stories_by_status status) s Q.
Proof.
  intros [Hk _] He HQ. apply (exec_alone_read E); [auto with reads| |done]. intros l [= <-] _.
  apply HQ.
  - unfold select. rewrite (merge_sort_Permutation _ _).
    eapply (sublist_NoDup _ (s_id <$> (map_to_list s.(db).(stories)).*2));
      [|apply fmap_sublist, sublist_filter].
    rewrite <-list_fmap_compose, (list_fmap_ext _ fst); [apply NoDup_fst_map_to_list|].
    intros i [id st] Hi. apply list_elem_of_lookup_2, elem_of_map_to_list in Hi. by apply Hk.
  - intros st. rewrite elem_of_select, elem_of_rows. unfold story_where, where_eq. cbn.
    rewrite !andb_true_r, bool_decide_eq_false_2 by (by destruct status). cbn.
    rewrite bool_decide_eq_true. intros [[i Hi] [= Hst]]. by rewrite (Hk _ _ Hi).
Qed.
End reads.
(** ** A tick over the stories *)

(** The runs of a story as they were, metadata apart. *)
Definition same_runs_of (sid : string) (d d' : Database) : Prop :=
  (∀ id r, d.(runs) !! id = Some r → ∃ r', d'.(runs) !! id = Some r' ∧ same_verdict r r') ∧
  (∀ id r', d'.(runs) !! id = Some r' → r'.(r_story_id) = Some sid →
     ∃ r, d.(runs) !! id = Some r ∧ same_verdict r r').

#[export] Instance same_runs_of_preorder sid : PreOrder (same_runs_of sid).
Proof.
  split; [intros d; split; intros id r Hr; [|intros _]; by exists r|]. intros d1 d2 d3 [H12 H21] [H23 H32]. split.
  - intros id r1 Hr1. destruct (H12 id r1 Hr1) as (r2 & Hr2 & ?). destruct (H23 id r2 Hr2) as (r3 & ? & ?).
    exists r3. split; [done|]. by etransitivity.
  - intros id r3 Hr3 Hst. destruct (H32 id r3 Hr3 Hst) as (r2 & Hr2 & Hs).
    destruct (H21 id r2 Hr2) as (r1 & ? & ?); [by rewrite <-(same_verdict_story r2 r3)|].
    exists r1. split; [done|]. by etransitivity.
Qed.

Lemma runs_of_other_turn sid i d d' : i ≠ sid → runs_of_turn sid d d' → same_runs_of i d d'.
Proof.
  intros Hne H. split; intros id r Hr; specialize (H id).
  - rewrite Hr in H. naive_solver.
  - intros Hst. destruct (runs d !! id) as [r0|].
    + destruct H as (r' & Hr' & Hs). exists r0. split; [done|]. congruence.
    + destruct (H r Hr); congruence.
Qed.

Lemma same_verdict_age r r' : same_verdict r r' → r.(r_created_at) = r'.(r_created_at).
Proof. intros H. exact (f_equal r_created_at H). Qed.
Lemma same_verdict_type r r' : same_verdict r r' → r.(r_type) = r'.(r_type).
Proof. intros H. exact (f_equal r_type H). Qed.

Lemma latest_run_before sid ty d d' r' :
  same_runs_of sid d d' → latest_run d' sid ty r' → ∃ r, latest_run d sid ty r ∧ same_verdict r r'.
Proof.
  intros [Hto Hfrom] ([i Hi] & Hst & Hty & Hmax).
  destruct (Hfrom i r' Hi Hst) as (r & Hr & Hs). exists r. split; [|done].
  rewrite <-(same_verdict_type r r') in Hty by done. rewrite (same_verdict_story r r') in Hst by done.
  split_and!; [by exists i|done..|]. intros j q Hq Hq1 Hq2. destruct (Hto j q Hq) as (q' & Hq' & Hs').
  rewrite (same_verdict_age q q'), (same_verdict_age r r') by done.
  apply (Hmax j q'); [done|by rewrite (same_verdict_story q q')|by rewrite <-(same_verdict_type q q')].
Qed.

(** A run no model accepts fails its story; any other failed read ends the tick. *)
Lemma exec_latest_run_or_fail `{ExceptionTexts} E `{!Alone E} sid p ty (may : string → Prop) s
    (Q : res (option (option Run)) → Shared → Prop) :
  sid ≠ "" →
  (∀ r, latest_run s.(db) sid ty r → RunDTO_valid r = false → may (value StoryStatus.FAILED)) →
  (∀ e s', turn_of sid may s s' → Q (Exc e) s') →
  (∀ s', turn_of sid may s s' → Q (Ok None) s') →
  Q (Ok (Some None)) s →
  (∀ r, latest_run s.(db) sid ty r → RunDTO_valid r = true → Q (Ok (Some (Some r))) s) →
  exec E (latest_run_or_fail sid p ty) s Q.
Proof.
  intros Hsid Hmay He Hn Hnone Hr. unfold latest_run_or_fail.
  apply exec_bind, exec_attempt, (exec_latest_run E); [done|..].
  - intros _. rewrite decide_False by done. apply exec_raise, He. reflexivity.
  - intros _. by apply exec_ret.
  - intros r Hlatest. destruct (RunDTO_valid r) eqn:Hv; [apply exec_ret; auto|].
    apply exec_bind. eapply exec_mono.
    + apply (exec_keeps E (turn_of sid may)), (keeps_turn_fail_with E sid may _), (Hmay r); done.
    + intros [[]|e] s' Hs'; [apply exec_ret; auto|auto].
Qed.

(** What the turns of other stories leave of one. *)
Definition untouched (sid : string) (d d' : Database) : Prop :=
  d'.(stories) !! sid = d.(stories) !! sid ∧ d'.(projects) = d.(projects) ∧ same_runs_of sid d d'.
#[export] Instance untouched_preorder sid : PreOrder (untouched sid).
Proof.
  split; [by intros d|]. intros d1 d2 d3 (? & ? & ?) (? & ? & ?).
  split_and!; [congruence..|by etransitivity].
Qed.

Section tick.
Context (E : env) `{!Alone E} (status : StoryStatus.t) (may : Database → string → string → Prop).
Hypothesis may_before : ∀ d d' sid x, untouched sid d d' → may d' sid x → may d sid x.

(** What a tick made of one story: it is as it was, or was led here. *)
Definition led (d : Database) (sid : string) (st st' : Story) : Prop :=
  st'.(s_status) = st.(s_status) ∨ st.(s_status) = value status ∧ may d sid st'.(s_status).

(** A tick half done: the stories left are untouched. *)
Definition tick_so_far (s0 : Shared) (rest : list Story) (s : Shared) : Prop :=
  keyed s.(db) ∧ NoDup (s_id <$> rest) ∧
  (∀ st, st ∈ rest → s0.(db).(stories) !! st.(s_id) = Some st ∧ st.(s_status) = value status ∧
     untouched st.(s_id) s0.(db) s.(db)) ∧
  (∀ sid st, s0.(db).(stories) !! sid = Some st → ∃ st', s.(db).(stories) !! sid = Some st' ∧
     led s0.(db) sid st st').

Lemma tick_step s0 st rest s s' :
  tick_so_far s0 (st :: rest) s → turn_of st.(s_id) (may s.(db) st.(s_id)) s s' → tick_so_far s0 rest s'.
Proof.
  intros (Hk & Hnd & Hrest & Hled) Hturn. destruct (Hturn Hk) as (Hk' & Hp & Hruns & Hothers & Hown).
  rewrite fmap_cons in Hnd. apply NoDup_cons in Hnd as [Hnew Hnd].
  destruct (Hrest st) as (H0 & Hdep & Hsame); [by left|]. pose proof Hsame as (Hnow & _).
  rewrite Hnow, H0 in Hown. destruct Hown as (st' & Hst' & Hmay).
  split; [done|]. split; [done|]. split.
  - intros t Ht. destruct (Hrest t) as (? & ? & ?); [by right|].
    assert (t.(s_id) ≠ st.(s_id)) as Hne.
    { intros He. apply Hnew. rewrite <-He. by apply list_elem_of_fmap_2. }
    split_and!; [done..|]. etransitivity; [done|]. split_and!; [by apply Hothers|done|].
    by apply (runs_of_other_turn st.(s_id)).
  - intros sid t Ht. destruct (decide (sid = st.(s_id))) as [->|Hne].
    + rewrite H0 in Ht. injection Ht as <-. exists st'. split; [done|].
      destruct Hmay as [?|Hmay]; [by left|right]. split; [done|]. by apply (may_before _ s.(db)).
    + rewrite Hothers by done. by apply Hled.
Qed.

Lemma exec_tick {C} (body : C → Story → M World C) (c0 : C) s0 :
  (∀ c st s, st.(s_id) ≠ "" → s.(db).(stories) !! st.(s_id) = Some st →
     exec E (body c st) s (λ _ s', turn_of st.(s_id) (may s.(db) st.(s_id)) s s')) →
  keyed s0.(db) → s0.(db).(stories) !! "" = None →
  exec E (stories ← api_get_stories_by_status status; fold_m body c0 stories) s0
    (λ _ s', ∀ sid st, s0.(db).(stories) !! sid = Some st →
       ∃ st', s'.(db).(stories) !! sid = Some st' ∧ led s0.(db) sid st st').
Proof.
  intros Hbody Hk Hempty.
  eapply (exec_mono _ _ _ (λ _ s', ∃ rest, tick_so_far s0 rest s')); [|intros r s' (rest & _ & _ & _ & Hled); exact Hled].
  apply exec_bind, (exec_listed_stories E); [done| |].
  - intros e. exists []. split; [done|]. split; [constructor|]. split; [by intros ? ?%elem_of_nil|].
    intros i t Ht. exists t. split; [done|by left].
  - intros l Hnd Hl. apply (exec_fold_rest E (λ rest _ s, tick_so_far s0 rest s)).
    + split; [done|]. split; [done|]. split.
      * intros t Ht. destruct (Hl t Ht). split_and!; [done..|reflexivity].
      * intros i t Ht. exists t. split; [done|by left].
    + intros t rest c s Hs. assert (t.(s_id) ≠ "") as Hid.
      { intros He. destruct Hs as (_ & _ & Hrest & _). destruct (Hrest t) as [Hrow _]; [by left|].
        rewrite He in Hrow. congruence. }
      assert (s.(db).(stories) !! t.(s_id) = Some t) as Hrow.
      { destruct Hs as (_ & _ & Hrest & _). destruct (Hrest t) as (Hrow & _ & Hsame & _); [by left|].
        by rewrite Hsame. }
      eapply exec_mono; [by apply Hbody|]. intros [c'|e] s' Hturn; [|exists rest]; by eapply tick_step.
    + intros c s Hs. by exists [].
Qed.
End tick.
