(* ===== verification/TestingRouting.v ===== *)
(** * TestingRouting: what a QA verdict does to its story

    What a tick of [SupervisorTesting] makes of every story under test: only the
    verdict of its latest QA run moves it, and no ending it commits is without the
    record that the owner is told from. *)

From S2P Require Import Prelude Vocabulary Contracts Db Api ApiTasks ApiStories ApiRuns ApiActions.
From S2P Require Import Placement World SchedulerClient Recipients OwnerNotifications.
From S2P Require Import WorkerLiveness Dispatcher Frames TemporaryAccess SupervisorTasks SupervisorDeploy.
From S2P Require Import SupervisorTesting StoryTurns.

(** ** What a verdict may make of a story *)

Definition verdict_endings (q : QARunResult) : list StoryStatus.t :=
  match q.(qr_qa_outcome) with
  | QAOutcome.PASSED => [StoryStatus.COMPLETED]
  | QAOutcome.FAILED =>
      if bool_decide (is_Some q.(qr_blocker)) || bool_decide (q.(qr_failed_checks) = [])
      then [StoryStatus.WAITING_HUMAN_REVIEW]
      else [StoryStatus.IN_PROGRESS; StoryStatus.WAITING_HUMAN_REVIEW]
  | _ => [StoryStatus.WAITING_HUMAN_REVIEW]
  end.

Definition qa_endings (r : Run) : list StoryStatus.t :=
  if negb (RunDTO_valid r) then [StoryStatus.FAILED]
  else if is_live_status r then []
  else match r.(r_result) with Some (QAResult q) => verdict_endings q | _ => [] end.

(** The statuses the latest QA run of a story may lead it to. *)
Definition may_end (d : Database) (sid x : string) : Prop :=
  ∃ r a, latest_run d sid RunType.QA r ∧ a ∈ qa_endings r ∧ x = value a.

Lemma same_verdict_qa_endings r r' : same_verdict r r' → qa_endings r = qa_endings r'.
Proof. intros H. exact (f_equal qa_endings H). Qed.
Lemma may_end_before d d' sid x : untouched sid d d' → may_end d' sid x → may_end d sid x.
Proof.
  intros (_ & _ & Hruns) (r' & a & Hr' & Ha & ->).
  destruct (latest_run_before _ _ d d' r' Hruns Hr') as (r & Hr & Hs). exists r, a.
  by rewrite (same_verdict_qa_endings r r').
Qed.

(** ** The handlers *)

Section handlers.
Context (E : env) `{!Alone E} `{ExceptionTexts} `{SupervisorConfig} `{Sha256}.
Context (sid : string) (may : string → Prop).

Lemma keeps_turn_recover run : keeps E (turn_of sid may) (recover_qa_handoff run).
Proof. unfold recover_qa_handoff. guar_auto. Qed.
Lemma keeps_turn_quarantine p run result :
  may (value StoryStatus.WAITING_HUMAN_REVIEW) →
  keeps E (turn_of sid may) (quarantine_unverified_application sid p run result).
Proof. intros. unfold quarantine_unverified_application. guar_auto. Qed.
Lemma keeps_turn_qa_failed p run result :
  may (value StoryStatus.WAITING_HUMAN_REVIEW) → may (value StoryStatus.IN_PROGRESS) →
  keeps E (turn_of sid may) (handle_qa_failed sid p run result).
Proof. intros. unfold handle_qa_failed, escalate_qa_failure. guar_auto. Qed.
Lemma keeps_turn_verdict counts p run result :
  (∀ a, a ∈ verdict_endings result → may (value a)) →
  keeps E (turn_of sid may) (route_verdict counts sid p run result).
Proof.
  intros Hmay. unfold route_verdict, verdict_endings in *.
  pose proof (keeps_turn_quarantine p run result) as Hquar.
  destruct (qr_qa_outcome result); [|destruct (_ || _)|..].
  - assert (may (value StoryStatus.COMPLETED)) by (apply Hmay; set_solver). guar_auto.
  - specialize (Hquar (Hmay StoryStatus.WAITING_HUMAN_REVIEW ltac:(set_solver))). guar_auto.
  - pose proof (keeps_turn_qa_failed p run result (Hmay StoryStatus.WAITING_HUMAN_REVIEW ltac:(set_solver))
      (Hmay StoryStatus.IN_PROGRESS ltac:(set_solver))).
    guar_auto.
  - specialize (Hquar (Hmay StoryStatus.WAITING_HUMAN_REVIEW ltac:(set_solver))). guar_auto.
  - specialize (Hquar (Hmay StoryStatus.WAITING_HUMAN_REVIEW ltac:(set_solver))). guar_auto.
  - specialize (Hquar (Hmay StoryStatus.WAITING_HUMAN_REVIEW ltac:(set_solver))). guar_auto.
Qed.
End handlers.

Lemma exec_testing_story E `{!Alone E} `{ExceptionTexts} `{SupervisorConfig} `{Sha256} counts st s :
  st.(s_id) ≠ "" →
  exec E (supervise_testing_story counts st) s (λ _ s', turn_of st.(s_id) (may_end s.(db) st.(s_id)) s s').
Proof.
  intros Hid. unfold supervise_testing_story.
  apply exec_bind, (exec_latest_run_or_fail E st.(s_id) _ _ (may_end s.(db) st.(s_id))); [done|..].
  - intros r Hr Hv. exists r, StoryStatus.FAILED. unfold qa_endings. rewrite Hv. set_solver.
  - done.
  - intros s' Hs'. by apply exec_ret.
  - apply exec_ret. reflexivity.
  - intros r Hr Hv. cbn. case_bool_decide as Hq.
    { apply (exec_keeps E (turn_of st.(s_id) (may_end s.(db) st.(s_id)))).
      pose proof (keeps_turn_recover E (s_id st) (may_end (db s) (s_id st)) r). guar_auto. }
    case_bool_decide as Hrun; [apply exec_ret; reflexivity|].
    destruct (r_result r) as [[| |res|]|] eqn:Hres; try (apply exec_raise || apply exec_ret; reflexivity).
    apply (exec_keeps E (turn_of st.(s_id) (may_end s.(db) st.(s_id)))), (keeps_turn_verdict E). intros a Ha. exists r, a. split; [done|].
    unfold qa_endings, is_live_status. rewrite Hv, Hres. by rewrite (bool_decide_eq_false_2 _ Hq), (bool_decide_eq_false_2 _ Hrun).
Qed.

(** C28 (safety).  Whatever calls fail, a tick over the stories under test moves a story
    only where the verdict of its latest QA run leads: a pass to COMPLETED, a typed
    defect back to IN_PROGRESS or, when its fixes ran out, to a human, and anything
    QA could not judge to a human.  Only a result no model accepts fails a story,
    and a story whose QA run is queued or running stays under test. *)
Theorem qa_verdicts_decide_the_stories `{ExceptionTexts} `{SupervisorConfig} `{Sha256} w sid st :
  in_env faulty w → well_keyed w.(shared).(db) → w.(shared).(db).(stories) !! "" = None →
  w.(shared).(db).(stories) !! sid = Some st →
  ∃ st', (supervise_testing_stories w).2.(shared).(db).(stories) !! sid = Some st' ∧
    (st'.(s_status) = st.(s_status) ∨
     st.(s_status) = value StoryStatus.TESTING ∧
     ∃ r a, latest_run w.(shared).(db) sid RunType.QA r ∧ a ∈ qa_endings r ∧ st'.(s_status) = value a).
Proof.
  intros Hw (_ & Hks & Hkr & _) Hempty Hst.
  destruct (exec_tick faulty StoryStatus.TESTING may_end may_end_before supervise_testing_story
    no_tests w.(shared)) with w as [_ Hled]; [|by split|done..|].
  - intros. by apply (exec_testing_story faulty).
  - exact (Hled sid st Hst).
Qed.

(** ** No ending without its record *)


(** The story's status and the row of the run as they were. *)
Definition undecided (sid : string) (run : Run) (s s' : Shared) : Prop :=
  keyed s.(db) → keyed s'.(db) ∧
  (∀ st, s.(db).(stories) !! sid = Some st →
     ∃ st', s'.(db).(stories) !! sid = Some st' ∧ st'.(s_status) = st.(s_status)) ∧
  (s.(db).(runs) !! run.(r_id) = Some run → s'.(db).(runs) !! run.(r_id) = Some run).

#[export] Instance undecided_preorder sid run : PreOrder (undecided sid run).
Proof.
  split; [intros s Hk; split; [done|]; split; [by eauto|done]|].
  intros s1 s2 s3 H12 H23 Hk1. destruct (H12 Hk1) as (Hk2 & Hs2 & Hr2).
  destruct (H23 Hk2) as (Hk3 & Hs3 & Hr3). split; [done|]. split; [|auto].
  intros st Hst. destruct (Hs2 st Hst) as (st2 & Hst2 & He2). destruct (Hs3 st2 Hst2) as (st3 & ? & ?).
  exists st3. split; [done|congruence].
Qed.
Lemma undecided_same sid run s d :
  d.(stories) = s.(db).(stories) → d.(runs) = s.(db).(runs) → undecided sid run s (s <| db := d |>).
Proof.
  intros Hs Hr Hk. unfold keyed in *. cbn. rewrite Hs, Hr. split; [done|]. split; [by eauto|done].
Qed.
#[export] Instance undecided_redis sid run : IgnoresRedis (undecided sid run).
Proof. intros s r. exact (reflexivity (R:=undecided sid run) s). Qed.
#[export] Instance undecided_applications sid run : IgnoresApplications (undecided sid run).
Proof. intros s app. by apply undecided_same. Qed.
#[export] Instance undecided_tasks sid run : IgnoresTasks (undecided sid run).
Proof. intros s d ->. by apply undecided_same. Qed.
#[export] Instance undecided_new_run sid run st : IgnoresNewRun (undecided sid run) st.
Proof.
  intros s r Hfree Hst [Hks Hkr]. split; [split; [exact Hks|]|split; [by eauto|]].
  - intros id x. cbn. intros [[<- <-]|[_ Hx]]%lookup_insert_Some; [done|by apply Hkr].
  - cbn. intros Hrun. rewrite lookup_insert_ne; [done|]. intros He. rewrite He in Hfree. congruence.
Qed.

Section endings.
Context (E : env) `{!Alone E} `{ExceptionTexts} `{SupervisorConfig} `{Sha256}.
Context (sid : string) (run : Run).

Lemma keeps_undecided_record data : keeps E (undecided sid run) (api_update_story sid data).
Proof.
  apply keeps_exec. intros s. apply (exec_update_story E); [intros _; reflexivity|].
  intros st st' r Hst Hf _. apply set_story_fields_keeps in Hf as (Hid & Hs & _). intros [Hks Hkr].
  rewrite (Hks _ _ Hst) in Hid. split; [split; [|exact Hkr]|split; [|done]].
  - intros id x. cbn. intros [[<- <-]|[_ Hx]]%lookup_insert_Some; [done|by apply Hks].
  - intros t Ht. rewrite Hst in Ht. injection Ht as <-. exists st'. cbn. rewrite Hid, lookup_insert_eq. done.
Qed.
#[local] Hint Resolve keeps_undecided_record : guar.











End endings.


(** ** A target that cannot be stopped *)

(** A verdict that says nothing about the product. *)
Definition cannot_judge (q : QARunResult) : Prop :=
  q.(qr_qa_outcome) ≠ QAOutcome.PASSED ∧ q.(qr_qa_outcome) ≠ QAOutcome.FAILED.
Definition can_be_stopped (app : Application) : Prop :=
  app.(a_status) ∈ value <$> [ApplicationStatus.RUNNING; ApplicationStatus.STOPPING; ApplicationStatus.STOPPED].

Lemma stop_refused now hex id d :
  (∀ app, d.(applications) !! id = Some app → ¬ can_be_stopped app) →
  wp (stop_application_rows now hex id) (λ r d', (∃ e, r = Exc e) ∧ d' = d) d.
Proof.
  intros Hno. unfold stop_application_rows. apply wp_transaction, wp_bind, wp_get_app_with_repo;
    [intros e; split; [by exists e|done]|].
  intros app repo Happ. assert (∀ a, a ∈ [ApplicationStatus.RUNNING; ApplicationStatus.STOPPING;
    ApplicationStatus.STOPPED] → a_status app ≠ value a) as Hne.
  { intros a Ha He. apply (Hno app Happ). unfold can_be_stopped. rewrite He. by apply list_elem_of_fmap_2. }
  pose proof (Hne ApplicationStatus.RUNNING ltac:(set_solver)).
  pose proof (Hne ApplicationStatus.STOPPING ltac:(set_solver)).
  pose proof (Hne ApplicationStatus.STOPPED ltac:(set_solver)).
  cbn. rewrite !bool_decide_eq_false_2 by done.
  cbn. split; [by eexists|done].
Qed.
Lemma exec_stop_refused E `{!Alone E} id s :
  (∀ app, s.(db).(applications) !! id = Some app → ¬ can_be_stopped app) →
  exec E (api_stop_application id) s (λ r s', (∃ e, r = Exc e) ∧ s' = s).
Proof.
  intros Hno. apply exec_serving; [apply _|]. intros s' ->%alone. split; [|intros _; split; [by eexists|done]].
  apply exec_bind, exec_uuid. intros hex. apply exec_bind, exec_on_db.
  eapply wp_mono; [by apply stop_refused|]. intros r d [[e ->] ->]. cbn. rewrite same_db.
  split; [split; [by destruct e; eexists|done]|]. intros _. split; [by eexists|done].
Qed.

(**  A verdict QA could not reach on an application that is not running ends
    every cycle at this story.  The quarantine stops the application first, and the
    stop is refused for any status but RUNNING, STOPPING and STOPPED (the health
    prober sets DOWN after one failed check): the turn raises and changes nothing,
    whatever calls fail, on this tick and on every later one, so neither the stories
    after it nor the sweep over temporary access are reached. *)
Theorem an_unstoppable_target_ends_every_cycle `{ExceptionTexts} `{SupervisorConfig} `{Sha256} counts st run q id w :
  in_env faulty w → keyed w.(shared).(db) → st.(s_id) ≠ "" →
  latest_run w.(shared).(db) st.(s_id) RunType.QA run →
  (∀ r, latest_run w.(shared).(db) st.(s_id) RunType.QA r → r = run) →
  RunDTO_valid run = true → is_live_status run = false →
  run.(r_result) = Some (QAResult q) → cannot_judge q →
  py_int (run.(r_run_metadata) !! "application_id") = Some id →
  (∀ app, w.(shared).(db).(applications) !! id = Some app → ¬ can_be_stopped app) →
  let '(r, w') := supervise_testing_story counts st w in
  (∃ e, r = Exc e) ∧ w'.(shared) = w.(shared).
Proof.
  intros Hw Hk Hid Hlatest Huniq Hv Hlive Hres [Hp Hf] Happ Hno. set (s := w.(shared)) in *.
  apply orb_false_iff in Hlive as [Hq%bool_decide_eq_false Hr%bool_decide_eq_false].
  assert (exec faulty (supervise_testing_story counts st) s (λ r s', (∃ e, r = Exc e) ∧ s' = s)) as Hex.
  { unfold supervise_testing_story, latest_run_or_fail.
    apply exec_bind, exec_bind, exec_attempt, (exec_latest_run faulty); [done|..].
    - intros _. rewrite decide_False by done. apply exec_raise. eauto.
    - intros Hnone. by destruct (Hnone run).
    - intros r Hlr. rewrite (Huniq r Hlr), Hv. apply exec_ret. cbn.
      rewrite !bool_decide_eq_false_2, Hres by done.
      unfold route_verdict, quarantine_unverified_application. rewrite Happ.
      destruct (qr_qa_outcome q); try done;
        (apply exec_bind, exec_bind, exec_some_or; [intros i [= <-]|done]; apply exec_bind;
         eapply exec_mono; [by apply (exec_stop_refused faulty)|intros r' s' [[e ->] ->]; eauto]). }
  specialize (Hex w eq_refl Hw). unfold wp in Hex. by destruct (supervise_testing_story counts st w) as [r w'], Hex.
Qed.

(** ** Concrete worlds *)

#[local] Existing Instance sample_texts.
#[local] Existing Instance config.
#[local] Instance sample_hash : Sha256 := λ text, text.
#[local] Instance sweep_config : TemporaryAccessConfig := {|
  grant_ttl_minutes := 90; revoke_stale_minutes := 20; max_revoke_attempts := 3;
  observation_window_minutes := 30; unrevoked_ttl_minutes := 180; revoked_watch_minutes := 1440;
  contract_audit_hours := 24 |}.

Definition tested (w : World) : option string * list (string * string) * list string :=
  (s_status <$> w.(shared).(db).(stories) !! "s1", run_statuses w, fst <$> w.(shared).(redis).(streams)).
Example verdicts_are_routed :
  tested (supervise_testing_stories (judged_world QAOutcome.PASSED [] [])).2 =
    (Some "completed", [("qa-deploy-1", "completed")], ["po:input"]) ∧
  tested (supervise_testing_stories (judged_world QAOutcome.FAILED the_defect [])).2 =
    (Some "in_progress", [("qa-deploy-1", "completed")], []) ∧
  tested (supervise_testing_stories (judged_world QAOutcome.BLOCKED [] [])).2 =
    (Some "waiting_human_review", [("qa-deploy-1", "completed"); ("deploy-c0ffee000000", "queued")],
     ["deploy:queue"; "po:input"]).
Proof. split_and!; by vm_compute. Qed.

(** The pass is on record and the process dies before the story is completed. *)
Definition died_world : World :=
  judged_world QAOutcome.PASSED [] (undisturbed <$> [NoFault; NoFault; NoFault; Killed]).
Definition story_under_test : Story := building_story <| s_status := value StoryStatus.TESTING |>.

Lemma qa_verdicts_decide_the_stories_witness :
  ∃ st', (supervise_testing_stories died_world).2.(shared).(db).(stories) !! "s1" = Some st' ∧
    (st'.(s_status) = "testing" ∨ st'.(s_status) = "completed").
Proof.
  destruct (qa_verdicts_decide_the_stories died_world "s1" story_under_test) as (st' & Hst' & Hcase);
    [split; [vm_compute; repeat constructor; done|done]|apply well_keyed_true; by vm_compute
    |by vm_compute|by vm_compute|].
  exists st'. split; [exact Hst'|]. destruct Hcase as [->|(_ & r & a & Hr & Ha & ->)]; [by left|right].
  destruct Hr as ([i Hi] & _).
  change (({[ "qa-deploy-1" := qa_run RunStatus.COMPLETED false (Some (verdict QAOutcome.PASSED [])) ]}
    : gmap string Run) !! i = Some r) in Hi.
  apply lookup_singleton_Some in Hi as [_ <-]. vm_compute in Ha. by inversion Ha as [|? ? ? Hn]; [|inversion Hn].
Defined.


(** The application is down when QA gives up: the turn raises, and nothing after it in
    the cycle is reached. *)
Definition down_world (o : QAOutcome.t) : World :=
  testing_world (qa_run RunStatus.COMPLETED false (Some (verdict o []))) ApplicationStatus.DOWN [].

Example the_rest_of_the_cycle_is_not_reached :
  (supervise_testing_stories (down_world QAOutcome.BLOCKED)).1 = Exc UNPROCESSABLE ∧
  tested (supervise_testing_stories (down_world QAOutcome.BLOCKED)).2 =
    (Some "testing", [("qa-deploy-1", "completed")], []) ∧
  (supervise_testing_stories;; supervise_temporary_access) (down_world QAOutcome.BLOCKED) =
    (Exc UNPROCESSABLE, (supervise_testing_stories (down_world QAOutcome.BLOCKED)).2).
Proof. split_and!; by vm_compute. Qed.

Lemma an_unstoppable_target_ends_every_cycle_witness :
  ∃ e, (supervise_testing_story no_tests story_under_test (down_world QAOutcome.BLOCKED)).1 = Exc e.
Proof.
  set (run := qa_run RunStatus.COMPLETED false (Some (verdict QAOutcome.BLOCKED []))).
  assert (∀ i r, (down_world QAOutcome.BLOCKED).(shared).(db).(runs) !! i = Some r → r = run) as Hrow.
  { intros i r Hi. change (({[ "qa-deploy-1" := run ]} : gmap string Run) !! i = Some r) in Hi.
    by apply lookup_singleton_Some in Hi as [_ <-]. }
  pose proof (an_unstoppable_target_ends_every_cycle no_tests story_under_test run (verdict QAOutcome.BLOCKED []) 3
    (down_world QAOutcome.BLOCKED)) as H.
  destruct (supervise_testing_story _ _ _) as [r w'].
  destruct H as [He _];
    [by apply in_env_calm_faulty, calm_world|split; [by apply well_keyed_true|by apply well_keyed_true]|done
    | |intros r' ([i Hi] & _); by apply (Hrow i)|by vm_compute|by vm_compute|done|done|by vm_compute| |exact He].
  - split; [by exists "qa-deploy-1"|]. split; [done|]. split; [done|].
    intros i r' Hi _ _. by rewrite (Hrow i r' Hi).
  - intros app Ha. vm_compute in Ha. injection Ha as <-. intros Hin. vm_compute in Hin. set_solver.
Defined.
