(* ===== verification/QAFixes.v ===== *)
(** * QAFixes: how often a defect is fixed

    The bound on the fix tasks QA opens, and that one QA run opens at most one,
    against [SupervisorTesting]. *)

From S2P Require Import Prelude Vocabulary Contracts Db Api ApiTasks ApiStories ApiRuns ApiActions.
From S2P Require Import Placement World SchedulerClient Recipients OwnerNotifications.
From S2P Require Import WorkerLiveness Dispatcher Frames TemporaryAccess SupervisorTasks SupervisorDeploy.
From S2P Require Import SupervisorTesting StoryTurns.

(** The fix tasks of a story: those that carry the evidence of a QA failure. *)
Definition is_fix_of (sid : string) (t : Task) : Prop :=
  t.(t_story_id) = Some sid ∧ qa_failure_metadata t ≠ None.
#[export] Instance is_fix_of_dec sid t : Decision (is_fix_of sid t).
Proof. unfold is_fix_of. apply _. Defined.
Definition fix_tasks (d : Database) (sid : string) : gmap string Task :=
  filter (λ x, is_fix_of sid x.2) d.(tasks).

(** No story has more fix tasks than the limit, and none has two for one QA run. *)
Definition fixes_bounded `{SupervisorConfig} (d : Database) : Prop :=
  ∀ sid, sid ≠ "" →
    Z.of_nat (size (fix_tasks d sid)) ≤ Z.max 0 qa_fix_limit ∧
    ∀ i j t u e f, fix_tasks d sid !! i = Some t → fix_tasks d sid !! j = Some u →
      qa_failure_metadata t = Some e → qa_failure_metadata u = Some f →
      is_Some (evidence_run_id e) → evidence_run_id e = evidence_run_id f → i = j.

(** ** Facts *)

(** The evidence a story's tasks carry, as many pieces as it has fix tasks. *)
Lemma length_evidence d sid l :
  (list_tasks (of_story sid) d).1 = Ok l → sid ≠ "" →
  length (omap qa_failure_metadata l) = size (fix_tasks d sid).
Proof.
  intros Hl Hsid. rewrite length_omap. by apply (length_marked d sid l _ (λ x, is_fix_of sid x.2)).
Qed.

Lemma create_task_cases now id body d :
  (∃ e, create_task now id body d = (Exc e, d)) ∨
  (let t := new_task now id body.(tc_priority) body in
   d.(tasks) !! id = None ∧ create_task now id body d = (Ok t, put_task t d)).
Proof.
  unfold create_task, insert_task, commit_or_raise_fk, transaction, mbind, M_bind, gets, guard_not. cbn.
  case_bool_decide as Hfree; cbn; [|by left; eexists]. destruct (references_exist _ _); cbn; [|by left; eexists].
  by right.
Qed.

#[export] Instance fixes_bounded_of_tasks `{SupervisorConfig} : OfTasks fixes_bounded.
Proof. intros d d' Heq. unfold fixes_bounded, fix_tasks. by rewrite Heq. Qed.

(** The new fix task of a story within its bound, for a QA run without one. *)
Lemma bounded_with_fix `{SupervisorConfig} d sid id t e :
  sid ≠ "" → fixes_bounded d → d.(tasks) !! id = None → t.(t_id) = id → t.(t_story_id) = Some sid →
  qa_failure_metadata t = Some (MQAFailure e) →
  Z.of_nat (size (fix_tasks d sid)) + 1 ≤ qa_fix_limit →
  (∀ i u f, fix_tasks d sid !! i = Some u → qa_failure_metadata u = Some f →
     evidence_run_id f ≠ Some e.(qe_qa_run_id)) →
  fixes_bounded (put_task t d).
Proof.
  intros Hsid Hb Hfree Hid Hst Hev Hlimit Hnew sid' Hsid'. destruct (Hb sid' Hsid') as [Hsize Hone].
  unfold fix_tasks in *. cbn. rewrite Hid. destruct (decide (sid' = sid)) as [->|Hne].
  - rewrite map_filter_insert_True by (split; [done|cbn; congruence]).
    assert (filter (λ x, is_fix_of sid x.2) (tasks d) !! id = None) as Hnone.
    { apply map_lookup_filter_None. by left. }
    rewrite map_size_insert_None by done. split; [lia|]. intros i j u v f g Hi Hj Hf Hg Hsome Heq.
    apply lookup_insert_Some in Hi as [[<- <-]|[? Hi]]; apply lookup_insert_Some in Hj as [[<- <-]|[? Hj]]; [done|..].
    + exfalso. rewrite Hev in Hf. injection Hf as <-. by apply (Hnew j v g).
    + exfalso. rewrite Hev in Hg. injection Hg as <-. by apply (Hnew i u f).
    + by eapply Hone.
  - rewrite map_filter_insert_not'; [done| |intros y Hy; cbn in *; congruence].
    intros [Hst' _]. cbn in Hst'. congruence.
Qed.

Section bound.
Context (E : env) `{!Alone E} `{ExceptionTexts} `{SupervisorConfig} `{Sha256}.

Lemma exec_bounded_failed sid p run result s :
  sid ≠ "" → exec E (handle_qa_failed sid p run result) s (λ _ s', keeping fixes_bounded s s').
Proof.
  intros Hsid. unfold handle_qa_failed.
  apply exec_bind, (exec_alone_read E); [auto with reads| |intros e; reflexivity].
  intros l Hl _. fold (of_story sid) in Hl.
  destruct (existsb _ _) eqn:Hseen.
  { apply (exec_keeps E (keeping fixes_bounded)). guar_auto. }
  set (summary := if truthy _ then _ else _) in *.
  set (evidence := failure_evidence _ _ _ _).
  assert (qe_fix_attempt evidence = Z.of_nat (size (fix_tasks s.(db) sid)) + 1) as Hcount.
  { unfold evidence, failure_evidence. cbn. by rewrite (length_evidence _ _ _ Hl Hsid). }
  destruct (exhausted _ _) as [limit|] eqn:Hex.
  { apply (exec_keeps E (keeping fixes_bounded)). unfold escalate_qa_failure. guar_auto. }
  unfold exhausted in Hex. destruct (Z.ltb_spec qa_failure_limit (qe_fingerprint_attempt evidence)); [done|].
  destruct (Z.ltb_spec qa_fix_limit (qe_fix_attempt evidence)) as [|Hle]; [done|]. clear Hex.
  assert (∀ s1, keeping fixes_bounded s s1 → exec E (api_transition_story sid "start";; mret (Some true)) s1
    (λ _ s', keeping fixes_bounded s s')) as Hrest.
  { intros s1 Hs1. eapply exec_mono; [apply (exec_keeps E (keeping fixes_bounded)); guar_auto|].
    intros r s' Hs'. by etransitivity. }
  apply exec_bind, exec_bind, exec_uuid. intros hex.
  apply (exec_validated E); [intros e; reflexivity|].
  destruct (create_task_cases s.(clock) hex (fix_task sid p summary result.(qr_failed_checks) evidence) s.(db))
    as [?|[Hfree Heq]]; [by left|]. right. eexists _, _. split; [exact Heq|]. intros r _.
  set (t := new_task _ _ _ _) in *.
  assert (keeping fixes_bounded s (s <| db := put_task t s.(db) |>)) as Hkept.
  { intros Hb. apply (bounded_with_fix s.(db) sid hex t evidence); [done..| |].
    - rewrite <-Hcount. lia.
    - intros i u f Hu Hf He. apply map_lookup_filter_Some in Hu as [Hu [Hst _]]. cbn in *.
      apply not_true_iff_false in Hseen. apply Hseen, existsb_exists. exists f.
      split; [|by apply bool_decide_eq_true]. apply list_elem_of_In, list_elem_of_omap. exists u.
      split; [|done]. apply (elem_of_listed s.(db) sid); [done..|]. split; [by exists i|done]. }
  destruct r as [a|e]; [by apply Hrest|done].
Qed.

Lemma exec_bounded_story counts st s :
  st.(s_id) ≠ "" → exec E (supervise_testing_story counts st) s (λ _ s', keeping fixes_bounded s s').
Proof.
  intros Hid. unfold supervise_testing_story, latest_run_or_fail, fail_story_on_invalid_result, notify_admin_failure.
  apply exec_bind. eapply exec_mono; [apply (exec_keeps E (keeping fixes_bounded)); guar_auto|].
  intros [[[run|]|]|e] s1 Hs1; [|by apply exec_ret|by apply exec_ret|done].
  eapply (exec_mono _ _ _ (λ _ s', keeping fixes_bounded s1 s')); [|intros r s' Hs'; by etransitivity].
  case_bool_decide.
  { apply (exec_keeps E (keeping fixes_bounded)).
    unfold recover_qa_handoff, execute_qa_handoff, grant_temporary_access, new_deploy_run_id,
      publish_grant_deploy, publish_deploy. guar_auto. }
  case_bool_decide; [apply exec_ret; reflexivity|].
  destruct (r_result run) as [[| |q|]|]; try (apply exec_raise || apply exec_ret; reflexivity).
  assert (∀ c : TestingCounts, exec E (quarantine_unverified_application (s_id st) (s_project_id st) run q;; mret c) s1
    (λ _ s', keeping fixes_bounded s1 s')) as Hquar.
  { intros c. apply (exec_keeps E (keeping fixes_bounded)). unfold quarantine_unverified_application. guar_auto. }
  unfold route_verdict. destruct (qr_qa_outcome q); [|destruct (_ || _); [done|]|done..].
  - apply (exec_keeps E (keeping fixes_bounded)). guar_auto.
  - apply exec_bind. eapply exec_mono; [by apply exec_bounded_failed|].
    intros [d|e] s2 Hs2; [by apply exec_ret|done].
Qed.
End bound.

(** C29 (bounds).  QA sends a story back to engineering a bounded number of times.  If no
    story has more fix tasks than [qa_max_fix_attempts] and none has two for one QA
    run, then after a tick over the stories under test that is still so, whatever
    calls fail and wherever the process dies: a repeated turn recovers the task the
    first one created instead of opening another. *)
Theorem qa_fixes_are_bounded `{ExceptionTexts} `{SupervisorConfig} `{Sha256} w :
  in_env faulty w → well_keyed w.(shared).(db) → w.(shared).(db).(stories) !! "" = None →
  fixes_bounded w.(shared).(db) → fixes_bounded (supervise_testing_stories w).2.(shared).(db).
Proof.
  intros Hw (_ & Hks & Hkr & _) Hempty. set (s0 := w.(shared)) in *.
  assert (exec faulty supervise_testing_stories s0 (λ _ s', keeping fixes_bounded s0 s')) as Hex.
  { apply exec_bind, (exec_listed_stories faulty); [by split|intros e; reflexivity|].
    intros l _ Hl. apply (exec_fold_m faulty (λ _ s, keeping fixes_bounded s0 s)); [reflexivity| |done].
    intros st c s Hst Hs. eapply exec_mono.
    - apply (exec_bounded_story faulty). intros He. destruct (Hl st Hst) as [Hrow _].
      rewrite He in Hrow. congruence.
    - intros [c'|e] s' Hs'; by etransitivity. }
  by destruct (Hex w eq_refl Hw).
Qed.

(** ** Concrete worlds *)

#[local] Existing Instance sample_texts.
#[local] Existing Instance config.
#[local] Instance sample_hash : Sha256 := λ text, text.

(** A defect, and the story's transition lost after the fix task was created. *)
Definition lost_start_world : World :=
  judged_world QAOutcome.FAILED the_defect (undisturbed <$> [NoFault; NoFault; NoFault; NoFault; Lost]).
Definition twice (w : World) : World := (supervise_testing_stories (supervise_testing_stories w).2).2.

Example a_repeated_turn_opens_no_second_task :
  let once := (supervise_testing_stories lost_start_world).2 in
  size (fix_tasks once.(shared).(db) "s1") = 1%nat ∧
  size (fix_tasks (twice lost_start_world).(shared).(db) "s1") = 1%nat ∧
  s_status <$> (twice lost_start_world).(shared).(db).(stories) !! "s1" = Some "in_progress".
Proof. split_and!; by vm_compute. Qed.

Lemma qa_fixes_are_bounded_witness :
  fixes_bounded (supervise_testing_stories lost_start_world).2.(shared).(db).
Proof.
  apply (qa_fixes_are_bounded lost_start_world);
    [split; [vm_compute; repeat constructor; done|done]|apply well_keyed_true; by vm_compute|by vm_compute|].
  intros sid _. unfold fix_tasks.
  replace (lost_start_world.(shared).(db).(tasks)) with (∅ : gmap string Task) by (by vm_compute).
  rewrite map_filter_empty. split; [by vm_compute|]. intros i j t u e f Hi. by rewrite lookup_empty in Hi.
Defined.
