(* ===== verification/DeployRouting.v ===== *)
(** * DeployRouting: what a deploy's outcome does to its story

    What a tick of [SupervisorDeploy] makes of every story, against the deploy
    runs it finds: only the outcome of a story's latest deploy run moves it, and
    each outcome only to the statuses it may end in. *)

From S2P Require Import Prelude Vocabulary Contracts Docs Db Api ApiTasks ApiStories ApiRuns.
From S2P Require Import Placement World SchedulerClient Recipients OwnerNotifications.
From S2P Require Import WorkerLiveness Dispatcher Frames TemporaryAccess SupervisorTasks SupervisorDeploy.
From S2P Require Import StoryTurns.

(** ** The handlers *)

Section handlers.
Context (E : env) `{!Alone E} (sid : string) (may : string → Prop) (R : relation Shared).
Context `{!StoryFrame E sid may R}.

Lemma keeps_turn_redispatch rid p ev md sha :
  keeps E R (redispatch_deploy rid p sid ev md sha).
Proof. unfold redispatch_deploy. guar_auto. Qed.
#[local] Hint Resolve keeps_turn_redispatch : guar.
Lemma keeps_turn_admissible `{SupervisorConfig} ram disk :
  keeps E R (ask_for_admissible_target ram disk).
Proof.
  unfold ask_for_admissible_target. guar_auto.
  match goal with |- keeps _ _ (search_servers ?f ?n ?r ?d ?x ?l) => induction l; cbn; guar_auto end.
Qed.
#[local] Hint Resolve keeps_turn_admissible : guar.

(** The handlers. *)
Lemma keeps_turn_success `{!IgnoresRedis R} p run result :
  may (value StoryStatus.TESTING) → may (value StoryStatus.FAILED) →
  keeps E R (handle_deploy_success_story sid p run result).
Proof.
  intros. unfold handle_deploy_success_story, resolve_qa_repository, start_qa. guar_auto.
Qed.
Lemma keeps_turn_fix `{SupervisorConfig} p run result :
  may (value StoryStatus.IN_PROGRESS) → may (value StoryStatus.FAILED) →
  keeps E R (handle_deploy_code_fix sid p run result).
Proof. intros. unfold handle_deploy_code_fix. guar_auto. Qed.
Lemma keeps_turn_retry `{SupervisorConfig} p run :
  may (value StoryStatus.FAILED) → keeps E R (handle_deploy_retry sid p run).
Proof. intros. unfold handle_deploy_retry, new_deploy_run_id, notify_admin_failure. guar_auto. Qed.
Lemma keeps_turn_escalate `{ExceptionTexts} p run result reason b detail :
  may (value StoryStatus.WAITING_HUMAN_REVIEW) →
  keeps E R (escalate_refused_deploy sid p run result reason b detail).
Proof. intros. unfold escalate_refused_deploy, notify_admin_failure. guar_auto. Qed.
#[local] Hint Resolve keeps_turn_escalate : guar.
Lemma keeps_turn_refused `{ExceptionTexts} `{SupervisorConfig} p run result :
  may (value StoryStatus.WAITING_HUMAN_REVIEW) →
  keeps E R (route_refused_deploy sid p run result).
Proof.
  intros. unfold route_refused_deploy, handle_deploy_infrastructure_wait, new_deploy_run_id. guar_auto.
Qed.
Lemma keeps_turn_secret p result :
  may (value StoryStatus.WAITING_USER_SECRET) →
  keeps E R (handle_deploy_waiting_user_secret sid p result).
Proof. intros. unfold handle_deploy_waiting_user_secret, request_user_secret_via_po. guar_auto. Qed.
End handlers.
(** ** What an outcome may make of a story *)

Definition outcome_endings (o : DeployOutcome.t) : list StoryStatus.t :=
  match o with
  | DeployOutcome.SUCCESS => [StoryStatus.TESTING; StoryStatus.FAILED]
  | DeployOutcome.CODE_FIX | DeployOutcome.SMOKE_FAILURE => [StoryStatus.IN_PROGRESS; StoryStatus.FAILED]
  | DeployOutcome.WAITING_INFRASTRUCTURE => [StoryStatus.WAITING_HUMAN_REVIEW]
  | DeployOutcome.WAITING_FOR_USER_SECRET => [StoryStatus.WAITING_USER_SECRET]
  | _ => [StoryStatus.FAILED]
  end.

(** A result no model accepts fails the story; a deploy still running, or superseded
    without a result, leaves it. *)
Definition run_endings (r : Run) : list StoryStatus.t :=
  if negb (RunDTO_valid r) then [StoryStatus.FAILED]
  else if is_live_status r then []
  else match r.(r_result) with
       | Some (DeployResult d) => outcome_endings d.(dr_deploy_outcome)
       | _ => []
       end.

(** The statuses the latest deploy run of a story may lead it to. *)
Definition may_become (d : Database) (sid x : string) : Prop :=
  ∃ r a, latest_run d sid RunType.DEPLOY r ∧ a ∈ run_endings r ∧ x = value a.

Lemma same_verdict_endings r r' : same_verdict r r' → run_endings r = run_endings r'.
Proof. intros H. exact (f_equal run_endings H). Qed.
Lemma may_become_before d d' sid x : untouched sid d d' → may_become d' sid x → may_become d sid x.
Proof.
  intros (_ & _ & Hruns) (r' & a & Hr' & Ha & ->).
  destruct (latest_run_before _ _ d d' r' Hruns Hr') as (r & Hr & Hs). exists r, a.
  by rewrite (same_verdict_endings r r').
Qed.

Section tick.
Context (E : env) `{!Alone E} `{ExceptionTexts} `{SupervisorConfig}.

(** The turns that follow any outcome but a success, for every relation that frames
    the story. *)
Lemma keeps_turn_other_routes counts sid p run result may R `{!StoryFrame E sid may R} :
  result.(dr_deploy_outcome) ≠ DeployOutcome.SUCCESS →
  (∀ a, a ∈ outcome_endings result.(dr_deploy_outcome) → may (value a)) →
  keeps E R (route_deploy counts sid p run result).
Proof.
  intros Hne Hmay. unfold route_deploy, handle_deploy_give_up.
  destruct (dr_deploy_outcome result); [done|..]; cbn in Hmay;
    (apply guar_bind; [apply _| |intros; by apply guar_ret, _]);
    lazymatch goal with
    | |- guar _ (handle_deploy_code_fix _ _ _ _) => apply (keeps_turn_fix E _ may _)
    | |- guar _ (handle_deploy_retry _ _ _) => apply (keeps_turn_retry E _ may _)
    | |- guar _ (route_refused_deploy _ _ _ _) => apply (keeps_turn_refused E _ may _)
    | |- guar _ (handle_deploy_waiting_user_secret _ _ _) => apply (keeps_turn_secret E _ may _)
    | |- _ => apply (keeps_turn_fail_with E _ may _)
    end; apply Hmay; set_solver.
Qed.
Lemma keeps_turn_route counts sid p run result may :
  (∀ a, a ∈ outcome_endings result.(dr_deploy_outcome) → may (value a)) →
  keeps E (turn_of sid may) (route_deploy counts sid p run result).
Proof.
  intros Hmay. destruct (decide (result.(dr_deploy_outcome) = DeployOutcome.SUCCESS)) as [Ho|Hne];
    [|by apply (keeps_turn_other_routes _ _ _ _ _ may (turn_of sid may))].
  unfold route_deploy. rewrite Ho in *. apply guar_bind; [apply _| |intros; by apply guar_ret, _].
  apply (keeps_turn_success E _ may _); apply Hmay; set_solver.
Qed.

Lemma exec_deploying_story counts st s :
  st.(s_id) ≠ "" →
  exec E (supervise_deploying_story counts st) s
    (λ _ s', turn_of st.(s_id) (may_become s.(db) st.(s_id)) s s').
Proof.
  intros Hid. unfold supervise_deploying_story.
  apply exec_bind, (exec_latest_run_or_fail E st.(s_id) _ _ (may_become s.(db) st.(s_id))); [done|..].
  - intros r Hr Hv. exists r, StoryStatus.FAILED. unfold run_endings. rewrite Hv. set_solver.
  - done.
  - intros s' Hs'. by apply exec_ret.
  - apply exec_ret. reflexivity.
  - intros r Hr Hv. cbn. destruct (is_live_status r) eqn:Hl; [apply exec_ret; reflexivity|].
    destruct (r_result r) as [[|res| |]|] eqn:Hres; try (apply exec_raise || apply exec_ret; reflexivity).
    apply (exec_keeps E _), keeps_turn_route. intros a Ha. exists r, a.
    unfold run_endings. rewrite Hv, Hl, Hres. done.
Qed.
End tick.
(** C24 (safety).  Whatever calls fail, a tick over the deploying stories moves a story
    only where the outcome of its latest deploy run leads: a success to TESTING, a
    code fix back to IN_PROGRESS, a missing secret to WAITING_USER_SECRET, a refused
    placement to a human and never to FAILED; a deploy that still runs, or was
    superseded, moves nothing. *)
Theorem deploy_outcomes_decide_the_stories `{ExceptionTexts} `{SupervisorConfig} w sid st :
  in_env faulty w → well_keyed w.(shared).(db) → w.(shared).(db).(stories) !! "" = None →
  w.(shared).(db).(stories) !! sid = Some st →
  ∃ st', (supervise_deploying_stories w).2.(shared).(db).(stories) !! sid = Some st' ∧
    (st'.(s_status) = st.(s_status) ∨
     st.(s_status) = value StoryStatus.DEPLOYING ∧
     ∃ r a, latest_run w.(shared).(db) sid RunType.DEPLOY r ∧ a ∈ run_endings r ∧ st'.(s_status) = value a).
Proof.
  intros Hw (_ & Hks & Hkr & _) Hempty Hst.
  destruct (exec_tick faulty StoryStatus.DEPLOYING may_become may_become_before supervise_deploying_story
    no_deploys w.(shared)) with w as [_ Hled]; [|by split|done..|].
  - intros. by apply (exec_deploying_story faulty).
  - exact (Hled sid st Hst).
Qed.

(** ** A tick over the stories that wait for a secret *)

(** Back to DEPLOYING once the project holds every key the deploy misses. *)
Definition may_resume (d : Database) (sid x : string) : Prop :=
  x = value StoryStatus.FAILED ∨
  x = value StoryStatus.DEPLOYING ∧ ∃ st r result keys,
    d.(stories) !! sid = Some st ∧ latest_run d sid RunType.DEPLOY r ∧
    r.(r_result) = Some (DeployResult result) ∧ (list_secret_keys st.(s_project_id) d).1 = Ok keys ∧
    result.(dr_missing_user_secrets) ≠ [] ∧
    ∀ m, m ∈ result.(dr_missing_user_secrets) → m.(ms_key) ∈ keys.

Lemma same_verdict_result r r' : same_verdict r r' → r.(r_result) = r'.(r_result).
Proof. intros H. exact (f_equal r_result H). Qed.
Lemma list_secret_keys_same p d d' :
  d'.(projects) = d.(projects) → (list_secret_keys p d').1 = (list_secret_keys p d).1.
Proof.
  intros Hp. unfold list_secret_keys, get_project, mbind, M_bind, gets. cbn. rewrite Hp.
  destruct (projects d !! p) as [q|]; cbn; [|done].
  destruct (doc_truthy _); cbn; [|done]. by destruct (get _ _).
Qed.
Lemma may_resume_before d d' sid x : untouched sid d d' → may_resume d' sid x → may_resume d sid x.
Proof.
  intros (Hst & Hp & Hruns) [->|(-> & st & r' & result & keys & Hrow & Hr' & Hres & Hkeys & Hmiss)];
    [by left|right]. split; [done|].
  destruct (latest_run_before _ _ d d' r' Hruns Hr') as (r & Hr & Hs). exists st, r, result, keys.
  rewrite (same_verdict_result r r'), <-(list_secret_keys_same _ d d') by done. by rewrite <-Hst.
Qed.

Lemma exec_waiting_story E `{!Alone E} `{ExceptionTexts} counts st s :
  st.(s_id) ≠ "" → s.(db).(stories) !! st.(s_id) = Some st →
  exec E (supervise_waiting_user_secret_story counts st) s
    (λ _ s', turn_of st.(s_id) (may_resume s.(db) st.(s_id)) s s').
Proof.
  intros Hid Hrow. unfold supervise_waiting_user_secret_story.
  apply exec_bind, (exec_latest_run_or_fail E st.(s_id) _ _ (may_resume s.(db) st.(s_id))); [done|..].
  - by left.
  - done.
  - intros s' Hs'. by apply exec_ret.
  - apply exec_ret. reflexivity.
  - intros r Hr Hv. cbn. destruct (r_result r) as [[|res| |]|] eqn:Hres;
      try (apply exec_raise || apply exec_ret; reflexivity).
    case_decide as Hmiss; [apply exec_ret; reflexivity|].
    apply exec_bind, exec_read; [apply _|auto with reads|]. intros s' ->%alone. split; [|intros _; reflexivity].
    destruct (list_secret_keys (s_project_id st) (db s)).1 as [keys|e] eqn:Hkeys; [|destruct e; cbn; reflexivity].
    cbn. destruct (forallb _ _) eqn:Hall; cbn; [|apply exec_ret; reflexivity].
    apply (exec_keeps E (turn_of st.(s_id) (may_resume s.(db) st.(s_id)))). apply guar_bind; [apply _| |].
    + assert (may_resume (db s) (s_id st) (value StoryStatus.DEPLOYING)) as Hdep.
      { right. split; [done|]. exists st, r, res, keys. split_and!; [done..| |].
        - intros He. apply Hmiss. by rewrite He.
        - intros m Hm. rewrite forallb_forall in Hall.
          specialize (Hall m.(ms_key)). rewrite bool_decide_eq_true in Hall. apply Hall.
          apply list_elem_of_In. by apply list_elem_of_fmap_2. }
      unfold redispatch_waiting_deploy, new_deploy_run_id.
      assert (may_resume (db s) (s_id st) (value StoryStatus.FAILED)) as Hfail by (by left).
      pose proof (keeps_turn_redispatch E (s_id st) (may_resume (db s) (s_id st))). guar_auto.
    + intros. by apply guar_ret, _.
Qed.

(**  A deploy paused for the user's secrets resumes only once the project
    holds every key it misses: whatever calls fail, a tick over the waiting stories
    leaves a story waiting, fails it, or moves it to DEPLOYING with all its keys
    there. *)
Theorem deploy_resumes_with_every_secret `{ExceptionTexts} w sid st :
  in_env faulty w → well_keyed w.(shared).(db) → w.(shared).(db).(stories) !! "" = None →
  w.(shared).(db).(stories) !! sid = Some st →
  ∃ st', (supervise_waiting_user_secret_stories w).2.(shared).(db).(stories) !! sid = Some st' ∧
    (st'.(s_status) = st.(s_status) ∨
     st.(s_status) = value StoryStatus.WAITING_USER_SECRET ∧
       may_resume w.(shared).(db) sid st'.(s_status)).
Proof.
  intros Hw (_ & Hks & Hkr & _) Hempty Hst.
  destruct (exec_tick faulty StoryStatus.WAITING_USER_SECRET may_resume may_resume_before
    supervise_waiting_user_secret_story (0, 0) w.(shared)) with w as [_ Hled]; [|by split|done..|].
  - intros. by apply (exec_waiting_story faulty).
  - exact (Hled sid st Hst).
Qed.

(** ** Concrete worlds *)

#[local] Existing Instance sample_texts.
#[local] Existing Instance config.

Definition the_sha : string := "0123456789abcdef0123456789abcdef01234567".
Definition deploy_result (o : DeployOutcome.t) (reason : option AllocationFailureReason.t)
    (missing : list MissingUserSecret) : DeployRunResult :=
  mkDeployRunResult o (Some "https://bot.example") (Some 3) None false 0 None missing None None None reason
    (Some 512) (Some 1024).
Definition ended_deploy (result : DeployRunResult) : Run :=
  mkRun "deploy-1" "deploy" "completed" (Some "p1") None {[ "head_sha" := MStr the_sha ]}
    (Some (DeployResult result)) None (Some 0) (Some "s1") None 0.
(** A story in [status], its deploy ended with [result]. *)
Definition deploy_world (status : StoryStatus.t) (result : DeployRunResult) (turns : list turn) : World :=
  let w := todo_world [] turns in
  w <| shared ::= λ s, (s <| clock := 60 * MINUTE |>) <| db := (s.(db)
    <| stories := {[ "s1" := building_story <| s_status := value status |> ]} |>)
    <| runs := {[ "deploy-1" := ended_deploy result ]} |>
    <| repositories := {[ "repo1" := mkRepository "repo1" "p1" "bot" "git@github.com:o/bot.git" "primary"
         (Some "it echoes") (Some "echo_bot") 0 ]} |> |> |>.
Definition statuses_of (w : World) : option string * list (string * string) * list string :=
  (s_status <$> w.(shared).(db).(stories) !! "s1", run_statuses w, fst <$> w.(shared).(redis).(streams)).

Definition deploy_tick (o : DeployOutcome.t) (reason : option AllocationFailureReason.t) (turns : list turn) : World :=
  (supervise_deploying_stories (deploy_world StoryStatus.DEPLOYING (deploy_result o reason []) turns)).2.

Example deploys_are_routed :
  statuses_of (deploy_tick DeployOutcome.SUCCESS None []) =
    (Some "testing", [("qa-deploy-1", "queued"); ("deploy-1", "completed")], ["qa:queue"]) ∧
  statuses_of (deploy_tick DeployOutcome.CODE_FIX None []) =
    (Some "in_progress", [("eng-deploy-fix-deploy-1-1", "queued"); ("deploy-1", "completed")],
     ["engineering:queue"]) ∧
  statuses_of (deploy_tick DeployOutcome.RETRY None []) =
    (Some "deploying", [("deploy-1", "completed"); ("deploy-retry-c0ffee00", "queued")], ["deploy:queue"]) ∧
  statuses_of (deploy_tick DeployOutcome.WAITING_INFRASTRUCTURE
      (Some AllocationFailureReason.IMPOSSIBLE_CAPACITY) []) =
    (Some "waiting_human_review", [("deploy-1", "completed")], ["po:input"]).
Proof. split_and!; by vm_compute. Qed.

(** A request no server can hold, the call that writes its reason losing its answer. *)
Definition refused_world : World :=
  deploy_world StoryStatus.DEPLOYING
    (deploy_result DeployOutcome.WAITING_INFRASTRUCTURE (Some AllocationFailureReason.IMPOSSIBLE_CAPACITY) [])
    (calls_before 2 [LostReply]).
Lemma deploy_outcomes_decide_the_stories_witness :
  ∃ st', (supervise_deploying_stories refused_world).2.(shared).(db).(stories) !! "s1" = Some st' ∧
    st'.(s_status) ≠ "failed".
Proof.
  destruct (deploy_outcomes_decide_the_stories refused_world "s1"
    (building_story <| s_status := value StoryStatus.DEPLOYING |>)) as (st' & Hst' & Hcase);
    [split; [vm_compute; repeat constructor; done|done]|apply well_keyed_true; by vm_compute
    |by vm_compute|by vm_compute|].
  exists st'. split; [exact Hst'|]. destruct Hcase as [->|(_ & r & a & Hr & Ha & ->)]; [done|].
  destruct Hr as ([i Hi] & _).
  change (({[ "deploy-1" := ended_deploy (deploy_result DeployOutcome.WAITING_INFRASTRUCTURE
    (Some AllocationFailureReason.IMPOSSIBLE_CAPACITY) []) ]} : gmap string Run) !! i = Some r) in Hi.
  apply lookup_singleton_Some in Hi as [_ <-]. vm_compute in Ha. by inversion Ha as [|? ? ? Hn]; [|inversion Hn].
Defined.

Definition secret_world (saved : list string) : World :=
  let w := deploy_world StoryStatus.WAITING_USER_SECRET (deploy_result DeployOutcome.WAITING_FOR_USER_SECRET None
    [mkMissingUserSecret "TOKEN" "the bot token"; mkMissingUserSecret "KEY" "the API key"]) [] in
  w <| shared ::= λ s, s <| db := s.(db)
    <| projects := {[ "p1" := bot_project <| p_config := [("secrets", DMap ((λ k, (k, DStr "***")) <$> saved))] |> ]} |> |> |>.
Example one_secret_is_not_enough :
  statuses_of (supervise_waiting_user_secret_stories (secret_world ["TOKEN"])).2 =
    (Some "waiting_user_secret", [("deploy-1", "completed")], []) ∧
  statuses_of (supervise_waiting_user_secret_stories (secret_world ["TOKEN"; "KEY"])).2 =
    (Some "deploying", [("deploy-secret-c0ffee00", "queued"); ("deploy-1", "completed")], ["deploy:queue"]).
Proof. split; by vm_compute. Qed.
Lemma deploy_resumes_with_every_secret_witness :
  ∃ st', (supervise_waiting_user_secret_stories (secret_world ["TOKEN"])).2.(shared).(db).(stories) !! "s1"
    = Some st'.
Proof.
  destruct (deploy_resumes_with_every_secret (secret_world ["TOKEN"]) "s1"
    (building_story <| s_status := value StoryStatus.WAITING_USER_SECRET |>)) as (st' & Hst' & _);
    [split; [vm_compute; repeat constructor; done|done]|apply well_keyed_true; by vm_compute
    |by vm_compute|by vm_compute|].
  by exists st'.
Defined.

(** The run of a retried deploy is created before its recipient is looked
    up: when that lookup fails, the run stays queued and no message names it.  Every
    later tick, a year later too, finds a queued run and waits for it: the story stays
    in DEPLOYING, with nothing counted and nobody told. *)
Theorem lost_lookup_strands_the_deploy :
  let w1 := deploy_tick DeployOutcome.RETRY None (calls_before 5 [Lost]) in
  let later := restarted [] w1 <| shared ::= λ s, s <| clock := 525600 * MINUTE |> |> in
  let '(r, w2) := supervise_deploying_stories later in
  statuses_of w1 = (Some "deploying", [("deploy-1", "completed"); ("deploy-retry-c0ffee00", "queued")], []) ∧
  r = Ok no_deploys ∧ w2.(shared) = later.(shared) ∧ w2.(alerts) = w1.(alerts).
Proof. by vm_compute. Qed.
