(* ===== verification/QAHandoff.v ===== *)
(** * QAHandoff: from a deploy to its QA run, and what a crash leaves of it

    The handoff of [SupervisorDeploy] commits in an order: the QA run with its whole
    plan, the story, the message.  Here is what that order is for: a story under test
    has its plan on record wherever the process dies, and the recovery of
    [SupervisorTesting] finishes from the record what the crash left. *)

From S2P Require Import Prelude Vocabulary Contracts Db Api ApiTasks ApiStories ApiRuns ApiActions.
From S2P Require Import Placement World SchedulerClient Recipients OwnerNotifications.
From S2P Require Import WorkerLiveness Dispatcher Frames TemporaryAccess SupervisorTasks SupervisorDeploy.
From S2P Require Import SupervisorTesting StoryTurns DeployRouting.

(** ** What a story under test has on record *)

(** The QA run [qid] of the story, with a plan its recovery can read. *)
Definition planned (sid qid : string) (d : Database) : Prop :=
  ∃ q plan, d.(runs) !! qid = Some q ∧ q.(r_story_id) = Some sid ∧ q.(r_type) = value RunType.QA ∧
    read_plan (meta_get QA_HANDOFF_KEY q.(r_run_metadata)) = Ok plan ∧
    plan.(hp_qa_message).(qm_story_id) = sid ∧ plan.(hp_qa_message).(qm_run_id) = qid.

Definition under_test (sid : string) (d : Database) : Prop :=
  ∃ st, d.(stories) !! sid = Some st ∧ st.(s_status) = value StoryStatus.TESTING.

Definition qa_messages (s : Shared) (m : QAMessage) : Prop := (QA_QUEUE, QAMsg m) ∈ s.(redis).(streams).

(** A plan on record stays; a story comes under test, and a message goes to QA, only
    with the plan on record. *)
Definition on_plan (sid qid : string) (s s' : Shared) : Prop :=
  turn_of sid (λ _, True) s s' ∧ (keyed s.(db) →
  (planned sid qid s.(db) → planned sid qid s'.(db)) ∧
  (under_test sid s'.(db) → under_test sid s.(db) ∨ planned sid qid s'.(db)) ∧
  (∀ m, qa_messages s' m → qa_messages s m ∨
     m.(qm_story_id) = sid ∧ m.(qm_run_id) = qid ∧ planned sid qid s'.(db))).

#[export] Instance on_plan_preorder sid qid : PreOrder (on_plan sid qid).
Proof.
  split.
  - intros s. split; [reflexivity|]. auto.
  - intros s1 s2 s3 [Ht H12] [Ht' H23]. split; [by etransitivity|]. intros Hk.
    destruct (H12 Hk) as (Hp & Hu & Hm). destruct (H23 (proj1 (Ht Hk))) as (Hp' & Hu' & Hm').
    split; [auto|]. split; [intros H3; destruct (Hu' H3) as [H|]; [destruct (Hu H); auto|auto]|].
    intros m Hin. destruct (Hm' m Hin) as [H|]; [|auto]. destruct (Hm m H) as [|(? & ? & ?)]; auto.
Qed.

(** A turn that touches neither the stories and runs nor the messages. *)
Lemma on_plan_rows sid qid s s' :
  turn_of sid (λ _, True) s s' → s'.(db).(stories) = s.(db).(stories) → s'.(db).(runs) = s.(db).(runs) →
  (∀ m, qa_messages s' m → qa_messages s m) → on_plan sid qid s s'.
Proof.
  intros Ht Hs Hr Hm. split; [done|]. intros _. unfold planned, under_test. rewrite Hs, Hr. auto.
Qed.
#[export] Instance on_plan_tasks sid qid : IgnoresTasks (on_plan sid qid).
Proof. intros s d Hd. apply on_plan_rows; [by apply turn_of_tasks|by rewrite Hd..|done]. Qed.
#[export] Instance on_plan_grants sid qid : IgnoresGrants (on_plan sid qid).
Proof. intros s d Hd. apply on_plan_rows; [by apply turn_of_grants|by rewrite Hd..|done]. Qed.
#[export] Instance on_plan_keys sid qid : IgnoresKeys (on_plan sid qid).
Proof.
  intros s r Hr. apply on_plan_rows; [by apply turn_of_redis|done..|].
  intros m. unfold qa_messages. cbn. by rewrite Hr.
Qed.
#[export] Instance on_plan_messages sid qid : IgnoresMessages (on_plan sid qid).
Proof.
  intros s stream msg Hne. apply on_plan_rows; [by apply turn_of_redis|done..|].
  intros m. unfold qa_messages. cbn. rewrite elem_of_app, list_elem_of_singleton.
  intros [?|[= <- _]]; [done|]. by contradict Hne.
Qed.

(** A run that replaces one with the same plan, or joins. *)
Lemma on_plan_put_run sid qid s r :
  turn_of sid (λ _, True) s (s <| db := put_run r s.(db) |>) →
  (r.(r_id) = qid → planned sid qid s.(db) → planned sid qid (put_run r s.(db))) →
  on_plan sid qid s (s <| db := put_run r s.(db) |>).
Proof.
  intros Ht Hq. split; [done|]. intros Hk. split; [|split; [by left|by left]].
  intros Hp. destruct (decide (r.(r_id) = qid)) as [He|Hne]; [by apply Hq|].
  destruct Hp as (q & plan & Hrow & Hrest). exists q, plan. split; [|done]. cbn. by rewrite lookup_insert_ne.
Qed.
#[export] Instance on_plan_patches sid qid : IgnoresPatches (on_plan sid qid).
Proof.
  intros s id m Hm. pose proof (turn_of_patches sid (λ _, True) s id m Hm) as Ht.
  unfold patched in *. destruct (runs s.(db) !! id) as [r|] eqn:E; [|by apply on_plan_rows].
  split; [done|]. intros Hk. assert (r.(r_id) = id) as Hid by (by apply Hk).
  destruct (on_plan_put_run sid qid s _ Ht) as [_ Hkept]; [|by apply Hkept].
  cbn. rewrite Hid. intros -> (q & plan & Hq & Hst & Hty & Hplan & Hrest).
  rewrite E in Hq. injection Hq as <-. eexists _, plan. cbn. rewrite Hid, lookup_insert_eq.
  split; [done|]. cbn. split; [done|]. split; [done|]. split; [|done].
  rewrite <-Hplan. unfold meta_get, merge. by rewrite lookup_union_r.
Qed.
#[export] Instance on_plan_new_run sid qid st :
  IgnoresNewRun (turn_of sid (λ _, True)) st → IgnoresNewRun (on_plan sid qid) st.
Proof.
  intros Hturn s r Hfree Hst. apply on_plan_put_run; [by apply Hturn|].
  intros <- (q & plan & Hq & _). congruence.
Qed.

(** A story that stays, or moves elsewhere. *)
Lemma on_plan_put_story sid qid s st st' :
  s.(db).(stories) !! sid = Some st → st'.(s_id) = st.(s_id) →
  st'.(s_status) = st.(s_status) ∨ st'.(s_status) ≠ value StoryStatus.TESTING →
  on_plan sid qid s (s <| db := put_story st' s.(db) |>).
Proof.
  intros Hst Hid Hmoved. split; [by eapply turn_of_put_story; eauto|].
  intros Hk. split; [done|]. split; [|by left].
  assert (st.(s_id) = sid) as Hsid by (by apply Hk). intros (x & Hx & Ht). cbn in Hx.
  rewrite Hid, Hsid, lookup_insert_eq in Hx. injection Hx as <-. left. exists st. split; [done|].
  destruct Hmoved as [<-|]; done.
Qed.

#[export] Instance on_plan_frame E `{!Alone E} sid qid :
  StoryFrame E sid (λ x, x ≠ value StoryStatus.TESTING) (on_plan sid qid).
Proof.
  split; try apply _.
  - intros to action Hto Hmay. apply keeps_exec. intros s.
    apply (exec_transition_story E); [intros _; reflexivity|]. intros to' st r Hto' Hst _ _.
    rewrite Hto in Hto'. injection Hto' as <-. eapply on_plan_put_story; [exact Hst|done|by right].
  - intros data. apply keeps_exec. intros s. apply (exec_update_story E); [intros _; reflexivity|].
    intros st st' r Hst Hf _. apply set_story_fields_keeps in Hf as (Hid & Hs & _).
    eapply on_plan_put_story; [exact Hst|done|by left].
Qed.

(** ** The handoff *)

Section handoff.
Context (E : env) `{!Alone E} (sid qid : string).

Lemma exec_create_if_absent body s (Q : res Run → Shared → Prop) :
  (∀ e, Q (Exc e) s) →
  (∀ q, s.(db).(runs) !! body.(rc_id) = Some q → Q (Ok q) s) →
  (∀ r, s.(db).(runs) !! body.(rc_id) = None →
     Q r (s <| db := put_run (new_run s.(clock) body) s.(db) |>)) →
  exec E (api_create_run_if_absent body) s Q.
Proof.
  intros He Hold Hnew. apply exec_bind, exec_bind, exec_none_if_missing, exec_read; [apply _|auto with reads|].
  intros s' ->%alone. split; [|intros _; rewrite decide_False by done; apply He].
  assert (over_http (get_run service body.(rc_id) s.(db)).1 =
    match s.(db).(runs) !! body.(rc_id) with Some q => Ok q | None => Exc NOT_FOUND end) as ->.
  { unfold get_run, lock_run, check_run_access, mbind, M_bind, gets. cbn.
    by destruct (runs s.(db) !! rc_id body). }
  destruct (runs s.(db) !! rc_id body) as [q|] eqn:Hq.
  - apply exec_bind, exec_model_validate; intros _; [|apply He].
    apply exec_ret. cbn. apply exec_ret. auto.
  - rewrite decide_True by done. apply exec_ret. cbn. apply (exec_creates_run E); [done|].
    intros r Hfree _. by apply Hnew.
Qed.

(** What [execute_qa_handoff] may do once the plan is on record. *)
Lemma exec_handoff s s1 plan :
  on_plan sid qid s s1 → keyed s.(db) → planned sid qid s1.(db) →
  plan.(hp_qa_message).(qm_story_id) = sid → plan.(hp_qa_message).(qm_run_id) = qid →
  exec E (execute_qa_handoff qid plan) s1 (λ _ s', on_plan sid qid s s').
Proof.
  intros Hs Hk Hplan Hsid Hqid. unfold execute_qa_handoff. destruct (hp_access plan).
  { eapply exec_mono; [apply (exec_keeps E (on_plan sid qid)); guar_auto|].
    intros r s' Hs'. by etransitivity. }
  assert (keyed s1.(db)) as Hk1 by (by apply Hs).
  set (s2 := s1 <| redis ::= λ r, r <| streams ::= λ l, l ++ [(QA_QUEUE, QAMsg (hp_qa_message plan))] |> |>).
  assert (on_plan sid qid s1 s2) as H12.
  { split; [apply turn_of_redis|]. intros _. split; [done|]. split; [by left|].
    intros m Hm. unfold qa_messages in *. cbn in Hm.
    rewrite elem_of_app, list_elem_of_singleton in Hm. destruct Hm as [?|[= ->]]; [by left|by right]. }
  apply exec_bind, exec_publish; [apply _|]. intros s' ->%alone.
  split; [|intros _; split; [by etransitivity|done]].
  eapply exec_mono; [apply (exec_keeps E (on_plan sid qid)); guar_auto|].
  intros r s' Hs'. etransitivity; [exact Hs|]. by etransitivity.
Qed.

(** From the run to the message; an existing run of this id has the plan already. *)
Lemma exec_start_qa p initiating url app repo run result needed s :
  keyed s.(db) → qid = qa_run_id_for_deploy run.(r_id) →
  (is_Some (s.(db).(runs) !! qid) → planned sid qid s.(db)) →
  exec E (start_qa sid p initiating url app repo run result needed) s (λ _ s', on_plan sid qid s s').
Proof.
  intros Hk Hqid Hold. unfold start_qa. rewrite <-Hqid.
  apply exec_bind. eapply exec_mono; [apply (exec_keeps E (=)); guar_auto|].
  intros [to|e] s1 <-; [|reflexivity].
  set (msg := qa_message_of _ _ _ _ _ _ _ _ _).
  apply exec_bind, exec_guard_not; [|reflexivity]. intros Hmsg%negb_false_iff.
  apply exec_bind. eapply (exec_mono _ _ _ (λ r s', s' = s ∧ ∀ a, r = Ok (Some a) →
    is_Some (CommitSha (ta_head_sha a)))).
  { destruct needed; [|by apply exec_ret].
    unfold access_request. destruct (head_sha_text _) as [text|]; [|by apply exec_bind, exec_of_res].
    destruct (CommitSha text) as [sha|] eqn:Hsha; [|by apply exec_bind, exec_of_res].
    apply exec_bind, exec_of_res, exec_ret. split; [done|]. intros a [= <-]. cbn.
    rewrite (CommitSha_idemp text sha) by done. by eexists. }
  intros [access|e] s1 [-> Hacc]; [|reflexivity]. set (plan := mkQAHandoffPlan msg access).
  assert (∀ s1, on_plan sid qid s s1 → planned sid qid s1.(db) →
    exec E (api_transition_story sid "test";; execute_qa_handoff qid plan) s1 (λ _ s', on_plan sid qid s s')) as Hrest.
  { intros s1 Hs1 Hp. assert (keyed s1.(db)) as Hk1 by (by apply Hs1).
    apply exec_bind, (exec_transition_story E); [done|]. intros to' st r Hto Hst _ _.
    set (s2 := s1 <| db := moved_story to' st s1.(db) |>).
    assert (on_plan sid qid s1 s2) as H12.
    { split; [eapply turn_of_put_story; [exact Hst|done|by right]|]. intros _.
      split; [done|]. split; [by right|by left]. }
    destruct r as [a|e]; [|by etransitivity]. apply exec_handoff; [by etransitivity|done|by apply H12|done..]. }
  apply exec_bind, exec_create_if_absent; cbn [rc_id].
  - intros e. reflexivity.
  - intros q Hq. apply Hrest; [reflexivity|]. apply Hold. by exists q.
  - intros r Hfree. set (q := new_run _ _). 
    assert (on_plan sid qid s (s <| db := put_run q s.(db) |>)) as Hs1.
    { apply on_plan_new_run with (Some sid); [apply _|done|done]. }
    destruct r as [a|e]; [|done]. apply Hrest; [done|].
    exists q, plan. split; [apply lookup_insert_eq|]. split; [done|]. split; [done|]. split; [|done].
    assert (r_run_metadata q !! QA_HANDOFF_KEY = Some (MHandoff plan)) as Hplan by (by vm_compute).
    unfold meta_get. rewrite Hplan. unfold read_plan. change (hp_qa_message plan) with msg. rewrite Hmsg.
    unfold plan. destruct access as [acc|]; [|done]. cbn. by rewrite bool_decide_eq_true_2 by (by apply Hacc).
Qed.

Lemma exec_handed_off p run result s :
  keyed s.(db) → qid = qa_run_id_for_deploy run.(r_id) →
  (is_Some (s.(db).(runs) !! qid) → planned sid qid s.(db)) →
  exec E (handle_deploy_success_story sid p run result) s (λ _ s', on_plan sid qid s s').
Proof.
  intros Hk Hqid Hold. unfold handle_deploy_success_story.
  assert (∀ error, exec E (fail_with sid sid p error;; mret false) s (λ _ s', on_plan sid qid s s')) as Hrefuse.
  { intros error. apply (exec_keeps E (on_plan sid qid)), guar_bind; [apply _| |intros; by apply guar_ret, _].
    by apply (keeps_turn_fail_with E sid (λ x, x ≠ value StoryStatus.TESTING) _). }
  destruct (dr_deployed_url result) as [url|]; [|apply Hrefuse].
  destruct (dr_application_id result) as [app|]; [|apply Hrefuse].
  unfold resolve_qa_repository. apply exec_bind. eapply exec_mono; [apply (exec_keeps E (=)); guar_auto|].
  intros [[repo|]|e] s1 <-; [|apply Hrefuse|reflexivity].
  apply exec_bind. eapply exec_mono; [apply (exec_keeps E (=)); guar_auto|].
  intros [[project|]|e] s1 <-; [|apply Hrefuse|reflexivity].
  destruct (require_initiating_run project) as [initiating|]; [|apply Hrefuse].
  destruct (_ && _); [apply Hrefuse|].
  apply exec_bind. eapply exec_mono; [by apply exec_start_qa|]. intros [[]|e] s' Hs'; [by apply exec_ret|done].
Qed.
End handoff.

(** ** The turn of one deploying story *)

(** The QA run this deploy starts is not there yet, or has the plan of its story. *)
Definition handoffs_are_planned (d : Database) (sid : string) : Prop :=
  ∀ r, latest_run d sid RunType.DEPLOY r →
    is_Some (d.(runs) !! qa_run_id_for_deploy r.(r_id)) → planned sid (qa_run_id_for_deploy r.(r_id)) d.

Lemma exec_planned_story E `{!Alone E} `{ExceptionTexts} `{SupervisorConfig} counts st s :
  keyed s.(db) → st.(s_id) ≠ "" → handoffs_are_planned s.(db) st.(s_id) →
  exec E (supervise_deploying_story counts st) s (λ _ s', s' = s ∨
    ∃ r, latest_run s.(db) st.(s_id) RunType.DEPLOY r ∧
      on_plan st.(s_id) (qa_run_id_for_deploy r.(r_id)) s s').
Proof.
  intros Hk Hid Hplans. unfold supervise_deploying_story, latest_run_or_fail, fail_story_on_invalid_result.
  apply exec_bind, exec_bind, exec_attempt, (exec_latest_run E); [done|..].
  - intros _. rewrite decide_False by done. apply exec_raise. by left.
  - intros _. apply exec_ret. cbn. apply exec_ret. by left.
  - intros r Hr. destruct (RunDTO_valid r) eqn:Hv.
    + apply exec_ret. cbn. destruct (is_live_status r); [apply exec_ret; by left|].
      destruct (r_result r) as [[|res| |]|]; try (apply exec_raise || apply exec_ret; by left).
      eapply (exec_mono _ _ _ (λ _ s', on_plan st.(s_id) (qa_run_id_for_deploy r.(r_id)) s s'));
        [|intros x s' Hs'; right; by exists r].
      destruct (decide (res.(dr_deploy_outcome) = DeployOutcome.SUCCESS)) as [Ho|Hne].
      * unfold route_deploy. rewrite Ho. apply exec_bind. eapply exec_mono.
        -- apply (exec_handed_off E _ (qa_run_id_for_deploy r.(r_id))); [done..|by apply Hplans].
        -- intros [b|e] s' Hs'; [by apply exec_ret|done].
      * apply (exec_keeps E _), (keeps_turn_other_routes E _ _ _ _ _ (λ x, x ≠ value StoryStatus.TESTING)
             (on_plan st.(s_id) (qa_run_id_for_deploy r.(r_id)))); [done|].
        intros a Ha. by destruct (dr_deploy_outcome res), a; try done; cbn in Ha; set_solver.
    + apply exec_bind. eapply (exec_mono _ _ _ (λ _ s', on_plan st.(s_id) (qa_run_id_for_deploy r.(r_id)) s s')).
      * apply (exec_keeps E _). by apply (keeps_turn_fail_with E st.(s_id) (λ x, x ≠ value StoryStatus.TESTING) _).
      * intros [[]|e] s' Hs'; [apply exec_ret; cbn; apply exec_ret|]; right; by exists r.
Qed.

(** C14 (safety).  No story is under test without a plan.  Whatever calls fail and
    wherever the process dies in the turn of a deploying story: if the story then is
    under test, the QA run of its latest deploy is on record with a plan for this
    story that its recovery can read; and any message the turn sent to QA names that
    run.  So a handoff cut short is finished from the record, and never started
    twice under another name. *)
Theorem a_story_under_test_has_its_plan `{ExceptionTexts} `{SupervisorConfig} counts st w :
  in_env faulty w → well_keyed w.(shared).(db) → st.(s_id) ≠ "" →
  w.(shared).(db).(stories) !! st.(s_id) = Some st → st.(s_status) = value StoryStatus.DEPLOYING →
  handoffs_are_planned w.(shared).(db) st.(s_id) →
  let s' := (supervise_deploying_story counts st w).2.(shared) in
  let its_plan m_run := ∃ r, latest_run w.(shared).(db) st.(s_id) RunType.DEPLOY r ∧
    m_run = qa_run_id_for_deploy r.(r_id) ∧ planned st.(s_id) m_run s'.(db) in
  (under_test st.(s_id) s'.(db) → ∃ qid, its_plan qid) ∧
  (∀ m, qa_messages s' m →
     qa_messages w.(shared) m ∨ m.(qm_story_id) = st.(s_id) ∧ its_plan m.(qm_run_id)).
Proof.
  intros Hw (_ & Hks & Hkr & _) Hid Hst Hdep Hplans. set (s := w.(shared)) in *.
  assert (keyed s.(db)) as Hk by done. assert (¬ under_test st.(s_id) s.(db)) as Hnot.
  { intros (x & Hx & Ht). rewrite Hst in Hx. injection Hx as <-. by rewrite Hdep in Ht. }
  assert (exec faulty (supervise_deploying_story counts st) s (λ _ s', s' = s ∨
    ∃ r, latest_run s.(db) st.(s_id) RunType.DEPLOY r ∧
      on_plan st.(s_id) (qa_run_id_for_deploy r.(r_id)) s s')) as Hex by by apply exec_planned_story.
  intros s' its_plan. destruct (Hex w eq_refl Hw) as [_ [Hs'|(r & Hr & _ & Hon)]].
  { unfold s'. rewrite Hs'. split; [done|by left]. }
  destruct (Hon Hk) as (_ & Hu & Hm).
  split; [intros Hut; destruct (Hu Hut); [done|by exists (qa_run_id_for_deploy r.(r_id)), r]|].
  intros m Hin. destruct (Hm m Hin) as [|(? & Hrun & Hp)]; [by left|right]. split; [done|].
  exists r. by rewrite Hrun.
Qed.

(** ** The recovery *)


(** ** Concrete worlds *)

#[local] Existing Instance sample_texts.
#[local] Existing Instance config.
#[local] Instance sample_hash : Sha256 := λ text, text.

(** A successful deploy whose supervisor dies at the call after [n] others. *)
Definition cut_short (n : nat) : World :=
  deploy_world StoryStatus.DEPLOYING (deploy_result DeployOutcome.SUCCESS None [])
    (undisturbed <$> (repeat NoFault n ++ [Killed])).
Definition deploying_story : Story := building_story <| s_status := value StoryStatus.DEPLOYING |>.
Definition at_call (n : nat) : option string * list (string * string) * list string :=
  statuses_of (supervise_deploying_story no_deploys deploying_story (cut_short n)).2.

Example a_crash_leaves_the_story_or_its_plan :
  at_call 6 = (Some "deploying", [("deploy-1", "completed")], []) ∧
  at_call 7 = (Some "deploying", [("qa-deploy-1", "queued"); ("deploy-1", "completed")], []) ∧
  at_call 8 = (Some "testing", [("qa-deploy-1", "queued"); ("deploy-1", "completed")], []) ∧
  at_call 9 = (Some "testing", [("qa-deploy-1", "queued"); ("deploy-1", "completed")], ["qa:queue"]).
Proof. split_and!; by vm_compute. Qed.

(** The process is back two hours later. *)
Definition two_hours_later (w : World) : World := w <| down := false |> <| shared ::= λ s, s <| clock ::= Z.add (120 * MINUTE) |> |>.
Definition after_restart (n : nat) : World :=
  (supervise_testing_stories (two_hours_later (supervise_deploying_story no_deploys deploying_story (cut_short n)).2)).2.
Definition qa_messages_of (w : World) : list string := fst <$> w.(shared).(redis).(streams).

(** The recovery sends the message once: the second tick after it finds the stamp. *)
Example the_restart_finishes_the_handoff :
  qa_messages_of (after_restart 8) = ["qa:queue"] ∧
  qa_messages_of (supervise_testing_stories (two_hours_later (after_restart 8))).2 = ["qa:queue"].
Proof. split; by vm_compute. Qed.

Lemma a_story_under_test_has_its_plan_witness :
  under_test "s1" (supervise_deploying_story no_deploys deploying_story (cut_short 8)).2.(shared).(db) ∧
  ∃ qid, planned "s1" qid (supervise_deploying_story no_deploys deploying_story (cut_short 8)).2.(shared).(db).
Proof.
  assert (under_test "s1" (supervise_deploying_story no_deploys deploying_story (cut_short 8)).2.(shared).(db)) as Hut.
  { eexists. split; [by vm_compute|done]. }
  split; [exact Hut|].
  destruct (a_story_under_test_has_its_plan no_deploys deploying_story (cut_short 8)) as [Hplan _];
    [split; [vm_compute; repeat constructor; done|done]|apply well_keyed_true; by vm_compute
    |by vm_compute|by vm_compute|by vm_compute| |].
  { intros r ([i Hi] & _) [q Hq]. exfalso.
    change (({[ "deploy-1" := ended_deploy (deploy_result DeployOutcome.SUCCESS None []) ]} : gmap string Run)
      !! i = Some r) in Hi. apply lookup_singleton_Some in Hi as [_ <-]. by vm_compute in Hq. }
  destruct (Hplan Hut) as (qid & r & _ & _ & Hp). by exists qid.
Defined.


