(* ===== verification/StoryCompletion.v ===== *)
(** * StoryCompletion: from a story whose tasks are done to its pull request

    [services/scheduler/src/tasks/story_completion.py]: a story in progress whose tasks
    are all done gets a pull request that merges itself, and goes to review; its worker
    is cleaned up and the next story of the project goes to the architect. *)

From Stdlib Require Import Ascii.
From S2P Require Import Prelude Vocabulary Contracts Docs Paths Db Api ApiTasks ApiStories ApiRuns.
From S2P Require Import Placement Github GithubActions GithubPulls World SchedulerClient Recipients.

(** The installation of the GitHub App a scheduler signs its requests with. *)
Class GithubApp := {
  app_jwt : option string;
  parse_expiry : string → option Z;
  strftime : Z → string;
  type_name : exn → string;  (** [type(exc).__name__] *)
  repr :: PyRepr;
}.

(** [url.rstrip("/")] *)
Fixpoint drop_slashes (l : list ascii) : list ascii :=
  match l with "/"%char :: l' => drop_slashes l' | _ => l end.
Definition rstrip_slashes (s : string) : string :=
  String.string_of_list_ascii (rev (drop_slashes (rev (String.list_ascii_of_string s)))).
(** [parts[-2], parts[-1]] *)
Definition last_two (parts : list string) : res (string * string) :=
  match rev parts with b :: a :: _ => Ok (a, b) | _ => Exc IndexError end.
Definition parse_owner_repo (git_url : string) : res (string * string) :=
  let url := rstrip_slashes git_url in
  let url := if ends_with ".git" url then String.substring 0 (String.length url - 4) url else url in
  last_two (split "/"%char url).

Definition cleanup_story_worker (story_id : string) : M World unit :=
  worker_id ← get_story_worker story_id;
  match nonempty_text worker_id with
  | None => mret tt
  | Some worker_id =>
      publish WORKER_COMMANDS
        (DeleteWorkerMsg (mkDeleteWorkerCommand ("cleanup-story-" +:+ story_id) worker_id "completed"));;
      drop_story_worker story_id
  end.

(** [sorted(stories, key=priority)[0]]: the first of the least. *)
Fixpoint first_least (best : option Story) (stories : list Story) : option Story :=
  match stories with
  | [] => best
  | st :: rest =>
      first_least (match best with
                   | Some b => if st.(s_priority) <? b.(s_priority) then Some st else best
                   | None => Some st
                   end) rest
  end.
Definition trigger_next_story (project_id : string) : M World unit :=
  created_stories ← api_get_stories_by_status StoryStatus.CREATED;
  match first_least None (filter (λ s, s.(s_project_id) = project_id) created_stories) with
  | None => mret tt
  | Some next_story =>
      recipient ← resolve_project_recipient project_id "next_story_triggered" next_story.(s_id);
      publish ARCHITECT_QUEUE (ArchitectMsg
        (mkArchitectMessage next_story.(s_id) project_id recipient.(rcp_telegram_chat_id) false None))
  end.

(** [str.isdigit()] *)
Definition all_digits (s : string) : bool :=
  negb (bool_decide (s = "")) &&
  forallb (λ c, bool_decide (is_Some (digit_of c))) (String.list_ascii_of_string s).
(** An id that GraphQL takes: a text that is no number. *)
Definition graphql_id (v : doc) : option string :=
  match v with DStr s => if bool_decide (s = "") || all_digits s then None else Some s | _ => None end.
(** [pr_node_id[:20] if pr_node_id else ""], which the log line evaluates. *)
Definition sliceable (v : doc) : res unit :=
  if doc_truthy v then match v with DStr _ | DList _ => Ok tt | DMap _ => Exc KeyError | _ => Exc TypeError end
  else Ok tt.
(** The [pr_number] field of an update: an integer or null. *)
Definition pr_number_field (number : doc) : res (list StoryUpdate) :=
  match number with
  | DInt n => Ok [StorySetPrNumber (Some n)]
  | DNull => Ok [StorySetPrNumber None]
  | _ => Exc (HTTPException 422)
  end.

(** The branch of a story, and the text of its pull request. *)
Definition story_branch (story_id : string) : string := "story/" +:+ story_id.
Definition PR_BODY : string := "All tasks completed. Auto-merge enabled.".

Section completion.
Context `{GithubApp}.

(** An id GraphQL takes, or else the one the REST answer has. *)
Definition auto_merge (owner repo_name : string) (number node_id : doc) : M World bool :=
  let enable s := github (enable_auto_merge app_jwt parse_expiry owner repo_name s "MERGE") in
  match graphql_id node_id with
  | Some s => enable s
  | None =>
      pr_details ← github (get_pull_request app_jwt parse_expiry owner repo_name number);
      node_id ← of_res (attr_get_or (DStr "") "node_id" pr_details);
      match graphql_id node_id, node_id with
      | Some s, _ => enable s
      | None, DStr _ => mret false
      | None, v => if doc_truthy v then raise AttributeError else mret false
      end
  end.

(** The [try] block of a story: whether its branch was merged already, and it is done with. *)
Definition open_pull_request (story : Story) (owner repo_name : string) : M World bool :=
  github_client;;
  pr ← github (create_pull_request app_jwt parse_expiry owner repo_name (story_branch story.(s_id)) "main"
                 story.(s_title) PR_BODY);
  pr_number ← of_res (item "number" pr);
  pr_node_id ← of_res (attr_get_or (DStr "") "node_id" pr);
  merged_at ← of_res (attr_get "merged_at" pr);
  update ← of_res (pr_number_field pr_number);
  api_update_story story.(s_id) update;;
  if negb (is_null merged_at) then
    api_transition_story story.(s_id) "pr_review";;
    cleanup_story_worker story.(s_id);;
    mret true
  else
    of_res (sliceable pr_node_id);;
    auto_merge owner repo_name pr_number pr_node_id;;
    mret false.

(** The body of the loop: the stories moved, so far. *)
Definition complete_story_turn (completed : Z) (story : Story) : M World Z :=
  tasks ← api_get_tasks_by_story story.(s_id);
  if bool_decide (tasks = []) then mret completed
  else if negb (forallb (λ t, bool_decide (t.(t_status) = value TaskStatus.DONE)) tasks) then mret completed
  else
    repo ← (if decide (story.(s_project_id) = "") then mret None
            else api_get_primary_repository story.(s_project_id));
    match repo with
    | None => mret completed
    | Some repo =>
        '(owner, repo_name) ← of_res (parse_owner_repo repo.(rp_git_url));
        opened ← on_exception (merged ← open_pull_request story owner repo_name; mret (Some merged)) (λ _, mret None);
        match opened with
        | None => mret completed
        | Some true => mret (completed + 1)
        | Some false =>
            api_transition_story story.(s_id) "pr_review";;
            cleanup_story_worker story.(s_id);;
            trigger_next_story story.(s_project_id);;
            mret (completed + 1)
        end
    end.
Definition complete_stories : M World Z :=
  stories ← api_get_stories_by_status StoryStatus.IN_PROGRESS;
  fold_m complete_story_turn 0 stories.
End completion.

Example owners_and_repositories :
  parse_owner_repo "https://github.com/org/bot" = Ok ("org", "bot") ∧
  parse_owner_repo "https://x-access-token:T@github.com/org/bot.git" = Ok ("org", "bot") ∧
  parse_owner_repo "https://github.com/org/bot//" = Ok ("org", "bot") ∧
  parse_owner_repo "" = Exc IndexError ∧ parse_owner_repo "bot.git" = Exc IndexError.
Proof. split_and!; by vm_compute. Qed.
