(* ===== verification/PrPoller.v ===== *)
(** * PrPoller: from a pull request under review to a deploy, or a fix

    [services/scheduler/src/tasks/pr_poller.py]: a story whose pull request GitHub calls
    merged goes to deployment; one whose CI failed goes back to engineering with a fix
    task, a bounded number of times for one kind of failure. *)

From Stdlib Require Import Ascii.
From S2P Require Import Prelude Vocabulary Contracts Docs Paths Db Api ApiTasks ApiStories ApiRuns.
From S2P Require Import Placement Github GithubActions GithubPulls World SchedulerClient Recipients.
From S2P Require Import StoryCompletion.

Class PrPollerConfig := { ci_failure_limit : Z; ci_failure_log_excerpt_lines : Z }.

Definition CI_INFRASTRUCTURE_STEPS : list string := ["Set up Docker Buildx with retry"].

(** ** The evidence of a failed run *)

(** What [_failure_fingerprint] hashes. *)
Definition job_payload (job : FailedJob) : string :=
  json_object [json_field "failed_steps" (json_array (json_string <$> job.(fj_failed_steps)));
               json_field "name" (json_string job.(fj_name))].
Definition canonical_ci_failure (failed_jobs : list FailedJob) (unavailable_reason : option string) : string :=
  lower (json_array match failed_jobs with
    | [] => [json_object [json_field "details_unavailable_reason"
               match unavailable_reason with Some r => json_string r | None => "null" end]]
    | _ => job_payload <$> failed_jobs
    end).
Definition failure_fingerprint `{Sha256} (failed_jobs : list FailedJob) (unavailable_reason : option string) : string :=
  String.substring 0 16 (sha256_hexdigest (canonical_ci_failure failed_jobs unavailable_reason)).

(** [_ci_metadata]: the dictionary a fix task carries, if it is not empty. *)
Definition ci_metadata (task : Task) : option meta :=
  match default ∅ task.(t_failure_metadata) !! "ci_failure" with
  | Some (MCIFailure e) => Some (MCIFailure e)
  | Some (MObj fields) => if decide (fields = []) then None else Some (MObj fields)
  | Some (MJson doc) => if truthy_meta (Some (MJson doc)) then Some (MJson doc) else None
  | _ => None
  end.
(** [item.get("run_id")], an integer, and [item.get("fingerprint")]. *)
Definition ci_run_id (v : meta) : option Z := match v with MCIFailure e => Some e.(ce_run_id) | _ => None end.
Definition ci_fingerprint (v : meta) : option string :=
  match v with
  | MCIFailure e => Some e.(ce_fingerprint)
  | MObj fields => obj_get "fingerprint" fields
  | _ => None
  end.

(** [_build_failure_description] *)
Definition job_lines (job : FailedJob) : list string :=
  let '(log_excerpt, log_unavailable_reason) := default (None, None) job.(fj_log) in
  ["Job: " +:+ job.(fj_name)] ++ ((λ step, "Failed step: " +:+ step) <$> job.(fj_failed_steps)) ++
  match nonempty_text log_excerpt, nonempty_text log_unavailable_reason with
  | Some excerpt, _ => ["Log excerpt:"; "```text"; excerpt; "```"]
  | None, Some reason => ["Job log unavailable: " +:+ reason]
  | None, None => []
  end.
Definition infrastructure_failure (failed_jobs : list FailedJob) : bool :=
  existsb (λ job, existsb (λ step, bool_decide (step ∈ CI_INFRASTRUCTURE_STEPS)) job.(fj_failed_steps)) failed_jobs.
Definition build_failure_description (e : CIFailureEvidence) : string :=
  String.concat newline (
    ["CI failed on branch `" +:+ e.(ce_branch) +:+ "`."; "";
     "Run URL: " +:+ e.(ce_run_url); "Run ID: " +:+ pretty e.(ce_run_id); "Head SHA: " +:+ e.(ce_head_sha);
     "Failure fingerprint: " +:+ e.(ce_fingerprint);
     "Fingerprint attempt: " +:+ pretty e.(ce_fingerprint_attempt); ""] ++
    match e.(ce_failed_jobs) with
    | [] => ["Failure details unavailable: " +:+ default "" e.(ce_details_unavailable_reason)]
    | jobs => flat_map job_lines jobs
    end ++
    (if infrastructure_failure e.(ce_failed_jobs) then
       [""; "CI infrastructure failure: Docker image registry was unavailable while preparing Buildx after retries.";
        "Do not change application code. Re-run CI when the registry is available."]
     else [""; "Fix all reported failures, run local checks, then push once."])).

(** The evidence of this run, after what earlier fixes left. *)
Definition ci_failure_evidence `{Sha256} (run_id : Z) (run_url head_sha branch : string)
    (failed_jobs : list FailedJob) (unavailable_reason : option string) (prior_evidence : list meta)
    : CIFailureEvidence :=
  let fingerprint := failure_fingerprint failed_jobs unavailable_reason in
  let same_failure := filter (λ v, ci_fingerprint v = Some fingerprint) prior_evidence in
  mkCIFailureEvidence run_id run_url head_sha branch failed_jobs unavailable_reason fingerprint
    (Z.of_nat (length same_failure) + 1).
Definition ci_fix_task (story_id project_id : string) (evidence : CIFailureEvidence) : TaskCreate :=
  mkTaskCreate project_id TaskType.FIX ("Fix CI failure (run " +:+ pretty evidence.(ce_run_id) +:+ ")")
    TaskStatus.TODO (Some (build_failure_description evidence)) None 0 3 false "system" None None
    (Some story_id) None (Some {[ "ci_failure" := MCIFailure evidence ]}).

Section poller.
Context `{GithubApp} `{PrPollerConfig} `{Sha256}.

(** What is known of the failed jobs, or the name of the exception. *)
Definition failure_details (owner repo_name : string) (run_id : Z) : M World (list FailedJob * option string) :=
  on_exception
    (failed_jobs ← github (get_workflow_failure_details app_jwt parse_expiry type_name owner repo_name run_id
                             (Some ci_failure_log_excerpt_lines));
     mret (failed_jobs, None))
    (λ e, mret ([], Some (type_name e))).

(** GitHub documents the address and the commit of a run as texts. *)
Definition handle_failed_run (owner repo_name story_id project_id branch : string) (run : workflow_run)
    : M World bool :=
  let run_url := py_str run.(wr_html_url) in
  let run_id := run.(wr_id) in
  let head_sha := if doc_truthy run.(wr_head_sha) then py_str run.(wr_head_sha) else "unknown" in
  tasks ← api_get_tasks_by_story story_id;
  let prior_evidence := omap ci_metadata tasks in
  if existsb (λ v, bool_decide (ci_run_id v = Some run_id)) prior_evidence then mret false
  else
    '(failed_jobs, unavailable_reason) ← failure_details owner repo_name run_id;
    let unavailable_reason :=
      match failed_jobs, nonempty_text unavailable_reason with
      | [], None => Some "GitHub returned no failed jobs"
      | _, _ => unavailable_reason
      end in
    let evidence := ci_failure_evidence run_id run_url head_sha branch failed_jobs unavailable_reason prior_evidence in
    if ci_failure_limit <? evidence.(ce_fingerprint_attempt) then
      api_transition_story story_id "human-review";;
      notify_admins_best_effort ("CI failure " +:+ evidence.(ce_fingerprint) +:+ " exhausted " +:+
        pretty ci_failure_limit +:+ " fix attempts for story " +:+ story_id);;
      mret false
    else
      api_create_task (ci_fix_task story_id project_id evidence);;
      api_transition_story story_id "fail";;
      api_transition_story story_id "reopen";;
      api_transition_story story_id "start";;
      mret true.

(** ** Merged pull requests *)

(** [merged_pr.get("head", {}).get("sha", "")] *)
Definition pr_head_sha (pr : doc) : res doc :=
  head ← attr_get_or (DMap []) "head" pr; attr_get_or (DStr "") "sha" head.
(** The deploy of a merged commit; [head_sha] must be a text. *)
Definition merged_run (run_id project_id story_id : string) (head_sha : doc) : RunCreate :=
  mkRunCreate run_id (value RunType.DEPLOY) (Some project_id) None (Some story_id) None
    (<["head_sha" := match head_sha with DStr sha => MStr sha | DNull => MNull | v => MJson (py_str v) end]>
       {[ "triggered_by" := MStr "pr_poll" ]}).
Definition merged_deploy (run_id project_id story_id head_sha : string) (recipient : Recipient)
    (action : DeployAction.t) : DeployMessage :=
  mkDeployMessage run_id project_id recipient.(rcp_telegram_chat_id) recipient.(rcp_unaddressed_reason)
    story_id DeployTrigger.WEBHOOK action 0 head_sha None [] false.

Definition deploy_merged (story_id project_id : string) (pr : doc) : M World unit :=
  head_sha ← of_res (pr_head_sha pr);
  of_res (item "number" pr);;
  of_res (item "merged_at" pr);;
  api_transition_story story_id "deploy";;
  recipient ← resolve_project_recipient project_id "deploy_after_pr_merge" story_id;
  all_stories ← api_get_stories_by_project project_id;
  let has_completed := existsb (λ s, bool_decide (s.(s_status) = value StoryStatus.COMPLETED)) all_stories in
  let action := if has_completed then DeployAction.FEATURE else DeployAction.CREATE in
  hex ← uuid4_hex;
  let run_id := "deploy-poll-" +:+ String.substring 0 8 hex in
  api_create_run (merged_run run_id project_id story_id head_sha);;
  sha ← of_res (match head_sha with DStr sha => Ok sha | _ => Exc ValidationError end);
  m ← of_res (DeployMessage_validated (merged_deploy run_id project_id story_id sha recipient action));
  publish DEPLOY_QUEUE (DeployMsg m).

Definition poll_merged_pr (deployed : Z) (story : Story) : M World Z :=
  if decide (story.(s_project_id) = "") then mret deployed
  else
    repo ← api_get_primary_repository story.(s_project_id);
    match repo with
    | None => mret deployed
    | Some repo =>
        '(owner, repo_name) ← of_res (parse_owner_repo repo.(rp_git_url));
        match story.(s_pr_number) with
        | None | Some 0 => mret deployed
        | Some n =>
            pr_data ← on_exception
              (pr ← github (get_pull_request app_jwt parse_expiry owner repo_name (DInt n)); mret (Some pr))
              (λ _, mret None);
            match pr_data with
            | None => mret deployed
            | Some pr =>
                merged_at ← of_res (attr_get "merged_at" pr);
                if negb (doc_truthy merged_at) then mret deployed
                else deploy_merged story.(s_id) story.(s_project_id) pr;; mret (deployed + 1)
            end
        end
    end.
Definition poll_merged_prs : M World Z :=
  stories ← api_get_stories_by_status StoryStatus.PR_REVIEW;
  match stories with
  | [] => mret 0
  | _ => github_client;; fold_m poll_merged_pr 0 stories
  end.

(** ** Failed CI runs *)

Definition ci_failed (run : workflow_run) : bool :=
  is_text "completed" run.(wr_status) && is_text "failure" run.(wr_conclusion).
Definition poll_ci_failure (fixed : Z) (story : Story) : M World Z :=
  repo ← api_get_primary_repository story.(s_project_id);
  match repo with
  | None => mret fixed
  | Some repo =>
      '(owner, repo_name) ← of_res (parse_owner_repo repo.(rp_git_url));
      let branch := story_branch story.(s_id) in
      run ← on_exception
        (github (get_latest_workflow_run app_jwt parse_expiry strftime owner repo_name "ci.yml" branch None None))
        (λ _, mret None);
      match run with
      | None => mret fixed
      | Some run =>
          if ci_failed run then
            created ← on_exception
              (handle_failed_run owner repo_name story.(s_id) story.(s_project_id) branch run) (λ _, mret false);
            mret (if (created : bool) then fixed + 1 else fixed)
          else mret fixed
      end
  end.
Definition poll_ci_failures : M World Z :=
  stories ← api_get_stories_by_status StoryStatus.PR_REVIEW;
  match stories with
  | [] => mret 0
  | _ => github_client;; fold_m poll_ci_failure 0 stories
  end.
End poller.
