(* ===== verification/StoryReview.v ===== *)
(** * StoryReview: what a story under review has behind it

    A story goes to review only when it has tasks, all of them done, and with the pull
    request that GitHub opened, or showed, for its branch. *)

From S2P Require Import Prelude Vocabulary Contracts Docs Db Api ApiTasks ApiStories ApiRuns.
From S2P Require Import Placement Github GithubActions GithubSafety GithubPulls.
From S2P Require Import World SchedulerClient Recipients Dispatcher Frames StoryCompletion.

(** ** What GitHub said of a pull request *)

Section pulls.
Context `{HttpsLaws Net} `{PyRepr} (app_jwt : option string) (parse_expiry : string → option Z).

(** It opened this one for the branch, or has it already. *)
Definition opened_for (owner repo head base title body : string) (pr : doc) (l : list exchange) : Prop :=
  ∃ token, told (create_pull_request_of owner repo token head base title body) (λ d, d = pr) l ∨
    ∃ state, told (pulls_request owner repo token head base state) (λ d, first_of d = Ok pr) l.

Lemma find_trace states owner repo token head base :
  trace (find_pull_request states owner repo token head base) (λ r l, ∀ pr, r = Ok pr →
    ∃ state, told (pulls_request owner repo token head base state) (λ d, first_of d = Ok pr) l).
Proof.
  induction states as [|state states IH]; cbn [find_pull_request]; [by apply trace_raise|].
  apply trace_bind. eapply trace_mono; [apply request_told|]. intros [prs|e] l Htold; [|done].
  specialize (Htold prs eq_refl). destruct (doc_truthy prs).
  - apply trace_of_res. intros pr Hpr. exists state. apply told_app_l.
    eapply told_mono; [|exact Htold]. cbn. by intros ? ->.
  - eapply trace_mono; [apply IH|]. intros r l' Hr pr ->. destruct (Hr pr eq_refl) as [st Hst].
    exists st. by apply told_app_r.
Qed.
Lemma create_trace owner repo head base title body :
  trace (create_pull_request app_jwt parse_expiry owner repo head base title body)
    (λ r l, ∀ pr, r = Ok pr → opened_for owner repo head base title body pr l).
Proof.
  apply trace_bind. eapply trace_mono; [apply whatever_token|]. intros [token|e] l _; [|done].
  apply trace_bind. eapply trace_mono; [apply attempts_trace|]. intros [resp|e] l' Htried; [|done].
  destruct Htried as (tries & -> & _ & Hlast & _). specialize (Hlast resp eq_refl). apply last_in in Hlast.
  destruct (is_success resp) eqn:Hs.
  - apply trace_bind, trace_of_res. destruct (json resp) as [pr|] eqn:Hjson; [|done].
    apply trace_bind, trace_of_res. destruct (item "number" pr); [|done]. apply trace_ret. intros ? [= <-].
    exists token. left. exists resp, pr. split; [|done]. rewrite !elem_of_app. right. left.
    by apply list_elem_of_fmap_2.
  - destruct (negb _); [by apply trace_raise|]. apply trace_bind, trace_of_res.
    destruct (validation_detail resp) as [detail|]; [|done]. destruct (has_text _ _); [by apply trace_raise|].
    eapply trace_mono; [apply find_trace|]. intros r l' Hr pr ->. destruct (Hr pr eq_refl) as [st Hst].
    exists token. right. exists st. by repeat apply told_app_r.
Qed.
(** The pull request of a number, as GitHub has it. *)
Definition shown (owner repo : string) (n : doc) (pr : doc) (l : list exchange) : Prop :=
  ∃ token, told (pull_request_of owner repo token n) (λ d, d = pr) l.
Lemma get_pull_trace owner repo n :
  trace (get_pull_request app_jwt parse_expiry owner repo n) (λ r l, ∀ pr, r = Ok pr → shown owner repo n pr l).
Proof.
  apply trace_bind. eapply trace_mono; [apply whatever_token|]. intros [token|e] l _; [|done].
  eapply trace_mono; [apply request_told|]. intros r l' Hr pr ->. exists token. apply told_app_r. by apply Hr.
Qed.
Lemma auto_merge_whatever owner repo id method :
  whatever (enable_auto_merge app_jwt parse_expiry owner repo id method).
Proof.
  apply whatever_bind; [apply whatever_token|intros token]. apply whatever_bind; [apply whatever_json|intros d].
  apply whatever_bind; [apply whatever_of_res|intros; apply whatever_ret].
Qed.
Lemma get_pull_whatever owner repo n : whatever (get_pull_request app_jwt parse_expiry owner repo n).
Proof. eapply trace_mono; [apply get_pull_trace|done]. Qed.
End pulls.

(** ** A story that may be reviewed *)

Definition finished (d : Database) (sid : string) : Prop :=
  (∃ i t, d.(tasks) !! i = Some t ∧ t.(t_story_id) = Some sid) ∧
  ∀ i t, d.(tasks) !! i = Some t → t.(t_story_id) = Some sid → t.(t_status) = value TaskStatus.DONE.
(** GitHub opened, or showed, the pull request whose number the story has. *)
Definition backed_by_pull (d : Database) (l : list exchange) (st : Story) : Prop :=
  ∃ i repo owner name title pr, d.(repositories) !! i = Some repo ∧
    repo.(rp_project_id) = st.(s_project_id) ∧ parse_owner_repo repo.(rp_git_url) = Ok (owner, name) ∧
    opened_for owner name (story_branch st.(s_id)) "main" title PR_BODY pr l ∧
    ∃ number, item "number" pr = Ok number ∧
      match number with DInt n => st.(s_pr_number) = Some n | _ => st.(s_pr_number) = None end.
Definition reviewable (s s' : Shared) (st : Story) : Prop :=
  finished s'.(db) st.(s_id) ∧ ∃ l, s'.(exchanged) = s.(exchanged) ++ l ∧ backed_by_pull s'.(db) l st.

Definition stories_keyed (d : Database) : Prop := ∀ id st, d.(stories) !! id = Some st → st.(s_id) = id.
(** Stories stay as they are, but for one that may be reviewed: it has its number, and
    stays or goes to review. *)
Definition same_review (st st' : Story) : Prop :=
  st'.(s_project_id) = st.(s_project_id) ∧ st'.(s_status) = st.(s_status) ∧ st'.(s_pr_number) = st.(s_pr_number).
Definition towards_review (s s' : Shared) : Prop :=
  stories_keyed s.(db) →
  stories_keyed s'.(db) ∧ s'.(db).(tasks) = s.(db).(tasks) ∧ s'.(db).(repositories) = s.(db).(repositories) ∧
  (∃ l, s'.(exchanged) = s.(exchanged) ++ l) ∧
  ∀ id st', s'.(db).(stories) !! id = Some st' → ∃ st, s.(db).(stories) !! id = Some st ∧
    (same_review st st' ∨
     st'.(s_project_id) = st.(s_project_id) ∧ reviewable s s' st' ∧
     (st'.(s_status) = st.(s_status) ∨ st'.(s_status) = value StoryStatus.PR_REVIEW)).

Lemma opened_for_app owner repo head base title body pr l l0 l' :
  opened_for owner repo head base title body pr l → opened_for owner repo head base title body pr (l0 ++ l ++ l').
Proof.
  intros (token & [Ht|[state Ht]]); exists token; [left|right; exists state]; by apply told_app_r, told_app_l.
Qed.
Lemma backed_later d d' l l' st st' :
  d'.(repositories) = d.(repositories) → st'.(s_id) = st.(s_id) → same_review st st' →
  backed_by_pull d l st → backed_by_pull d' (l ++ l') st'.
Proof.
  intros Hrepos Hid (Hp & _ & Hn) (i & repo & owner & name & title & pr & Hrepo & Hproject & Hparse & Hpr & Hnumber).
  exists i, repo, owner, name, title, pr. rewrite Hrepos, Hid, Hp, Hn. split_and!; [done..| |done].
  by apply (opened_for_app _ _ _ _ _ _ _ l [] l').
Qed.
Lemma reviewable_later s s1 s2 st st' :
  s2.(db).(tasks) = s1.(db).(tasks) → s2.(db).(repositories) = s1.(db).(repositories) →
  (∃ l, s2.(exchanged) = s1.(exchanged) ++ l) → st'.(s_id) = st.(s_id) → same_review st st' →
  reviewable s s1 st → reviewable s s2 st'.
Proof.
  intros Ht Hrepos [l2 Hl2] Hid Hsame [Hfin (l & Hl & Hback)]. split.
  - unfold finished. by rewrite Ht, Hid.
  - exists (l ++ l2). rewrite Hl2, Hl, app_assoc. split; [done|]. by eapply backed_later.
Qed.
Lemma reviewable_since s s1 s2 st :
  (∃ l, s1.(exchanged) = s.(exchanged) ++ l) → reviewable s1 s2 st → reviewable s s2 st.
Proof.
  intros [l1 Hl1] [Hfin (l & Hl & i & repo & owner & name & title & pr & Hrepo & Hp & Hparse & Hpr & Hn)].
  split; [done|]. exists (l1 ++ l). rewrite Hl, Hl1, app_assoc. split; [done|].
  exists i, repo, owner, name, title, pr. split_and!; [done..| |done].
  apply (opened_for_app _ _ _ _ _ _ _ l l1 []) in Hpr. by rewrite app_nil_r in Hpr.
Qed.

#[export] Instance towards_review_preorder : PreOrder towards_review.
Proof.
  split.
  - intros s Hk. split_and!; [done..|exists []; by rewrite app_nil_r|]. intros id st Hst. exists st.
    split; [done|]. by left.
  - intros s1 s2 s3 H12 H23 Hk1. destruct (H12 Hk1) as (Hk2 & Ht2 & Hr2 & [l2 Hl2] & Hst2).
    destruct (H23 Hk2) as (Hk3 & Ht3 & Hr3 & [l3 Hl3] & Hst3).
    split_and!; [done|congruence|congruence|..].
    { exists (l2 ++ l3). by rewrite Hl3, Hl2, app_assoc. }
    intros id st3 H3. destruct (Hst3 id st3 H3) as (st2 & H2 & Hcase3).
    destruct (Hst2 id st2 H2) as (st1 & H1 & Hcase2). exists st1. split; [done|].
    assert (st3.(s_id) = st2.(s_id)) as Hid by (by rewrite (Hk3 _ _ H3), (Hk2 _ _ H2)).
    destruct Hcase3 as [Hsame|(Hp3 & Hrev & Hmove)].
    + destruct Hcase2 as [Hsame2|(Hp2 & Hrev & Hmove)];
        [left; destruct Hsame as (? & ? & ?), Hsame2 as (? & ? & ?); repeat split; congruence|].
      right. pose proof Hsame as (Hp3 & Hs3 & _). split; [congruence|].
      split; [by eapply reviewable_later; [..|exact Hrev]; eauto|]. rewrite Hs3. destruct Hmove as [->|]; auto.
    + right. destruct Hcase2 as [(Hp2 & Hs2 & _)|(Hp2 & _ & Hs2)];
        (split; [congruence|]; split; [by eapply reviewable_since; eauto|]; destruct Hmove as [Hm|Hm]; rewrite Hm; [|by right]).
      * left. by rewrite Hs2.
      * exact Hs2.
Qed.

(** Calls that write neither the database nor forget what GitHub said. *)
Definition still (s s' : Shared) : Prop := s'.(db) = s.(db) ∧ ∃ l, s'.(exchanged) = s.(exchanged) ++ l.
#[export] Instance still_preorder : PreOrder still.
Proof.
  split; [intros s; split; [done|]; exists []; by rewrite app_nil_r|].
  intros s1 s2 s3 [Hd2 [l2 Hl2]] [Hd3 [l3 Hl3]]. split; [congruence|]. exists (l2 ++ l3). by rewrite Hl3, Hl2, app_assoc.
Qed.
#[export] Instance still_redis : IgnoresRedis still.
Proof. intros s r. exact (reflexivity (R:=still) s). Qed.
#[export] Instance still_github : IgnoresGithub still.
Proof. intros s l. split; [done|]. by exists l. Qed.
Lemma still_towards s s' : still s s' → towards_review s s'.
Proof.
  intros [Hd Hl] Hk. rewrite !Hd. split_and!; [done..|]. intros id st Hst. exists st. split; [done|]. by left.
Qed.

(** ** A turn *)

Section turn.
Context (E : env) `{!Alone E} `{GithubApp}.

Lemma keeps_auto_merge owner name number node_id : keeps E still (auto_merge owner name number node_id).
Proof.
  unfold auto_merge. guar_auto; apply keeps_github; try apply _; first [apply auto_merge_whatever|apply get_pull_whatever].
Qed.
Lemma keeps_cleanup sid : keeps E still (cleanup_story_worker sid).
Proof. unfold cleanup_story_worker. guar_auto. Qed.
Lemma keeps_trigger_next p : keeps E still (trigger_next_story p).
Proof. unfold trigger_next_story. guar_auto. Qed.

(** The story as the turn has left it, and what it may do next. *)
Definition ready (sid : string) (s s' : Shared) : Prop :=
  towards_review s s' ∧ ∃ st, s'.(db).(stories) !! sid = Some st ∧ reviewable s s' st.
Lemma ready_still sid s s1 s2 : ready sid s s1 → still s1 s2 → ready sid s s2.
Proof.
  intros [Ht (st & Hst & Hrev)] Hs. split; [by etransitivity; [|apply still_towards]|].
  destruct Hs as [Hd Hl]. exists st. rewrite Hd. split; [done|].
  by eapply reviewable_later; [..|exact Hrev]; rewrite ?Hd.
Qed.
Lemma towards_move sid s s1 st :
  ready sid s s1 → stories_keyed s.(db) → s1.(db).(stories) !! sid = Some st →
  towards_review s (s1 <| db := moved_story StoryStatus.PR_REVIEW st s1.(db) |>).
Proof.
  intros [Ht (x & Hx & Hrev)] Hk Hst _. rewrite Hst in Hx. injection Hx as <-.
  destruct (Ht Hk) as (Hk1 & Htasks & Hrepos & Hl & Hstories). pose proof (Hk1 _ _ Hst) as Hid. cbn.
  split_and!; [|done..|].
  - intros i y. cbn. intros [[<- <-]|[_ Hy]]%lookup_insert_Some; [done|by apply Hk1].
  - intros i y [[<- <-]|[_ Hy]]%lookup_insert_Some; [|by apply Hstories].
    rewrite Hid. destruct (Hstories _ _ Hst) as (st0 & Hst0 & Hcase). exists st0. split; [done|]. right.
    split; [destruct Hcase as [(? & _)|(? & _)]; done|]. split; [|by right].
    destruct Hrev as [Hfin (l & Hl' & Hback)]. split; [exact Hfin|]. exists l. split; [done|].
    destruct Hback as (i & repo & owner & name & title & pr & ?). by exists i, repo, owner, name, title, pr.
Qed.
Lemma exec_to_review sid s s1 (f : World → res Z * World) :
  ready sid s s1 → stories_keyed s.(db) → (∀ s2, exec E f s2 (λ _ s', still s2 s')) →
  exec E (api_transition_story sid "pr_review";; f) s1 (λ _ s', towards_review s s').
Proof.
  intros Hready Hk Hf. apply exec_bind, (exec_transition_story E); [intros _; apply Hready|].
  intros to st r Hto Hst _ _. vm_compute in Hto. injection Hto as <-.
  pose proof (towards_move sid s s1 st Hready Hk Hst) as Hmoved.
  destruct r as [a|e]; [|done]. eapply exec_mono; [apply Hf|]. intros r s' Hs.
  by etransitivity; [|apply still_towards].
Qed.

Lemma exec_open story owner name repo i s :
  stories_keyed s.(db) → finished s.(db) story.(s_id) →
  s.(db).(repositories) !! i = Some repo → repo.(rp_project_id) = story.(s_project_id) →
  parse_owner_repo repo.(rp_git_url) = Ok (owner, name) →
  (∀ row, s.(db).(stories) !! story.(s_id) = Some row → row.(s_project_id) = story.(s_project_id)) →
  exec E (open_pull_request story owner name) s (λ r s', towards_review s s' ∧
    (r = Ok false → ready story.(s_id) s s')).
Proof.
  intros Hk Hfin Hrepo Hproject Hparse Hrows.
  apply exec_bind, exec_client, exec_bind. eapply (exec_github E); [apply create_trace|]. intros s' ->%alone.
  split; [|intros _; split; [reflexivity|done]]. intros r l Hopened. set (s1 := s <| exchanged ::= _ |>).
  assert (still s s1) as Hstill by (by split; [|exists l]). pose proof (still_towards _ _ Hstill) as Ht1.
  split; [|intros _; by split]. destruct r as [pr|e]; [|by split]. specialize (Hopened pr eq_refl).
  apply exec_bind, exec_of_res. destruct (item "number" pr) as [number|] eqn:Hnumber; [|by split].
  apply exec_bind, exec_of_res. destruct (attr_get_or _ "node_id" pr) as [node_id|]; [|by split].
  apply exec_bind, exec_of_res. destruct (attr_get "merged_at" pr) as [merged|]; [|by split].
  apply exec_bind, exec_of_res. destruct (pr_number_field number) as [update|] eqn:Hupdate; [|by split].
  apply exec_bind, (exec_update_story E); [intros e; by split|]. intros row st' a Hrow Hf _.
  change (s1.(db).(stories)) with (s.(db).(stories)) in Hrow. pose proof (Hrows _ Hrow) as Hrp.
  set (s2 := s1 <| db := put_story st' s1.(db) |>). pose proof Hf as Hkeeps.
  apply set_story_fields_keeps in Hkeeps as (Hid & Hstatus & Hp). rewrite (Hk _ _ Hrow) in Hid.
  assert (match number with DInt n => st'.(s_pr_number) = Some n | _ => st'.(s_pr_number) = None end) as Hn.
  { destruct number; cbn in Hupdate; try discriminate; injection Hupdate as <-; cbn in Hf; by injection Hf as <-. }
  assert (reviewable s s2 st') as Hrev.
  { split; [by unfold finished in *; rewrite Hid|]. exists l. split; [done|].
    exists i, repo, owner, name, story.(s_title), pr. rewrite Hid, Hp, Hrp. split_and!; [done..|by exists number]. }
  assert (ready story.(s_id) s s2) as Hready.
  { split; [|exists st'; split; [cbn; by rewrite Hid, lookup_insert_eq|done]]. intros _.
    split_and!; [|done|done|by exists l|].
    - intros j y. cbn. intros [[<- <-]|[_ Hy]]%lookup_insert_Some; [done|by apply Hk].
    - intros j y. cbn. intros [[<- <-]|[_ Hy]]%lookup_insert_Some.
      + exists row. rewrite Hid. split; [done|]. right. rewrite Hstatus, Hp. auto.
      + exists y. split; [done|]. by left. }
  destruct a as [a|e]; [|by split; [apply Hready|]]. destruct (negb _).
  - apply (exec_mono _ _ _ (λ r s', r ≠ Ok false ∧ towards_review s s')); [|by intros r s' [? ?]].
    apply exec_bind, (exec_transition_story E); [intros e; split; [done|apply Hready]|].
    intros to st2 r Hto Hst2 _ _. vm_compute in Hto. injection Hto as <-.
    pose proof (towards_move _ s s2 st2 Hready Hk Hst2) as Hmoved. destruct r as [a'|e]; [|by split].
    apply exec_bind. eapply exec_mono; [apply (exec_keeps E still), keeps_cleanup|].
    intros r s' Hs. assert (towards_review s s') as Ht by (by etransitivity; [|apply still_towards]).
    destruct r as [[]|e]; [|by split]. apply exec_ret. by split.
  - apply exec_bind, exec_of_res. destruct (sliceable node_id) as [[]|e]; [|by split; [apply Hready|]].
    apply exec_bind. eapply exec_mono; [apply (exec_keeps E still), keeps_auto_merge|].
    intros r s' Hs. pose proof (ready_still _ _ _ _ Hready Hs) as Hr. destruct r as [b|e]; [|by split; [apply Hr|]].
    apply exec_ret. by split; [apply Hr|].
Qed.

Lemma exec_review_turn completed story s :
  stories_keyed s.(db) → story.(s_id) ≠ "" →
  (∀ row, s.(db).(stories) !! story.(s_id) = Some row → row.(s_project_id) = story.(s_project_id)) →
  exec E (complete_story_turn completed story) s (λ _ s', towards_review s s').
Proof.
  intros Hk Hid Hrow. unfold complete_story_turn.
  apply exec_bind, (exec_alone_read E); [auto with reads| |intros e; reflexivity].
  intros l Hl _. fold (of_story story.(s_id)) in Hl.
  case_bool_decide as Hnone; [by apply exec_ret|]. destruct (negb _) eqn:Hdone; [by apply exec_ret|].
  assert (finished s.(db) story.(s_id)) as Hfin.
  { split.
    - destruct l as [|t l]; [done|]. assert (t ∈ t :: l) as Hin by (by left).
      apply (elem_of_listed _ _ _ _ Hl Hid) in Hin as [[j Hj] Hst]. by exists j, t.
    - intros j t Hj Hst. apply negb_false_iff in Hdone. rewrite forallb_forall in Hdone.
      assert (t ∈ l) as Hin%list_elem_of_In by (apply (elem_of_listed _ _ _ _ Hl Hid); eauto).
      specialize (Hdone t Hin). by apply bool_decide_eq_true in Hdone. }
  apply exec_bind. case_decide as Hp; [by apply exec_ret, exec_ret|].
  apply (exec_primary_repository E); [done|intros e; reflexivity|]. intros [repo|] Hrepo; [|by apply exec_ret].
  destruct (Hrepo repo eq_refl) as [[i Hi] Hproject].
  apply exec_bind, exec_of_res. destruct (parse_owner_repo _) as [[owner name]|e] eqn:Hparse; [|reflexivity].
  apply exec_bind. unfold on_exception. apply exec_catch, exec_bind.
  eapply exec_mono; [by eapply exec_open|]. intros [b|e] s1 [Ht Hready].
  - apply exec_ret. destruct b; [by apply exec_ret|]. specialize (Hready eq_refl).
    apply exec_to_review; [done..|]. intros s2. apply (exec_keeps E still).
    pose proof keeps_cleanup. pose proof keeps_trigger_next. guar_auto.
  - destruct (is_exception e); [|by apply exec_raise]. apply exec_ret. by apply exec_ret.
Qed.

Lemma exec_reviews s :
  stories_keyed s.(db) → s.(db).(stories) !! "" = None →
  exec E complete_stories s (λ _ s', towards_review s s').
Proof.
  intros Hk Hempty. apply exec_bind, (exec_stories_by_status E); [intros _; reflexivity|].
  intros l Hl. apply (exec_fold_m E (λ _ s', towards_review s s')); [reflexivity| |done].
  intros st c s1 Hst Hs1. destruct (Hl st Hst) as [[id Hrow] _]. pose proof (Hk _ _ Hrow) as <-.
  destruct (Hs1 Hk) as (Hk1 & _ & _ & _ & Hback).
  eapply exec_mono.
  - apply exec_review_turn; [done|intros He; rewrite He in Hrow; congruence|].
    intros row Hrow1. destruct (Hback _ _ Hrow1) as (st0 & Hst0 & Hcase).
    rewrite Hrow in Hst0. injection Hst0 as <-. destruct Hcase as [(? & _)|(? & _)]; done.
  - intros r s' Hs'. destruct r; by etransitivity.
Qed.
End turn.

(** C16 (safety).  Only finished work goes to review.  Wherever calls fail and the process
    dies in a tick over the stories in progress: stories either keep their status or go to
    review, and one that goes to review has tasks, all of them done, and the number of
    the pull request that GitHub, in this tick, opened for its branch against [main] of its
    project's repository, or showed when asked for one. *)
Theorem reviews_follow_finished_work `{GithubApp} w :
  in_env faulty w → well_keyed w.(shared).(db) → w.(shared).(db).(stories) !! "" = None →
  let w' := (complete_stories w).2 in
  ∃ l, w'.(shared).(exchanged) = w.(shared).(exchanged) ++ l ∧
    ∀ id st', w'.(shared).(db).(stories) !! id = Some st' →
      ∃ st, w.(shared).(db).(stories) !! id = Some st ∧
        (st'.(s_status) = st.(s_status) ∨
         st'.(s_status) = value StoryStatus.PR_REVIEW ∧ finished w'.(shared).(db) id ∧
         backed_by_pull w'.(shared).(db) l st').
Proof.
  intros Hw (_ & Hk & _) Hempty.
  destruct (exec_reviews faulty w.(shared) Hk Hempty w eq_refl Hw) as [_ Hmoved].
  destruct (Hmoved Hk) as (Hk' & _ & _ & [l Hl] & Hstories). exists l. split; [done|].
  intros id st' Hst'. destruct (Hstories id st' Hst') as (st & Hst & Hcase). exists st. split; [done|].
  destruct Hcase as [(_ & ? & _)|(_ & [Hfin (l' & Hl' & Hback)] & [?|?])]; [by left..|]. right.
  rewrite Hl' in Hl. apply app_inv_head in Hl as ->. by rewrite <-(Hk' _ _ Hst').
Qed.

(** ** Concrete worlds

    The answers GitHub will give, one second each; afterwards the connection fails. *)

Definition gives (answers : list http_response) : answering := λ l _, (SECOND, answers !! length l).
Definition the_app : GithubApp := {|
  app_jwt := Some "jwt"; parse_expiry _ := Some (3600 * SECOND); strftime _ := ""; type_name _ := "Exception";
  repr _ := "" |}.
(** The story s1 in progress, with one task. *)
Definition built_world (status : TaskStatus.t) (answers : list http_response) (turns : list turn) : World :=
  let w := todo_world [(todo_task "t1" "build" 0) <| t_status := value status |>] turns in
  (w <| github_answers := gives answers |>) <| shared ::= λ s, s <| db := s.(db) <| repositories :=
    {[ "repo1" := mkRepository "repo1" "p1" "bot" "https://github.com/o/bot.git" "primary" None None 0 ]} |> |> |>.
Definition signed_in : list http_response :=
  [installed; says_json 201 (DMap [("token", DStr "tok"); ("expires_at", DStr "later")])].
Definition the_pull : doc := DMap [("number", DInt 12); ("node_id", DStr "PR_x"); ("merged_at", DNull)].
Definition opens_the_pull : list http_response :=
  signed_in ++ [says_json 201 the_pull; installed; says_json 200 (DMap [("data", DMap [])])].
#[local] Existing Instance the_app.
Definition review_status (w : World) : option (string * option Z) :=
  (λ st, (st.(s_status), st.(s_pr_number))) <$> w.(shared).(db).(stories) !! "s1".

Example a_finished_story_goes_to_review :
  review_status (complete_stories (built_world TaskStatus.DONE opens_the_pull [])).2 = Some ("pr_review", Some 12) ∧
  review_status (complete_stories (built_world TaskStatus.IN_DEV opens_the_pull [])).2 = Some ("in_progress", None) ∧
  review_status (complete_stories (built_world TaskStatus.DONE [] [])).2 = Some ("in_progress", None).
Proof. split_and!; by vm_compute. Qed.

Lemma reviews_follow_finished_work_witness :
  let w' := (complete_stories (built_world TaskStatus.DONE opens_the_pull [])).2 in
  ∃ l st', w'.(shared).(exchanged) = l ∧ w'.(shared).(db).(stories) !! "s1" = Some st' ∧
    finished w'.(shared).(db) "s1" ∧ backed_by_pull w'.(shared).(db) l st'.
Proof.
  assert (s_status <$> (complete_stories (built_world TaskStatus.DONE opens_the_pull [])).2.(shared).(db).(stories) !! "s1"
    = Some "pr_review") as Hnow by (by vm_compute).
  assert (s_status <$> (built_world TaskStatus.DONE opens_the_pull []).(shared).(db).(stories) !! "s1"
    = Some "in_progress") as Hbefore by (by vm_compute).
  set (w := built_world _ _ _) in *.
  destruct (reviews_follow_finished_work w) as (l & Hl & Hback);
    [split; [constructor|done]|apply well_keyed_true; by vm_compute|by vm_compute|].
  destruct (complete_stories w) as [r w'] eqn:Hrun.
  exists l. apply fmap_Some in Hnow as (st' & Hst' & Hs'). exists st'.
  destruct (Hback _ _ Hst') as (st & Hst & [Hsame|(_ & Hfin & Hpull)]); [|by split_and!].
  rewrite Hst in Hbefore. cbn in Hbefore. congruence.
Defined.
