(* ===== verification/MergedDeploys.v ===== *)
(** * MergedDeploys: what a deploy after a merge stands on

    [poll_merged_prs] deploys a story only when GitHub says its pull request is merged,
    and announces the deploy only with its run on record. *)

From S2P Require Import Prelude Vocabulary Contracts Docs Db Api ApiTasks ApiStories ApiRuns ApiActions.
From S2P Require Import Placement Github GithubActions GithubSafety GithubPulls.
From S2P Require Import World SchedulerClient Recipients Dispatcher Frames StoryCompletion StoryReview PrPoller.

Section merges.
Context `{PyRepr}.

(** GitHub showed the pull request of a story, and it is merged. *)
Definition merged (repos : gmap string Repository) (l : list exchange) (st : Story) (pr : doc) : Prop :=
  ∃ (i : string) repo owner name n at_, repos !! i = Some repo ∧ repo.(rp_project_id) = st.(s_project_id) ∧
    parse_owner_repo repo.(rp_git_url) = Ok (owner, name) ∧ st.(s_pr_number) = Some n ∧
    shown owner name (DInt n) pr l ∧ attr_get "merged_at" pr = Ok at_ ∧ doc_truthy at_ = true.

(** A story as it was, or deploying with its pull request merged. *)
Definition deployed (repos : gmap string Repository) (l : list exchange) (st st' : Story) : Prop :=
  ∃ status, st' = st <| s_status := status |> ∧
    (status = st.(s_status) ∨ status = value StoryStatus.DEPLOYING ∧ ∃ pr, merged repos l st pr).
(** A message that announces the deploy of a merged commit, its run on record. *)
Definition announced (d : Database) (l : list exchange) (x : string * message) : Prop :=
  ∃ m st pr run sha, x = (DEPLOY_QUEUE, DeployMsg m) ∧ d.(stories) !! m.(dm_story_id) = Some st ∧
    st.(s_status) = value StoryStatus.DEPLOYING ∧ merged d.(repositories) l st pr ∧
    d.(runs) !! m.(dm_task_id) = Some run ∧ run.(r_type) = value RunType.DEPLOY ∧
    run.(r_story_id) = Some m.(dm_story_id) ∧
    pr_head_sha pr = Ok (DStr sha) ∧ OptionalCommitSha sha = Some m.(dm_head_sha).

(** What a tick over the stories under review does. *)
Definition follows_merges (s s' : Shared) : Prop :=
  s'.(db).(repositories) = s.(db).(repositories) ∧ s.(db).(runs) ⊆ s'.(db).(runs) ∧
  ∃ l ms, s'.(exchanged) = s.(exchanged) ++ l ∧
    s'.(redis).(streams) = s.(redis).(streams) ++ ms ∧
    (∀ id, option_Forall2 (deployed s.(db).(repositories) l)
             (s.(db).(stories) !! id) (s'.(db).(stories) !! id)) ∧
    Forall (announced s'.(db) l) ms.

Lemma shown_app owner repo n pr l l0 l' : shown owner repo n pr l → shown owner repo n pr (l0 ++ l ++ l').
Proof. intros [token Ht]. exists token. by apply told_app_r, told_app_l. Qed.
Lemma merged_app repos l0 l l' st pr : merged repos l st pr → merged repos (l0 ++ l ++ l') st pr.
Proof.
  intros (i & repo & owner & name & n & at_ & ? & ? & ? & ? & Hshown & ? & ?). exists i, repo, owner, name, n, at_.
  split_and!; try done. by apply shown_app.
Qed.
Lemma deployed_trans repos l1 l2 st1 st2 st3 :
  deployed repos l1 st1 st2 → deployed repos l2 st2 st3 → deployed repos (l1 ++ l2) st1 st3.
Proof.
  intros (a & -> & Ha) (b & -> & Hb). exists b. split; [by destruct st1|]. cbn in Hb.
  assert (∀ pr, merged repos l1 st1 pr → merged repos (l1 ++ l2) st1 pr) as Hl by exact (λ pr, merged_app repos [] l1 l2 st1 pr).
  destruct Hb as [->|(-> & pr & Hpr)].
  - destruct Ha as [->|(-> & pr & Hpr)]; [by left|right; eauto].
  - right. split; [done|]. exists pr. apply (merged_app repos l1 l2 []) in Hpr. by rewrite app_nil_r in Hpr.
Qed.
Lemma announced_later d d' l l' x :
  d'.(repositories) = d.(repositories) → d.(runs) ⊆ d'.(runs) →
  (∀ id, option_Forall2 (deployed d.(repositories) l') (d.(stories) !! id) (d'.(stories) !! id)) →
  announced d l x → announced d' (l ++ l') x.
Proof.
  intros Hrepos Hruns Hst (m & st & pr & run & sha & -> & Hs & Hstatus & Hpr & Hrun & ? & ? & ? & ?).
  specialize (Hst m.(dm_story_id)). rewrite Hs in Hst. inversion Hst as [? st' (a & -> & Ha) Heq|]; subst.
  exists m, (st <| s_status := a |>), pr, run, sha. rewrite Hrepos.
  split_and!; [done|done|cbn; naive_solver|apply (merged_app _ [] l l' _ _ Hpr)|by eapply lookup_weaken|done..].
Qed.

#[export] Instance follows_merges_preorder : PreOrder follows_merges.
Proof.
  split.
  - intros s. split_and!; [done..|]. exists [], []. rewrite !app_nil_r. split_and!; [done..| |done].
    intros id. destruct (_ !! id) as [st|]; constructor. exists st.(s_status). split; [by destruct st|by left].
  - intros s1 s2 s3 (Hr2 & Hruns2 & l2 & ms2 & Hl2 & Hms2 & Hst2 & Ha2) (Hr3 & Hruns3 & l3 & ms3 & Hl3 & Hms3 & Hst3 & Ha3).
    split_and!; [congruence|by etransitivity|]. exists (l2 ++ l3), (ms2 ++ ms3).
    rewrite Hl3, Hl2, Hms3, Hms2, !app_assoc. rewrite Hr2 in Hst3. split_and!; [done..| |].
    + intros id. specialize (Hst2 id). specialize (Hst3 id).
      destruct Hst2 as [x y Hxy|]; inversion Hst3; constructor. by eapply deployed_trans.
    + apply Forall_app. split.
      * eapply Forall_impl; [exact Ha2|]. intros x. apply announced_later; [done..|]. by rewrite Hr2.
      * eapply Forall_impl; [exact Ha3|]. intros x (m & st & pr & run & sha & ? & ? & ? & Hpr & ? & ? & ? & ? & ?).
        exists m, st, pr, run, sha. split_and!; try done.
        apply (merged_app _ l2 l3 []) in Hpr. by rewrite app_nil_r in Hpr.
Qed.
End merges.

(** Calls that write nothing but what GitHub said. *)
Definition quiet (s s' : Shared) : Prop := ∃ l, s' = s <| exchanged ::= λ x, x ++ l |>.
#[export] Instance quiet_preorder : PreOrder quiet.
Proof.
  split.
  - intros s. exists []. destruct s as [? ? ? ? x]. rewrite <-(app_nil_r x) at 1. done.
  - intros s1 s2 s3 [l2 ->] [l3 ->]. exists (l2 ++ l3). destruct s1 as [d r f t x].
    change (mkShared d r f t ((x ++ l2) ++ l3) = mkShared d r f t (x ++ (l2 ++ l3))). by rewrite app_assoc.
Qed.
#[export] Instance quiet_github : IgnoresGithub quiet.
Proof. intros s l. by exists l. Qed.

Section turn.
Context (E : env) `{!Alone E} `{GithubApp}.

Lemma quiet_follows s s' : quiet s s' → follows_merges s s'.
Proof.
  intros [l ->]. split_and!; [done..|]. exists l, []. cbn. rewrite app_nil_r. split_and!; [done..| |done].
  intros id. destruct (_ !! id) as [st|]; constructor. exists st.(s_status). split; [by destruct st|by left].
Qed.

(** The transition of a story whose pull request is merged, the run, and the message. *)
Lemma follows_transition s l st pr id :
  s.(db).(stories) !! id = Some st → st.(s_id) = id → merged s.(db).(repositories) l st pr →
  follows_merges s ((s <| exchanged ::= λ x, x ++ l |>) <| db := moved_story StoryStatus.DEPLOYING st s.(db) |>).
Proof.
  intros Hst Hid Hpr. split_and!; [done..|]. exists l, []. cbn. rewrite app_nil_r. split_and!; [done..| |done].
  intros i. rewrite Hid. destruct (decide (i = id)) as [->|Hne].
  - rewrite lookup_insert_eq, Hst. constructor. eexists. split; [done|]. right. eauto.
  - rewrite lookup_insert_ne by done. destruct (_ !! i) as [x|]; constructor. exists x.(s_status).
    split; [by destruct x|by left].
Qed.
Lemma follows_run s run0 : s.(db).(runs) !! run0.(r_id) = None → follows_merges s (s <| db := put_run run0 s.(db) |>).
Proof.
  intros Hfree. split_and!; [done|by apply insert_subseteq|]. exists [], []. rewrite !app_nil_r.
  split_and!; [done..| |done]. intros i. cbn. destruct (_ !! i) as [x|]; constructor. exists x.(s_status).
  split; [by destruct x|by left].
Qed.
Lemma follows_message s0 s x :
  follows_merges s0 s → (∀ l, s.(exchanged) = s0.(exchanged) ++ l → announced s.(db) l x) →
  follows_merges s0 (s <| redis ::= λ r, r <| streams ::= λ ms, ms ++ [x] |> |>).
Proof.
  intros (Hr & Hruns & l & ms & Hl & Hms & Hst & Ha) Hx. split_and!; [done..|]. exists l, (ms ++ [x]). cbn.
  rewrite Hms, app_assoc. split_and!; [done..|]. apply Forall_app. split; [done|]. constructor; [by apply Hx|done].
Qed.

Lemma exec_deploy_merged st pr s l sid project :
  s.(db).(stories) !! sid = Some st → st.(s_id) = sid → merged s.(db).(repositories) l st pr →
  exec E (deploy_merged sid project pr) (s <| exchanged ::= λ x, x ++ l |>) (λ _ s', follows_merges s s').
Proof.
  intros Hst Hid Hpr. set (s1 := s <| exchanged ::= _ |>).
  assert (follows_merges s s1) as H1 by (apply quiet_follows; by exists l).
  apply exec_bind, exec_of_res. destruct (pr_head_sha pr) as [head_sha|] eqn:Hhead; [|done].
  apply exec_bind, exec_of_res. destruct (item "number" pr) as [?|]; [|done].
  apply exec_bind, exec_of_res. destruct (item "merged_at" pr) as [?|]; [|done].
  apply exec_bind, (exec_transition_story E); [done|]. intros to row r Hto Hrow _ _.
  vm_compute in Hto. injection Hto as <-. change (s1.(db)) with (s.(db)) in *. rewrite Hst in Hrow. injection Hrow as <-.
  set (s2 := s1 <| db := _ |>). assert (follows_merges s s2) as H2 by (by apply (follows_transition s l st pr sid)).
  destruct r as [?|e]; [|done]. apply exec_bind.
  eapply exec_mono; [apply (exec_keeps E eq), keeps_resolve_recipient; apply _|]. intros [recipient|e] s' <-; [|done].
  apply exec_bind. eapply exec_mono; [apply (exec_keeps E eq), keeps_stories_by_project; apply _|].
  intros [all|e] s' <-; [|done]. apply exec_bind, exec_uuid. intros hex. set (run_id := "deploy-poll-" +:+ _).
  apply exec_bind, (exec_creates_run E); [done|]. intros r Hfree _. set (body := merged_run _ _ _ _) in *.
  set (s3 := s2 <| db := _ |>).
  assert (follows_merges s s3) as H3 by (etransitivity; [exact H2|by apply follows_run]).
  destruct r as [x|e]; [|done]. apply exec_bind, exec_of_res.
  destruct head_sha as [| | | |sha| |]; try exact H3. apply exec_bind, exec_of_res.
  destruct (DeployMessage_validated _) as [m|e] eqn:Hm; [|exact H3].
  apply (exec_publish E). intros s' ->%alone. cbn zeta.
  assert (follows_merges s (s3 <| redis ::= λ r, r <| streams ::= λ ms, ms ++ [(DEPLOY_QUEUE, DeployMsg m)] |> |>)); [|done].
  apply follows_message; [done|]. intros l' Hl'. cbn in Hl'. apply app_inv_head in Hl' as <-.
  unfold DeployMessage_validated in Hm. destruct (OptionalCommitSha _) as [sha'|] eqn:Hsha; [|done].
  destruct (_ && _); [|done]. injection Hm as <-.
  exists (mkDeployMessage run_id project recipient.(rcp_telegram_chat_id) recipient.(rcp_unaddressed_reason) sid
    DeployTrigger.WEBHOOK (if existsb (λ s, bool_decide (s.(s_status) = value StoryStatus.COMPLETED)) all
                           then DeployAction.FEATURE else DeployAction.CREATE) 0 sha' None [] false).
  exists (st <| s_status := value StoryStatus.DEPLOYING |>), pr, (new_run s2.(clock) body), sha.
  split_and!; try done.
  - cbn. rewrite Hid. by rewrite lookup_insert_eq.
  - cbn. by rewrite lookup_insert_eq.
Qed.

Lemma exec_poll_merged_pr n story s :
  stories_keyed s.(db) →
  (∀ row, s.(db).(stories) !! story.(s_id) = Some row →
     row.(s_project_id) = story.(s_project_id) ∧ row.(s_pr_number) = story.(s_pr_number)) →
  is_Some (s.(db).(stories) !! story.(s_id)) →
  exec E (poll_merged_pr n story) s (λ _ s', follows_merges s s').
Proof.
  intros Hk Hrows [row Hrow]. destruct (Hrows _ Hrow) as [Hp Hn]. unfold poll_merged_pr.
  case_decide as Hproject; [by apply exec_ret|].
  apply exec_bind, (exec_primary_repository E); [done|intros e; reflexivity|]. intros [repo|] Hrepo; [|by apply exec_ret].
  destruct (Hrepo repo eq_refl) as [[i Hi] Hrp].
  apply exec_bind, exec_of_res. destruct (parse_owner_repo _) as [[owner name]|e] eqn:Hparse; [|reflexivity].
  destruct (s_pr_number story) as [z|] eqn:Hz; [|by apply exec_ret].
  assert (∀ z, s_pr_number story = Some z → exec E
    (pr_data ← on_exception
       (pr ← github (get_pull_request app_jwt parse_expiry owner name (DInt z)); mret (Some pr)) (λ _, mret None);
     match pr_data with
     | None => mret n
     | Some pr =>
         merged_at ← of_res (attr_get "merged_at" pr);
         if negb (doc_truthy merged_at) then mret n
         else deploy_merged story.(s_id) story.(s_project_id) pr;; mret (n + 1)
     end) s (λ _ s', follows_merges s s')) as Hask.
  { intros z' Hz'. apply exec_bind. unfold on_exception. apply exec_catch, exec_bind.
    eapply (exec_github E); [apply get_pull_trace|]. intros s' ->%alone.
    assert (∀ l, follows_merges s (s <| exchanged ::= λ x, x ++ l |>)) as Hquiet by (intros l; apply quiet_follows; by exists l).
    split; [|intros _; cbn; apply exec_ret, exec_ret; reflexivity].
    intros r l Hshown. split; [|intros _; cbn; apply exec_ret, exec_ret, Hquiet].
    destruct r as [pr|e]; [|destruct (is_exception e); [apply exec_ret, exec_ret, Hquiet|apply exec_raise, Hquiet]].
    apply exec_ret. specialize (Hshown pr eq_refl).
    apply exec_bind, exec_of_res. destruct (attr_get "merged_at" pr) as [at_|] eqn:Hat; [|apply Hquiet].
    destruct (doc_truthy at_) eqn:Htruthy; cbn [negb]; [|apply exec_ret, Hquiet].
    apply exec_bind. eapply exec_mono.
    - apply (exec_deploy_merged row pr); [done|by apply Hk|]. exists i, repo, owner, name, z', at_.
      split_and!; try done; congruence.
    - intros [a|e] s' Hs'; [by apply exec_ret|done]. }
  destruct z; [by apply exec_ret|by apply Hask..].
Qed.

Lemma follows_keyed s s' : follows_merges s s' → stories_keyed s.(db) → stories_keyed s'.(db).
Proof.
  intros (_ & _ & l & ms & _ & _ & Hst & _) Hk id st' Hst'. specialize (Hst id). rewrite Hst' in Hst.
  inversion Hst as [st ? (a & -> & _) Heq|]; subst. by apply (Hk id st).
Qed.
Lemma exec_poll_merged_prs s :
  stories_keyed s.(db) → exec E poll_merged_prs s (λ _ s', follows_merges s s').
Proof.
  intros Hk. apply exec_bind, (exec_stories_by_status E); [intros _; reflexivity|].
  intros l Hl. assert (∀ s1, follows_merges s s1 → exec E (fold_m poll_merged_pr 0 l) s1 (λ _ s', follows_merges s s')) as Hfold.
  { intros s1 Hs1. apply (exec_fold_m E (λ _ s', follows_merges s s')); [done| |done].
    intros st c s2 Hst Hs2. destruct (Hl st Hst) as [[id Hrow] _]. pose proof (Hk _ _ Hrow) as <-.
    pose proof Hs2 as (_ & _ & l2 & _ & _ & _ & Hst2 & _). specialize (Hst2 st.(s_id)). rewrite Hrow in Hst2.
    destruct (stories (db s2) !! s_id st) as [row|] eqn:Hrow2; inversion Hst2 as [? ? (a & -> & _)|]; subst.
    eapply exec_mono.
    - apply exec_poll_merged_pr; [by eapply follows_keyed| |by rewrite Hrow2]. rewrite Hrow2. by intros ? [= <-].
    - intros r s' Hs'. destruct r; by etransitivity. }
  destruct l as [|st l]; [by apply exec_ret|]. apply exec_bind, exec_client. by apply Hfold.
Qed.
End turn.

(** C15 (safety).  A story is deployed only when its pull request is merged, and the
    deploy is on record before it is announced.  Wherever calls fail and the process dies
    in a tick over the stories under review: every story stays as it is, but for those
    that go to deployment, and of those GitHub showed in this tick the pull request of
    the story's number in its project's repository with a time of merge; runs are only added;
    and each message published is a deploy of such a story, for the head commit GitHub
    showed, with its deploy run on record. *)
Theorem deploys_follow_merged_pulls `{GithubApp} w :
  in_env faulty w → well_keyed w.(shared).(db) →
  follows_merges w.(shared) (poll_merged_prs w).2.(shared).
Proof.
  intros Hw (_ & Hk & _). by destruct (exec_poll_merged_prs faulty w.(shared) Hk w eq_refl Hw).
Qed.

(** ** Concrete worlds *)

#[local] Existing Instance the_app.
Definition some_sha : string := "0123456789abcdef0123456789abcdef01234567".
Definition pull_at (merged_at : doc) : doc :=
  DMap [("number", DInt 12); ("merged_at", merged_at); ("head", DMap [("sha", DStr some_sha)])].
(** The story s1 under review, and the pull request GitHub shows. *)
Definition review_world (merged_at : doc) (turns : list turn) : World :=
  let w := built_world TaskStatus.DONE (signed_in ++ [says_json 200 (pull_at merged_at)]) turns in
  w <| shared ::= λ s, s <| db := s.(db) <| stories :=
    {[ "s1" := (building_story <| s_status := value StoryStatus.PR_REVIEW |>) <| s_pr_number := Some 12 |> ]} |> |> |>.
Definition deploy_shas (w : World) : list (string * string) :=
  omap (λ x, match x.2 with DeployMsg m => Some (m.(dm_task_id), m.(dm_head_sha)) | _ => None end)
    w.(shared).(redis).(streams).

Example a_merged_story_is_deployed :
  let w := (poll_merged_prs (review_world (DStr "2026-01-01T00:00:00Z") [])).2 in
  review_status w = Some ("deploying", Some 12) ∧ deploy_shas w = [("deploy-poll-c0ffee00", some_sha)] ∧
  run_statuses w = [("deploy-poll-c0ffee00", "queued")] ∧
  review_status (poll_merged_prs (review_world DNull [])).2 = Some ("pr_review", Some 12).
Proof. split_and!; by vm_compute. Qed.
(** The creation of the run is lost: the story is deploying, with no run and no message,
    and no later tick looks at it. *)
Example a_lost_run_strands_the_story :
  let w := (poll_merged_prs (review_world (DStr "2026-01-01T00:00:00Z") (calls_before 7 [Lost]))).2 in
  review_status w = Some ("deploying", Some 12) ∧ deploy_shas w = [] ∧ run_statuses w = [] ∧
  (poll_merged_prs w).1 = Ok 0.
Proof. split_and!; by vm_compute. Qed.

Lemma deploys_follow_merged_pulls_witness :
  let w := review_world (DStr "2026-01-01T00:00:00Z") [] in
  follows_merges w.(shared) (poll_merged_prs w).2.(shared) ∧ deploy_shas (poll_merged_prs w).2 ≠ [].
Proof.
  split; [|by vm_compute]. apply deploys_follow_merged_pulls;
    [split; [constructor|done]|apply well_keyed_true; by vm_compute].
Defined.
