(* ===== verification/CIFixes.v ===== *)
(** * CIFixes: how often one CI failure is fixed

    The bound on the fix tasks a kind of CI failure opens, and that one CI run opens at
    most one, against [PrPoller]. *)

From S2P Require Import Prelude Vocabulary Contracts Docs Db Api ApiTasks ApiStories ApiRuns ApiActions.
From S2P Require Import Placement Github GithubActions GithubSafety GithubPulls World SchedulerClient Recipients.
From S2P Require Import Dispatcher Frames QAFixes StoryCompletion StoryReview PrPoller MergedDeploys.

(** The kind of failure, and the run, a task answers. *)
Definition ci_kind (t : Task) : option string := ci_metadata t ≫= ci_fingerprint.
Definition ci_run (t : Task) : option Z := ci_metadata t ≫= ci_run_id.
Definition ci_fixes (d : Database) (sid kind : string) : gmap string Task :=
  filter (λ x, x.2.(t_story_id) = Some sid ∧ ci_kind x.2 = Some kind) d.(tasks).

(** No story has more fix tasks for one kind of failure than the limit, nor two for one run. *)
Definition ci_fixes_bounded `{PrPollerConfig} (d : Database) : Prop :=
  ∀ sid, sid ≠ "" →
    (∀ kind, Z.of_nat (size (ci_fixes d sid kind)) ≤ Z.max 0 ci_failure_limit) ∧
    ∀ i j t u run, d.(tasks) !! i = Some t → d.(tasks) !! j = Some u →
      t.(t_story_id) = Some sid → u.(t_story_id) = Some sid →
      ci_run t = Some run → ci_run u = Some run → i = j.
#[export] Instance ci_fixes_of_tasks `{PrPollerConfig} : OfTasks ci_fixes_bounded.
Proof. intros d d' Heq. unfold ci_fixes_bounded, ci_fixes. by rewrite Heq. Qed.

Lemma length_filter_omap {A B} (f : A → option B) (P : B → Prop) `{!∀ y, Decision (P y)}
    (Q : A → Prop) `{!∀ x, Decision (Q x)} (l : list A) :
  (∀ x, Q x ↔ ∃ y, f x = Some y ∧ P y) → length (filter P (omap f l)) = length (filter Q l).
Proof.
  intros HQ. induction l as [|x l IH]; [done|].
  change (omap f (x :: l)) with (match f x with Some y => y :: omap f l | None => omap f l end).
  rewrite (filter_cons Q). specialize (HQ x). destruct (f x) as [y|].
  - rewrite filter_cons. destruct (decide (P y)), (decide (Q x)); cbn; [by rewrite IH|naive_solver..|done].
  - destruct (decide (Q x)); [naive_solver|done].
Qed.

(** As many earlier fixes of a kind as the story's tasks show. *)
Lemma length_same_failure d sid l kind :
  (list_tasks (of_story sid) d).1 = Ok l → sid ≠ "" →
  length (filter (λ v, ci_fingerprint v = Some kind) (omap ci_metadata l)) = size (ci_fixes d sid kind).
Proof.
  intros Hl Hsid. rewrite (length_filter_omap _ _ (λ t, ci_kind t = Some kind)).
  - by apply (length_marked d sid l).
  - intros t. apply bind_Some.
Qed.

(** A new fix task within the bound, for a run without one. *)
Lemma bounded_with_ci_fix `{PrPollerConfig} d sid id t e :
  sid ≠ "" → ci_fixes_bounded d → d.(tasks) !! id = None → t.(t_id) = id → t.(t_story_id) = Some sid →
  ci_metadata t = Some (MCIFailure e) →
  Z.of_nat (size (ci_fixes d sid e.(ce_fingerprint))) + 1 ≤ ci_failure_limit →
  (∀ i u, d.(tasks) !! i = Some u → u.(t_story_id) = Some sid → ci_run u ≠ Some e.(ce_run_id)) →
  ci_fixes_bounded (put_task t d).
Proof.
  intros Hsid Hb Hfree Hid Hst Hev Hlimit Hnew sid' Hsid'. destruct (Hb sid' Hsid') as [Hsize Hone].
  unfold ci_fixes in *. cbn. rewrite Hid. split.
  - intros kind. specialize (Hsize kind).
    destruct (decide (t.(t_story_id) = Some sid' ∧ ci_kind t = Some kind)) as [[Hs Hkind]|Hno].
    + rewrite Hst in Hs. injection Hs as <-. unfold ci_kind in Hkind. rewrite Hev in Hkind. injection Hkind as <-.
      rewrite map_filter_insert_True by (cbn; unfold ci_kind; by rewrite Hev).
      rewrite map_size_insert_None by (apply map_lookup_filter_None; by left). lia.
    + rewrite map_filter_insert_not'; [done|done|]. intros y Hy. congruence.
  - intros i j u v run Hi Hj Hu Hv Hru Hrv.
    assert (∀ x, ci_run t = Some x → x = e.(ce_run_id)) as Hrun.
    { intros x. unfold ci_run. rewrite Hev. by intros [= <-]. }
    apply lookup_insert_Some in Hi as [[<- <-]|[? Hi]]; apply lookup_insert_Some in Hj as [[<- <-]|[? Hj]]; [done|..].
    + exfalso. apply (Hnew j v); [done|congruence|]. by rewrite Hrv, (Hrun run).
    + exfalso. apply (Hnew i u); [done|congruence|]. by rewrite Hru, (Hrun run).
    + by eapply Hone.
Qed.

Section turn.
Context (E : env) `{!Alone E} `{GithubApp} `{PrPollerConfig} `{Sha256}.
Notation kept := (keeping ci_fixes_bounded).

Lemma keeps_details owner name run_id : keeps E quiet (failure_details owner name run_id).
Proof. unfold failure_details. guar_auto. apply (keeps_github E quiet), whatever_details. Qed.
Lemma keeps_latest owner name branch :
  keeps E quiet (on_exception (github (get_latest_workflow_run app_jwt parse_expiry strftime owner name "ci.yml" branch
    None None)) (λ _, mret None)).
Proof.
  guar_auto. apply (keeps_github E quiet). eapply trace_mono; [apply latest_trace|done].
Qed.
Lemma exec_bounded_failure owner name sid project branch run s :
  sid ≠ "" → exec E (handle_failed_run owner name sid project branch run) s (λ _ s', kept s s').
Proof.
  intros Hsid. unfold handle_failed_run.
  apply exec_bind, (exec_alone_read E); [auto with reads| |intros e; reflexivity].
  intros l Hl _. fold (of_story sid) in Hl.
  destruct (existsb _ _) eqn:Hseen; [by apply exec_ret|].
  apply exec_bind. eapply exec_mono; [apply (exec_keeps E quiet), keeps_details|].
  intros [[failed_jobs unavailable_reason]|e] s1 [l1 ->]; [|by unfold keeping].
  set (s1 := s <| exchanged ::= _ |>) in *.
  change (exec E ?m s1 (λ _ s', kept s s')) with (exec E m s1 (λ _ s', kept s1 s')).
  set (evidence := ci_failure_evidence _ _ _ _ _ _ _).
  assert (ce_fingerprint_attempt evidence = Z.of_nat (size (ci_fixes s1.(db) sid (ce_fingerprint evidence))) + 1) as Hcount.
  { unfold evidence, ci_failure_evidence. cbn. by rewrite (length_same_failure _ _ _ _ Hl Hsid). }
  destruct (Z.ltb_spec ci_failure_limit (ce_fingerprint_attempt evidence)) as [|Hle].
  { apply (exec_keeps E kept). guar_auto. }
  apply exec_bind, exec_bind, exec_uuid. intros hex.
  apply (exec_validated E); [intros e; reflexivity|].
  destruct (create_task_cases s1.(clock) hex (ci_fix_task sid project evidence) s1.(db)) as [?|[Hfree Heq]];
    [by left|]. right. eexists _, _. split; [exact Heq|]. intros r _. set (t := new_task _ _ _ _) in *.
  assert (kept s1 (s1 <| db := put_task t s1.(db) |>)) as Hkept.
  { intros Hb. apply (bounded_with_ci_fix s1.(db) sid hex t evidence); [done..|lia|].
    intros i u Hu Hst Hrun. apply not_true_iff_false in Hseen. apply Hseen, existsb_exists.
    unfold ci_run in Hrun. apply bind_Some in Hrun as (v & Hv & Hrun). exists v.
    split; [|by apply bool_decide_eq_true]. apply list_elem_of_In, list_elem_of_omap. exists u.
    split; [|done]. apply (elem_of_listed s1.(db) sid); [done..|]. split; [by exists i|done]. }
  destruct r as [a|e]; [|done]. eapply exec_mono; [apply (exec_keeps E kept); guar_auto|].
  intros r s' Hs'. by etransitivity.
Qed.

Lemma exec_bounded_poll n story s :
  story.(s_id) ≠ "" → exec E (poll_ci_failure n story) s (λ _ s', kept s s').
Proof.
  intros Hid. unfold poll_ci_failure. apply exec_bind.
  eapply exec_mono; [apply (exec_keeps E eq), keeps_primary_repository; apply _|].
  intros [[repo|]|e] s' <-; [|by apply exec_ret|done].
  apply exec_bind, exec_of_res. destruct (parse_owner_repo _) as [[owner name]|e]; [|reflexivity].
  apply exec_bind. eapply exec_mono; [apply (exec_keeps E quiet), keeps_latest|].
  intros r s1 [l ->]. set (s1 := s <| exchanged ::= _ |>).
  assert (kept s s1) as Hs1 by apply keeping_github.
  destruct r as [[run|]|e]; [|by apply exec_ret|done]. destruct (ci_failed run); [|by apply exec_ret].
  apply exec_bind. unfold on_exception. apply exec_catch.
  eapply exec_mono; [by apply exec_bounded_failure|]. intros [b|e] s2 Hs2; [by apply exec_ret|].
  destruct (is_exception e); [by apply exec_ret, exec_ret|by apply exec_raise].
Qed.
End turn.

(** C25 (bounds).  A CI failure sends a story back to engineering a bounded number of times.
    If no story has more fix tasks for one kind of failure than the limit, and none has two
    for one CI run, then after a tick over the stories under review that is still so,
    whatever GitHub answers, whatever calls fail and wherever the process dies. *)
Theorem ci_fixes_are_bounded `{GithubApp} `{PrPollerConfig} `{Sha256} w :
  in_env faulty w → well_keyed w.(shared).(db) → w.(shared).(db).(stories) !! "" = None →
  ci_fixes_bounded w.(shared).(db) → ci_fixes_bounded (poll_ci_failures w).2.(shared).(db).
Proof.
  intros Hw (_ & Hks & _) Hempty. set (s0 := w.(shared)) in *.
  assert (exec faulty poll_ci_failures s0 (λ _ s', keeping ci_fixes_bounded s0 s')) as Hex.
  { apply exec_bind, (exec_stories_by_status faulty); [intros e; reflexivity|]. intros l Hl.
    assert (exec faulty (fold_m poll_ci_failure 0 l) s0 (λ _ s', keeping ci_fixes_bounded s0 s')) as Hfold.
    { apply (exec_fold_m faulty (λ _ s, keeping ci_fixes_bounded s0 s)); [reflexivity| |done].
      intros st c s Hst Hs. eapply exec_mono.
      - apply (exec_bounded_poll faulty). intros He. destruct (Hl st Hst) as [[i Hrow] _].
        rewrite <-(Hks _ _ Hrow), He in Hrow. congruence.
      - intros [c'|e] s' Hs'; by etransitivity. }
    destruct l as [|st l]; [by apply exec_ret|]. apply exec_bind, exec_client. by apply Hfold. }
  by destruct (Hex w eq_refl Hw).
Qed.

(** ** Concrete worlds *)

#[local] Existing Instance the_app.
#[local] Instance few_fixes : PrPollerConfig := {| ci_failure_limit := 2; ci_failure_log_excerpt_lines := 5 |}.
#[local] Instance plain_hash : Sha256 := λ text, text.

Definition failed_run (id : Z) : doc :=
  DMap [("id", DInt id); ("status", DStr "completed"); ("conclusion", DStr "failure"); ("html_url", DStr "u");
        ("created_at", DStr "t")].
(** A tick sees the failed run and its jobs. *)
Definition red_answers (id : Z) : list http_response :=
  signed_in ++ [runs_are [failed_run id]; installed; says_json 200 (DMap [("jobs", DList [
    DMap [("id", DNull); ("name", DStr "lint"); ("conclusion", DStr "failure"); ("steps", DList [])]])])].
(** GitHub answers anew from what was exchanged before. *)
Definition red_world (id : Z) (w : World) : World :=
  let n := length w.(shared).(exchanged) in
  w <| github_answers := λ l _, (SECOND, red_answers id !! (length l - n)%nat) |>.
Definition back_to_review (w : World) : World :=
  w <| shared ::= λ s, s <| db := s.(db) <| stories ::= fmap (λ st, st <| s_status := "pr_review" |>) |> |> |>.
Definition red_tick (id : Z) (w : World) : World := (poll_ci_failures (red_world id (back_to_review w))).2.

Example the_third_failure_asks_for_a_human :
  let w1 := red_tick 101 (review_world DNull []) in
  let w2 := red_tick 102 w1 in
  let again := red_tick 102 w2 in
  let w3 := red_tick 103 w2 in
  (review_status <$> [w1; w2; again; w3]) =
    [Some ("in_progress", Some 12); Some ("in_progress", Some 12); Some ("pr_review", Some 12);
     Some ("waiting_human_review", Some 12)] ∧
  (size ∘ tasks ∘ db ∘ shared <$> [w1; w2; again; w3]) = [2; 3; 3; 3]%nat.
Proof. split; by vm_compute. Qed.

Lemma ci_fixes_are_bounded_witness : ci_fixes_bounded (red_tick 101 (review_world DNull [])).(shared).(db).
Proof.
  apply (ci_fixes_are_bounded (red_world 101 (back_to_review (review_world DNull []))));
    [split; [constructor|done]|apply well_keyed_true; by vm_compute|by vm_compute|].
  set (d := (red_world 101 (back_to_review (review_world DNull []))).(shared).(db)).
  assert (∀ i t, d.(tasks) !! i = Some t → i = "t1" ∧ ci_metadata t = None) as Hone.
  { intros i t. change d.(tasks) with ({[ "t1" := (todo_task "t1" "build" 0) <| t_status := value TaskStatus.DONE |> ]} : gmap string Task).
    intros [<- <-]%lookup_singleton_Some. by split. }
  intros sid _. split.
  - intros kind. unfold ci_fixes. replace (filter _ d.(tasks)) with (∅ : gmap string Task); [by vm_compute|].
    symmetry. apply map_empty. intros i. apply map_lookup_filter_None. right. intros t Hi [_ Hk]. destruct (Hone i t Hi) as [_ Hm].
    unfold ci_kind in Hk. cbn [snd] in Hk. by rewrite Hm in Hk.
  - intros i j t u run Hi Hj _ _ _ _. destruct (Hone _ _ Hi) as [-> _]. by destruct (Hone _ _ Hj) as [-> _].
Defined.
