(* ===== verification/ScaffoldTrigger.v ===== *)
(** * ScaffoldTrigger: workspaces before work

    [services/scheduler/src/tasks/scaffold_trigger.py]: a draft project with a story is
    scaffolded, and an active one with work to do gets its workspace back; a marker in
    Redis keeps a project from having two jobs at a time. *)

From Stdlib Require Import Ascii.
From S2P Require Import Prelude Vocabulary Contracts Docs Db Api ApiTasks ApiStories ApiRuns.
From S2P Require Import Placement World SchedulerClient Recipients.

Class ScaffoldConfig := { service_template_source : string; service_template_ref : string }.

Definition SCAFFOLD_INFLIGHT_KEY : string := "scaffold:inflight".
Definition inflight_key (project_id : string) : string := SCAFFOLD_INFLIGHT_KEY +:+ ":" +:+ project_id.
(** The marker expires after its time to live: a move of the others. *)
Definition mark_inflight (project_id : string) : M World bool := redis_mark (inflight_key project_id).
Definition clear_scaffold_inflight (project_id : string) : M World unit :=
  remote (on_redis (λ r, (tt, r <| markers ::= λ m, m ∖ {[ inflight_key project_id ]} |>))).

(** What [",".join] takes: texts. *)
Fixpoint texts_of (l : list doc) : res (list string) :=
  match l with
  | [] => Ok []
  | DStr s :: l => ss ← texts_of l; Ok (s :: ss)
  | _ => Exc TypeError
  end.
(** [",".join(config_modules) if config_modules else "backend"]; an iterable of texts. *)
Definition modules_of (config : mapping) : res string :=
  match lookup_key "modules" config with
  | None => Ok "backend"
  | Some v =>
      if negb (doc_truthy v) then Ok "backend"
      else match v with
           | DList l => String.concat "," <$> texts_of l
           | DStr s => Ok (String.concat "," ((λ c, String c EmptyString) <$> String.list_ascii_of_string s))
           | DMap fields => Ok (String.concat "," fields.*1)
           | _ => Exc TypeError
           end
  end.
(** [config.get("description", project.description or "")]: the API's projects have no
    description of their own. *)
Definition description_of (config : mapping) : res string :=
  match lookup_key "description" config with
  | None => Ok ""
  | Some (DStr s) => Ok s
  | Some _ => Exc ValidationError
  end.

Definition build_scaffold_message `{ScaffoldConfig} (project : Project) (repo_id mode : string)
    (project_name : option string) : M World ScaffoldMessage :=
  recipient ← resolve_owner_recipient project.(p_owner_id) ("scaffold_" +:+ mode) project.(p_id) "";
  modules ← of_res (modules_of project.(p_config));
  description ← of_res (description_of project.(p_config));
  of_res (ScaffoldMessage_validated (mkScaffoldMessage project.(p_id) repo_id recipient.(rcp_telegram_chat_id)
    service_template_source service_template_ref
    (if truthy project_name then default "" project_name else project.(p_slug)) modules description mode)).

(** The mark, the message, its publication. *)
Definition request_scaffold `{ScaffoldConfig} (project : Project) (mode : string)
    (project_name : Repository → option string) : M World bool :=
  repos ← api_get_repositories project.(p_id);
  match repos with
  | [] => mret false
  | repo :: _ =>
      marked ← mark_inflight project.(p_id);
      if negb (marked : bool) then mret false
      else
        msg ← build_scaffold_message project repo.(rp_id) mode (project_name repo);
        publish SCAFFOLD_QUEUE (ScaffoldMsg msg);;
        mret true
  end.

Definition trigger_full_scaffold `{ScaffoldConfig} (project : Project) : M World bool :=
  if doc_truthy (get "scaffold_error" project.(p_config)) then mret false
  else
    stories ← api_get_stories_by_project project.(p_id);
    if bool_decide (length stories = 0%nat) then mret false
    else request_scaffold project "full" (λ _, None).

Definition trigger_ensure_scaffold `{ScaffoldConfig} (project : Project) : M World bool :=
  if doc_truthy (get "workspace_ready" project.(p_config)) then mret false
  else if doc_truthy (get "scaffold_error" project.(p_config)) then mret false
  else
    todo_tasks ← api_get_tasks_by_project_and_status project.(p_id) TaskStatus.TODO;
    if bool_decide (todo_tasks = []) then mret false
    else request_scaffold project "ensure" (λ repo, Some repo.(rp_name)).

Definition trigger_scaffold `{ScaffoldConfig} (triggered : Z) (project : Project) : M World Z :=
  sent ← (if decide (project.(p_status) = value ProjectStatus.DRAFT) then trigger_full_scaffold project
          else if decide (project.(p_status) = value ProjectStatus.ACTIVE) then trigger_ensure_scaffold project
          else mret false);
  mret (if (sent : bool) then triggered + 1 else triggered).
Definition trigger_scaffolds `{ScaffoldConfig} : M World Z :=
  projects ← api_get_projects;
  fold_m trigger_scaffold 0 projects.
