(* ===== verification/ScaffoldJobs.v ===== *)
(** * ScaffoldJobs: one job for a project at a time

    What a tick of [ScaffoldTrigger] asks of the scaffolder. *)

From S2P Require Import Prelude Vocabulary Contracts Docs Db Api ApiTasks ApiStories ApiRuns ApiActions.
From S2P Require Import Placement World SchedulerClient Recipients Dispatcher Frames ScaffoldTrigger.

(** A project with something to scaffold for. *)
Definition has_work (d : Database) (p : Project) (mode : string) : Prop :=
  doc_truthy (get "scaffold_error" p.(p_config)) = false ∧
  (p.(p_status) = value ProjectStatus.DRAFT ∧ mode = "full" ∧
     (∃ i st, d.(stories) !! i = Some st ∧ st.(s_project_id) = p.(p_id)) ∨
   p.(p_status) = value ProjectStatus.ACTIVE ∧ mode = "ensure" ∧
     doc_truthy (get "workspace_ready" p.(p_config)) = false ∧
     ∃ i t, d.(tasks) !! i = Some t ∧ t.(t_project_id) = p.(p_id) ∧ t.(t_status) = value TaskStatus.TODO).
Definition asks_for (d : Database) (msg : ScaffoldMessage) : Prop :=
  (∃ i p, d.(projects) !! i = Some p ∧ p.(p_id) = msg.(sm_project_id) ∧ has_work d p msg.(sm_mode)) ∧
  ∃ i repo, d.(repositories) !! i = Some repo ∧ repo.(rp_id) = msg.(sm_repository_id) ∧
    repo.(rp_project_id) = msg.(sm_project_id).

(** Jobs asked for: each of a project whose marker was free, and no two of one project. *)
Definition asked (s s' : Shared) : Prop :=
  s'.(db) = s.(db) ∧ s.(redis).(markers) ⊆ s'.(redis).(markers) ∧
  ∃ msgs, s'.(redis).(streams) = s.(redis).(streams) ++ ((λ m, (SCAFFOLD_QUEUE, ScaffoldMsg m)) <$> msgs) ∧
    NoDup (sm_project_id <$> msgs) ∧
    ∀ m, m ∈ msgs → inflight_key m.(sm_project_id) ∉ s.(redis).(markers) ∧
      inflight_key m.(sm_project_id) ∈ s'.(redis).(markers) ∧ asks_for s.(db) m.

#[export] Instance asked_preorder : PreOrder asked.
Proof.
  split.
  - intros s. split_and!; [done..|]. exists []. cbn. rewrite app_nil_r. split_and!; [done|constructor|].
    intros m Hm. by apply not_elem_of_nil in Hm.
  - intros s1 s2 s3 (Hd2 & Hm2 & l2 & Hs2 & Hn2 & Hl2) (Hd3 & Hm3 & l3 & Hs3 & Hn3 & Hl3).
    rewrite Hd2 in Hl3, Hd3. split_and!; [done|by etransitivity|]. exists (l2 ++ l3).
    rewrite Hs3, Hs2, fmap_app, fmap_app, app_assoc. split_and!; [done| |].
    + apply NoDup_app. split_and!; [done| |done]. intros p (m & -> & Hm)%list_elem_of_fmap (m' & Hp & Hm')%list_elem_of_fmap.
      destruct (Hl2 m Hm) as (_ & Hin & _). destruct (Hl3 m' Hm') as (Hout & _). by rewrite Hp in Hin.
    + intros m [Hm|Hm]%elem_of_app.
      * destruct (Hl2 m Hm) as (? & ? & ?). split_and!; [done|set_solver|done].
      * destruct (Hl3 m Hm) as (? & ? & ?). split_and!; [set_solver|done..].
Qed.

Section tick.
Context (E : env) `{!Alone E} `{ScaffoldConfig}.

(** A marker that is set stays set, whether or not its message was sent. *)
Lemma asked_mark s k : asked s (s <| redis ::= λ r, r <| markers ::= λ m, {[ k ]} ∪ m |> |>).
Proof.
  split_and!; [done|cbn; set_solver|]. exists []. cbn. rewrite app_nil_r. split_and!; [done|constructor|].
  intros m Hm. by apply not_elem_of_nil in Hm.
Qed.
Lemma asked_message s m :
  inflight_key m.(sm_project_id) ∉ s.(redis).(markers) → asks_for s.(db) m →
  asked s ((s <| redis ::= λ r, r <| markers ::= λ x, {[ inflight_key m.(sm_project_id) ]} ∪ x |> |>)
    <| redis ::= λ r, r <| streams ::= λ l, l ++ [(SCAFFOLD_QUEUE, ScaffoldMsg m)] |> |>).
Proof.
  intros Hfree Hasks. split_and!; [done|cbn; set_solver|]. exists [m]. split_and!; [done|apply NoDup_singleton|].
  intros m' ->%list_elem_of_singleton. split_and!; [done|cbn; set_solver|done].
Qed.

Lemma keeps_owner_recipient owner event project story :
  keeps E eq (resolve_owner_recipient owner event project story).
Proof. unfold resolve_owner_recipient, alert_unresolved. guar_auto. Qed.

Lemma exec_request_scaffold project mode name s :
  project.(p_id) ≠ "" → (∃ i, s.(db).(projects) !! i = Some project) → has_work s.(db) project mode →
  exec E (request_scaffold project mode name) s (λ _ s', asked s s').
Proof.
  intros Hid [i Hi] Hwork. unfold request_scaffold.
  apply exec_bind, (exec_repositories E); [done|intros e; reflexivity|]. intros [|repo repos] Hrepos; [by apply exec_ret|].
  destruct (Hrepos repo ltac:(by left)) as [[j Hj] Hrp].
  apply exec_bind, (exec_on_redis E). intros s' ->%alone. cbn zeta beta. cbn [fst snd].
  set (key := inflight_key project.(p_id)).
  assert (asked s (s <| redis ::= λ r, r <| markers ::= λ m, {[ key ]} ∪ m |> |>)) as Hmark by apply asked_mark.
  split; [|intros _; by split]. case_bool_decide as Hmarked; cbn [negb]; [by apply exec_ret|].
  apply exec_bind. unfold build_scaffold_message. apply exec_bind.
  eapply exec_mono; [apply (exec_keeps E eq), keeps_owner_recipient|]. intros [recipient|e] s' <-; [|done].
  apply exec_bind, exec_of_res. destruct (modules_of _) as [modules|]; [|done].
  apply exec_bind, exec_of_res. destruct (description_of _) as [description|]; [|done].
  apply exec_of_res. destruct (ScaffoldMessage_validated _) as [m|] eqn:Hm; [|done].
  unfold ScaffoldMessage_validated in Hm. destruct (ServiceTemplateRef _) as [ref|]; [|done].
  destruct (_ && _); [|done]. apply exec_bind, (exec_publish E). intros s' ->%alone. cbn zeta.
  assert (m.(sm_project_id) = project.(p_id) ∧ m.(sm_repository_id) = repo.(rp_id) ∧ m.(sm_mode) = mode) as (Hp & Hr & Hmode)
    by (by injection Hm as <-).
  assert (asks_for s.(db) m) as Hasks.
  { split; [exists i, project|exists j, repo]; rewrite ?Hp, ?Hr, ?Hmode; by split_and!. }
  pose proof (asked_message s m) as Hsent. rewrite Hp in Hsent. specialize (Hsent Hmarked Hasks).
  split; [by apply exec_ret|intros _; by split].
Qed.

Lemma exec_trigger_scaffold n project s :
  project.(p_id) ≠ "" → (∃ i, s.(db).(projects) !! i = Some project) →
  exec E (trigger_scaffold n project) s (λ _ s', asked s s').
Proof.
  intros Hid Hrow. unfold trigger_scaffold, trigger_full_scaffold, trigger_ensure_scaffold. apply exec_bind.
  eapply (exec_mono _ _ _ (λ _ s', asked s s')); [|intros [b|e] s' Hs'; [by apply exec_ret|done]].
  destruct (decide _) as [Hdraft|_].
  - destruct (doc_truthy _) eqn:Herror; [by apply exec_ret|].
    apply exec_bind, (exec_alone_read E); [auto with reads| |intros e; reflexivity]. intros l [= <-] _.
    case_bool_decide as Hnone; [by apply exec_ret|]. apply exec_request_scaffold; [done..|].
    split; [done|]. left. split_and!; [done..|].
    destruct (select _ _ _) as [|st rest] eqn:Hl; [done|]. assert (st ∈ st :: rest) as Hin by by left.
    rewrite <-Hl, elem_of_select, elem_of_rows in Hin. destruct Hin as [[i Hi] Hw]. exists i, st. split; [done|].
    unfold story_where, where_eq in Hw. cbn in Hw. rewrite bool_decide_eq_false_2 in Hw by done. cbn in Hw.
    rewrite ?andb_true_r in Hw. apply bool_decide_eq_true in Hw. by injection Hw.
  - destruct (decide _) as [Hactive|_]; [|by apply exec_ret].
    destruct (doc_truthy (get "workspace_ready" project.(p_config))) eqn:Hready; [by apply exec_ret|].
    destruct (doc_truthy (get "scaffold_error" project.(p_config))) eqn:Herror; [by apply exec_ret|].
    apply exec_bind, (exec_alone_read E); [auto with reads| |intros e; reflexivity]. intros l [= <-] _.
    case_bool_decide as Hnone; [by apply exec_ret|]. apply exec_request_scaffold; [done..|].
    split; [done|]. right. split_and!; [done..|].
    destruct (select _ _ _) as [|t rest] eqn:Hl; [done|]. assert (t ∈ t :: rest) as Hin by by left.
    rewrite <-Hl, elem_of_select, elem_of_rows in Hin. destruct Hin as [[i Hi] Hw]. exists i, t. split; [done|].
    unfold task_where, where_eq in Hw. cbn in Hw. rewrite !bool_decide_eq_false_2 in Hw by done. cbn in Hw.
    rewrite ?andb_true_r in Hw. apply andb_true_iff in Hw as [Hp%bool_decide_eq_true Hs%bool_decide_eq_true].
    split; [by injection Hp|by injection Hs].
Qed.
End tick.

(** C27 (safety).  A project gets one scaffold job at a time, and only for work.  Wherever
    calls fail and the process dies in a tick of the trigger: the database is as it was, no
    marker is lost, and the messages published ask for jobs of different projects, each
    one's marker free before the tick and set after it; a job is for a draft project
    with a story, or an active one with a task to do and no workspace, without a recorded
    scaffold error, and names a repository of the project. *)
Theorem one_scaffold_job_each `{ScaffoldConfig} w :
  in_env faulty w → (∀ i p, w.(shared).(db).(projects) !! i = Some p → p.(p_id) ≠ "") →
  asked w.(shared) (trigger_scaffolds w).2.(shared).
Proof.
  intros Hw Hids. set (s0 := w.(shared)) in *.
  assert (exec faulty trigger_scaffolds s0 (λ _ s', asked s0 s')) as Hex; [|by destruct (Hex w eq_refl Hw)].
  apply exec_bind, (exec_alone_read faulty); [auto with reads| |intros e; reflexivity]. intros l [= <-] _.
  apply (exec_fold_m faulty (λ _ s, asked s0 s)); [reflexivity| |done].
  intros p n s [i Hi]%elem_of_rows Hs. pose proof Hs as (Hd & _).
  eapply exec_mono; [apply (exec_trigger_scaffold faulty); [by eapply Hids|exists i; by rewrite Hd]|].
  intros [?|e] s' Hs'; by etransitivity.
Qed.

(** ** Concrete worlds *)

#[local] Instance pinned : ScaffoldConfig := {|
  service_template_source := ServiceTemplateSource; service_template_ref := "0.4.2" |}.
Definition draft_world (turns : list turn) : World :=
  let w := todo_world [] turns in
  w <| shared ::= λ s, s <| db := (s.(db)
    <| projects := {[ "p1" := bot_project <| p_status := value ProjectStatus.DRAFT |> ]} |>)
    <| repositories := {[ "repo1" := mkRepository "repo1" "p1" "bot" "https://github.com/o/bot.git" "primary"
         None None 0 ]} |> |> |>.
Definition jobs (w : World) : list (string * string) :=
  omap (λ x, match x.2 with ScaffoldMsg m => Some (m.(sm_project_id), m.(sm_mode)) | _ => None end)
    w.(shared).(redis).(streams).

Example a_draft_project_is_scaffolded_once :
  let once := (trigger_scaffolds (draft_world [])).2 in
  jobs once = [("p1", "full")] ∧ jobs (trigger_scaffolds once).2 = [("p1", "full")].
Proof. split; by vm_compute. Qed.
(** The owner's lookup is lost: no message, and the project stays marked. *)
Example a_lost_lookup_leaves_the_mark :
  let once := (trigger_scaffolds (draft_world (calls_before 4 [Lost]))).2 in
  jobs once = [] ∧ inflight_key "p1" ∈ once.(shared).(redis).(markers) ∧ jobs (trigger_scaffolds once).2 = [].
Proof. split_and!; by vm_compute. Qed.

Lemma one_scaffold_job_each_witness :
  asked (draft_world []).(shared) (trigger_scaffolds (draft_world [])).2.(shared) ∧
  jobs (trigger_scaffolds (draft_world [])).2 ≠ [].
Proof.
  split; [|by vm_compute]. apply one_scaffold_job_each; [split; [constructor|done]|].
  intros i p. change (projects _) with ({[ "p1" := bot_project <| p_status := value ProjectStatus.DRAFT |> ]} : gmap string Project).
  by intros [<- <-]%lookup_singleton_Some.
Defined.
